(* ===== verification/_CoqProject ===== *)
-Q . S2P
Prelude.v
RustStr.v
F64.v
Net.v
NetText.v
External.v
Json.v
Config.v
Loading.v
RateLimiter.v
AuthLimiter.v
Conditions.v
Rules.v
Path.v
Tls.v
Upgrade.v
Metrics.v
AuditLog.v
AuditText.v
Auth.v
Effects.v
World.v
Evaluate.v
Authenticate.v
Handle.v
Forward.v
Gate.v
Accounting.v
Termination.v
Relay.v
Server.v
System.v
SystemInv.v
SystemRefine.v
SystemLive.v
SystemBooks.v
SystemAudit.v
SystemLockout.v
SystemTally.v
Setup.v
Serde.v
SerdeFacts.v
BuilderFile.v
Reference.v
Samples.v
EngineSpec.v
LimitsSpec.v
ConfigSpec.v
RequestSpec.v
SystemSpec.v
RunSpec.v
Examples.v
UnitTests.v
IntegrationTests.v
Divergences.v
