(* ===== verification/Prelude.v ===== *)
(** * docker-proxy: a verification library

    docker-proxy is an HTTP proxy in front of the Docker socket.  It authenticates a client,
    judges its request by a list of rules, forwards what the rules allow, filters the JSON of
    the response, and keeps metrics and an audit log.  This library models the Rust sources
    under [src/src/] as executable definitions and proves what makes them correct.

    ** The parts and how they interact

    A connection is accepted by the loop of [main] (Server.v) and its request goes to [handle]
    (Handle.v, Forward.v).  [handle] canonicalises the path (Path.v), authenticates the request
    (Auth.v, Authenticate.v, with the lockout table of AuthLimiter.v and the certificates of
    Tls.v), evaluates the rules (Evaluate.v, on the rules of Rules.v, the conditions of
    Conditions.v and the token buckets of RateLimiter.v), talks to the Docker socket and filters
    the response (Json.v).  It counts in Metrics.v, reports to AuditLog.v, and reads the
    configuration that Config.v loaded.  System.v puts all of it together as the running proxy.
    Setup.v is the separate program that writes a configuration file.

    - Prelude, RustStr, F64, Net: [Result], the widths of integers, the string functions of the
      standard library on byte strings, binary64 arithmetic and [Instant], the parser and the
      printer of IP addresses.  NetText: a printed address, IPv4 or IPv6, reads back as itself.
    - External: what is not under [src/]: [regex], the numbers of [serde_json]/[serde_yaml],
      [ipnet], hyper's header maps.  Each is a type class; the laws the theorems use are
      separate classes, and Reference.v gives concrete instances that satisfy them.
    - Json: [json_get], [json_get_mut], [json_remove], [apply_response_filters] of [rules.rs];
      a mutable reference is a value with the function that puts a new value in its place.
    - Config: [config.rs], from the parsed YAML to the validated, sorted configuration; the
      environment and the file system are the record [Env].  Serde: the readers and writers that
      the declarations of [config.rs] derive, over the nodes of a parsed YAML document;
      SerdeFacts: what they read back.  Loading: when a configuration fails to load, and what
      the environment makes of its credentials.
    - RateLimiter, AuthLimiter: the two limiters of [rules.rs] as finite maps, with the instant
      of each call as an argument; [AuthLimiter.phase] is the abstract automaton of one address.
    - Conditions, Rules: conditions, [evaluate_request_detailed], [collect_response_filters].
      [step_rule] is what one rule does before its rate limit is asked.
    - Path, Auth: the pure helpers of [main.rs] ([canonicalize_path], [percent_decode],
      [sanitize_for_log], [constant_time_eq]; [compute_client_ip], [extract_bearer_token],
      [resolve_token_role]).
    - Tls, Upgrade, Metrics, AuditLog: [tls.rs], [upgrade.rs], [metrics.rs], [audit.rs]; the
      audit channel and its writing task are the step function [AuditLog.step].  AuditLog is
      proved against an interface for the text of an event, which AuditText implements.
    - Effects: the handler's language.  A program is a tree of operations ([op]), one per access
      to the shared state, the clock or the network; [reaches] is its step relation over traces,
      in which every operation may be answered arbitrarily, and [wp] is a weakest precondition
      over traces, sound for it.  World gives the operations their meaning on the state that
      requests share and runs a program alone.
    - Evaluate: the evaluation of the rules as a program, one operation for each rate limit.
    - Authenticate, Handle, Forward: [authenticate], [handle], [handle_upgrade] as such
      programs, one definition per stretch of the source that ends in an early return.
    - Gate, Accounting, Termination: proofs over the whole handler: what precedes a send to the
      socket, how much a run adds to the counters and to the audit channel, how many operations
      it can take and which of them could panic.
    - Relay: the two copy loops of an upgraded connection, read by read and write by write.
    - Server: the arguments, [init_tracing], [resolve_socket_path], [create_listener], the
      start-up, and the accept and reload loop as the step function [server_step].
    - System: the running proxy.  The state is the accept loop, the listener, the [World], the
      audit writer and a table of connection tasks and relays; a step ([sys_step]) is one action
      of one of them: the loop reading the configuration or binding a listener, an accepted
      connection, a TLS handshake, a request, one operation of one handler, the reload task
      swapping a configuration or notifying the loop, a clean-up, the writer, the clock.
      [main_run] runs any sequence of steps from the start-up.  A journal records which task
      performed which operation.
    - SystemInv: the invariants of every reachable state.  SystemRefine: a run projected on a
      component is a run of the component.  SystemLive: progress of a task.  SystemBooks: the
      journal is the sum of the traces of the requests.  SystemAudit: the events of the journal
      in the audit file.  SystemLockout, SystemTally: locks and the count of failures under
      concurrency.
    - Setup: [setup.rs]; a dialogue is a function of the user's answers.  BuilderFile: the file
      it writes, and how the proxy loads it.
    - Reference, Samples: concrete instances and sample data for the witnesses.  Examples: the
      shipped configuration files, as documents.  UnitTests, IntegrationTests: every test of the
      sources and of [tests/integration.rs], with its assertions, run on the model.

    ** What the theorems show

    - RunSpec, for every run of the whole proxy: nothing reaches the Docker socket unjudged
      (C1), every request is answered (C13), what the handlers audit reaches the disk (C16), a
      lockout holds while other requests run (C24), the failures of concurrent requests add up
      (C17), resources are bounded (C25), the books balance (C30).
    - RequestSpec, for every trace of one request: exactly which headers are forwarded (C2);
      soundness and completeness of authentication and the lockout (C6, C7, C8); canonical
      paths (C15); the comparison of secrets (C18), the client's address (C26) and its
      comparison with the texts of a condition (C40); each request is counted once and each
      denial audited (C31, C32); handlers terminate (C35).
    - EngineSpec: the rules (C3, C4, C5, C12), the conditions (C23, C39), the response filters
      (C14).  They speak of the evaluation as a function; run alone, the evaluation of the
      handler is that function ([Evaluate.evaluate_rules_run]).
    - LimitsSpec: the lockout table refines the automaton of one address (C9); budgets and
      penalties of the rate limiter (C10, C11).
    - ConfigSpec: loading, validation, sorting, the expansion of credentials (C19 to C22),
      certificates and TLS (C27, C28), the text of a configuration (C34) and the file of the
      configuration builder (C37).
    - SystemSpec: the audit log and the events its lines read back as (C29), the histogram (C33),
      reloads, none of which is lost (C36), upgraded connections (C38).
    - Divergences: where the code and its documentation part, each shown on an input.

    ** Choices, bounds and fuel

    Strings are byte strings ([String.string]), as Rust's are UTF-8; operations on characters go
    through [RustStr.chars].  Machine integers are [Z] with their wrap-around, saturation or
    panic written out; a panic is the outcome [Panic].  Floating-point numbers are the standard
    library's [SpecFloat], at 53 bits.  A call that locks a mutex is one atomic operation, and
    anything may happen between two operations of a task; a rate check reads the clock before it
    takes the lock, so its instant is any one up to that of the operation
    ([World.check_instant]).  [tokio::time::timeout] is an answer
    ([timed]); which timeouts fire is the environment's choice.  A hash map that the code
    iterates is a list in arbitrary order: the theorems quantify over the order, or are stated
    for every order.  The system serves one request per connection, as keep-alive is off.
    Recursion is structural, except for the parser of the reference JSON instance, whose fuel is
    the length of the text, and the repeated questions of Setup.v, whose fuel is the number of
    answers left, one of which each round consumes ([Setup.repeat_confirmed_unfold]: the loop
    never stops for want of fuel); a run out of answers is [None], the program waiting for a
    user who does not answer.  [HANDLER_BOUND], 59, is the largest number of operations a
    handler can perform besides one for each rule ([Termination.handle_within]).  Lemmas on
    secrets assume them shorter than 2^32 bytes, since the code compares their lengths modulo
    2^32.

    ** What is not modelled

    The diagnostics other than the request log ([info!], [warn!], [error!]), the HTTP parser of
    hyper and the record layer of rustls (a request and the certificates of a handshake are
    inputs), the syntax of YAML (a document is the tree of nodes [serde_yaml] parses it to) and of
    JSON, the parsing of certificates, the macOS and Windows branches, and the delivery of
    [SIGHUP] (a signal is an action of the system).  YAML text is taken to be within the nesting
    depth of 128 that [serde_yaml] reads ([External.YamlLaws]).  The five seconds the loop waits after a
    bind that failed are any time.

    ** What remains to be done

    In this order: what the rules of the shipped configuration files, in Examples.v, permit; a
    scrape between the increments of one latency observation (the handler's observation is one
    operation, while the histogram is proved exact for every order of the increments); the
    escaping of text in the reference JSON instance. *)

From stdpp Require Export base list gmap strings pretty.
From Stdlib Require Export ZArith Lia.
From Stdlib Require Ascii String.

Export (notations) Stdlib.Strings.Ascii.
Export Stdlib.Strings.Ascii (ascii(..)).
Export Stdlib.Strings.String (string(..)).

(** ** Rust's [Result] *)

Inductive result (A E : Type) : Type :=
  | Ok (a : A)
  | Err (e : E).
Arguments Ok {A E} a.
Arguments Err {A E} e.

(** [result_bind] is the [?] operator: an [Err] leaves the function at once. *)
Definition result_bind {A B E} (r : result A E) (k : A -> result B E) : result B E :=
  match r with
  | Ok a => k a
  | Err e => Err e
  end.

#[global] Arguments String.append !_ _ : simpl nomatch.
#[global] Arguments String.eqb : simpl never.
#[global] Arguments Ascii.eqb : simpl never.

Declare Scope rust_scope.
Delimit Scope rust_scope with rust.
Notation "'let?' x := r 'in' k" := (result_bind r (fun x => k))
  (at level 10, x binder, r at level 100, k at level 200,
   format "'[v' 'let?'  x  :=  r  'in' '/' k ']'") : rust_scope.
Open Scope rust_scope.
Open Scope list_scope.

(** [map_err], [.ok()] and [unwrap_or]. *)
Definition map_err {A E F} (f : E -> F) (r : result A E) : result A F :=
  match r with
  | Ok a => Ok a
  | Err e => Err (f e)
  end.

Definition result_ok {A E} (r : result A E) : option A :=
  match r with
  | Ok a => Some a
  | Err _ => None
  end.

Definition is_ok {A E} (r : result A E) : bool :=
  match r with
  | Ok _ => true
  | Err _ => false
  end.

(** A loop [for x in xs.iter_mut() { *x = f(x)?; }]: left to right, the first error wins. *)
Fixpoint traverse {A B E} (f : A -> result B E) (xs : list A) : result (list B) E :=
  match xs with
  | [] => Ok []
  | x :: xs' => let? y := f x in let? ys := traverse f xs' in Ok (y :: ys)
  end.

(** [Option] combinators of the standard library, under their Rust names. *)
Definition is_some_and {A} (o : option A) (f : A -> bool) : bool :=
  match o with
  | Some a => f a
  | None => false
  end.

Definition is_none_or {A} (o : option A) (f : A -> bool) : bool :=
  match o with
  | Some a => f a
  | None => true
  end.

Definition unwrap_or {A} (o : option A) (d : A) : A :=
  match o with
  | Some a => a
  | None => d
  end.

Definition or_else {A} (o : option A) (f : option A) : option A :=
  match o with
  | Some a => Some a
  | None => f
  end.

Definition is_some {A} (o : option A) : bool :=
  match o with
  | Some _ => true
  | None => false
  end.

Definition is_none {A} (o : option A) : bool := negb (is_some o).

(** A call that may panic: [Done] returns, [Panic] unwinds the task.  The state a call has
    written before it unwinds stays written, so operations return it beside the outcome. *)
Inductive outcome (A : Type) : Type :=
  | Done (a : A)
  | Panic.
Arguments Done {A} a.
Arguments Panic {A}.

Definition outcome_map {A B} (f : A -> B) (o : outcome A) : outcome B :=
  match o with
  | Done a => Done (f a)
  | Panic => Panic
  end.

(** ** Machine integers *)

Definition U8_MAX : Z := 255.
Definition U16_MAX : Z := 65535.
Definition U32_MAX : Z := 4294967295.
Definition U64_MAX : Z := 18446744073709551615.
Definition I64_MAX : Z := 9223372036854775807.

(** [fetch_add] on an [AtomicU64] wraps; [saturating_add] clamps. *)
Definition wrapping_add_u64 (a b : Z) : Z := (a + b) mod (U64_MAX + 1).
Definition saturating_add_u64 (a b : Z) : Z := Z.min (a + b) U64_MAX.
Definition saturating_add_u32 (a b : Z) : Z := Z.min (a + b) U32_MAX.

Definition u32_range (z : Z) : Prop := (0 <= z <= U32_MAX)%Z.
Definition u64_range (z : Z) : Prop := (0 <= z <= U64_MAX)%Z.

(** ** Generic lemmas and automation *)

Create HintDb proxy.

Lemma result_bind_Ok {A B E} (r : result A E) (k : A -> result B E) (b : B) :
  result_bind r k = Ok b <-> exists a, r = Ok a /\ k a = Ok b.
Proof. destruct r; simpl; naive_solver. Qed.

Lemma result_bind_Err {A B E} (r : result A E) (k : A -> result B E) (e : E) :
  result_bind r k = Err e <-> r = Err e \/ exists a, r = Ok a /\ k a = Err e.
Proof. destruct r; simpl; naive_solver. Qed.

Lemma traverse_Ok {A B E} (f : A -> result B E) (xs : list A) (ys : list B) :
  traverse f xs = Ok ys <-> Forall2 (fun x y => f x = Ok y) xs ys.
Proof.
  revert ys. induction xs as [|x xs IH]; intros ys; simpl.
  - split; [intros [= <-]; constructor | inversion 1; done].
  - rewrite result_bind_Ok. split.
    + intros (y & Hy & H). apply result_bind_Ok in H as (ys' & H & [= <-]).
      constructor; [done | by apply IH].
    + inversion 1 as [|? y ? ys' Hy Hys]; subst. exists y. split; [done|].
      apply result_bind_Ok. exists ys'. split; [by apply IH | done].
Qed.

Lemma traverse_ext {A B E} (f g : A -> result B E) (xs : list A) :
  (forall x, x ∈ xs -> f x = g x) -> traverse f xs = traverse g xs.
Proof.
  induction xs as [|x xs IH]; intros H; simpl; [done|].
  rewrite H by set_solver. rewrite IH by set_solver. done.
Qed.

Lemma traverse_length {A B E} (f : A -> result B E) (xs : list A) (ys : list B) :
  traverse f xs = Ok ys -> length ys = length xs.
Proof. intros H%traverse_Ok. symmetry. by eapply Forall2_length. Qed.

Lemma is_some_and_true {A} (o : option A) (f : A -> bool) :
  is_some_and o f = true <-> exists a, o = Some a /\ f a = true.
Proof. destruct o; simpl; naive_solver. Qed.

Lemma is_none_or_true {A} (o : option A) (f : A -> bool) :
  is_none_or o f = true <-> forall a, o = Some a -> f a = true.
Proof. destruct o; simpl; naive_solver. Qed.

Lemma is_none_or_negb {A} (o : option A) (f : A -> bool) :
  is_none_or o (fun a => negb (f a)) = negb (is_some_and o f).
Proof. by destruct o. Qed.

(** One step of a computation in the option monad. *)
Lemma bind_eq {A B} (m : option A) (k : A -> option B) a b :
  m = Some a -> k a = Some b -> m ≫= k = Some b.
Proof. by intros ->. Qed.

Lemma existsb_In {A} (f : A -> bool) (l : list A) :
  existsb f l = true <-> exists x, x ∈ l /\ f x = true.
Proof. rewrite existsb_exists. setoid_rewrite list_elem_of_In. done. Qed.

Lemma forallb_In {A} (f : A -> bool) (l : list A) :
  forallb f l = true <-> forall x, x ∈ l -> f x = true.
Proof. rewrite forallb_forall. setoid_rewrite list_elem_of_In. done. Qed.

Lemma forallb_negb_existsb {A} (f : A -> bool) (l : list A) :
  forallb (fun x => negb (f x)) l = negb (existsb f l).
Proof. induction l as [|x l IH]; simpl; [done|]. rewrite IH. by destruct (f x). Qed.

Lemma forallb_ext_eq {A} (f g : A -> bool) (l : list A) :
  (forall x, f x = g x) -> forallb f l = forallb g l.
Proof. intros Hf. induction l as [|x l IH]; simpl; [done|]. by rewrite Hf, IH. Qed.

Lemma existsb_permutation {A} (f : A -> bool) (l k : list A) :
  l ≡ₚ k -> existsb f l = existsb f k.
Proof. induction 1; simpl; try congruence. by rewrite !orb_assoc, (orb_comm (f _)). Qed.

Create Rewrite HintDb proxy_bool.
#[export] Hint Rewrite @is_some_and_true @is_none_or_true @existsb_In @forallb_In : proxy_bool.

(** [case_bool]: split on the boolean tests and matches of the goal, one at a time. *)
Ltac case_bool :=
  match goal with
  | |- context [if ?b then _ else _] => destruct b eqn:?
  | |- context [match ?o with _ => _ end] => destruct o eqn:?
  end.

(** [b2p]: move the boolean comparisons of the context to propositions. *)
Ltac b2p :=
  repeat match goal with
  | H : (_ && _)%bool = true |- _ => apply andb_true_iff in H as [? ?]
  | H : (_ || _)%bool = false |- _ => apply orb_false_iff in H as [? ?]
  | H : negb _ = true |- _ => apply negb_true_iff in H
  | H : negb _ = false |- _ => apply negb_false_iff in H
  | H : (_ <=? _)%Z = true |- _ => apply Z.leb_le in H
  | H : (_ <=? _)%Z = false |- _ => apply Z.leb_gt in H
  | H : (_ <? _)%Z = true |- _ => apply Z.ltb_lt in H
  | H : (_ <? _)%Z = false |- _ => apply Z.ltb_ge in H
  | H : (_ =? _)%Z = true |- _ => apply Z.eqb_eq in H
  | H : (_ =? _)%Z = false |- _ => apply Z.eqb_neq in H
  | H : (_ <=? _)%nat = true |- _ => apply Nat.leb_le in H
  | H : (_ <=? _)%nat = false |- _ => apply Nat.leb_gt in H
  | H : (_ =? _)%string = true |- _ => apply String.eqb_eq in H
  | H : (_ =? _)%string = false |- _ => apply String.eqb_neq in H
  | H : bool_decide _ = true |- _ => apply bool_decide_eq_true in H
  | H : bool_decide _ = false |- _ => apply bool_decide_eq_false in H
  end.

(** [eval_strings]: decide the comparisons of string literals in the goal. *)
Ltac eval_strings :=
  repeat match goal with
  | |- context [String.eqb ?a ?b] =>
      first [change (String.eqb a b) with true | change (String.eqb a b) with false]
  end;
  cbv iota.

Ltac eval_strings_in H :=
  repeat match type of H with
  | context [String.eqb ?a ?b] =>
      first [change (String.eqb a b) with true in H | change (String.eqb a b) with false in H]
  end;
  cbv iota in H.
