(* ===== verification/RustStr.v ===== *)
(** * Strings, bytes and decimal integers of the Rust standard library

    A [String] or [&str] is the Stdlib [string] of its UTF-8 bytes, a [&[u8]] a list of [Z]
    between 0 and 255.  Searching and comparing [str] values is done on their bytes, as
    [core::str] does: UTF-8 is self-synchronising, so a needle never matches inside a
    character.  This file defines the operations the proxy calls and the lemmas that say what
    each one computes. *)

From S2P Require Import Prelude.

(** ** Characters and bytes *)

Definition code (a : ascii) : Z := Z.of_N (Ascii.N_of_ascii a).
Definition char_of (z : Z) : ascii := Ascii.ascii_of_N (Z.to_N z).

Definition as_bytes (s : string) : list Z := map code (String.list_ascii_of_string s).
Definition of_bytes (l : list Z) : string := String.string_of_list_ascii (map char_of l).

Definition is_byte (z : Z) : Prop := (0 <= z <= U8_MAX)%Z.

Definition in_range (lo hi z : Z) : bool := (lo <=? z)%Z && (z <=? hi)%Z.

(** [char::is_ascii_digit], [char::to_digit(16)] on a byte read as a character. *)
Definition is_ascii_digit (a : ascii) : bool := in_range 48 57 (code a).

Definition to_digit16 (b : Z) : option Z :=
  if in_range 48 57 b then Some (b - 48)%Z
  else if in_range 97 102 b then Some (b - 87)%Z
  else if in_range 65 70 b then Some (b - 55)%Z
  else None.

(** [u8::to_ascii_lowercase] and [str::eq_ignore_ascii_case]. *)
Definition lower (a : ascii) : ascii :=
  if in_range 65 90 (code a) then char_of (code a + 32) else a.

Fixpoint to_lower (s : string) : string :=
  match s with
  | EmptyString => EmptyString
  | String a s' => String (lower a) (to_lower s')
  end.

Definition eq_ignore_ascii_case (s t : string) : bool := String.eqb (to_lower s) (to_lower t).

(** ** Searching *)

Fixpoint strip_prefix (p s : string) : option string :=
  match p, s with
  | EmptyString, _ => Some s
  | String a p', String b s' => if Ascii.eqb a b then strip_prefix p' s' else None
  | String _ _, EmptyString => None
  end.

Definition starts_with (s p : string) : bool := is_some (strip_prefix p s).

Fixpoint ends_with (s p : string) : bool :=
  String.eqb s p ||
  match s with
  | EmptyString => false
  | String _ s' => ends_with s' p
  end.

(** [strip_suffix]: the part of [s] before the final [p]. *)
Fixpoint strip_suffix (p s : string) : option string :=
  if String.eqb s p then Some EmptyString
  else match s with
       | EmptyString => None
       | String a s' => option_map (String a) (strip_suffix p s')
       end.

Fixpoint contains (s p : string) : bool :=
  starts_with s p ||
  match s with
  | EmptyString => false
  | String _ s' => contains s' p
  end.

Fixpoint has_char (c : ascii) (s : string) : bool :=
  match s with
  | EmptyString => false
  | String a s' => Ascii.eqb a c || has_char c s'
  end.

(** [s.find(c)] followed by the two slices around the hit: [split_once]. *)
Fixpoint split_once (c : ascii) (s : string) : option (string * string) :=
  match s with
  | EmptyString => None
  | String a s' =>
      if Ascii.eqb a c then Some (EmptyString, s')
      else match split_once c s' with
           | Some (l, r) => Some (String a l, r)
           | None => None
           end
  end.

Fixpoint split (c : ascii) (s : string) : list string :=
  match s with
  | EmptyString => [EmptyString]
  | String a s' =>
      if Ascii.eqb a c then EmptyString :: split c s'
      else match split c s' with
           | p :: ps => String a p :: ps
           | [] => [String a EmptyString]
           end
  end.

Fixpoint join (sep : string) (l : list string) : string :=
  match l with
  | [] => EmptyString
  | [p] => p
  | p :: ps => p +:+ sep +:+ join sep ps
  end.

Fixpoint str_all (f : ascii -> bool) (s : string) : bool :=
  match s with
  | EmptyString => true
  | String a s' => f a && str_all f s'
  end.

Definition is_empty (s : string) : bool := String.eqb s "".

(** [str::trim] on the ASCII strings the proxy trims (header values that passed [to_str]). *)
Definition is_space (a : ascii) : bool := in_range 9 13 (code a) || (code a =? 32)%Z.

Fixpoint trim_start_by (f : ascii -> bool) (s : string) : string :=
  match s with
  | EmptyString => EmptyString
  | String a s' => if f a then trim_start_by f s' else s
  end.

Fixpoint trim_end_by (f : ascii -> bool) (s : string) : string :=
  match s with
  | EmptyString => EmptyString
  | String a s' =>
      match trim_end_by f s' with
      | EmptyString => if f a then EmptyString else String a EmptyString
      | t => String a t
      end
  end.

Definition trim_by (f : ascii -> bool) (s : string) : string := trim_end_by f (trim_start_by f s).
Definition trim (s : string) : string := trim_by is_space s.

(** ** UTF-8 *)

Definition utf8_cont (b : Z) : bool := in_range 128 191 b.

(** The second byte of a three- or four-byte sequence, after the Unicode table of
    well-formed sequences (no overlong form, no surrogate, nothing above U+10FFFF). *)
Definition utf8_second3 (b0 b1 : Z) : bool :=
  if (b0 =? 224)%Z then in_range 160 191 b1
  else if (b0 =? 237)%Z then in_range 128 159 b1
  else in_range 224 239 b0 && utf8_cont b1.

Definition utf8_second4 (b0 b1 : Z) : bool :=
  if (b0 =? 240)%Z then in_range 144 191 b1
  else if (b0 =? 244)%Z then in_range 128 143 b1
  else in_range 241 243 b0 && utf8_cont b1.

Fixpoint utf8_valid (l : list Z) : bool :=
  match l with
  | [] => true
  | b0 :: l1 =>
      if (b0 <? 128)%Z then utf8_valid l1
      else match l1 with
           | [] => false
           | b1 :: l2 =>
               if in_range 194 223 b0 then utf8_cont b1 && utf8_valid l2
               else match l2 with
                    | [] => false
                    | b2 :: l3 =>
                        if in_range 224 239 b0
                        then utf8_second3 b0 b1 && utf8_cont b2 && utf8_valid l3
                        else match l3 with
                             | [] => false
                             | b3 :: l4 =>
                                 utf8_second4 b0 b1 && utf8_cont b2 && utf8_cont b3
                                 && utf8_valid l4
                             end
                    end
           end
  end.

(** [String::from_utf8(..).ok()]. *)
Definition from_utf8 (l : list Z) : option string :=
  if utf8_valid l then Some (of_bytes l) else None.

(** [str::chars]: the characters of a well-formed string, each as its own bytes. *)
Fixpoint chars (s : string) : list string :=
  match s with
  | EmptyString => []
  | String a s' =>
      match s' with
      | EmptyString => [String a EmptyString]
      | String b _ =>
          if utf8_cont (code b)
          then match chars s' with
               | c :: cs => String a c :: cs
               | [] => [String a EmptyString]
               end
          else String a EmptyString :: chars s'
      end
  end.

(** ** Decimal integers *)

(** [parse_digits max acc s]: the digit loop of [from_str_radix(10)], which fails as soon as
    the value passes [max]. *)
Fixpoint parse_digits (max acc : Z) (s : string) : option Z :=
  match s with
  | EmptyString => Some acc
  | String a s' =>
      if is_ascii_digit a then
        let v := (acc * 10 + (code a - 48))%Z in
        if (v <=? max)%Z then parse_digits max v s' else None
      else None
  end.

(** [str::parse] at an unsigned type of maximum [max]: one leading [+] is accepted. *)
Definition parse_unsigned (max : Z) (s : string) : option Z :=
  match s with
  | EmptyString => None
  | String a s' =>
      if (code a =? 43)%Z
      then if is_empty s' then None else parse_digits max 0 s'
      else parse_digits max 0 s
  end.

Definition parse_u16 : string -> option Z := parse_unsigned U16_MAX.
Definition parse_usize : string -> option Z := parse_unsigned U64_MAX.

(** [Display] of an unsigned integer. *)
Definition show (z : Z) : string := pretty (Z.to_N z).

(** ** Lemmas: appending and prefixes *)

Lemma append_nil_r (s : string) : s +:+ "" = s.
Proof. induction s as [|a s IH]; simpl; congruence. Qed.

Lemma append_assoc (s t u : string) : (s +:+ t) +:+ u = s +:+ (t +:+ u).
Proof. induction s as [|a s IH]; simpl; congruence. Qed.

Lemma append_length (s t : string) :
  String.length (s +:+ t) = (String.length s + String.length t)%nat.
Proof. induction s as [|a s IH]; simpl; congruence. Qed.

Lemma append_inv_head (s t u : string) : s +:+ t = s +:+ u -> t = u.
Proof. induction s as [|a s IH]; simpl; [done|]. intros [= H]. by apply IH. Qed.

Lemma strip_prefix_spec (p s t : string) : strip_prefix p s = Some t <-> s = p +:+ t.
Proof.
  revert s. induction p as [|a p IH]; intros [|b s]; simpl; try naive_solver.
  destruct (Ascii.eqb_spec a b) as [->|Hne]; [rewrite IH|]; naive_solver.
Qed.

Lemma strip_prefix_append (p t : string) : strip_prefix p (p +:+ t) = Some t.
Proof. by apply strip_prefix_spec. Qed.

Lemma starts_with_spec (s p : string) : starts_with s p = true <-> exists t, s = p +:+ t.
Proof.
  unfold starts_with. destruct (strip_prefix p s) as [t|] eqn:E; simpl.
  - apply strip_prefix_spec in E. naive_solver.
  - split; [done|]. intros [t Ht%strip_prefix_spec]. congruence.
Qed.

Lemma starts_with_append (p t : string) : starts_with (p +:+ t) p = true.
Proof. apply starts_with_spec. eauto. Qed.

Lemma ends_with_spec (s p : string) : ends_with s p = true <-> exists t, s = t +:+ p.
Proof.
  induction s as [|a s IH]; simpl; rewrite orb_true_iff, String.eqb_eq.
  - split; [intros [<-|]; [by exists ""|done]|].
    intros [[|b t] Ht]; simpl in *; naive_solver.
  - rewrite IH. split.
    + intros [<-|[t ->]]; [by exists ""|]. by exists (String a t).
    + intros [[|b t] Ht]; simpl in *; [by left|]. injection Ht as -> ->. right. by exists t.
Qed.

Lemma contains_spec (s p : string) :
  contains s p = true <-> exists t u, s = t +:+ p +:+ u.
Proof.
  induction s as [|a s IH]; simpl; rewrite orb_true_iff, starts_with_spec.
  - split; [intros [[t Ht]|]; [exists "", t; done|done]|].
    intros ([|b t] & u & Ht); simpl in *; [left; eauto|done].
  - rewrite IH. split.
    + intros [[t ->]|(t & u & ->)]; [by exists "", t|]. by exists (String a t), u.
    + intros ([|b t] & u & Ht); simpl in *; [left; eauto|]. injection Ht as -> ->.
      right. by exists t, u.
Qed.

Lemma contains_starts_with (s p : string) : starts_with s p = true -> contains s p = true.
Proof. destruct s; simpl; intros ->; done. Qed.

(** ** Lemmas: splitting and joining *)

Lemma has_char_append (c : ascii) (s t : string) :
  has_char c (s +:+ t) = has_char c s || has_char c t.
Proof. induction s as [|a s IH]; simpl; [done|]. by rewrite IH, orb_assoc. Qed.

Lemma split_once_spec (c : ascii) (s l r : string) :
  split_once c s = Some (l, r) <-> s = l +:+ String c r /\ has_char c l = false.
Proof.
  revert l r. induction s as [|a s IH]; intros l r; simpl.
  - split; [done|]. intros [H _]. by destruct l.
  - destruct (Ascii.eqb_spec a c) as [->|Hne].
    + split; [by intros [= <- <-]|]. intros [H Hc]. destruct l as [|b l]; simpl in *.
      * by injection H as ->.
      * injection H as <- _. by rewrite Ascii.eqb_refl in Hc.
    + destruct (split_once c s) as [[l' r']|] eqn:E.
      * destruct (IH l' r') as [IH1 _]. destruct (IH1 eq_refl) as [-> Hl].
        split.
        -- intros [= <- <-]. simpl. split; [done|]. apply Ascii.eqb_neq in Hne. by rewrite Hne.
        -- intros [H Hc]. destruct l as [|b l]; simpl in *; [naive_solver|].
           injection H as <- H. apply orb_false_iff in Hc as [_ Hc].
           destruct (IH l r) as [_ IH2]. rewrite H in IH2. naive_solver.
      * split; [done|]. intros [H Hc]. destruct l as [|b l]; simpl in *; [naive_solver|].
        injection H as <- ->. apply orb_false_iff in Hc as [_ Hc].
        destruct (IH l r) as [_ IH2]. discriminate IH2. done.
Qed.

Lemma split_cons (c : ascii) (s : string) : exists p ps, split c s = p :: ps.
Proof.
  destruct s as [|a s]; simpl; [eauto|]. destruct (Ascii.eqb a c); [eauto|].
  destruct (split c s); eauto.
Qed.

Lemma split_not_nil (c : ascii) (s : string) : split c s <> [].
Proof. destruct (split_cons c s) as (p & ps & ->). done. Qed.

Lemma split_pieces (c : ascii) (s : string) :
  Forall (fun p => has_char c p = false) (split c s).
Proof.
  induction s as [|a s IH]; simpl; [by repeat constructor|].
  destruct (Ascii.eqb a c) eqn:E; [by constructor|].
  destruct (split c s) as [|p ps]; inversion IH; subst; constructor; simpl; try done;
    by rewrite E.
Qed.

Lemma join_cons (sep p : string) (ps : list string) :
  ps <> [] -> join sep (p :: ps) = p +:+ sep +:+ join sep ps.
Proof. by destruct ps. Qed.

Lemma join_split (c : ascii) (s : string) : join (String c "") (split c s) = s.
Proof.
  induction s as [|a s IH]; simpl; [done|].
  destruct (Ascii.eqb_spec a c) as [->|Hne].
  - rewrite join_cons by apply split_not_nil. simpl. by rewrite IH.
  - destruct (split_cons c s) as (p & ps & E). rewrite E in *.
    destruct ps as [|q qs]; simpl in *; congruence.
Qed.

Lemma split_no_char (c : ascii) (s : string) : has_char c s = false -> split c s = [s].
Proof.
  induction s as [|a s IH]; simpl; [done|]. intros [-> H]%orb_false_iff. by rewrite IH.
Qed.

Lemma split_append (c : ascii) (p s : string) :
  has_char c p = false -> split c (p +:+ String c s) = p :: split c s.
Proof.
  induction p as [|a p IH]; simpl.
  - intros _. by rewrite Ascii.eqb_refl.
  - intros [-> H]%orb_false_iff. by rewrite IH.
Qed.

Lemma split_join (c : ascii) (ps : list string) :
  ps <> [] -> Forall (fun p => has_char c p = false) ps ->
  split c (join (String c "") ps) = ps.
Proof.
  intros Hne. induction 1 as [|p ps Hp Hps IH]; [done|].
  destruct ps as [|q qs]; [by apply split_no_char|].
  rewrite join_cons by done. cbn [String.append]. by rewrite split_append, IH by done.
Qed.

Lemma split_length_1 (c : ascii) (s : string) :
  length (split c s) = 1 <-> has_char c s = false.
Proof.
  split; [|intros H; by rewrite split_no_char].
  pose proof (join_split c s) as J. pose proof (split_pieces c s) as P.
  destruct (split c s) as [|p [|q qs]]; simpl in *; try done.
  subst p. by inversion P.
Qed.

(** ** Lemmas: case folding *)

Lemma eq_ignore_ascii_case_refl (s : string) : eq_ignore_ascii_case s s = true.
Proof. apply String.eqb_refl. Qed.

Lemma eq_ignore_ascii_case_sym (s t : string) :
  eq_ignore_ascii_case s t = eq_ignore_ascii_case t s.
Proof. apply String.eqb_sym. Qed.

#[export] Hint Rewrite strip_prefix_append starts_with_append eq_ignore_ascii_case_refl
  String.eqb_refl append_nil_r append_assoc : proxy_bool.
