(* ===== verification/F64.v ===== *)
(** * [f64], [Duration] and [Instant]

    An [f64] is an IEEE 754 binary64 number in the executable form of Stdlib's [SpecFloat]
    (precision 53, maximal exponent 1024, round to nearest even), so the token arithmetic of
    the rate limiter is the machine's, bit for bit.  A [Duration] is its number of nanoseconds
    and an [Instant] the number of nanoseconds since the clock's origin.  The lemmas give the
    exact behaviour on integers below 2^53, which is what a request budget is. *)

From Stdlib Require Export Floats.SpecFloat.
From S2P Require Import Prelude.

Open Scope Z_scope.

Abbreviation f64 := spec_float.

Definition f64_of_Z (z : Z) : f64 := binary_normalize 53 1024 z 0 false.
Definition f64_add : f64 -> f64 -> f64 := SFadd 53 1024.
Definition f64_sub : f64 -> f64 -> f64 := SFsub 53 1024.
Definition f64_mul : f64 -> f64 -> f64 := SFmul 53 1024.
Definition f64_div : f64 -> f64 -> f64 := SFdiv 53 1024.
Definition f64_lt : f64 -> f64 -> bool := SFltb.
Definition f64_ge (a b : f64) : bool := SFleb b a.
Definition f64_eq : f64 -> f64 -> bool := SFeqb.

Definition f64_is_nan (a : f64) : bool :=
  match a with
  | S754_nan => true
  | _ => false
  end.

(** [f64::min]: a NaN operand is ignored. *)
Definition f64_min (a b : f64) : f64 :=
  if f64_is_nan a then b
  else if f64_is_nan b then a
  else if f64_lt b a then b else a.

Definition f64_one : f64 := f64_of_Z 1.

(** The literal [0.001]: the double nearest to 1/1000. *)
Definition f64_thousandth : f64 := f64_div (f64_of_Z 1) (f64_of_Z 1000).

(** ** Time *)

Abbreviation Duration := Z (only parsing).
Abbreviation Instant := Z (only parsing).

Definition NANOS_PER_SEC : Z := 1000000000.

Definition from_secs (s : Z) : Duration := s * NANOS_PER_SEC.

(** [Duration::as_secs_f64]: [secs as f64 + nanos as f64 / 1e9]. *)
Definition as_secs_f64 (d : Duration) : f64 :=
  f64_add (f64_of_Z (d / NANOS_PER_SEC))
          (f64_div (f64_of_Z (d mod NANOS_PER_SEC)) (f64_of_Z NANOS_PER_SEC)).

(** [Instant - Instant] and [duration_since] saturate at zero. *)
Definition duration_since (later earlier : Instant) : Duration := Z.max 0 (later - earlier).

(** [Instant + Duration] panics when the seconds leave the [i64] of the platform's
    timespec. *)
Definition instant_add (t : Instant) (d : Duration) : option Instant :=
  if (t + d) / NANOS_PER_SEC <=? I64_MAX then Some (t + d) else None.

Lemma duration_since_same (t : Instant) : duration_since t t = 0.
Proof. unfold duration_since. lia. Qed.

Lemma duration_since_nonneg (t u : Instant) : 0 <= duration_since t u.
Proof. unfold duration_since. lia. Qed.

Lemma instant_add_earlier (t t' d : Z) :
  t <= t' -> is_Some (instant_add t' d) -> is_Some (instant_add t d).
Proof.
  unfold instant_add. intros Ht. destruct (Z.leb_spec ((t' + d) / NANOS_PER_SEC) I64_MAX) as [Hl|];
    [|by intros [? ?]]. intros _.
  assert ((t + d) / NANOS_PER_SEC <= (t' + d) / NANOS_PER_SEC) by (apply Z.div_le_mono; [done|lia]).
  destruct (Z.leb_spec ((t + d) / NANOS_PER_SEC) I64_MAX); [eauto|lia].
Qed.

Lemma instant_add_Some (t d u : Z) : instant_add t d = Some u -> u = t + d.
Proof. unfold instant_add. case_bool; congruence. Qed.

Lemma f64_lt_trans (a b c : f64) : f64_lt a b = true -> f64_lt b c = true -> f64_lt a c = true.
Proof.
  unfold f64_lt, SFltb, SFcompare.
  destruct a as [[]|[]| |[] ma ea], b as [[]|[]| |[] mb eb], c as [[]|[]| |[] mc ec]; try done;
    destruct (Z.compare_spec ea eb), (Z.compare_spec eb ec), (Z.compare_spec ea ec); try lia;
    try done; subst; change (Pos.compare_cont Eq) with Pos.compare;
    destruct (Pos.compare_spec ma mb), (Pos.compare_spec mb mc), (Pos.compare_spec ma mc);
    try done; lia.
Qed.

(** ** Integers below 2^53 are exact *)

(** The double of a positive integer with at most 53 binary digits. *)
Definition canon (p : positive) : f64 :=
  let d := Z.log2 (Zpos p) + 1 in
  S754_finite false (Z.to_pos (Zpos p * 2 ^ (53 - d))) (d - 53).

Lemma digits2_log2 (p : positive) : Zpos (digits2_pos p) = Z.log2 (Zpos p) + 1.
Proof.
  induction p as [p IH|p IH|]; simpl digits2_pos; [| |done].
  - rewrite Pos2Z.inj_succ, IH. change (Zpos p~1) with (2 * Zpos p + 1).
    rewrite Z.log2_succ_double by lia. lia.
  - rewrite Pos2Z.inj_succ, IH. change (Zpos p~0) with (2 * Zpos p).
    rewrite Z.log2_double by lia. lia.
Qed.

Lemma iter_xO (p d : positive) : Zpos (Pos.iter xO p d) = Zpos p * 2 ^ Zpos d.
Proof.
  induction d as [|d IH] using Pos.peano_ind; [simpl; lia|].
  rewrite Pos.iter_succ, Pos2Z.inj_succ, Z.pow_succ_r by lia.
  rewrite (Pos2Z.inj_xO (Pos.iter xO p d)), IH. ring.
Qed.

Lemma shl_align_val (m : positive) (e e' : Z) :
  e' <= e -> Zpos (fst (shl_align m e e')) = Zpos m * 2 ^ (e - e') /\ snd (shl_align m e e') = e'.
Proof.
  intros H. unfold shl_align. destruct (e' - e) eqn:E; simpl.
  - replace (e - e') with 0 by lia. lia.
  - lia.
  - rewrite iter_xO. split; [|done]. f_equal. f_equal. lia.
Qed.

Lemma iter_pos_nat {A} (f : A -> A) (n : positive) (x : A) :
  SpecFloat.iter_pos f n x = Nat.iter (Pos.to_nat n) f x.
Proof.
  revert x. induction n as [n IH|n IH|]; intros x; simpl SpecFloat.iter_pos; [| |done].
  - rewrite !IH, Pos2Nat.inj_xI, Nat.iter_succ_r, <- Nat.iter_add. do 2 f_equal. lia.
  - rewrite !IH, Pos2Nat.inj_xO, <- Nat.iter_add. f_equal. lia.
Qed.

Lemma shr_1_exact (m : Z) :
  0 < m -> shr_1 (Build_shr_record (2 * m) false false) = Build_shr_record m false false.
Proof. destruct m; simpl; (done || lia). Qed.

Lemma shr_iter_exact (n : nat) (m : Z) :
  0 < m -> Nat.iter n shr_1 (Build_shr_record (m * 2 ^ Z.of_nat n) false false)
           = Build_shr_record m false false.
Proof.
  intros Hm. induction n as [|n IH]; [cbn; by rewrite Z.mul_1_r|].
  rewrite Nat.iter_succ_r. replace (m * 2 ^ Z.of_nat (S n)) with (2 * (m * 2 ^ Z.of_nat n)).
  - rewrite shr_1_exact; [done|]. assert (0 < 2 ^ Z.of_nat n) by (apply Z.pow_pos_nonneg; lia). nia.
  - rewrite Nat2Z.inj_succ, Z.pow_succ_r by lia. ring.
Qed.

Lemma shr_exact (m e n : Z) :
  0 < m -> 0 <= n ->
  shr (Build_shr_record (m * 2 ^ n) false false) e n = (Build_shr_record m false false, e + n).
Proof.
  intros Hm Hn. unfold shr. destruct n as [|n|n]; [|rewrite iter_pos_nat|lia].
  - rewrite Z.mul_1_r, Z.add_0_r. done.
  - pose proof (shr_iter_exact (Pos.to_nat n) m Hm) as H. rewrite positive_nat_Z in H.
    by rewrite H.
Qed.

Lemma fexp_int (d : Z) : 1 <= d <= 53 -> fexp 53 1024 d = d - 53.
Proof. unfold fexp, emin. lia. Qed.

(** Rounding an aligned mantissa that already has 53 digits changes nothing. *)
Lemma round_aux_exact (m d k : Z) :
  2 ^ 52 <= m < 2 ^ 53 -> 1 <= d <= 53 -> 0 <= k ->
  binary_round_aux 53 1024 false (m * 2 ^ k) (d - 53 - k) loc_Exact
  = S754_finite false (Z.to_pos m) (d - 53).
Proof.
  intros Hm Hd Hk.
  assert (Hlog : Z.log2 m = 52) by (apply Z.log2_unique; lia).
  assert (HD : forall j, 0 <= j -> Zdigits2 (m * 2 ^ j) = 53 + j).
  { intros j Hj. assert (0 < 2 ^ j) by (apply Z.pow_pos_nonneg; lia).
    destruct (m * 2 ^ j) as [|p|p] eqn:E; [nia| |nia].
    simpl. rewrite digits2_log2, <- E, Z.log2_mul_pow2 by lia. lia. }
  unfold binary_round_aux, shr_fexp. cbn [shr_record_of_loc].
  rewrite HD by lia. replace (53 + k + (d - 53 - k)) with d by lia.
  rewrite fexp_int by lia. replace (d - 53 - (d - 53 - k)) with k by lia.
  rewrite shr_exact by lia. cbn [shr_m loc_of_shr_record round_nearest_even shr_record_of_loc].
  replace (d - 53 - k + k) with (d - 53) by lia.
  pose proof (HD 0 ltac:(lia)) as HD0. rewrite Z.pow_0_r, Z.mul_1_r, Z.add_0_r in HD0.
  rewrite HD0. replace (53 + (d - 53)) with d by lia. rewrite fexp_int, Z.sub_diag by lia.
  cbn [shr shr_m]. destruct m as [|m|m]; [lia| |lia].
  destruct (Z.leb_spec (d - 53) (1024 - 53)); [done|lia].
Qed.

Lemma canon_mantissa (n : Z) :
  0 < n < 2 ^ 53 -> 2 ^ 52 <= n * 2 ^ (53 - (Z.log2 n + 1)) < 2 ^ 53.
Proof.
  intros Hn. pose proof (Z.log2_spec n ltac:(lia)) as H.
  pose proof (Z.log2_nonneg n). assert (Z.log2 n < 53) by (apply Z.log2_lt_pow2; lia).
  replace (2 ^ 52) with (2 ^ Z.log2 n * 2 ^ (53 - (Z.log2 n + 1)))
    by (rewrite <- Z.pow_add_r by lia; f_equal; lia).
  replace (2 ^ 53) with (2 ^ Z.succ (Z.log2 n) * 2 ^ (53 - (Z.log2 n + 1)))
    by (rewrite <- Z.pow_add_r by lia; f_equal; lia).
  assert (0 < 2 ^ (53 - (Z.log2 n + 1))) by (apply Z.pow_pos_nonneg; lia). nia.
Qed.

(** Normalising [p * 2^k] at exponent [-k] gives the double of [p]. *)
Lemma normalize_exact (p : positive) (k : Z) (s : bool) :
  Zpos p < 2 ^ 53 -> 0 <= k ->
  binary_normalize 53 1024 (Zpos p * 2 ^ k) (- k) s = canon p.
Proof.
  intros Hp Hk. pose proof (canon_mantissa (Zpos p) ltac:(lia)) as Hm.
  set (d := Z.log2 (Zpos p) + 1) in *.
  assert (Hd : 1 <= d <= 53).
  { subst d. pose proof (Z.log2_nonneg (Zpos p)).
    assert (Z.log2 (Zpos p) < 53) by (apply Z.log2_lt_pow2; lia). lia. }
  assert (0 < 2 ^ k) by (apply Z.pow_pos_nonneg; lia).
  destruct (Zpos p * 2 ^ k) as [|q|q] eqn:Eq; [nia| |nia].
  assert (Hdq : Zpos (digits2_pos q) = d + k).
  { rewrite digits2_log2, <- Eq, Z.log2_mul_pow2 by lia. subst d. lia. }
  unfold binary_normalize, binary_round. rewrite Hdq.
  replace (d + k + - k) with d by lia. rewrite fexp_int by lia.
  unfold canon. fold d.
  destruct (Z.le_gt_cases (d - 53) (- k)) as [Hle|Hgt].
  - destruct (shl_align_val q (- k) (d - 53) Hle) as [Hv He].
    destruct (shl_align q (- k) (d - 53)) as [mz ez]. simpl in Hv, He. subst ez.
    rewrite <- Eq, <- Z.mul_assoc, <- Z.pow_add_r in Hv by lia.
    replace (k + (- k - (d - 53))) with (53 - d) in Hv by lia.
    rewrite <- Hv in Hm |- *. rewrite Pos2Z.id.
    pose proof (round_aux_exact (Zpos mz) d 0 Hm Hd ltac:(lia)) as R.
    rewrite Z.mul_1_r, Z.sub_0_r in R. exact R.
  - unfold shl_align. destruct (d - 53 - - k) eqn:E; [lia| |lia].
    replace (Zpos q) with (Zpos p * 2 ^ (53 - d) * 2 ^ (d - 53 + k)).
    + pose proof (round_aux_exact _ d (d - 53 + k) Hm Hd ltac:(lia)) as R.
      by replace (d - 53 - (d - 53 + k)) with (- k) in R by lia.
    + rewrite <- Eq, <- Z.mul_assoc, <- Z.pow_add_r by lia. do 2 f_equal. lia.
Qed.

(** [int_f64 z]: the exact double of an integer of the budget range. *)
Definition small (z : Z) : Prop := 0 <= z < 2 ^ 53.

Lemma f64_of_Z_pos (p : positive) : Zpos p < 2 ^ 53 -> f64_of_Z (Zpos p) = canon p.
Proof.
  intros Hp. unfold f64_of_Z. pose proof (normalize_exact p 0 false Hp ltac:(lia)) as H.
  by rewrite Z.mul_1_r in H.
Qed.

Lemma canon_compare (p q : positive) :
  Zpos p < 2 ^ 53 -> Zpos q < 2 ^ 53 ->
  SFcompare (canon p) (canon q) = Some (Zpos p ?= Zpos q).
Proof.
  intros Hp Hq. unfold canon, SFcompare. f_equal.
  pose proof (canon_mantissa (Zpos p) ltac:(lia)) as Mp.
  pose proof (canon_mantissa (Zpos q) ltac:(lia)) as Mq.
  set (dp := Z.log2 (Zpos p)) in *. set (dq := Z.log2 (Zpos q)) in *.
  destruct (Z.compare_spec (dp + 1 - 53) (dq + 1 - 53)) as [He|He|He]; symmetry.
  - assert (dp = dq) as Hd by lia. rewrite Hd in *.
    pose proof (Z.log2_nonneg (Zpos q)). assert (dq < 53) by (apply Z.log2_lt_pow2; lia).
    assert (0 < 2 ^ (53 - (dq + 1))) by (apply Z.pow_pos_nonneg; lia).
    change (Pos.compare_cont Eq ?x ?y) with (Pos.compare x y).
    rewrite Pos2Z.inj_compare, !Z2Pos.id by lia.
    rewrite (Z.mul_comm (Zpos p)), (Z.mul_comm (Zpos q)). by rewrite <- Zmult_compare_compat_l by lia.
  - apply Z.compare_lt_iff. apply Z.log2_lt_cancel. fold dp dq. lia.
  - apply Z.compare_gt_iff. apply Z.log2_lt_cancel. fold dp dq. lia.
Qed.

Lemma f64_of_Z_compare (a b : Z) :
  small a -> small b -> SFcompare (f64_of_Z a) (f64_of_Z b) = Some (a ?= b).
Proof.
  unfold small. intros Ha Hb. destruct a as [|p|p], b as [|q|q]; try lia.
  - done.
  - rewrite f64_of_Z_pos by lia. done.
  - rewrite f64_of_Z_pos by lia. done.
  - rewrite !f64_of_Z_pos by lia. apply canon_compare; lia.
Qed.

Lemma f64_of_Z_lt (a b : Z) :
  small a -> small b -> f64_lt (f64_of_Z a) (f64_of_Z b) = (a <? b).
Proof.
  intros Ha Hb. unfold f64_lt, SFltb. rewrite f64_of_Z_compare by done.
  unfold Z.ltb. by destruct (a ?= b).
Qed.

Lemma f64_of_Z_ge (a b : Z) :
  small a -> small b -> f64_ge (f64_of_Z a) (f64_of_Z b) = (b <=? a).
Proof.
  intros Ha Hb. unfold f64_ge, SFleb. rewrite f64_of_Z_compare by done.
  unfold Z.leb. by destruct (b ?= a).
Qed.

(** Aligning the mantissa of [canon p] at a lower exponent. *)
Lemma canon_align (p : positive) (e : Z) :
  Zpos p < 2 ^ 53 -> e <= Z.log2 (Zpos p) + 1 - 53 ->
  Zpos (fst (shl_align (Z.to_pos (Zpos p * 2 ^ (53 - (Z.log2 (Zpos p) + 1))))
                       (Z.log2 (Zpos p) + 1 - 53) e)) = Zpos p * 2 ^ (- e).
Proof.
  intros Hp He. pose proof (canon_mantissa (Zpos p) ltac:(lia)) as M.
  assert (Z.log2 (Zpos p) < 53) by (apply Z.log2_lt_pow2; lia).
  rewrite (proj1 (shl_align_val _ _ _ He)), Z2Pos.id by lia.
  rewrite <- Z.mul_assoc, <- Z.pow_add_r by lia. do 2 f_equal. lia.
Qed.

Lemma f64_of_Z_sub (a b : Z) :
  small a -> 0 <= b <= a -> f64_sub (f64_of_Z a) (f64_of_Z b) = f64_of_Z (a - b).
Proof.
  unfold small. intros Ha Hb. destruct b as [|q|q]; [|destruct a as [|p|p]|]; try lia.
  - rewrite Z.sub_0_r. destruct a as [|p|p]; [done| |lia]. by rewrite f64_of_Z_pos by lia.
  - rewrite !f64_of_Z_pos by lia. unfold f64_sub, canon, SFsub.
    set (ep := Z.log2 (Zpos p) + 1 - 53). set (eq := Z.log2 (Zpos q) + 1 - 53).
    assert (Hp : Z.log2 (Zpos p) < 53) by (apply Z.log2_lt_pow2; lia).
    assert (ep <= 0) by (subst ep; lia).
    cbn [cond_Zopp].
    unfold ep at 3, eq at 3. rewrite !canon_align by (subst ep eq; lia).
    rewrite <- Z.mul_sub_distr_r.
    destruct (Zpos p - Zpos q) as [|r|r] eqn:E; [done| |lia].
    pose proof (normalize_exact r (- Z.min ep eq) false ltac:(lia) ltac:(lia)) as N.
    rewrite Z.opp_involutive in N. fold ep eq. rewrite N. by rewrite f64_of_Z_pos by lia.
Qed.

Lemma f64_of_Z_not_nan (a : Z) : small a -> f64_is_nan (f64_of_Z a) = false.
Proof.
  unfold small. intros Ha. destruct a as [|p|p]; [done| |lia].
  by rewrite f64_of_Z_pos by lia.
Qed.

Lemma f64_of_Z_min (a b : Z) :
  small a -> small b -> f64_min (f64_of_Z a) (f64_of_Z b) = f64_of_Z (Z.min a b).
Proof.
  intros Ha Hb. unfold f64_min. rewrite !f64_of_Z_not_nan by done.
  rewrite f64_of_Z_lt by done. destruct (Z.ltb_spec b a); f_equal; lia.
Qed.

(** Adding and multiplying by the positive zero. *)
Lemma f64_add_zero (a : Z) : small a -> f64_add (f64_of_Z a) (f64_of_Z 0) = f64_of_Z a.
Proof.
  unfold small. intros Ha. destruct a as [|p|p]; [done| |lia].
  by rewrite f64_of_Z_pos by lia.
Qed.

Definition f64_positive (x : f64) : Prop :=
  match x with
  | S754_zero s => s = false
  | S754_finite s _ _ => s = false
  | _ => False
  end.

Lemma f64_mul_zero (x : f64) : f64_positive x -> f64_mul (f64_of_Z 0) x = f64_of_Z 0.
Proof. destruct x as [s|s| |s m e]; simpl; intros H; subst; done. Qed.

Lemma as_secs_f64_zero : as_secs_f64 0 = f64_of_Z 0.
Proof. reflexivity. Qed.

(** ** A quotient of two budgets is finite *)

Lemma shr_1_bounds (r : shr_record) : 0 <= shr_m r -> 0 <= shr_m (shr_1 r) <= shr_m r.
Proof. destruct r as [[|[p|p|]|p] b c]; simpl; lia. Qed.

Lemma shr_bounds (r : shr_record) (e n : Z) :
  0 <= shr_m r ->
  0 <= shr_m (fst (shr r e n)) <= shr_m r /\ snd (shr r e n) = e + Z.max 0 n.
Proof.
  intros Hr. unfold shr. destruct n as [|n|n]; cbn [fst snd]; try lia. split; [|lia].
  rewrite iter_pos_nat. induction (Pos.to_nat n) as [|k IH]; [simpl; lia|].
  change (Nat.iter (S k) shr_1 r) with (shr_1 (Nat.iter k shr_1 r)).
  pose proof (shr_1_bounds (Nat.iter k shr_1 r)). lia.
Qed.

Lemma Zdigits2_bound (m k : Z) : 0 <= m < 2 ^ k -> 0 <= k -> 0 <= Zdigits2 m <= k.
Proof.
  intros Hm Hk. destruct m as [|p|p]; simpl; [lia| |lia]. rewrite digits2_log2.
  assert (Z.log2 (Zpos p) < k) by (apply Z.log2_lt_pow2; lia).
  pose proof (Z.log2_nonneg (Zpos p)). lia.
Qed.

Lemma shr_fexp_bounds (m e k : Z) (l : location) :
  0 <= m < 2 ^ k -> 0 <= k ->
  0 <= shr_m (fst (shr_fexp 53 1024 m e l)) <= m
  /\ snd (shr_fexp 53 1024 m e l) <= Z.max (e + k) (-1074).
Proof.
  intros Hm Hk. unfold shr_fexp.
  assert (Hl : shr_m (shr_record_of_loc m l) = m) by (destruct l as [|[]]; done).
  pose proof (shr_bounds (shr_record_of_loc m l) e (fexp 53 1024 (Zdigits2 m + e) - e)) as H.
  rewrite Hl in H. pose proof (Zdigits2_bound m k Hm Hk).
  destruct H as [H1 H2]; [lia|]. split; [done|]. rewrite H2. unfold fexp, emin. lia.
Qed.

Lemma round_nearest_even_bound (m : Z) (l : location) :
  m <= round_nearest_even m l <= m + 1.
Proof. destruct l as [|[]]; simpl; try lia. destruct (Z.even m); lia. Qed.

Lemma round_aux_positive (m e : Z) (l : location) :
  0 <= m < 2 ^ 200 -> e <= 200 ->
  f64_positive (binary_round_aux 53 1024 false m e l).
Proof.
  intros Hm He. unfold binary_round_aux.
  pose proof (shr_fexp_bounds m e 200 l Hm ltac:(lia)) as [H1 H2].
  destruct (shr_fexp 53 1024 m e l) as [r1 e1]; cbn [fst snd] in *.
  set (m2 := round_nearest_even _ _).
  assert (Hm2 : 0 <= m2 < 2 ^ 201).
  { pose proof (round_nearest_even_bound (shr_m r1) (loc_of_shr_record r1)).
    subst m2. change (2 ^ 201) with (2 * 2 ^ 200). lia. }
  pose proof (shr_fexp_bounds m2 e1 201 loc_Exact Hm2 ltac:(lia)) as [H3 H4].
  destruct (shr_fexp 53 1024 m2 e1 loc_Exact) as [r2 e2]; cbn [fst snd] in *.
  destruct (shr_m r2) as [|q|q]; [done| |lia].
  destruct (Z.leb_spec e2 (1024 - 53)); [done|lia].
Qed.

Lemma canon_exponent (p : positive) :
  Zpos p < 2 ^ 53 -> -52 <= Z.log2 (Zpos p) + 1 - 53 <= 0.
Proof.
  intros Hp. pose proof (Z.log2_nonneg (Zpos p)).
  assert (Z.log2 (Zpos p) < 53) by (apply Z.log2_lt_pow2; lia). lia.
Qed.

(** The refill rate [requests / period] of two small integers is a finite non-negative
    double. *)
Lemma f64_div_positive (a b : Z) :
  0 <= a < 2 ^ 53 -> 0 < b < 2 ^ 53 -> f64_positive (f64_div (f64_of_Z a) (f64_of_Z b)).
Proof.
  intros Ha Hb. destruct b as [|q|q]; [lia| |lia].
  rewrite (f64_of_Z_pos q) by lia. destruct a as [|p|p]; [done| |lia].
  rewrite f64_of_Z_pos by lia. unfold f64_div, canon, SFdiv.
  pose proof (canon_exponent p ltac:(lia)) as Ep. pose proof (canon_exponent q ltac:(lia)) as Eq.
  pose proof (canon_mantissa (Zpos p) ltac:(lia)) as Mp.
  pose proof (canon_mantissa (Zpos q) ltac:(lia)) as Mq.
  set (ep := Z.log2 (Zpos p) + 1 - 53) in *. set (eq := Z.log2 (Zpos q) + 1 - 53) in *.
  set (mp := Zpos p * _) in *. set (mq := Zpos q * _) in *.
  rewrite !Z2Pos.id by lia. unfold SFdiv_core_binary.
  assert (Dp : 0 <= Zdigits2 mp <= 53) by (apply Zdigits2_bound; lia).
  assert (Dq : 0 <= Zdigits2 mq <= 53) by (apply Zdigits2_bound; lia).
  set (e' := Z.min _ _).
  assert (He' : -300 <= e' <= 200 /\ e' <= ep - eq) by (subst e'; unfold fexp, emin; lia).
  assert (Hs : ep - eq - e' <= 106) by (subst e'; unfold fexp, emin; lia).
  set (m' := match ep - eq - e' with Z0 => _ | _ => _ end).
  assert (Hm' : 0 <= m' < 2 ^ 200).
  { subst m'. destruct (ep - eq - e') as [|s|s] eqn:Es; [lia| |lia].
    rewrite Z.shiftl_mul_pow2 by lia.
    assert (2 ^ Zpos s <= 2 ^ 106) by (apply Z.pow_le_mono_r; lia).
    assert (0 < 2 ^ Zpos s) by (apply Z.pow_pos_nonneg; lia).
    split; [lia|]. apply Z.le_lt_trans with (2 ^ 53 * 2 ^ 106); [nia|]. reflexivity. }
  pose proof (Z.div_eucl_eq m' mq ltac:(lia)) as HE.
  pose proof (Z_div_mod m' mq ltac:(lia)) as HD.
  destruct (Z.div_eucl m' mq) as [qq rr]. destruct HD as [HD1 HD2].
  apply round_aux_positive; [|lia]. nia.
Qed.
