(* ===== verification/Net.v ===== *)
(** * [std::net::IpAddr]: parsing and printing

    The proxy reads addresses out of headers and rule values with [str::parse::<IpAddr>] and
    compares them by their [Display] form.  Both are functions of the Rust standard library,
    modelled here after [core::net]: the parser is the recursive-descent one of
    [core::net::parser], in which a sub-parser that fails leaves the input where it was. *)

From S2P Require Import Prelude RustStr.

Open Scope Z_scope.

(** An IPv4 address is its four octets, an IPv6 address its eight 16-bit segments. *)
Inductive IpAddr : Type :=
  | V4 (a b c d : Z)
  | V6 (segments : list Z).

#[export] Instance IpAddr_eq_dec : EqDecision IpAddr.
Proof. solve_decision. Defined.

Definition ip_eqb (x y : IpAddr) : bool := bool_decide (x = y).

Definition octet (z : Z) : Prop := 0 <= z <= 255.

Definition wf_ip (ip : IpAddr) : Prop :=
  match ip with
  | V4 a b c d => octet a /\ octet b /\ octet c /\ octet d
  | V6 s => length s = 8%nat /\ Forall (fun z => 0 <= z <= 65535) s
  end.

(** ** Parsing *)

Definition parser (A : Type) : Type := string -> option (A * string).

Definition to_digit10 (b : Z) : option Z := if in_range 48 57 b then Some (b - 48) else None.

(** The digit loop of [read_number]: [None] when the value passes [maxv] or more than [maxd]
    digits are read; otherwise the value, the number of digits and the rest. *)
Fixpoint read_digits (dig : Z -> option Z) (radix maxv : Z) (maxd : nat)
    (acc : Z) (count : nat) (s : string) : option (Z * nat * string) :=
  match s with
  | EmptyString => Some (acc, count, s)
  | String a s' =>
      match dig (code a) with
      | None => Some (acc, count, s)
      | Some d =>
          let v := acc * radix + d in
          if (v <=? maxv) && (S count <=? maxd)%nat
          then read_digits dig radix maxv maxd v (S count) s'
          else None
      end
  end.

Definition leading_zero (s : string) : bool :=
  match s with
  | String a _ => (code a =? 48)
  | EmptyString => false
  end.

Definition read_number (dig : Z -> option Z) (radix maxv : Z) (maxd : nat)
    (allow_zero_prefix : bool) : parser Z :=
  fun s =>
    match read_digits dig radix maxv maxd 0 0 s with
    | None => None
    | Some (v, count, rest) =>
        if (count =? 0)%nat then None
        else if negb allow_zero_prefix && leading_zero s && (1 <? count)%nat then None
        else Some (v, rest)
    end.

Definition read_given_char (c : Z) : parser unit :=
  fun s =>
    match s with
    | String a s' => if code a =? c then Some (tt, s') else None
    | EmptyString => None
    end.

(** [read_separator sep index inner]: the separator comes before every item but the first. *)
Definition read_separator {A} (sep : Z) (index : nat) (inner : parser A) : parser A :=
  fun s =>
    match index with
    | O => inner s
    | S _ =>
        match read_given_char sep s with
        | Some (_, s') => inner s'
        | None => None
        end
    end.

Definition read_octet (index : nat) : parser Z :=
  read_separator 46 index (read_number to_digit10 10 255 3 false).

Definition read_ipv4_addr : parser (Z * Z * Z * Z) :=
  fun s =>
    match read_octet 0 s with
    | None => None
    | Some (a, s) =>
        match read_octet 1 s with
        | None => None
        | Some (b, s) =>
            match read_octet 2 s with
            | None => None
            | Some (c, s) =>
                match read_octet 3 s with
                | None => None
                | Some (d, s) => Some ((a, b, c, d), s)
                end
            end
        end
    end.

(** [read_groups p groups]: up to [n] more groups from position [i]; the flag says that an
    embedded IPv4 address ended the list. *)
Fixpoint read_groups (n i : nat) (s : string) : list Z * bool * string :=
  match n with
  | O => ([], false, s)
  | S n' =>
      let embedded :=
        match n' with
        | O => None
        | S _ => read_separator 58 i read_ipv4_addr s
        end in
      match embedded with
      | Some ((a, b, c, d), s') => ([a * 256 + b; c * 256 + d], true, s')
      | None =>
          match read_separator 58 i (read_number to_digit16 16 65535 4 true) s with
          | Some (g, s') =>
              let '(gs, v4, s'') := read_groups n' (S i) s' in (g :: gs, v4, s'')
          | None => ([], false, s)
          end
      end
  end.

Definition read_ipv6_addr : parser (list Z) :=
  fun s =>
    let '(head, head_ipv4, s1) := read_groups 8 0 s in
    if (length head =? 8)%nat then Some (head, s1)
    else if head_ipv4 then None
    else
      match read_given_char 58 s1 with
      | None => None
      | Some (_, s2) =>
          match read_given_char 58 s2 with
          | None => None
          | Some (_, s3) =>
              let '(tail, _, s4) := read_groups (8 - (length head + 1)) 0 s3 in
              Some (head ++ replicate (8 - length head - length tail) 0 ++ tail, s4)
          end
      end.

(** [IpAddr::from_str]: IPv4 first, then IPv6, and the whole input must be used. *)
Definition IpAddr_parse (s : string) : option IpAddr :=
  let parsed :=
    match read_ipv4_addr s with
    | Some ((a, b, c, d), rest) => Some (V4 a b c d, rest)
    | None =>
        match read_ipv6_addr s with
        | Some (gs, rest) => Some (V6 gs, rest)
        | None => None
        end
    end in
  match parsed with
  | Some (ip, EmptyString) => Some ip
  | _ => None
  end.

(** ** Printing *)

Definition hex_char (z : Z) : ascii := char_of (if z <? 10 then z + 48 else z + 87).

(** [{:x}] of a 16-bit segment. *)
Definition show_hex (z : Z) : string :=
  let d3 := String (hex_char (z / 4096 mod 16)) "" in
  let d2 := String (hex_char (z / 256 mod 16)) "" in
  let d1 := String (hex_char (z / 16 mod 16)) "" in
  let d0 := String (hex_char (z mod 16)) "" in
  if 4096 <=? z then d3 +:+ d2 +:+ d1 +:+ d0
  else if 256 <=? z then d2 +:+ d1 +:+ d0
  else if 16 <=? z then d1 +:+ d0
  else d0.

Definition show_v4 (a b c d : Z) : string :=
  show a +:+ "." +:+ show b +:+ "." +:+ show c +:+ "." +:+ show d.

(** The longest run of zero segments, the first one on ties: [(start, len)]. *)
Fixpoint zero_run (i cur_start cur_len best_start best_len : nat) (l : list Z) : nat * nat :=
  match l with
  | [] => (best_start, best_len)
  | z :: l' =>
      if z =? 0 then
        let cs := if (cur_len =? 0)%nat then i else cur_start in
        let cl := S cur_len in
        if (best_len <? cl)%nat then zero_run (S i) cs cl cs cl l'
        else zero_run (S i) cs cl best_start best_len l'
      else zero_run (S i) 0 0 best_start best_len l'
  end.

Definition show_segments (l : list Z) : string := join ":" (map show_hex l).

Definition show_v6 (s : list Z) : string :=
  match s with
  | [0; 0; 0; 0; 0; 65535; hi; lo] =>
      "::ffff:" +:+ show_v4 (hi / 256) (hi mod 256) (lo / 256) (lo mod 256)
  | _ =>
      let '(start, len) := zero_run 0 0 0 0 0 s in
      if (1 <? len)%nat
      then show_segments (take start s) +:+ "::" +:+ show_segments (drop (start + len) s)
      else show_segments s
  end.

Definition IpAddr_to_string (ip : IpAddr) : string :=
  match ip with
  | V4 a b c d => show_v4 a b c d
  | V6 s => show_v6 s
  end.

(** ** The printed form of an IPv4 address is read back *)

Definition no_digit_first (dig : Z -> option Z) (s : string) : Prop :=
  match s with
  | String a _ => dig (code a) = None
  | EmptyString => True
  end.

Lemma read_digits_append (dig : Z -> option Z) (radix maxv : Z) (maxd : nat)
    (acc : Z) (count : nat) (s t : string) (v : Z) (n : nat) :
  read_digits dig radix maxv maxd acc count s = Some (v, n, EmptyString) ->
  no_digit_first dig t ->
  read_digits dig radix maxv maxd acc count (s +:+ t) = Some (v, n, t).
Proof.
  revert acc count. induction s as [|a s IH]; intros acc count; simpl.
  - intros [= -> ->] Ht. destruct t as [|a t]; simpl in *; [done|by rewrite Ht].
  - destruct (dig (code a)); [|done]. case_bool; [|done]. apply IH.
Qed.

(** What [read_number] needs to know of a printed octet, checked on all 256 of them. *)
Definition octet_ok (n : Z) : bool :=
  match read_digits to_digit10 10 255 3 0 0 (show n) with
  | Some (v, count, EmptyString) =>
      (v =? n) && (1 <=? count)%nat
      && negb (leading_zero (show n) && (1 <? count)%nat)
      && negb (is_empty (show n))
  | _ => false
  end.

Lemma octets_ok : forallb octet_ok (map Z.of_nat (seq 0 256)) = true.
Proof. vm_compute. reflexivity. Qed.

Lemma octet_ok_all (n : Z) : octet n -> octet_ok n = true.
Proof.
  intros Hn. pose proof octets_ok as H. rewrite forallb_In in H. apply H.
  apply list_elem_of_In, in_map_iff. exists (Z.to_nat n). unfold octet in Hn.
  split; [lia|]. apply in_seq. lia.
Qed.

Lemma read_number_octet (n : Z) (t : string) :
  octet n -> no_digit_first to_digit10 t ->
  read_number to_digit10 10 255 3 false (show n +:+ t) = Some (n, t).
Proof.
  intros Hn Ht. pose proof (octet_ok_all n Hn) as H. unfold octet_ok in H.
  unfold read_number.
  destruct (read_digits to_digit10 10 255 3 0 0 (show n)) as [[[v c] [|]]|] eqn:E; try done.
  rewrite (read_digits_append _ _ _ _ _ _ _ _ _ _ E Ht). b2p. subst v.
  assert (Hl : leading_zero (show n +:+ t) = leading_zero (show n)).
  { match goal with H : is_empty _ = false |- _ => rename H into He end.
    destruct (show n); [done|done]. }
  rewrite Hl. destruct (Nat.eqb_spec c 0); [lia|]. simpl.
  match goal with H : _ && _ = false |- _ => rewrite H end. done.
Qed.

Lemma read_octet_show (i : nat) (n : Z) (t : string) :
  octet n -> no_digit_first to_digit10 t ->
  read_octet i ((match i with O => "" | S _ => "." end) +:+ show n +:+ t) = Some (n, t).
Proof.
  intros Hn Ht. destruct i; simpl; unfold read_octet, read_separator; simpl;
    by apply read_number_octet.
Qed.

Lemma read_ipv4_show (a b c d : Z) (t : string) :
  octet a -> octet b -> octet c -> octet d -> no_digit_first to_digit10 t ->
  read_ipv4_addr (show_v4 a b c d +:+ t) = Some ((a, b, c, d), t).
Proof.
  intros Ha Hb Hc Hd Ht. unfold read_ipv4_addr, show_v4. rewrite !append_assoc.
  pose proof (read_octet_show 0 a) as R0. pose proof (read_octet_show 1 b) as R1.
  pose proof (read_octet_show 1 c) as R2. pose proof (read_octet_show 1 d) as R3.
  cbn [String.append] in *.
  rewrite R0 by done. rewrite R1 by done.
  unfold read_octet, read_separator in *. rewrite R2 by done. rewrite R3 by done. done.
Qed.

Lemma IpAddr_parse_show_v4 (a b c d : Z) :
  wf_ip (V4 a b c d) -> IpAddr_parse (IpAddr_to_string (V4 a b c d)) = Some (V4 a b c d).
Proof.
  intros (Ha & Hb & Hc & Hd). unfold IpAddr_parse, IpAddr_to_string.
  pose proof (read_ipv4_show a b c d "" Ha Hb Hc Hd I) as R. rewrite append_nil_r in R.
  by rewrite R.
Qed.
