(* ===== verification/NetText.v ===== *)
(** * The text of an address is read back

    [Display] of an address, IPv4 or IPv6, followed by [FromStr], is the identity: the longest
    run of zero segments that [::] stands for, IPv4-mapped addresses, and the fields in
    hexadecimal are all recovered.  So two addresses never share a text. *)

From S2P Require Import Prelude RustStr Net.

Open Scope Z_scope.

(** ** Fields *)

Definition segment (z : Z) : Prop := 0 <= z <= 65535.

Definition head_is (c : Z) (s : string) : bool :=
  match s with
  | String a _ => code a =? c
  | EmptyString => false
  end.

Fixpoint hex_only (s : string) : bool :=
  match s with
  | EmptyString => true
  | String a s' => negb (is_none (to_digit16 (code a))) && negb (code a =? 46) && hex_only s'
  end.

Lemma hex_digit d :
  0 <= d < 16 -> to_digit16 (code (hex_char d)) = Some d /\ code (hex_char d) <> 46.
Proof.
  intros Hd. assert (Hin : d ∈ map Z.of_nat (seq 0 16)).
  { apply list_elem_of_In, in_map_iff. exists (Z.to_nat d). split; [lia|]. apply in_seq. lia. }
  revert Hin. clear Hd. cbn [map seq]. intros Hin. set_unfold.
  repeat destruct Hin as [->|Hin]; try done; by split.
Qed.

Lemma read_hex_digit acc count d s :
  0 <= d < 16 -> acc * 16 + d <= 65535 -> (count < 4)%nat ->
  read_digits to_digit16 16 65535 4 acc count (String (hex_char d) s)
  = read_digits to_digit16 16 65535 4 (acc * 16 + d) (S count) s.
Proof.
  intros Hd Hv Hc. cbn [read_digits]. destruct (hex_digit d Hd) as [-> _].
  rewrite (proj2 (Z.leb_le _ _)), (proj2 (Nat.leb_le (S count) 4)) by lia. done.
Qed.

(** The digits of a segment. *)
Lemma show_hex_read z :
  segment z ->
  exists count, (0 < count)%nat
  /\ read_digits to_digit16 16 65535 4 0 0 (show_hex z) = Some (z, count, EmptyString).
Proof.
  unfold segment. intros Hz. unfold show_hex.
  pose proof (Z.mod_pos_bound (z / 4096) 16 ltac:(lia)).
  pose proof (Z.mod_pos_bound (z / 256) 16 ltac:(lia)).
  pose proof (Z.mod_pos_bound (z / 16) 16 ltac:(lia)).
  pose proof (Z.mod_pos_bound z 16 ltac:(lia)).
  destruct (Z.leb_spec 4096 z); [exists 4%nat|destruct (Z.leb_spec 256 z); [exists 3%nat|
    destruct (Z.leb_spec 16 z); [exists 2%nat|exists 1%nat]]]; (split; [lia|]);
    cbn [String.append]; rewrite !read_hex_digit by (lia || (Z.to_euclidean_division_equations; lia));
    cbn [read_digits]; repeat f_equal; Z.to_euclidean_division_equations; lia.
Qed.

Lemma show_hex_only z : segment z -> hex_only (show_hex z) = true /\ show_hex z <> "".
Proof.
  intros Hz. assert (Hd : forall d, hex_only (String (hex_char (d mod 16)) "") = true).
  { intros d. destruct (hex_digit (d mod 16)) as [H1 H2]; [by apply Z.mod_pos_bound|].
    cbn [hex_only]. rewrite H1. simpl. by apply Z.eqb_neq in H2 as ->. }
  assert (Ha : forall u v, hex_only u = true -> hex_only v = true -> hex_only (u +:+ v) = true).
  { intros u v Hu Hv. induction u as [|a u IH]; [done|]. cbn [hex_only String.append] in *.
    apply andb_true_iff in Hu as [-> Hu]. by apply IH. }
  unfold show_hex. split; [repeat case_bool; auto 10|repeat case_bool; done].
Qed.

Lemma read_segment z t :
  segment z -> no_digit_first to_digit16 t ->
  read_number to_digit16 16 65535 4 true (show_hex z +:+ t) = Some (z, t).
Proof.
  intros Hz Ht. destruct (show_hex_read z Hz) as (count & Hc & E). unfold read_number.
  rewrite (read_digits_append _ _ _ _ _ _ _ _ _ _ E Ht).
  by destruct (Nat.eqb_spec count 0); [lia|].
Qed.

(** ** A hexadecimal field is no start of an IPv4 address *)

Lemma read_digits_no_dot dig radix maxv maxd acc count u t v n rest :
  hex_only u = true -> head_is 46 t = false -> (forall a s, t = String a s -> dig (code a) = None) ->
  read_digits dig radix maxv maxd acc count (u +:+ t) = Some (v, n, rest) ->
  head_is 46 rest = false.
Proof.
  intros Hu Ht Hd. revert acc count. induction u as [|a u IH]; intros acc count; cbn [String.append].
  - destruct t as [|a t]; cbn [read_digits]; [by intros [= <- <- <-]|].
    rewrite (Hd a t eq_refl). by intros [= <- <- <-].
  - cbn [hex_only] in Hu. apply andb_true_iff in Hu as [[_ Ha]%andb_true_iff Hu].
    cbn [read_digits]. destruct (dig (code a)) as [d|].
    + destruct (_ && _); [|done]. by apply IH.
    + intros [= <- <- <-]. cbn [head_is]. by apply negb_true_iff in Ha.
Qed.

(** What may follow a field: nothing, or a colon. *)
Definition ends_field (t : string) : Prop := t = "" \/ exists s, t = String ":" s.

Lemma read_ipv4_fails u t :
  hex_only u = true -> ends_field t -> read_ipv4_addr (u +:+ t) = None.
Proof.
  intros Hu Ht. unfold read_ipv4_addr. unfold read_octet at 1, read_separator, read_number.
  destruct (read_digits to_digit10 10 255 3 0 0 (u +:+ t)) as [[[v c] rest]|] eqn:E; [|done].
  apply read_digits_no_dot in E; [|done|by destruct Ht as [->|[s ->]]|].
  2: { intros a s ->. by destruct Ht as [Ht|[s' [= -> ->]]]. }
  destruct (c =? 0)%nat; [done|]. destruct (_ && _); [done|].
  unfold read_octet at 1, read_separator, read_given_char. destruct rest as [|a rest]; [done|].
  cbn [head_is] in E. by rewrite E.
Qed.

Lemma ends_no_digit t : ends_field t -> no_digit_first to_digit16 t.
Proof. by intros [->|[s ->]]. Qed.

(** ** Groups *)

(** The text of the fields from position [i], before [t]. *)
Fixpoint groups_text (i : nat) (l : list Z) (t : string) : string :=
  match l with
  | [] => t
  | g :: l' =>
      (match i with O => "" | S _ => ":" end) +:+ show_hex g +:+ groups_text (S i) l' t
  end.

Lemma show_segments_text l t : show_segments l +:+ t = groups_text 0 l t.
Proof.
  assert (Hrest : forall l i, groups_text (S i) l t
    = match l with [] => t | _ => String ":" (show_segments l +:+ t) end).
  { induction l0 as [|g l0 IH]; intros i; [done|]. cbn [groups_text]. rewrite IH.
    unfold show_segments. cbn [map]. destruct l0 as [|g' l0]; [done|].
    rewrite (join_cons ":" (show_hex g)) by done. cbn [String.append].
    by rewrite !append_assoc. }
  destruct l as [|g l]; [done|]. cbn [groups_text String.append]. rewrite Hrest.
  unfold show_segments. cbn [map]. destruct l as [|g' l]; [done|].
  rewrite (join_cons ":" (show_hex g)) by done. by rewrite !append_assoc.
Qed.

(** What ends a list of groups: nothing, or a double colon. *)
Definition ends_groups (t : string) : Prop := t = "" \/ exists s, t = String ":" (String ":" s).

Lemma ends_groups_field t : ends_groups t -> ends_field t.
Proof. intros [->|[s ->]]; [by left|right; eauto]. Qed.

Lemma groups_text_ends i l t : ends_groups t -> ends_field (groups_text (S i) l t).
Proof. intros Ht. destruct l as [|g l]; [by apply ends_groups_field|right; cbn; eauto]. Qed.

(** Neither sub-parser makes anything of what ends a list. *)
Lemma ended_groups n i t : ends_groups t -> read_groups n i t = ([], false, t).
Proof.
  intros Ht. destruct n as [|n]; [done|]. cbn [read_groups].
  assert (Hv4 : read_separator 58 i read_ipv4_addr t = None).
  { destruct i as [|i]; cbn [read_separator].
    - apply (read_ipv4_fails "" t); [done|by apply ends_groups_field].
    - destruct Ht as [->|[s ->]]; [done|]. cbn [read_given_char].
      apply (read_ipv4_fails "" (String ":" s)); [done|right; eauto]. }
  assert (Hhex : read_separator 58 i (read_number to_digit16 16 65535 4 true) t = None).
  { by destruct i as [|i], Ht as [->|[s ->]]. }
  destruct n as [|n]; by rewrite ?Hv4, Hhex.
Qed.

Lemma read_groups_text n i l t :
  Forall segment l -> (length l <= n)%nat -> ends_groups t ->
  read_groups n i (groups_text i l t) = (l, false, t).
Proof.
  intros Hl Hn Ht. revert n i Hn. induction Hl as [|g l Hg Hl IH]; intros n i Hn.
  { by apply ended_groups. }
  destruct n as [|n]; [simpl in Hn; lia|]. cbn [read_groups groups_text].
  pose proof (groups_text_ends i l t Ht) as He.
  assert (Hsep : forall A (p : parser A) s,
    read_separator 58 i p ((match i with O => "" | S _ => ":" end) +:+ s) = p s)
    by (by intros A p s; destruct i).
  rewrite !Hsep. destruct (show_hex_only g Hg) as [Hx _].
  rewrite (read_ipv4_fails (show_hex g) _ Hx He), (read_segment g _ Hg (ends_no_digit _ He)).
  rewrite (IH n (S i)) by (simpl in Hn; lia). by destruct n.
Qed.

(** ** The run of zeros *)

(** A run that lies in the list and is all zeros. *)
Definition zeros (l : list Z) (start len : nat) : Prop :=
  (start + len <= length l)%nat /\ take len (drop start l) = replicate len 0.

Lemma zeros_none l : zeros l 0 0.
Proof. split; [lia|]. by rewrite take_0. Qed.

Lemma zeros_app l l' s n : zeros l s n -> zeros (l ++ l') s n.
Proof.
  intros [Hl Hz]. split; [rewrite length_app; lia|].
  rewrite drop_app_le by lia. rewrite take_app_le by (rewrite length_drop; lia). done.
Qed.

(** A run that reaches the end grows by a zero. *)
Lemma zeros_snoc l s n :
  zeros l s n -> (s + n = length l)%nat -> zeros (l ++ [0]) s (S n).
Proof.
  intros [_ Hz] He. split; [rewrite length_app; simpl; lia|].
  rewrite drop_app_le by lia. rewrite take_app_ge by (rewrite length_drop; lia).
  rewrite length_drop. replace (S n - (length l - s))%nat with 1%nat by lia.
  assert (Hd : drop s l = take n (drop s l)) by (rewrite take_ge; [done|rewrite length_drop; lia]).
  rewrite Hd, Hz. simpl. by rewrite <- replicate_cons_app.
Qed.

Lemma zero_run_zeros l : forall pre cs cl bs bl,
  zeros pre bs bl -> (cl = 0%nat \/ (zeros pre cs cl /\ (cs + cl = length pre)%nat)) ->
  let '(s, n) := zero_run (length pre) cs cl bs bl l in zeros (pre ++ l) s n.
Proof.
  induction l as [|z l IH]; intros pre cs cl bs bl Hb Hc; cbn [zero_run].
  { by rewrite app_nil_r. }
  replace (pre ++ z :: l) with ((pre ++ [z]) ++ l) by by rewrite <- app_assoc.
  assert (Hlen : S (length pre) = length (pre ++ [z])) by (rewrite length_app; simpl; lia).
  rewrite Hlen. destruct (Z.eqb_spec z 0) as [->|Hz].
  - set (cs' := if (cl =? 0)%nat then length pre else cs).
    assert (Hc' : zeros (pre ++ [0]) cs' (S cl) /\ (cs' + S cl = length (pre ++ [0%Z]))%nat).
    { unfold cs'. rewrite length_app. cbn [length]. destruct (Nat.eqb_spec cl 0) as [->|Hne].
      - split; [|lia]. apply zeros_snoc; [|lia]. split; [lia|]. by rewrite take_0.
      - destruct Hc as [?|[Hc1 Hc2]]; [done|]. split; [by apply zeros_snoc|lia]. }
    destruct (_ <? _)%nat; apply IH; try (by right); [apply Hc'|by apply zeros_app].
  - apply IH; [by apply zeros_app|by left].
Qed.

Lemma zero_run_split s start len :
  zero_run 0 0 0 0 0 s = (start, len) ->
  (start + len <= length s)%nat /\ s = take start s ++ replicate len 0 ++ drop (start + len) s.
Proof.
  intros E. pose proof (zero_run_zeros s [] 0 0 0 0 (zeros_none []) (or_introl eq_refl)) as H.
  change (length (@nil Z)) with 0%nat in H. rewrite E in H. destruct H as [Hl Hz]. split; [done|].
  cbn [app] in Hz. rewrite <- Hz, <- drop_drop, take_drop. by rewrite take_drop.
Qed.

(** ** IPv6 *)

Lemma show_v6_plain s :
  length s = 8%nat -> Forall segment s -> read_ipv6_addr (show_segments s) = Some (s, "").
Proof.
  intros Hl Hs. rewrite <- (append_nil_r (show_segments s)), show_segments_text.
  unfold read_ipv6_addr. rewrite read_groups_text by (done || lia || by left). by rewrite Hl.
Qed.

Lemma show_v6_compressed s start len :
  length s = 8%nat -> Forall segment s -> zero_run 0 0 0 0 0 s = (start, len) -> (1 < len)%nat ->
  read_ipv6_addr (show_segments (take start s) +:+ "::" +:+ show_segments (drop (start + len) s))
  = Some (s, "").
Proof.
  intros Hl Hs Hr Hlen. destruct (zero_run_split s start len Hr) as [Hle Hsplit].
  rewrite show_segments_text. unfold read_ipv6_addr.
  assert (Htake : length (take start s) = start) by (rewrite length_take; lia).
  assert (Hdrop : length (drop (start + len) s) = (8 - start - len)%nat) by (rewrite length_drop; lia).
  rewrite read_groups_text; [|by apply Forall_take|lia|right; cbn; eauto].
  rewrite Htake. destruct (Nat.eqb_spec start 8); [lia|]. cbn [String.append].
  change (read_given_char 58 (String ":" ?x)) with (Some (tt, x)). cbv iota beta.
  change (read_given_char 58 (String ":" ?x)) with (Some (tt, x)). cbv iota beta.
  rewrite <- (append_nil_r (show_segments (drop _ s))), show_segments_text.
  rewrite read_groups_text; [|by apply Forall_drop|lia|by left].
  rewrite Hdrop. replace (8 - start - (8 - start - len))%nat with len by lia. by rewrite <- Hsplit.
Qed.

(** An IPv4-mapped address. *)
Lemma show_v6_mapped hi lo :
  segment hi -> segment lo ->
  read_ipv6_addr ("::ffff:" +:+ show_v4 (hi / 256) (hi mod 256) (lo / 256) (lo mod 256))
  = Some ([0; 0; 0; 0; 0; 65535; hi; lo], "").
Proof.
  unfold segment. intros Hhi Hlo.
  set (v4 := show_v4 _ _ _ _).
  assert (Hv4 : read_ipv4_addr v4 = Some ((hi / 256, hi mod 256, lo / 256, lo mod 256), "")).
  { rewrite <- (append_nil_r v4). apply read_ipv4_show; unfold octet;
      [..|done]; Z.to_euclidean_division_equations; lia. }
  unfold read_ipv6_addr.
  rewrite (ended_groups 8 0 ("::ffff:" +:+ v4)) by (right; cbn [String.append]; eauto).
  change (length (@nil Z)) with 0%nat. cbn [Nat.eqb String.append].
  change (read_given_char 58 (String ":" ?x)) with (Some (tt, x)). cbv iota beta.
  change (read_given_char 58 (String ":" ?x)) with (Some (tt, x)). cbv iota beta.
  change (8 - (0 + 1))%nat with 7%nat. cbn [read_groups read_separator].
  change (String "f" (String "f" (String "f" (String "f" (String ":" v4)))))
    with (show_hex 65535 +:+ String ":" v4).
  rewrite (read_ipv4_fails (show_hex 65535)) by (done || (right; eauto)).
  rewrite read_segment by (done || unfold segment; lia).
  change (read_given_char 58 (String ":" ?x)) with (Some (tt, x)). cbv iota beta.
  rewrite Hv4. cbn [length Nat.sub replicate app].
  by rewrite <- !(Z.mul_comm 256), <- !Z.div_mod by lia.
Qed.

Definition show_v6_general (s : list Z) : string :=
  let '(start, len) := zero_run 0 0 0 0 0 s in
  if (1 <? len)%nat
  then show_segments (take start s) +:+ "::" +:+ show_segments (drop (start + len) s)
  else show_segments s.

Lemma show_v6_cases s :
  (exists hi lo, s = [0; 0; 0; 0; 0; 65535; hi; lo]) \/ show_v6 s = show_v6_general s.
Proof. unfold show_v6. repeat (case_match; try by right). left. eauto. Qed.

(** A text that starts with a field, which may be empty, and goes on with a colon or ends. *)
Definition field_first (s : string) : Prop :=
  exists u t, s = u +:+ t /\ hex_only u = true /\ ends_field t.

Lemma groups_text_first l t :
  Forall segment l -> ends_groups t -> field_first (groups_text 0 l t).
Proof.
  intros Hl Ht. destruct Hl as [|g l Hg Hl].
  - exists "", t. split_and!; [done|done|by apply ends_groups_field].
  - exists (show_hex g), (groups_text 1 l t). split_and!; [done|by apply show_hex_only|].
    by apply groups_text_ends.
Qed.

Lemma show_v6_read s :
  length s = 8%nat -> Forall segment s ->
  field_first (show_v6 s) /\ read_ipv6_addr (show_v6 s) = Some (s, "").
Proof.
  intros Hl Hs. destruct (show_v6_cases s) as [(hi & lo & ->)| ->].
  - apply Forall_app with (l1 := [0; 0; 0; 0; 0; 65535]) in Hs as [_ Hs].
    apply Forall_cons in Hs as [Hhi Hs]. apply Forall_cons in Hs as [Hlo _].
    split; [|by apply show_v6_mapped]. exists "". eexists. split; [done|]. split; [done|].
    right. cbn [String.append show_v6]. eauto.
  - unfold show_v6_general. destruct (zero_run 0 0 0 0 0 s) as [start len] eqn:E.
    destruct (Nat.ltb_spec 1 len).
    + split; [|by apply show_v6_compressed]. rewrite show_segments_text.
      apply groups_text_first; [by apply Forall_take|right; cbn [String.append]; eauto].
    + split; [|by apply show_v6_plain].
      rewrite <- (append_nil_r (show_segments s)), show_segments_text.
      apply groups_text_first; [done|by left].
Qed.

(** ** All addresses *)

Lemma IpAddr_parse_show ip : wf_ip ip -> IpAddr_parse (IpAddr_to_string ip) = Some ip.
Proof.
  destruct ip as [a b c d|s]; [apply IpAddr_parse_show_v4|]. intros [Hl Hs].
  destruct (show_v6_read s Hl Hs) as [(u & t & E & Hu & Ht) Hr].
  unfold IpAddr_parse. cbn [IpAddr_to_string]. rewrite Hr, E. by rewrite read_ipv4_fails.
Qed.

Lemma IpAddr_to_string_inj ip ip' :
  wf_ip ip -> wf_ip ip' -> IpAddr_to_string ip = IpAddr_to_string ip' -> ip = ip'.
Proof.
  intros Hw Hw' E. apply IpAddr_parse_show in Hw, Hw'. rewrite E in Hw. congruence.
Qed.

(** ** What is read is an address *)

Lemma read_digits_bounds dig radix maxv maxd :
  (forall b d, dig b = Some d -> 0 <= d) -> 0 <= radix ->
  forall s acc count v n rest, 0 <= acc <= maxv ->
  read_digits dig radix maxv maxd acc count s = Some (v, n, rest) -> 0 <= v <= maxv.
Proof.
  intros Hd Hr. induction s as [|a s IH]; intros acc count v n rest Ha; cbn [read_digits].
  { by intros [= <- _ _]. }
  destruct (dig (code a)) as [d|] eqn:E; [|by intros [= <- _ _]].
  apply Hd in E. destruct (Z.leb_spec (acc * radix + d) maxv); [|done]. cbn [andb].
  destruct (_ <=? _)%nat; [|done]. apply IH. nia.
Qed.

Lemma read_number_bounds dig radix maxv maxd z s v rest :
  (forall b d, dig b = Some d -> 0 <= d) -> 0 <= radix -> 0 <= maxv ->
  read_number dig radix maxv maxd z s = Some (v, rest) -> 0 <= v <= maxv.
Proof.
  intros Hd Hr Hm. unfold read_number.
  destruct (read_digits dig radix maxv maxd 0 0 s) as [[[v' c] r]|] eqn:E; [|done].
  destruct (_ =? _)%nat; [done|]. destruct (_ && _); [done|]. intros [= <- <-].
  eapply read_digits_bounds; [exact Hd|exact Hr| |exact E]. lia.
Qed.

Lemma read_separator_inv {A} sep i (p : parser A) s r :
  read_separator sep i p s = Some r -> exists s', p s' = Some r.
Proof.
  unfold read_separator. destruct i; [eauto|]. destruct (read_given_char sep s) as [[[] s']|]; eauto.
  done.
Qed.

Lemma to_digit10_nonneg b d : to_digit10 b = Some d -> 0 <= d.
Proof. unfold to_digit10, in_range. case_bool; [|done]. b2p. intros [= <-]. lia. Qed.

Lemma to_digit16_nonneg b d : to_digit16 b = Some d -> 0 <= d.
Proof.
  unfold to_digit16, in_range. repeat case_bool; try done; b2p; intros [= <-]; lia.
Qed.

Lemma read_octet_bounds i s v rest : read_octet i s = Some (v, rest) -> octet v.
Proof.
  unfold read_octet. intros (s' & Hs)%read_separator_inv.
  eapply read_number_bounds; [exact to_digit10_nonneg| | |exact Hs]; lia.
Qed.

Lemma read_ipv4_wf s a b c d rest :
  read_ipv4_addr s = Some ((a, b, c, d), rest) -> wf_ip (V4 a b c d).
Proof.
  unfold read_ipv4_addr.
  destruct (read_octet 0 s) as [[a' s1]|] eqn:E1; [|done].
  destruct (read_octet 1 s1) as [[b' s2]|] eqn:E2; [|done].
  destruct (read_octet 2 s2) as [[c' s3]|] eqn:E3; [|done].
  destruct (read_octet 3 s3) as [[d' s4]|] eqn:E4; [|done]. intros [= <- <- <- <- _].
  split_and!; by eapply read_octet_bounds.
Qed.

Lemma read_groups_wf n i s gs v4 rest :
  read_groups n i s = (gs, v4, rest) -> Forall segment gs /\ (length gs <= n)%nat.
Proof.
  revert i s gs v4 rest. induction n as [|n IH]; intros i s gs v4 rest; cbn [read_groups].
  { by intros [= <- _ _]. }
  destruct (match n with O => None | S _ => read_separator 58 i read_ipv4_addr s end)
    as [[[[[a b] c] d] s']|] eqn:E4.
  - intros [= <- _ _]. destruct n as [|n]; [done|].
    apply read_separator_inv in E4 as (s0 & (Ha & Hb & Hc & Hd)%read_ipv4_wf).
    unfold octet in *. split; [|simpl; lia]. repeat constructor; lia.
  - destruct (read_separator 58 i (read_number to_digit16 16 65535 4 true) s) as [[g s']|] eqn:E; cycle 1.
    { injection 1 as <- <- <-. split; [done|simpl; lia]. }
    destruct (read_groups n (S i) s') as [[gs' v'] s''] eqn:Er. injection 1 as <- <- <-.
    apply IH in Er as [Hs Hl]. apply read_separator_inv in E as (s0 & Hg).
    split; [|simpl; lia]. constructor; [|done].
    eapply read_number_bounds; [exact to_digit16_nonneg| | |exact Hg]; lia.
Qed.

Lemma read_ipv6_wf s gs rest : read_ipv6_addr s = Some (gs, rest) -> wf_ip (V6 gs).
Proof.
  unfold read_ipv6_addr. destruct (read_groups 8 0 s) as [[head v4] s1] eqn:E1.
  apply read_groups_wf in E1 as [H1 L1]. destruct (Nat.eqb_spec (length head) 8).
  { by intros [= <- _]. }
  destruct v4; [done|]. destruct (read_given_char 58 s1) as [[[] s2]|]; [|done].
  destruct (read_given_char 58 s2) as [[[] s3]|]; [|done].
  destruct (read_groups (8 - (length head + 1)) 0 s3) as [[tail v4] s4] eqn:E2.
  apply read_groups_wf in E2 as [H2 L2]. intros [= <- _]. split.
  - rewrite !length_app, length_replicate. lia.
  - rewrite !Forall_app. split_and!; [done| |done]. apply Forall_replicate. lia.
Qed.

Lemma IpAddr_parse_wf s ip : IpAddr_parse s = Some ip -> wf_ip ip.
Proof.
  unfold IpAddr_parse. destruct (read_ipv4_addr s) as [[[[[a b] c] d] rest]|] eqn:E4.
  - destruct rest; [|done]. intros [= <-]. by eapply read_ipv4_wf.
  - destruct (read_ipv6_addr s) as [[gs rest]|] eqn:E6; [|done].
    destruct rest; [|done]. intros [= <-]. by eapply read_ipv6_wf.
Qed.
