(* ===== verification/External.v ===== *)
(** * The third-party crates the proxy is built on, as interfaces

    Code outside the repository is a parameter of the model: each class below names the types
    and functions of one crate that the proxy calls, and the class of its laws states the
    documented behaviour the theorems rely on.  Data the source takes apart by pattern matching
    ([serde_json::Value], [serde_yaml::Value]) are inductive types with the crates'
    constructors; their number types stay abstract. *)

From S2P Require Import Prelude RustStr F64 Net.

(** ** [regex] *)

(** A string cut up by the matches of [\$\{(?<name>\w+)\}], the pattern of [expand_env]: the
    text between matches, and the captured name of each match. *)
Inductive piece : Type :=
  | Text (s : string)
  | Capture (name : string).

Definition piece_source (p : piece) : string :=
  match p with
  | Text s => s
  | Capture name => "${" +:+ name +:+ "}"
  end.

Class RegexApi : Type := {
  Regex : Type;
  Regex_new : string -> result Regex string;
  is_match : Regex -> string -> bool;
  env_pieces : string -> list piece
}.

(** The pieces of a string, in order, are the string. *)
Class RegexLaws `{RegexApi} : Prop := {
  env_pieces_source (s : string) : join "" (map piece_source (env_pieces s)) = s
}.

(** ** [serde_json] and [serde_yaml] *)

Class NumberApi : Type := {
  JsonNumber : Type;
  json_as_i64 : JsonNumber -> option Z;
  json_as_u64 : JsonNumber -> option Z;
  json_as_f64 : JsonNumber -> option f64;
  YamlNumber : Type;
  yaml_as_i64 : YamlNumber -> option Z;
  yaml_as_u64 : YamlNumber -> option Z;
  yaml_as_f64 : YamlNumber -> option f64;
  yaml_number_to_string : YamlNumber -> string
}.

(** [serde_json::Value].  An object is its entries in key order; keys are distinct in every
    value the crate builds, and [get], [get_mut] and [remove] find an entry by its key. *)
Inductive JsonValue `{NumberApi} : Type :=
  | JNull
  | JBool (b : bool)
  | JNumber (n : JsonNumber)
  | JString (s : string)
  | JArray (a : list JsonValue)
  | JObject (m : list (string * JsonValue)).

(** [serde_yaml::Value].  The proxy never looks inside a mapping or a tagged value. *)
Inductive YamlValue `{NumberApi} : Type :=
  | YNull
  | YBool (b : bool)
  | YNumber (n : YamlNumber)
  | YString (s : string)
  | YSequence (l : list YamlValue)
  | YMapping (m : list (YamlValue * YamlValue))
  | YTagged (tag : string) (v : YamlValue).

Class JsonApi `{NumberApi} : Type := {
  json_to_string : JsonValue -> string;
  json_from_slice : list Z -> result JsonValue string;
  json_to_vec : JsonValue -> option (list Z)
}.

(** [serde_json::to_string] of a derived [Serialize]: the fields of a struct are written in the
    order they are declared, so the text is given by a value whose objects keep that order. *)
Class JsonTextApi `{JsonApi} : Type := {
  json_of_u64 : Z -> JsonNumber;
  json_write : JsonValue -> result string string
}.

Definition json_scalar `{NumberApi} (v : JsonValue) : bool :=
  match v with
  | JArray _ | JObject _ => false
  | _ => true
  end.

(** The compact form has no control character, and a flat object reads back with its fields, in
    whatever order the reader keeps them. *)
Class JsonTextLaws `{JsonTextApi} : Prop := {
  json_u64 z : 0 <= z <= U64_MAX -> json_as_u64 (json_of_u64 z) = Some z;
  json_one_line v s : json_write v = Ok s -> has_char (char_of 10) s = false;
  json_written m s :
    json_write (JObject m) = Ok s -> NoDup (map fst m) ->
    Forall (fun kv => json_scalar kv.2 = true) m ->
    exists m', json_from_slice (as_bytes s) = Ok (JObject m') /\ m' ≡ₚ m
}.

(** *** The text of YAML

    [serde_yaml] reads a text into a tree of nodes that a deserialiser asks for what it expects:
    a scalar answers to several types, so [Node] is abstract.  [node_null] is the test of
    [deserialize_option]; [node_str] is the text of any scalar; [node_any] is the node as
    [deserialize_any] resolves it, which an untagged enum buffers and which fails on a tag;
    [value_of_buffer] is [Value]'s own deserialiser on such a buffer.  [yaml_error] is the
    message of a text that does not deserialise. *)
Class YamlApi `{NumberApi} : Type := {
  Node : Type;
  yaml_document : string -> option Node;
  yaml_error : string -> string;
  node_null : Node -> bool;
  node_bool : Node -> option bool;
  node_u64 : Node -> option Z;
  node_str : Node -> option string;
  node_seq : Node -> option (list Node);
  node_map : Node -> option (list (Node * Node));
  node_any : Node -> option YamlValue;
  value_of_buffer : YamlValue -> option YamlValue;
  yaml_of_u64 : Z -> YamlNumber;
  yaml_to_string : YamlValue -> result string string
}.

Fixpoint untagged `{NumberApi} (v : YamlValue) : bool :=
  match v with
  | YSequence l => forallb untagged l
  | YMapping m => forallb (fun kv => untagged kv.1 && untagged kv.2) m
  | YTagged _ _ => false
  | _ => true
  end.

(** A scalar, or a sequence of such values. *)
Fixpoint mapless `{NumberApi} (v : YamlValue) : bool :=
  match v with
  | YSequence l => forallb mapless l
  | YMapping _ | YTagged _ _ => false
  | _ => true
  end.

(** A node reads as a value: it answers every request as the value's text does. *)
Inductive reads `{YamlApi} : Node -> YamlValue -> Prop :=
  | reads_null n :
      node_null n = true -> node_any n = Some YNull -> reads n YNull
  | reads_bool n b :
      node_null n = false -> node_bool n = Some b -> node_any n = Some (YBool b) ->
      reads n (YBool b)
  | reads_number n x :
      node_null n = false -> node_u64 n = yaml_as_u64 x -> node_any n = Some (YNumber x) ->
      reads n (YNumber x)
  | reads_string n s :
      node_null n = false -> node_str n = Some s -> node_any n = Some (YString s) ->
      reads n (YString s)
  | reads_sequence n ns l :
      node_null n = false -> node_seq n = Some ns -> Forall2 reads ns l ->
      (untagged (YSequence l) = true -> node_any n = Some (YSequence l)) ->
      reads n (YSequence l)
  | reads_mapping n es m :
      node_null n = false -> node_map n = Some es ->
      Forall2 reads (map fst es) (map fst m) -> Forall2 reads (map snd es) (map snd m) ->
      (untagged (YMapping m) = true -> node_any n = Some (YMapping m)) ->
      reads n (YMapping m)
  | reads_tagged n t v :
      node_null n = false -> reads n (YTagged t v).

(** The text written for a value reads as that value; a [u64] is a number, and what a node gives
    as one is a [u64].  The reader of [serde_yaml] gives up on a document nested more than 128
    levels deep, which the writer does not: [yaml_to_string] is the writer on the values within
    that limit, and an error on the others (the crate writes none: the builder's documents are
    a few levels deep). *)
Class YamlLaws `{YamlApi} : Prop := {
  yaml_written v s : yaml_to_string v = Ok s -> exists n, yaml_document s = Some n /\ reads n v;
  yaml_buffer v : mapless v = true -> value_of_buffer v = Some v;
  yaml_u64 z : 0 <= z <= U64_MAX -> yaml_as_u64 (yaml_of_u64 z) = Some z;
  node_u64_range n z : node_u64 n = Some z -> 0 <= z <= U64_MAX
}.

(** ** [ipnet] *)

Class IpNetApi : Type := {
  IpNet : Type;
  IpNet_parse : string -> option IpNet;
  net_contains : IpNet -> IpAddr -> bool
}.

(** ** [http] (through [hyper]) *)

Class HttpApi : Type := {
  HeaderValue : Type;
  to_str : HeaderValue -> option string;
  value_bytes : HeaderValue -> list Z;
  HeaderMap : Type;
  header_iter : HeaderMap -> list (string * HeaderValue);
  header_get_all : HeaderMap -> string -> list HeaderValue;
  header_get : HeaderMap -> string -> option HeaderValue;
  HeaderValue_from_str : string -> option HeaderValue;
  uri_valid : string -> bool;
  StatusCode_from_u16 : Z -> option Z
}.

(** [uri_valid] says whether [Uri::try_from] accepts a string.  [get] is the first of [get_all];
    [get_all] is the part of [iter] under that name; names are stored in lower case; [to_str]
    succeeds on visible ASCII only; a status code is its number. *)
Class HttpLaws `{HttpApi} : Prop := {
  header_get_first h name : header_get h name = head (header_get_all h name);
  header_get_all_iter h name :
    header_get_all h name = map snd (filter (fun kv => kv.1 = name) (header_iter h));
  header_name_lower h name v : (name, v) ∈ header_iter h -> to_lower name = name;
  to_str_visible v s a : to_str v = Some s -> has_char a s = true ->
    code a = 9%Z \/ (32 <= code a < 127)%Z;
  StatusCode_value z c : StatusCode_from_u16 z = Some c -> c = z
}.
