(* ===== verification/Json.v ===== *)
(** * JSON paths and response filters ([src/rules.rs])

    [json_get], [json_get_mut], [json_remove] and [apply_response_filters].  A mutable
    reference [&mut JsonValue] is the pair of the value it points at and the function that
    writes another value in its place, so [*target = v] is one application. *)

From S2P Require Import Prelude RustStr External.

Section Json.
Context `{NumberApi}.

(** ** Objects and arrays *)

Fixpoint obj_get (m : list (string * JsonValue)) (k : string) : option JsonValue :=
  match m with
  | [] => None
  | (k', v) :: m' => if String.eqb k' k then Some v else obj_get m' k
  end.

Fixpoint obj_set (m : list (string * JsonValue)) (k : string) (x : JsonValue)
  : list (string * JsonValue) :=
  match m with
  | [] => []
  | (k', v) :: m' => if String.eqb k' k then (k', x) :: m' else (k', v) :: obj_set m' k x
  end.

Definition obj_remove (m : list (string * JsonValue)) (k : string)
  : list (string * JsonValue) :=
  List.filter (fun kv => negb (String.eqb (fst kv) k)) m.

(** [arr.get(segment.parse().ok()?)]. *)
Definition arr_index (seg : string) : option nat := option_map Z.to_nat (parse_usize seg).

(** One step down from a value, by key or by index. *)
Definition json_child (v : JsonValue) (seg : string) : option JsonValue :=
  match v with
  | JObject m => obj_get m seg
  | JArray a =>
      match arr_index seg with
      | Some i => a !! i
      | None => None
      end
  | _ => None
  end.

(** Writing the child that [json_child] reads. *)
Definition json_put_child (v : JsonValue) (seg : string) (x : JsonValue) : JsonValue :=
  match v with
  | JObject m => JObject (obj_set m seg x)
  | JArray a =>
      match arr_index seg with
      | Some i => JArray (<[i := x]> a)
      | None => v
      end
  | _ => v
  end.

(** ** [json_get], [json_get_mut], [json_remove] *)

Fixpoint json_get_segments (current : JsonValue) (segments : list string)
  : option JsonValue :=
  match segments with
  | [] => Some current
  | seg :: rest =>
      if is_empty seg then None
      else match json_child current seg with
           | Some v => json_get_segments v rest
           | None => None
           end
  end.

Definition json_get (root : JsonValue) (path : string) : option JsonValue :=
  json_get_segments root (split "."%char path).

(** A mutable reference: what it points at, and the root after writing through it. *)
Definition json_ref : Type := JsonValue * (JsonValue -> JsonValue).

Fixpoint json_get_mut_segments (current : JsonValue) (segments : list string)
  : option json_ref :=
  match segments with
  | [] => None
  | seg :: rest =>
      if is_empty seg then None
      else match json_child current seg with
           | None => None
           | Some v =>
               match rest with
               | [] => Some (v, json_put_child current seg)
               | _ :: _ =>
                   match json_get_mut_segments v rest with
                   | Some (target, write) =>
                       Some (target, fun x => json_put_child current seg (write x))
                   | None => None
                   end
               end
           end
  end.

Definition json_get_mut (root : JsonValue) (path : string) : option json_ref :=
  json_get_mut_segments root (split "."%char path).

(** The new root, and whether an entry was removed. *)
Definition json_remove (root : JsonValue) (path : string) : JsonValue * bool :=
  let segments := split "."%char path in
  if (length segments <? 2)%nat then (root, false)
  else
    let parent_path := join "." (take (length segments - 1) segments) in
    let key := List.last segments "" in
    match json_get_mut root parent_path with
    | Some (JObject m, write) =>
        (write (JObject (obj_remove m key)), is_some (obj_get m key))
    | _ => (root, false)
    end.

(** ** [apply_response_filters] *)

Definition REDACTED : string := "***REDACTED***".

Record ResponseFilterEntry : Type := {
  filter_field : string;
  filter_action : string;
  replacement : option string
}.

(** The body of the [for filter in filters] loop. *)
Definition apply_filter (json : JsonValue) (f : ResponseFilterEntry) : JsonValue :=
  if String.eqb (filter_action f) "redact" then
    match json_get_mut json (filter_field f) with
    | Some (_, write) => write (JString REDACTED)
    | None => json
    end
  else if String.eqb (filter_action f) "remove" then
    if (length (split "."%char (filter_field f)) =? 1)%nat then
      match json with
      | JObject m => JObject (obj_remove m (filter_field f))
      | _ => json
      end
    else fst (json_remove json (filter_field f))
  else if String.eqb (filter_action f) "replace" then
    match json_get_mut json (filter_field f) with
    | Some (_, write) => write (JString (unwrap_or (replacement f) ""))
    | None => json
    end
  else json.

Definition apply_filters (filters : list ResponseFilterEntry) (json : JsonValue) : JsonValue :=
  fold_left apply_filter filters json.

Definition apply_response_filters `{!JsonApi}
    (filters : list ResponseFilterEntry) (body : list Z) : list Z :=
  match filters with
  | [] => body
  | _ :: _ =>
      match json_from_slice body with
      | Err _ => body
      | Ok json => unwrap_or (json_to_vec (apply_filters filters json)) body
      end
  end.

(** ** References and reads agree *)

Lemma obj_get_set_eq m k x : obj_get m k <> None -> obj_get (obj_set m k x) k = Some x.
Proof.
  induction m as [|[k' v] m IH]; simpl; [done|].
  destruct (String.eqb k' k) eqn:E; simpl; rewrite E; auto.
Qed.

Lemma obj_get_set_ne m k k' x : k <> k' -> obj_get (obj_set m k x) k' = obj_get m k'.
Proof.
  intros Hne. induction m as [|[k0 v] m IH]; simpl; [done|].
  destruct (String.eqb_spec k0 k) as [->|]; simpl; [|by rewrite IH].
  by destruct (String.eqb_spec k k').
Qed.

Lemma obj_get_remove_eq m k : obj_get (obj_remove m k) k = None.
Proof.
  induction m as [|[k' v] m IH]; simpl; [done|].
  destruct (String.eqb k' k) eqn:E; simpl; [done|]. by rewrite E.
Qed.

Lemma obj_get_remove_ne m k k' : k <> k' -> obj_get (obj_remove m k) k' = obj_get m k'.
Proof.
  intros Hne. induction m as [|[k0 v] m IH]; simpl; [done|].
  destruct (String.eqb_spec k0 k) as [->|]; simpl; [|by rewrite IH].
  destruct (String.eqb_spec k k'); [done|]. apply IH.
Qed.

Lemma json_put_child_eq v seg c x :
  json_child v seg = Some c -> json_child (json_put_child v seg x) seg = Some x.
Proof.
  destruct v as [| | | |a|m]; simpl; try done.
  - destruct (arr_index seg) as [i|] eqn:E; [|done]. intros Hi. simpl. rewrite E.
    apply list_lookup_insert_eq. by eapply lookup_lt_Some.
  - intros Hc. apply obj_get_set_eq. congruence.
Qed.

(** Reading any child after writing the child [seg]: the written value, or what was there. *)
Lemma json_put_child_any v seg seg' c x :
  json_child v seg = Some c ->
  (json_child v seg' = Some c /\ json_child (json_put_child v seg x) seg' = Some x)
  \/ json_child (json_put_child v seg x) seg' = json_child v seg'.
Proof.
  intros Hc. destruct v as [| | | |a|m]; simpl in *; try done.
  - destruct (arr_index seg) as [i|] eqn:E; [|done]. simpl.
    destruct (arr_index seg') as [j|] eqn:E'; [|by right].
    destruct (decide (i = j)) as [->|Hne].
    + left. split; [done|]. apply list_lookup_insert_eq. by eapply lookup_lt_Some.
    + right. by apply list_lookup_insert_ne.
  - destruct (decide (seg = seg')) as [->|Hne].
    + left. split; [done|]. apply obj_get_set_eq. congruence.
    + right. by apply obj_get_set_ne.
Qed.

Lemma json_get_mut_segments_get segs v :
  segs <> [] -> option_map fst (json_get_mut_segments v segs) = json_get_segments v segs.
Proof.
  revert v. induction segs as [|seg rest IH]; [done|]. intros v _. simpl.
  destruct (is_empty seg); [done|]. destruct (json_child v seg) as [c|]; [|done].
  destruct rest as [|s rest]; [done|]. rewrite <- IH by done.
  destruct (json_get_mut_segments c (s :: rest)) as [[t w]|]; done.
Qed.

Lemma json_get_mut_get (root : JsonValue) (path : string) :
  option_map fst (json_get_mut root path) = json_get root path.
Proof. apply json_get_mut_segments_get, split_not_nil. Qed.

Lemma json_get_mut_segments_write segs v t w x :
  json_get_mut_segments v segs = Some (t, w) -> json_get_segments (w x) segs = Some x.
Proof.
  revert v t w. induction segs as [|seg rest IH]; [done|]. intros v t w. simpl.
  destruct (is_empty seg); [done|]. destruct (json_child v seg) as [c|] eqn:Ec; [|done].
  destruct rest as [|s rest].
  - intros [= <- <-]. by rewrite (json_put_child_eq v seg c x Ec).
  - destruct (json_get_mut_segments c (s :: rest)) as [[t' w']|] eqn:E; [|done].
    intros [= <- <-]. rewrite (json_put_child_eq v seg c (w' x) Ec). by eapply IH.
Qed.

(** ** Hidden fields stay hidden *)

(** A field is hidden by a set [R] of texts when it is absent or one of these texts. *)
Definition hidden (R : string -> Prop) (o : option JsonValue) : Prop :=
  match o with
  | None => True
  | Some (JString s) => R s
  | Some _ => False
  end.

Lemma hidden_text R s segs : R s -> hidden R (json_get_segments (JString s) segs).
Proof. intros Hs. destruct segs as [|a segs]; simpl; [done|]. by destruct (is_empty a). Qed.

(** Writing an allowed text anywhere keeps a hidden field hidden. *)
Lemma write_keeps_hidden R segs g v t w s :
  R s -> json_get_mut_segments v g = Some (t, w) ->
  hidden R (json_get_segments v segs) -> hidden R (json_get_segments (w (JString s)) segs).
Proof.
  intros Hs. revert segs v t w. induction g as [|a g IH]; [done|]. intros segs v t w. simpl.
  destruct (is_empty a); [done|]. destruct (json_child v a) as [c|] eqn:Ec; [|done].
  intros Hg. destruct segs as [|b segs].
  { destruct v; simpl; try done. }
  simpl. destruct (is_empty b); [done|].
  destruct g as [|a' g].
  - injection Hg as <- <-. destruct (json_put_child_any v a b c (JString s) Ec) as [[_ ->]| ->].
    + intros _. by apply hidden_text.
    + done.
  - destruct (json_get_mut_segments c (a' :: g)) as [[t' w']|] eqn:E; [|done].
    injection Hg as <- <-.
    destruct (json_put_child_any v a b c (w' (JString s)) Ec) as [[-> ->]| ->]; [|done].
    eapply IH; eauto.
Qed.

(** So does removing an entry of any object. *)
Lemma remove_keeps_hidden R segs g v m w k :
  json_get_mut_segments v g = Some (JObject m, w) ->
  hidden R (json_get_segments v segs) ->
  hidden R (json_get_segments (w (JObject (obj_remove m k))) segs).
Proof.
  revert segs v w. induction g as [|a g IH]; [done|]. intros segs v w. simpl.
  destruct (is_empty a); [done|]. destruct (json_child v a) as [c|] eqn:Ec; [|done].
  intros Hg. destruct segs as [|b segs].
  { destruct v; simpl; try done. }
  simpl. destruct (is_empty b); [done|].
  destruct g as [|a' g].
  - injection Hg as -> <-.
    destruct (json_put_child_any v a b _ (JObject (obj_remove m k)) Ec) as [[-> ->]| ->]; [|done].
    destruct segs as [|b' segs]; simpl; [done|]. destruct (is_empty b'); [done|].
    destruct (decide (k = b')) as [->|Hne].
    + by rewrite obj_get_remove_eq.
    + by rewrite obj_get_remove_ne.
  - destruct (json_get_mut_segments c (a' :: g)) as [[t' w']|] eqn:E; [|done].
    injection Hg as -> <-.
    destruct (json_put_child_any v a b c (w' (JObject (obj_remove m k))) Ec) as [[-> ->]| ->];
      [|done].
    eapply IH; eauto.
Qed.

Lemma root_remove_keeps_hidden R segs m k :
  hidden R (json_get_segments (JObject m) segs) ->
  hidden R (json_get_segments (JObject (obj_remove m k)) segs).
Proof.
  destruct segs as [|b segs]; simpl; [done|]. destruct (is_empty b); [done|].
  destruct (decide (k = b)) as [->|Hne].
  - by rewrite obj_get_remove_eq.
  - by rewrite obj_get_remove_ne.
Qed.

(** The texts a list of filters may leave in a response. *)
Definition filter_text (filters : list ResponseFilterEntry) (s : string) : Prop :=
  s = REDACTED \/ exists f, f ∈ filters /\ s = unwrap_or (replacement f) "".

Lemma apply_filter_keeps_hidden R json f path :
  R REDACTED -> R (unwrap_or (replacement f) "") ->
  hidden R (json_get json path) -> hidden R (json_get (apply_filter json f) path).
Proof.
  intros HR Hf Hh. unfold apply_filter.
  destruct (String.eqb _ "redact").
  { destruct (json_get_mut json (filter_field f)) as [[t w]|] eqn:E; [|done].
    by eapply write_keeps_hidden. }
  destruct (String.eqb _ "remove").
  { destruct (_ =? 1)%nat.
    - destruct json; try done. by apply root_remove_keeps_hidden.
    - unfold json_remove. destruct (_ <? 2)%nat; [done|].
      destruct (json_get_mut _ _) as [[[| | | | |m] w]|] eqn:E; try done.
      by eapply remove_keeps_hidden. }
  destruct (String.eqb _ "replace"); [|done].
  destruct (json_get_mut json (filter_field f)) as [[t w]|] eqn:E; [|done].
  by eapply write_keeps_hidden.
Qed.

(** A [redact] or [replace] filter hides its own field. *)
Lemma apply_filter_hides R json f :
  R REDACTED -> R (unwrap_or (replacement f) "") ->
  filter_action f = "redact" \/ filter_action f = "replace" ->
  hidden R (json_get (apply_filter json f) (filter_field f)).
Proof.
  intros HR Hf Ha. unfold apply_filter.
  pose proof (json_get_mut_get json (filter_field f)) as Hget.
  destruct Ha as [->| ->]; autorewrite with proxy_bool; cbn [String.eqb]; simpl;
    destruct (json_get_mut json (filter_field f)) as [[t w]|] eqn:E; simpl in Hget;
    try (by rewrite <- Hget);
    unfold json_get; by erewrite json_get_mut_segments_write.
Qed.

Lemma apply_filters_keeps_hidden R filters json path :
  R REDACTED -> (forall f, f ∈ filters -> R (unwrap_or (replacement f) "")) ->
  hidden R (json_get json path) -> hidden R (json_get (apply_filters filters json) path).
Proof.
  unfold apply_filters. intros HR. revert json.
  induction filters as [|f fs IH]; intros json Hfs Hh; simpl; [done|].
  apply IH; [set_solver|]. apply apply_filter_keeps_hidden; [done|set_solver|done].
Qed.

Lemma apply_filters_hides filters json f :
  f ∈ filters -> filter_action f = "redact" \/ filter_action f = "replace" ->
  hidden (filter_text filters) (json_get (apply_filters filters json) (filter_field f)).
Proof.
  intros Hin Ha. apply list_elem_of_split in Hin as (l1 & l2 & ->).
  unfold apply_filters. rewrite fold_left_app. simpl.
  assert (HR : forall g, g ∈ l1 ++ f :: l2 ->
             filter_text (l1 ++ f :: l2) (unwrap_or (replacement g) "")).
  { intros g Hg. right. eauto. }
  apply (apply_filters_keeps_hidden _ l2); [by left| |].
  - intros g Hg. apply HR. set_solver.
  - apply apply_filter_hides; [by left| |done]. apply HR. set_solver.
Qed.

End Json.
