(* ===== verification/Config.v ===== *)
(** * Configuration ([src/config.rs])

    The configuration records, environment expansion, regex compilation, validation, the
    environment overrides and the priority sort, and the two loaders that run them in order.
    The process environment and the file system are the fields of [Env]. *)

From Stdlib Require Export Sorting.Sorted.
From S2P Require Import Prelude RustStr External Json.

Open Scope Z_scope.

Section Config.
Context `{NumberApi} `{RegexApi}.

(** ** Data *)

Record TlsConfig : Type := {
  tls_cert : string;
  tls_key : string;
  tls_client_ca : option string;
  tls_require_client_cert : option bool
}.

Record MetricsConfig : Type := {
  metrics_enabled : option bool;
  metrics_path : option string
}.

Record GlobalConfig : Type := {
  global_port : option Z;
  global_socket : option string;
  global_log_level : option string;
  global_log_format : option string;
  global_audit_log : option string;
  global_bind : option string;
  global_tls : option TlsConfig;
  global_metrics : option MetricsConfig;
  global_trusted_proxies : option (list string)
}.

Definition GlobalConfig_default : GlobalConfig :=
  {| global_port := None; global_socket := None; global_log_level := None;
     global_log_format := None; global_audit_log := None; global_bind := None;
     global_tls := None; global_metrics := None; global_trusted_proxies := None |}.

Record CertRoleMapping : Type := {
  mapping_cn : string;
  mapping_role : string
}.

Record MtlsConfig : Type := {
  cert_role_map : option (list CertRoleMapping);
  default_role : option string
}.

(** [SecretToken] wraps a string for its [Debug] form only; [expose_secret] is the string. *)
Record TokenEntry : Type := {
  token : string;
  token_role : option string
}.

Record AuthConfig : Type := {
  auth_type : option string;
  auth_secret : option string;
  auth_tokens : option (list TokenEntry);
  auth_mtls : option MtlsConfig
}.

Record Condition : Type := {
  field : string;
  operator : string;
  value : option YamlValue;
  compiled_regex : option Regex
}.

Inductive ConditionNode : Type :=
  | Leaf (c : Condition)
  | And (l : list ConditionNode)
  | Or (l : list ConditionNode).

Record RateLimitConfig : Type := {
  requests : Z;
  period : Z;
  penalty : Z
}.

Definition default_rate_requests : Z := 50.
Definition default_rate_period : Z := 30.
Definition default_rate_penalty : Z := 30.

Record Rule : Type := {
  rule_name : string;
  rule_description : option string;
  rule_action : string;
  rule_priority : option Z;
  rule_conditions : list ConditionNode;
  rule_message : option string;
  rule_role : option string;
  rule_response_filter : option (list ResponseFilterEntry);
  rule_status : option Z;
  rule_methods : option (list string);
  rule_rate_limit : option RateLimitConfig;
  rule_dry_run : option bool
}.

Definition Rule_default : Rule :=
  {| rule_name := ""; rule_description := None; rule_action := ""; rule_priority := None;
     rule_conditions := []; rule_message := None; rule_role := None;
     rule_response_filter := None; rule_status := None; rule_methods := None;
     rule_rate_limit := None; rule_dry_run := None |}.

Record ProxyConfig : Type := {
  config_global : option GlobalConfig;
  config_auth : option AuthConfig;
  config_rules : option (list Rule)
}.

Definition ProxyConfig_default : ProxyConfig :=
  {| config_global := None; config_auth := None; config_rules := None |}.

(** The process environment and the file system, as the loaders see them. *)
Record Env : Type := {
  env_var : string -> option string;
  path_exists : string -> bool;
  read_to_string : string -> result string string;
  yaml_from_str : string -> result ProxyConfig string
}.

(** Field updates. *)
Definition set_value (c : Condition) (v : option YamlValue) : Condition :=
  {| field := field c; operator := operator c; value := v; compiled_regex := compiled_regex c |}.

Definition set_compiled_regex (c : Condition) (r : option Regex) : Condition :=
  {| field := field c; operator := operator c; value := value c; compiled_regex := r |}.

Definition set_rule_texts (r : Rule) (message : option string) (conditions : list ConditionNode)
    (methods : option (list string)) : Rule :=
  {| rule_name := rule_name r; rule_description := rule_description r;
     rule_action := rule_action r; rule_priority := rule_priority r;
     rule_conditions := conditions; rule_message := message; rule_role := rule_role r;
     rule_response_filter := rule_response_filter r; rule_status := rule_status r;
     rule_methods := methods; rule_rate_limit := rule_rate_limit r;
     rule_dry_run := rule_dry_run r |}.

Definition set_rule_conditions (r : Rule) (conditions : list ConditionNode) : Rule :=
  set_rule_texts r (rule_message r) conditions (rule_methods r).

Definition set_global_port (g : GlobalConfig) (p : option Z) : GlobalConfig :=
  {| global_port := p; global_socket := global_socket g; global_log_level := global_log_level g;
     global_log_format := global_log_format g; global_audit_log := global_audit_log g;
     global_bind := global_bind g; global_tls := global_tls g;
     global_metrics := global_metrics g; global_trusted_proxies := global_trusted_proxies g |}.

Definition set_global_socket (g : GlobalConfig) (s : option string) : GlobalConfig :=
  {| global_port := global_port g; global_socket := s; global_log_level := global_log_level g;
     global_log_format := global_log_format g; global_audit_log := global_audit_log g;
     global_bind := global_bind g; global_tls := global_tls g;
     global_metrics := global_metrics g; global_trusted_proxies := global_trusted_proxies g |}.

(** ** Environment expansion *)

Section WithEnv.
Context (env : Env).

Definition piece_text (p : piece) : string :=
  match p with
  | Text s => s
  | Capture name => unwrap_or (env_var env name) ""
  end.

Definition piece_missing (p : piece) : list string :=
  match p with
  | Text _ => []
  | Capture name => match env_var env name with Some _ => [] | None => [name] end
  end.

Definition expand_env (s : string) (required : bool) : result string string :=
  let pieces := env_pieces s in
  let missing := concat (map piece_missing pieces) in
  if required && negb (length missing =? 0)%nat
  then Err ("required environment variables missing: " +:+ join ", " missing)
  else Ok (join "" (map piece_text pieces)).

(** An optional field rewritten by a fallible function. *)
Definition opt_traverse {A B E} (f : A -> result B E) (o : option A) : result (option B) E :=
  match o with
  | None => Ok None
  | Some a => let? b := f a in Ok (Some b)
  end.

Fixpoint expand_value_env (v : YamlValue) (required : bool) : result YamlValue string :=
  match v with
  | YString s => let? s' := expand_env s required in Ok (YString s')
  | YSequence l =>
      let? l' := traverse (fun x => expand_value_env x required) l in Ok (YSequence l')
  | _ => Ok v
  end.

Fixpoint expand_node_env (n : ConditionNode) (required : bool) : result ConditionNode string :=
  match n with
  | Leaf c =>
      let? v := opt_traverse (fun v => expand_value_env v required) (value c) in
      Ok (Leaf (set_value c v))
  | And l => let? l' := traverse (fun x => expand_node_env x required) l in Ok (And l')
  | Or l => let? l' := traverse (fun x => expand_node_env x required) l in Ok (Or l')
  end.

Definition resolve_auth (a : AuthConfig) : result AuthConfig string :=
  let? secret := opt_traverse (fun s => expand_env s true) (auth_secret a) in
  let? tokens := opt_traverse
    (traverse (fun t => let? s := expand_env (token t) true in
                        Ok {| token := s; token_role := token_role t |})) (auth_tokens a) in
  Ok {| auth_type := auth_type a; auth_secret := secret; auth_tokens := tokens;
        auth_mtls := auth_mtls a |}.

Definition resolve_rule (r : Rule) : result Rule string :=
  let? message := opt_traverse (fun m => expand_env m false) (rule_message r) in
  let? conditions := traverse (fun n => expand_node_env n false) (rule_conditions r) in
  let? methods := opt_traverse (traverse (fun m => expand_env m false)) (rule_methods r) in
  Ok (set_rule_texts r message conditions methods).

Definition resolve_env_vars (cfg : ProxyConfig) : result ProxyConfig string :=
  let? auth := opt_traverse resolve_auth (config_auth cfg) in
  let? rules := opt_traverse (traverse resolve_rule) (config_rules cfg) in
  Ok {| config_global := config_global cfg; config_auth := auth; config_rules := rules |}.

(** ** Environment overrides *)

Definition get_or_default (g : option GlobalConfig) : GlobalConfig :=
  unwrap_or g GlobalConfig_default.

Definition override_port (cfg : ProxyConfig) : ProxyConfig :=
  match env_var env "DOCKER_PROXY_PORT" with
  | Some port =>
      match parse_u16 port with
      | Some p =>
          {| config_global := Some (set_global_port (get_or_default (config_global cfg)) (Some p));
             config_auth := config_auth cfg; config_rules := config_rules cfg |}
      | None => cfg
      end
  | None => cfg
  end.

Definition override_socket (cfg : ProxyConfig) : ProxyConfig :=
  match env_var env "DOCKER_SOCKET" with
  | Some socket =>
      if path_exists env socket then
        {| config_global :=
             Some (set_global_socket (get_or_default (config_global cfg)) (Some socket));
           config_auth := config_auth cfg; config_rules := config_rules cfg |}
      else cfg
  | None => cfg
  end.

Definition override_secret (cfg : ProxyConfig) : ProxyConfig :=
  match env_var env "DOCKER_PROXY_SECRET" with
  | Some secret =>
      if is_empty secret then cfg
      else
        let auth := unwrap_or (config_auth cfg)
          {| auth_type := Some "bearer"; auth_secret := None; auth_tokens := None;
             auth_mtls := None |} in
        {| config_global := config_global cfg;
           config_auth :=
             Some {| auth_type := or_else (auth_type auth) (Some "bearer");
                     auth_secret := Some secret;
                     auth_tokens := auth_tokens auth; auth_mtls := auth_mtls auth |};
           config_rules := config_rules cfg |}
  | None => cfg
  end.

Definition apply_env_overrides (cfg : ProxyConfig) : ProxyConfig :=
  override_secret (override_socket (override_port cfg)).

End WithEnv.

(** ** Regexes *)

Definition yaml_value_to_string (v : YamlValue) : option string :=
  match v with
  | YString s => Some s
  | YBool b => Some (if b then "true" else "false")
  | YNumber n => Some (yaml_number_to_string n)
  | _ => None
  end.

Definition is_match_operator (op : string) : bool :=
  String.eqb op "matches" || String.eqb op "not_matches".

Definition compile_regex_in_condition (c : Condition) : result Condition string :=
  if is_match_operator (operator c) then
    match value c with
    | None => Ok c
    | Some v =>
        match yaml_value_to_string v with
        | None => Ok c
        | Some s =>
            let? regex := map_err
              (fun e => "invalid regex for field '" +:+ field c +:+ "': " +:+ e) (Regex_new s) in
            Ok (set_compiled_regex c (Some regex))
        end
    end
  else Ok c.

Fixpoint compile_regexes_in_node (n : ConditionNode) : result ConditionNode string :=
  match n with
  | Leaf c => let? c' := compile_regex_in_condition c in Ok (Leaf c')
  | And l => let? l' := traverse compile_regexes_in_node l in Ok (And l')
  | Or l => let? l' := traverse compile_regexes_in_node l in Ok (Or l')
  end.

Definition compile_regexes (cfg : ProxyConfig) : result ProxyConfig string :=
  let? rules := opt_traverse
    (traverse (fun r => let? cs := traverse compile_regexes_in_node (rule_conditions r) in
                        Ok (set_rule_conditions r cs))) (config_rules cfg) in
  Ok {| config_global := config_global cfg; config_auth := config_auth cfg;
        config_rules := rules |}.

(** ** Validation *)

Definition validate_auth (cfg : ProxyConfig) : result unit string :=
  match config_auth cfg with
  | Some a =>
      match auth_type a with
      | Some t =>
          if String.eqb t "none" || String.eqb t "bearer" || String.eqb t "mtls" then Ok tt
          else Err ("invalid auth.type: " +:+ t)
      | None => Ok tt
      end
  | None => Ok tt
  end.

Definition validate_rule (r : Rule) : result unit string :=
  let quoted := "rule '" +:+ rule_name r +:+ "'" in
  if is_empty (rule_name r) then Err "rule name cannot be empty"
  else if is_empty (rule_action r) then Err (quoted +:+ " has no action")
  else if (length (rule_conditions r) =? 0)%nat then Err (quoted +:+ " has no conditions")
  else if String.eqb (rule_action r) "require_role" && is_none (rule_role r)
  then Err (quoted +:+ " uses require_role but has no role specified")
  else if String.eqb (rule_action r) "rate_limit" && is_none (rule_rate_limit r)
  then Err (quoted +:+ " uses rate_limit but has no rate_limit config")
  else if String.eqb (rule_action r) "response_filter" && is_none (rule_response_filter r)
  then Err (quoted +:+ " uses response_filter but has no response_filter entries")
  else Ok tt.

Fixpoint validate_rules (rules : list Rule) : result unit string :=
  match rules with
  | [] => Ok tt
  | r :: rs => let? _ := validate_rule r in validate_rules rs
  end.

Definition validate_metrics (cfg : ProxyConfig) : result unit string :=
  match config_global cfg with
  | Some g =>
      match global_metrics g with
      | Some m =>
          match metrics_enabled m with
          | Some true =>
              let path := unwrap_or (metrics_path m) "/metrics" in
              if String.eqb path "/" || is_empty path
              then Err "metrics path cannot be '/' or empty"
              else if starts_with path "/v"
              then Err ("metrics path '" +:+ path
                        +:+ "' looks like a Docker API versioned path")
              else Ok tt
          | _ => Ok tt
          end
      | None => Ok tt
      end
  | None => Ok tt
  end.

Definition validate (cfg : ProxyConfig) : result unit string :=
  let? _ := validate_auth cfg in
  let? _ := match config_rules cfg with
            | Some rules => validate_rules rules
            | None => Ok tt
            end in
  validate_metrics cfg.

Definition is_auth_configured (cfg : ProxyConfig) : bool :=
  match config_auth cfg with
  | None => false
  | Some a =>
      is_some_and (auth_type a) (fun t => String.eqb t "none")
      || is_some_and (auth_type a) (fun t => String.eqb t "mtls")
      || is_some_and (auth_tokens a) (fun t => negb (length t =? 0)%nat)
      || is_some_and (auth_secret a) (fun s => negb (is_empty s))
  end.

(** ** The priority sort *)

Definition priority_of (r : Rule) : Z := unwrap_or (rule_priority r) 0.

(** [slice::sort_by_key] is a stable sort; on the key [Reverse(priority)] this insertion keeps
    a rule in front of the later rules of the same priority. *)
Fixpoint insert_by_priority (r : Rule) (l : list Rule) : list Rule :=
  match l with
  | [] => [r]
  | r' :: l' =>
      if priority_of r' <=? priority_of r then r :: l else r' :: insert_by_priority r l'
  end.

Definition sort_by_priority (l : list Rule) : list Rule := foldr insert_by_priority [] l.

Definition sort_rules_by_priority (cfg : ProxyConfig) : ProxyConfig :=
  {| config_global := config_global cfg; config_auth := config_auth cfg;
     config_rules := option_map sort_by_priority (config_rules cfg) |}.

(** ** The loaders *)

Definition finish_load (env : Env) (cfg : ProxyConfig) : result ProxyConfig string :=
  let? cfg := resolve_env_vars env cfg in
  let? cfg := compile_regexes (apply_env_overrides env cfg) in
  let? _ := validate cfg in
  Ok (sort_rules_by_priority cfg).

Definition load_from_path (env : Env) (path : string) : result ProxyConfig string :=
  let? content := map_err (fun e => "read failed: " +:+ e) (read_to_string env path) in
  let? cfg := map_err (fun e => "parse failed: " +:+ e) (yaml_from_str env content) in
  finish_load env cfg.

Definition default_config_path (env : Env) : option string :=
  or_else (env_var env "DOCKER_PROXY_CONFIG")
          (if path_exists env "config.yaml" then Some "config.yaml" else None).

Definition load (env : Env) : result ProxyConfig string :=
  let? cfg :=
    match default_config_path env with
    | Some path =>
        if path_exists env path then
          let? content := map_err (fun e => "failed to read config file: " +:+ e)
                            (read_to_string env path) in
          map_err (fun e => "failed to parse config: " +:+ e) (yaml_from_str env content)
        else Ok ProxyConfig_default
    | None => Ok ProxyConfig_default
    end in
  finish_load env cfg.

End Config.

(** * Facts about the configuration *)

Section ConfigFacts.
Context `{NumberApi} `{RegexApi}.

(** ** Conditions as trees *)

Lemma ConditionNode_ind' (P : ConditionNode -> Prop) :
  (forall c, P (Leaf c)) ->
  (forall l, Forall P l -> P (And l)) ->
  (forall l, Forall P l -> P (Or l)) ->
  forall n, P n.
Proof.
  intros HL HA HO. fix IH 1. intros [c|l|l]; [apply HL|apply HA|apply HO].
  - induction l as [|n l IHl]; constructor; [apply IH|apply IHl].
  - induction l as [|n l IHl]; constructor; [apply IH|apply IHl].
Qed.

(** The conditions at the leaves of a node. *)
Fixpoint leaves (n : ConditionNode) : list Condition :=
  match n with
  | Leaf c => [c]
  | And l => concat (map leaves l)
  | Or l => concat (map leaves l)
  end.

Definition rule_leaves (r : Rule) : list Condition := concat (map leaves (rule_conditions r)).

(** ** What validation accepts *)

Definition rule_wf (r : Rule) : Prop :=
  rule_name r <> "" /\ rule_action r <> "" /\ rule_conditions r <> []
  /\ (rule_action r = "require_role" -> is_Some (rule_role r))
  /\ (rule_action r = "rate_limit" -> is_Some (rule_rate_limit r))
  /\ (rule_action r = "response_filter" -> is_Some (rule_response_filter r)).

Definition auth_wf (cfg : ProxyConfig) : Prop :=
  forall a t, config_auth cfg = Some a -> auth_type a = Some t ->
  t = "none" \/ t = "bearer" \/ t = "mtls".

Definition metrics_wf (cfg : ProxyConfig) : Prop :=
  forall g m, config_global cfg = Some g -> global_metrics g = Some m ->
  metrics_enabled m = Some true ->
  let path := unwrap_or (metrics_path m) "/metrics" in
  path <> "/" /\ path <> "" /\ starts_with path "/v" = false.

Definition rules_of (cfg : ProxyConfig) : list Rule := unwrap_or (config_rules cfg) [].

Definition config_wf (cfg : ProxyConfig) : Prop :=
  auth_wf cfg /\ Forall rule_wf (rules_of cfg) /\ metrics_wf cfg.

Lemma is_empty_spec (s : string) : is_empty s = true <-> s = "".
Proof. apply String.eqb_eq. Qed.

Lemma is_empty_false (s : string) : is_empty s = false <-> s <> "".
Proof. apply String.eqb_neq. Qed.

Lemma needs_spec {A} (a b : string) (o : option A) :
  String.eqb a b && is_none o = false <-> (a = b -> is_Some o).
Proof.
  destruct (String.eqb_spec a b) as [->|Hne]; destruct o as [x|]; simpl; split; intros Hx; try done.
  by destruct (Hx eq_refl).
Qed.

Lemma validate_rule_spec (r : Rule) : validate_rule r = Ok tt <-> rule_wf r.
Proof.
  unfold validate_rule, rule_wf. rewrite <- !needs_spec.
  pose proof (is_empty_false (rule_name r)) as Hn.
  pose proof (is_empty_false (rule_action r)) as Ha.
  assert (Hc : (length (rule_conditions r) =? 0)%nat = false <-> rule_conditions r <> [])
    by (destruct (rule_conditions r); by split).
  rewrite <- Hn, <- Ha, <- Hc. clear Hn Ha Hc.
  destruct (is_empty (rule_name r)); [by split; [|intros (? & _)]|].
  destruct (is_empty (rule_action r)); [by split; [|intros (_ & ? & _)]|].
  destruct (_ =? 0)%nat; [by split; [|intros (_ & _ & ? & _)]|].
  destruct (_ && is_none (rule_role r)); [by split; [|intros (_ & _ & _ & ? & _)]|].
  destruct (_ && is_none (rule_rate_limit r)); [by split; [|intros (_ & _ & _ & _ & ? & _)]|].
  destruct (_ && is_none (rule_response_filter r)); [by split; [|intros (_ & _ & _ & _ & _ & ?)]|].
  by split.
Qed.

Lemma validate_rules_spec (rules : list Rule) :
  validate_rules rules = Ok tt <-> Forall rule_wf rules.
Proof.
  induction rules as [|r rs IH]; simpl; [naive_solver|].
  rewrite result_bind_Ok, Forall_cons, <- IH, <- validate_rule_spec.
  split; [intros ([] & ? & ?)|intros []; exists tt]; done.
Qed.

Lemma validate_auth_spec (cfg : ProxyConfig) : validate_auth cfg = Ok tt <-> auth_wf cfg.
Proof.
  unfold validate_auth, auth_wf. destruct (config_auth cfg) as [a|]; [|naive_solver].
  destruct (auth_type a) as [t|] eqn:Et; [|naive_solver].
  destruct (String.eqb_spec t "none"); [naive_solver|].
  destruct (String.eqb_spec t "bearer"); [naive_solver|].
  destruct (String.eqb_spec t "mtls"); naive_solver.
Qed.

Lemma validate_metrics_spec (cfg : ProxyConfig) :
  validate_metrics cfg = Ok tt <-> metrics_wf cfg.
Proof.
  unfold validate_metrics, metrics_wf. destruct (config_global cfg) as [g|]; [|naive_solver].
  destruct (global_metrics g) as [m|] eqn:Em; [|naive_solver].
  destruct (metrics_enabled m) as [[]|] eqn:Ee; [|naive_solver|naive_solver].
  set (path := unwrap_or (metrics_path m) "/metrics").
  split.
  - intros Hv g' m' [= <-] Hm _. rewrite Em in Hm. injection Hm as <-.
    fold path. cbn zeta.
    destruct (String.eqb_spec path "/"); [done|]. destruct (is_empty path) eqn:E; [done|].
    destruct (starts_with path "/v"); [done|]. split_and!; try done.
    intros ->. done.
  - intros Hw. destruct (Hw g m eq_refl Em Ee) as (H1 & H2 & H3). fold path in H1, H2, H3.
    destruct (String.eqb_spec path "/"); [done|].
    destruct (is_empty path) eqn:E; [by apply is_empty_spec in E|]. simpl. by rewrite H3.
Qed.

Lemma validate_spec (cfg : ProxyConfig) : validate cfg = Ok tt <-> config_wf cfg.
Proof.
  unfold validate, config_wf, rules_of.
  rewrite <- validate_auth_spec, <- validate_rules_spec, <- validate_metrics_spec.
  destruct (validate_auth cfg) as [[]|]; simpl; [|naive_solver].
  destruct (config_rules cfg) as [rules|]; simpl; [|naive_solver].
  destruct (validate_rules rules) as [[]|]; simpl; naive_solver.
Qed.

(** ** The priority sort *)

Definition by_priority (a b : Rule) : Prop := priority_of b <= priority_of a.

Lemma insert_perm (r : Rule) (l : list Rule) : insert_by_priority r l ≡ₚ r :: l.
Proof.
  induction l as [|r' l IH]; simpl; [done|]. case_bool; [done|].
  rewrite IH. apply Permutation_swap.
Qed.

Lemma sort_perm (l : list Rule) : sort_by_priority l ≡ₚ l.
Proof. induction l as [|r l IH]; simpl; [done|]. by rewrite insert_perm, IH. Qed.

Lemma insert_sorted (r : Rule) (l : list Rule) :
  StronglySorted by_priority l -> StronglySorted by_priority (insert_by_priority r l).
Proof.
  induction 1 as [|r' l Hs IH Hall]; simpl; [by repeat constructor|].
  case_bool; b2p.
  - constructor; [by constructor|]. constructor; [done|].
    eapply Forall_impl; [exact Hall|]. unfold by_priority. intros x Hx; simpl in *. lia.
  - constructor; [done|]. rewrite insert_perm. constructor; [unfold by_priority; lia|done].
Qed.

Lemma sort_sorted (l : list Rule) : StronglySorted by_priority (sort_by_priority l).
Proof. induction l as [|r l IH]; simpl; [constructor|]. by apply insert_sorted. Qed.

Definition with_priority (p : Z) (r : Rule) : bool := priority_of r =? p.

Lemma insert_stable (p : Z) (r : Rule) (l : list Rule) :
  List.filter (with_priority p) (insert_by_priority r l)
  = List.filter (with_priority p) (r :: l).
Proof.
  induction l as [|r' l IH]; [done|].
  change (insert_by_priority r (r' :: l)) with
    (if priority_of r' <=? priority_of r then r :: r' :: l else r' :: insert_by_priority r l).
  destruct (Z.leb_spec (priority_of r') (priority_of r)); [done|].
  cbn [List.filter] in *. rewrite IH. unfold with_priority.
  destruct (Z.eqb_spec (priority_of r') p), (Z.eqb_spec (priority_of r) p); (done || lia).
Qed.

Lemma sort_stable (p : Z) (l : list Rule) :
  List.filter (with_priority p) (sort_by_priority l) = List.filter (with_priority p) l.
Proof.
  induction l as [|r l IH]; [done|]. simpl sort_by_priority. rewrite insert_stable. simpl.
  by rewrite IH.
Qed.

(** ** Compiled regexes *)

(** A condition is ready when every pattern it will be matched with has been compiled. *)
Definition regex_ready (c : Condition) : Prop :=
  forall v s, is_match_operator (operator c) = true -> value c = Some v ->
  yaml_value_to_string v = Some s ->
  exists re, Regex_new s = Ok re /\ compiled_regex c = Some re.

Lemma compile_condition_ready (c c' : Condition) :
  compile_regex_in_condition c = Ok c' -> regex_ready c'.
Proof.
  unfold compile_regex_in_condition, regex_ready.
  destruct (is_match_operator (operator c)) eqn:Eop; [|intros [= <-]; congruence].
  destruct (value c) as [v|] eqn:Ev; [|intros [= <-]; congruence].
  destruct (yaml_value_to_string v) as [s|] eqn:Es; [|intros [= <-] v' s' _ Hv' Hs'; congruence].
  destruct (Regex_new s) as [re|e] eqn:Er; simpl; [|done].
  intros [= <-] v' s' _ Hv' Hs'. simpl in *. exists re. split; [|done]. congruence.
Qed.

Lemma traverse_leaves (f : ConditionNode -> result ConditionNode string)
    (P : Condition -> Prop) (l l' : list ConditionNode) :
  Forall (fun n => forall n', f n = Ok n' -> Forall P (leaves n')) l ->
  traverse f l = Ok l' -> Forall P (concat (map leaves l')).
Proof.
  intros Hl Ht. apply traverse_Ok in Ht. induction Ht as [|n n' l l' Hn _ IH]; simpl; [done|].
  apply Forall_cons in Hl as [Hn' Hl]. apply Forall_app. auto.
Qed.

Lemma compile_node_ready (n n' : ConditionNode) :
  compile_regexes_in_node n = Ok n' -> Forall regex_ready (leaves n').
Proof.
  revert n'. induction n as [c|l IH|l IH] using ConditionNode_ind'; intros n'; simpl;
    intros Hc; apply result_bind_Ok in Hc as (x & Hx & [= <-]); simpl.
  - repeat constructor. by eapply compile_condition_ready.
  - by eapply traverse_leaves.
  - by eapply traverse_leaves.
Qed.

Lemma compile_nodes_ready (l l' : list ConditionNode) :
  traverse compile_regexes_in_node l = Ok l' -> Forall regex_ready (concat (map leaves l')).
Proof.
  apply traverse_leaves. apply List.Forall_forall. intros n _ n'. apply compile_node_ready.
Qed.

(** A rule keeps everything but its texts and conditions through the loader. *)
Definition same_identity (r r' : Rule) : Prop :=
  rule_name r' = rule_name r /\ rule_action r' = rule_action r
  /\ rule_priority r' = rule_priority r /\ rule_role r' = rule_role r
  /\ rule_response_filter r' = rule_response_filter r /\ rule_status r' = rule_status r
  /\ rule_rate_limit r' = rule_rate_limit r /\ rule_dry_run r' = rule_dry_run r.

Lemma opt_traverse_Ok {A B E} (f : A -> result B E) (o : option A) (o' : option B) :
  opt_traverse f o = Ok o' ->
  (o = None /\ o' = None) \/ exists a b, o = Some a /\ o' = Some b /\ f a = Ok b.
Proof.
  destruct o as [a|]; simpl; [|intros [= <-]; auto].
  intros (b & Hb & [= <-])%result_bind_Ok. right. eauto.
Qed.

Lemma compile_regexes_Ok (cfg cfg' : ProxyConfig) :
  compile_regexes cfg = Ok cfg' ->
  Forall2 (fun r r' => same_identity r r' /\ Forall regex_ready (rule_leaves r'))
    (rules_of cfg) (rules_of cfg')
  /\ config_global cfg' = config_global cfg /\ config_auth cfg' = config_auth cfg.
Proof.
  unfold compile_regexes. intros (o & Ho & [= <-])%result_bind_Ok. split; [|done].
  unfold rules_of. simpl.
  apply opt_traverse_Ok in Ho as [[-> ->]|(l & l' & -> & -> & Hl)]; [constructor|].
  apply traverse_Ok in Hl. eapply Forall2_impl; [exact Hl|]. intros r r' Hr; simpl in *.
  apply result_bind_Ok in Hr as (cs & Hcs & [= <-]). split; [by repeat split|].
  by apply compile_nodes_ready in Hcs.
Qed.

Lemma resolve_env_vars_Ok (env : Env) (cfg cfg' : ProxyConfig) :
  resolve_env_vars env cfg = Ok cfg' ->
  Forall2 same_identity (rules_of cfg) (rules_of cfg')
  /\ config_global cfg' = config_global cfg.
Proof.
  unfold resolve_env_vars. intros (a & _ & Hr)%result_bind_Ok.
  apply result_bind_Ok in Hr as (o & Ho & [= <-]). split; [|done]. unfold rules_of. simpl.
  apply opt_traverse_Ok in Ho as [[-> ->]|(l & l' & -> & -> & Hl)]; [constructor|].
  apply traverse_Ok in Hl. eapply Forall2_impl; [exact Hl|]. intros r r' Hr; simpl in *.
  unfold resolve_rule in Hr. apply result_bind_Ok in Hr as (m & _ & Hr).
  apply result_bind_Ok in Hr as (cs & _ & Hr). apply result_bind_Ok in Hr as (ms & _ & [= <-]).
  by repeat split.
Qed.

Lemma apply_env_overrides_rules (env : Env) (cfg : ProxyConfig) :
  config_rules (apply_env_overrides env cfg) = config_rules cfg.
Proof.
  unfold apply_env_overrides, override_secret, override_socket, override_port.
  repeat case_bool; done.
Qed.

Lemma rules_of_sort (cfg : ProxyConfig) :
  rules_of (sort_rules_by_priority cfg) = sort_by_priority (rules_of cfg).
Proof. unfold rules_of, sort_rules_by_priority. by destruct cfg as [? ? [l|]]. Qed.

Lemma same_identity_trans (a b c : Rule) :
  same_identity a b -> same_identity b c -> same_identity a c.
Proof. unfold same_identity. naive_solver congruence. Qed.

(** What a successful load establishes. *)
Definition loaded_from (parsed cfg : ProxyConfig) : Prop :=
  config_wf cfg
  /\ StronglySorted by_priority (rules_of cfg)
  /\ Forall (fun r => Forall regex_ready (rule_leaves r)) (rules_of cfg)
  /\ exists rules, rules_of cfg ≡ₚ rules /\ Forall2 same_identity (rules_of parsed) rules.

Lemma Forall2_trans_id (l1 l2 l3 : list Rule) :
  Forall2 same_identity l1 l2 -> Forall2 same_identity l2 l3 -> Forall2 same_identity l1 l3.
Proof.
  intros H12. revert l3. induction H12; inversion 1; subst; constructor;
    eauto using same_identity_trans.
Qed.

Lemma finish_load_Ok (env : Env) (parsed cfg : ProxyConfig) :
  finish_load env parsed = Ok cfg -> loaded_from parsed cfg.
Proof.
  unfold finish_load. intros (c1 & H1 & Hr)%result_bind_Ok.
  apply result_bind_Ok in Hr as (c2 & H2 & Hr).
  apply result_bind_Ok in Hr as ([] & H3 & [= <-]).
  apply resolve_env_vars_Ok in H1 as [H1 _]. apply compile_regexes_Ok in H2 as [H2 _].
  apply validate_spec in H3 as (Ha & Hw & Hm).
  assert (Hov : rules_of (apply_env_overrides env c1) = rules_of c1)
    by (unfold rules_of; by rewrite apply_env_overrides_rules).
  rewrite Hov in H2.
  split; [|split; [|split]].
  - split; [exact Ha|split; [|exact Hm]]. rewrite rules_of_sort, sort_perm. exact Hw.
  - rewrite rules_of_sort. apply sort_sorted.
  - rewrite rules_of_sort, sort_perm. clear -H2. induction H2; constructor; naive_solver.
  - exists (rules_of c2). rewrite rules_of_sort. split; [apply sort_perm|].
    eapply Forall2_trans_id; [exact H1|]. eapply Forall2_impl; [exact H2|]. naive_solver.
Qed.

End ConfigFacts.

#[export] Hint Resolve sort_perm sort_sorted : proxy.
