(* ===== verification/Loading.v ===== *)
(** * What makes a configuration fail to load, and what its credentials become

    The loader of Config.v has two places besides validation where it can refuse a file: a
    credential that names a variable which is not set, and a pattern that does not compile
    ([src/config.rs]).  [expanded] says what the expansion makes of a text. *)

From S2P Require Import Prelude RustStr External Json Config.

Open Scope Z_scope.

(** ** Fallible traversals *)

Section Traverse.
Context {A B E : Type}.

Lemma result_bind_is_ok (r : result A E) (k : A -> result B E) :
  is_ok (result_bind r k) = true <-> exists a, r = Ok a /\ is_ok (k a) = true.
Proof. destruct r; simpl; naive_solver. Qed.

Lemma is_ok_exists (r : result A E) : is_ok r = true <-> exists a, r = Ok a.
Proof. destruct r; simpl; naive_solver. Qed.

Lemma traverse_is_ok (f : A -> result B E) (l : list A) :
  is_ok (traverse f l) = true <-> Forall (fun x => is_ok (f x) = true) l.
Proof.
  induction l as [|x l IH]; simpl; [by split|]. rewrite Forall_cons, <- IH.
  destruct (f x); simpl; [|naive_solver]. destruct (traverse f l); simpl; naive_solver.
Qed.

Lemma opt_traverse_is_ok (f : A -> result B E) (o : option A) :
  is_ok (opt_traverse f o) = true <-> forall x, o = Some x -> is_ok (f x) = true.
Proof.
  destruct o as [x|]; simpl; [|by split]. destruct (f x) eqn:E1; simpl.
  - split; [|done]. intros _ y [= <-]. by rewrite E1.
  - split; [done|]. intros Hx. specialize (Hx x eq_refl). by rewrite E1 in Hx.
Qed.

Lemma bind_total_is_ok (r : result A E) (k : A -> B) :
  is_ok (result_bind r (fun a => Ok (k a))) = is_ok r.
Proof. by destruct r. Qed.

End Traverse.

Section Loading.
Context `{NumberApi} `{RegexApi}.
Context (env : Env).

(** ** Expansion *)

(** What a piece of a text becomes: a variable has to be set, to the empty string if need be. *)
Inductive expanded_piece : piece -> string -> Prop :=
  | expanded_text s : expanded_piece (Text s) s
  | expanded_variable name v : env_var env name = Some v -> expanded_piece (Capture name) v.

(** Every [${NAME}] of the text is replaced by the value of [NAME], and nothing else changes:
    the pieces are those of the text, in order. *)
Definition expanded (s s' : string) : Prop :=
  exists values, Forall2 expanded_piece (env_pieces s) values /\ s' = join "" values.

(** Every variable the text names is set. *)
Definition variables_set (s : string) : Prop :=
  forall name, Capture name ∈ env_pieces s -> is_Some (env_var env name).

Lemma missing_none (ps : list piece) :
  concat (map (piece_missing env) ps) = []
  <-> forall name, Capture name ∈ ps -> is_Some (env_var env name).
Proof.
  induction ps as [|p ps IH]; cbn [map concat]; [by split; [set_solver|]|].
  rewrite app_nil, IH. setoid_rewrite elem_of_cons. destruct p as [s|name]; simpl.
  - naive_solver.
  - destruct (env_var env name) eqn:E; split.
    + intros [_ Hs] n [[= ->]|Hn]; [by eexists|by apply Hs].
    + intros Hs. split; [done|]. intros n Hn. apply Hs. by right.
    + by intros [? _].
    + intros Hs. destruct (Hs name (or_introl eq_refl)) as [v Hv]. congruence.
Qed.

Lemma pieces_expanded (ps : list piece) :
  (forall name, Capture name ∈ ps -> is_Some (env_var env name)) ->
  Forall2 expanded_piece ps (map (piece_text env) ps).
Proof.
  induction ps as [|p ps IH]; intros Hs; cbn [map]; [constructor|]. constructor.
  - destruct p as [s|name]; [constructor|]. destruct (Hs name) as [v Hv]; [left|].
    constructor. simpl. by rewrite Hv.
  - apply IH. intros name Hn. apply Hs. by right.
Qed.

Lemma expand_env_is_ok s : is_ok (expand_env env s true) = true <-> variables_set s.
Proof.
  unfold variables_set. rewrite <- missing_none. unfold expand_env.
  by destruct (concat (map (piece_missing env) (env_pieces s))).
Qed.

Lemma expand_env_Ok s s' : expand_env env s true = Ok s' -> expanded s s'.
Proof.
  intros He. assert (Hs : variables_set s) by (apply expand_env_is_ok; by rewrite He).
  exists (map (piece_text env) (env_pieces s)). split; [by apply pieces_expanded|].
  unfold expand_env in He. apply missing_none in Hs. rewrite Hs in He. by injection He as <-.
Qed.

Lemma expanded_fun s s1 s2 : expanded s s1 -> expanded s s2 -> s1 = s2.
Proof.
  intros (l1 & H1 & ->) (l2 & H2 & ->). f_equal. revert l2 H2.
  induction H1 as [|p v ps vs Hp _ IH]; intros l2 H2; inversion H2 as [|? v2 ? vs2 Hp2 Hps]; subst;
    [done|]. f_equal; [|by apply IH]. destruct Hp; inversion Hp2; congruence.
Qed.

Lemma expand_env_optional s : is_ok (expand_env env s false) = true.
Proof. done. Qed.

Fixpoint expand_value_optional (v : YamlValue) {struct v} :
  is_ok (expand_value_env env v false) = true.
Proof.
  destruct v as [| | |s|l| |]; try reflexivity. simpl.
  assert (Hl : is_ok (traverse (fun x => expand_value_env env x false) l) = true).
  { induction l as [|x l IH]; [done|]. simpl. pose proof (expand_value_optional x) as Hx.
    destruct (expand_value_env env x false); [|done]. simpl.
    by destruct (traverse (fun x => expand_value_env env x false) l). }
  by destruct (traverse (fun x => expand_value_env env x false) l).
Qed.

Lemma expand_node_optional n : is_ok (expand_node_env env n false) = true.
Proof.
  induction n as [c|l IH|l IH] using ConditionNode_ind'; simpl; apply result_bind_is_ok.
  - destruct (value c) as [v|]; simpl; [|by eexists]. pose proof (expand_value_optional v) as Hv.
    destruct (expand_value_env env v false) as [v'|]; [|done]. by eexists.
  - apply traverse_is_ok in IH. apply is_ok_exists in IH as [l' ->]. by eexists.
  - apply traverse_is_ok in IH. apply is_ok_exists in IH as [l' ->]. by eexists.
Qed.

Lemma resolve_rule_optional r : is_ok (resolve_rule env r) = true.
Proof.
  unfold resolve_rule. apply result_bind_is_ok.
  assert (Hm : is_ok (opt_traverse (fun m => expand_env env m false) (rule_message r)) = true)
    by by apply opt_traverse_is_ok.
  apply is_ok_exists in Hm as [m ->]. exists m. split; [done|]. apply result_bind_is_ok.
  assert (Hc : is_ok (traverse (fun n => expand_node_env env n false) (rule_conditions r)) = true).
  { apply traverse_is_ok, Forall_forall. intros n _. apply expand_node_optional. }
  apply is_ok_exists in Hc as [cs ->]. exists cs. split; [done|]. apply result_bind_is_ok.
  assert (Hs : is_ok (opt_traverse (traverse (fun m => expand_env env m false)) (rule_methods r))
               = true).
  { apply opt_traverse_is_ok. intros l _. by apply traverse_is_ok, Forall_forall. }
  apply is_ok_exists in Hs as [ms ->]. by exists ms.
Qed.

(** ** Credentials *)

(** The texts of an authentication section that name secrets. *)
Definition secret_text (a : AuthConfig) (s : string) : Prop :=
  auth_secret a = Some s \/ exists ts t, auth_tokens a = Some ts /\ t ∈ ts /\ token t = s.

Definition expanded_token (t t' : TokenEntry) : Prop :=
  expanded (token t) (token t') /\ token_role t' = token_role t.

(** A section with each of its secrets expanded, and nothing else changed. *)
Definition expanded_auth (a a' : AuthConfig) : Prop :=
  auth_type a' = auth_type a /\ auth_mtls a' = auth_mtls a
  /\ option_Forall2 expanded (auth_secret a) (auth_secret a')
  /\ option_Forall2 (Forall2 expanded_token) (auth_tokens a) (auth_tokens a').

Definition resolve_token (t : TokenEntry) : result TokenEntry string :=
  let? s := expand_env env (token t) true in Ok {| token := s; token_role := token_role t |}.

Lemma resolve_auth_parts (a : AuthConfig) :
  is_ok (resolve_auth env a)
  = is_ok (opt_traverse (fun s => expand_env env s true) (auth_secret a))
    && is_ok (opt_traverse (traverse resolve_token) (auth_tokens a)).
Proof.
  unfold resolve_auth. destruct (opt_traverse _ (auth_secret a)); [|done]. simpl.
  apply bind_total_is_ok.
Qed.

Lemma resolve_auth_is_ok (a : AuthConfig) :
  is_ok (resolve_auth env a) = true <-> forall s, secret_text a s -> variables_set s.
Proof.
  rewrite resolve_auth_parts, andb_true_iff, !opt_traverse_is_ok.
  setoid_rewrite traverse_is_ok. setoid_rewrite Forall_forall. unfold resolve_token.
  setoid_rewrite bind_total_is_ok. setoid_rewrite expand_env_is_ok. unfold secret_text.
  split; [intros [Hs Ht] s [E|(ts & t & E & Hin & <-)]; eauto|].
  intros Hs. split; [by auto|]. intros ts E t Hin. apply Hs. right. eauto.
Qed.

Lemma resolve_auth_Ok (a a' : AuthConfig) : resolve_auth env a = Ok a' -> expanded_auth a a'.
Proof.
  unfold resolve_auth. intros (o & Ho & Hr)%result_bind_Ok.
  apply result_bind_Ok in Hr as (ts & Hts & [= <-]). split_and!; [done|done| |]; cbn.
  - apply opt_traverse_Ok in Ho as [[-> ->]|(s & s' & -> & -> & Hs)]; constructor.
    by apply expand_env_Ok.
  - apply opt_traverse_Ok in Hts as [[-> ->]|(l & l' & -> & -> & Hl)]; constructor.
    apply traverse_Ok in Hl. eapply Forall2_impl; [exact Hl|]. intros t t' Ht. simpl in Ht.
    apply result_bind_Ok in Ht as (s & Hs & [= <-]). split; [by apply expand_env_Ok|done].
Qed.

(** The secrets of a configuration. *)
Definition credential (cfg : ProxyConfig) (s : string) : Prop :=
  exists a, config_auth cfg = Some a /\ secret_text a s.

Lemma resolve_env_is_ok (cfg : ProxyConfig) :
  is_ok (resolve_env_vars env cfg) = true <-> forall s, credential cfg s -> variables_set s.
Proof.
  unfold resolve_env_vars, credential. rewrite result_bind_is_ok.
  assert (Hr : is_ok (opt_traverse (traverse (resolve_rule env)) (config_rules cfg)) = true).
  { apply opt_traverse_is_ok. intros l _. apply traverse_is_ok, Forall_forall. intros r _.
    apply resolve_rule_optional. }
  apply is_ok_exists in Hr as [rules ->]. cbn [result_bind].
  assert (Ha : is_ok (opt_traverse (resolve_auth env) (config_auth cfg)) = true
               <-> forall s, (exists a, config_auth cfg = Some a /\ secret_text a s) -> variables_set s).
  { rewrite opt_traverse_is_ok. setoid_rewrite resolve_auth_is_ok. naive_solver. }
  rewrite <- Ha, is_ok_exists. split; intros (a & Hres); exists a; [by destruct Hres|done].
Qed.

Lemma resolve_env_auth (cfg cfg' : ProxyConfig) :
  resolve_env_vars env cfg = Ok cfg' ->
  option_Forall2 expanded_auth (config_auth cfg) (config_auth cfg').
Proof.
  unfold resolve_env_vars. intros (a & Ha & Hr)%result_bind_Ok.
  apply result_bind_Ok in Hr as (rules & _ & [= <-]). cbn.
  apply opt_traverse_Ok in Ha as [[-> ->]|(b & b' & -> & -> & Hb)]; constructor.
  by apply resolve_auth_Ok.
Qed.

(** The secret of the environment, which replaces that of the file when it is not empty. *)
Definition environment_secret : string := unwrap_or (env_var env "DOCKER_PROXY_SECRET") "".

Lemma overrides_auth (cfg : ProxyConfig) :
  config_auth (apply_env_overrides env cfg)
  = if is_empty environment_secret then config_auth cfg
    else let auth := unwrap_or (config_auth cfg)
           {| auth_type := Some "bearer"; auth_secret := None; auth_tokens := None;
              auth_mtls := None |} in
         Some {| auth_type := or_else (auth_type auth) (Some "bearer");
                 auth_secret := Some environment_secret; auth_tokens := auth_tokens auth;
                 auth_mtls := auth_mtls auth |}.
Proof.
  assert (Hkeep : config_auth (override_socket env (override_port env cfg)) = config_auth cfg).
  { unfold override_socket, override_port. by repeat case_match. }
  unfold apply_env_overrides, override_secret, environment_secret.
  destruct (env_var env "DOCKER_PROXY_SECRET") as [s|]; simpl; [|done].
  destruct (is_empty s); [done|]. cbn [config_auth]. by rewrite Hkeep.
Qed.

Lemma finish_load_auth (cfg loaded : ProxyConfig) :
  finish_load env cfg = Ok loaded ->
  exists resolved, resolve_env_vars env cfg = Ok resolved
    /\ config_auth loaded = config_auth (apply_env_overrides env resolved).
Proof.
  unfold finish_load. intros (c1 & H1 & Hr)%result_bind_Ok.
  apply result_bind_Ok in Hr as (c2 & H2 & Hr). apply result_bind_Ok in Hr as ([] & _ & [= <-]).
  exists c1. split; [done|]. by apply compile_regexes_Ok in H2 as (_ & _ & Ha).
Qed.

(** ** Patterns *)

(** The pattern a condition is compiled from. *)
Definition pattern_of (c : Condition) : option string :=
  if is_match_operator (operator c) then
    match value c with
    | Some v => yaml_value_to_string v
    | None => None
    end
  else None.

Definition patterns_compile (cfg : ProxyConfig) : Prop :=
  forall r c s, r ∈ rules_of cfg -> c ∈ rule_leaves r -> pattern_of c = Some s ->
    is_ok (Regex_new s) = true.

Definition leaf_compiles (c : Condition) : Prop :=
  forall s, pattern_of c = Some s -> is_ok (Regex_new s) = true.

Lemma compile_condition_is_ok c :
  is_ok (compile_regex_in_condition c) = true <-> leaf_compiles c.
Proof.
  unfold compile_regex_in_condition, leaf_compiles, pattern_of.
  destruct (is_match_operator (operator c)); [|by split].
  destruct (value c) as [v|]; [|by split].
  destruct (yaml_value_to_string v) as [s|]; [|by split].
  destruct (Regex_new s) as [re|e] eqn:E; simpl; split; try done.
  - intros _ s' [= <-]. by rewrite E.
  - intros Hs. specialize (Hs s eq_refl). by rewrite E in Hs.
Qed.

Lemma compile_nodes_is_ok (l : list ConditionNode) :
  Forall (fun n => is_ok (compile_regexes_in_node n) = true <-> Forall leaf_compiles (leaves n)) l ->
  is_ok (traverse compile_regexes_in_node l) = true
  <-> Forall leaf_compiles (concat (map leaves l)).
Proof.
  intros Hl. rewrite traverse_is_ok, Forall_concat, Forall_map.
  induction Hl as [|n l Hn _ IH]; [by split|]. rewrite !Forall_cons, Hn, IH. done.
Qed.

Lemma compile_node_is_ok n :
  is_ok (compile_regexes_in_node n) = true <-> Forall leaf_compiles (leaves n).
Proof.
  induction n as [c|l IH|l IH] using ConditionNode_ind'; simpl.
  - by rewrite bind_total_is_ok, Forall_singleton, <- compile_condition_is_ok.
  - by rewrite bind_total_is_ok, <- compile_nodes_is_ok.
  - by rewrite bind_total_is_ok, <- compile_nodes_is_ok.
Qed.

Lemma compile_regexes_is_ok (cfg : ProxyConfig) :
  is_ok (compile_regexes cfg) = true <-> patterns_compile cfg.
Proof.
  unfold compile_regexes, patterns_compile, rules_of. rewrite bind_total_is_ok, opt_traverse_is_ok.
  assert (Hr : forall r, is_ok (let? cs := traverse compile_regexes_in_node (rule_conditions r) in
                 Ok (set_rule_conditions r cs)) = true <-> Forall leaf_compiles (rule_leaves r)).
  { intros r. rewrite bind_total_is_ok. apply compile_nodes_is_ok, Forall_forall.
    intros n _. apply compile_node_is_ok. }
  setoid_rewrite traverse_is_ok. setoid_rewrite Forall_forall. setoid_rewrite Hr.
  setoid_rewrite Forall_forall. unfold leaf_compiles.
  destruct (config_rules cfg) as [l|]; simpl; [|set_solver]. naive_solver.
Qed.

End Loading.
