(* ===== verification/RateLimiter.v ===== *)
(** * The token-bucket rate limiter ([RateLimiter] of [src/rules.rs])

    The map of buckets behind the mutex is a [gmap]; each method is one atomic step on it, and
    the [Instant::now()] the method reads is its [now] argument.  [check] reads the clock before
    it takes the lock, so nothing here assumes that successive [now]s increase. *)

From S2P Require Import Prelude RustStr F64.

Open Scope Z_scope.

Definition MAX_RATE_LIMIT_BUCKETS : Z := 16384.

Record RateBucket : Type := {
  last_check : Instant;
  tokens : f64;
  max_tokens : f64;
  blocked_until : option Instant
}.

Abbreviation RateLimiter := (gmap string RateBucket).

Definition RateLimiter_new : RateLimiter := ∅.

Definition fresh_bucket (now : Instant) (max : f64) : RateBucket :=
  {| last_check := now; tokens := max; max_tokens := max; blocked_until := None |}.

(** The part of [check] after the refill and the reset of an expired block. *)
Definition take_token (now : Instant) (max refill_rate : f64) (penalty_secs : Z)
    (b : RateBucket) : outcome bool * RateBucket :=
  let elapsed := as_secs_f64 (duration_since now (last_check b)) in
  let refilled := f64_min (f64_add (tokens b) (f64_mul elapsed refill_rate)) max in
  if f64_ge refilled f64_one then
    (Done true,
     {| last_check := now; tokens := f64_sub refilled f64_one; max_tokens := max;
        blocked_until := blocked_until b |})
  else
    let b' := {| last_check := now; tokens := refilled; max_tokens := max;
                 blocked_until := blocked_until b |} in
    match instant_add now (from_secs penalty_secs) with
    | Some until =>
        (Done false,
         {| last_check := now; tokens := refilled; max_tokens := max;
            blocked_until := Some until |})
    | None => (Panic, b')
    end.

Definition check_bucket (now : Instant) (max refill_rate : f64) (penalty_secs : Z)
    (b : RateBucket) : outcome bool * RateBucket :=
  match blocked_until b with
  | Some blocked =>
      if now <? blocked then (Done false, b)
      else take_token now max refill_rate penalty_secs
             {| last_check := now; tokens := max; max_tokens := max_tokens b;
                blocked_until := None |}
  | None => take_token now max refill_rate penalty_secs b
  end.

Definition refill_rate_of (max_requests period_secs : Z) : f64 :=
  if period_secs =? 0 then f64_of_Z max_requests
  else f64_div (f64_of_Z max_requests) (f64_of_Z period_secs).

Definition check (rl : RateLimiter) (now : Instant) (key : string)
    (max_requests period_secs penalty_secs : Z) : outcome bool * RateLimiter :=
  if max_requests =? 0 then (Done false, rl)
  else
    let max := f64_of_Z max_requests in
    let refill_rate := refill_rate_of max_requests period_secs in
    if is_none (rl !! key) && (MAX_RATE_LIMIT_BUCKETS <=? Z.of_nat (size rl))
    then (Done false, rl)
    else
      let bucket := unwrap_or (rl !! key) (fresh_bucket now max) in
      let '(r, bucket') := check_bucket now max refill_rate penalty_secs bucket in
      (r, <[key := bucket']> rl).

(** [retain]: what [cleanup] keeps. *)
Definition keep_bucket (now : Instant) (b : RateBucket) : bool :=
  let not_full := f64_lt (tokens b) (f64_sub (max_tokens b) f64_thousandth) in
  match blocked_until b with
  | Some blocked => (now <? blocked) || not_full
  | None => not_full
  end.

Definition cleanup (rl : RateLimiter) (now : Instant) : RateLimiter :=
  filter (fun kv => keep_bucket now kv.2 = true) rl.

(** A trace of calls on the limiter. *)
Inductive call : Type :=
  | Check (now : Instant) (key : string) (max_requests period_secs penalty_secs : Z)
  | Cleanup (now : Instant).

Definition step (rl : RateLimiter) (c : call) : RateLimiter :=
  match c with
  | Check now key m p q => snd (check rl now key m p q)
  | Cleanup now => cleanup rl now
  end.

Definition run (rl : RateLimiter) (cs : list call) : RateLimiter := fold_left step cs rl.

(** What the checks of one key answer in a trace of calls. *)
Fixpoint answers (key : string) (rl : RateLimiter) (cs : list call) : list (outcome bool) :=
  match cs with
  | [] => []
  | c :: cs' =>
      match c with
      | Check now k m p q =>
          if decide (k = key) then [fst (check rl now k m p q)] else []
      | Cleanup _ => []
      end ++ answers key (step rl c) cs'
  end.

Definition asks (key : string) (c : call) : bool :=
  match c with
  | Check _ k _ _ _ => bool_decide (k = key)
  | Cleanup _ => false
  end.

(** The calls that may surround the checks of a key at one instant: its own, those of other keys
    at any time, and clean-ups. *)
Definition around (now : Instant) (key : string) (n p q : Z) (c : call) : Prop :=
  match c with
  | Check t k n' p' q' => k = key -> t = now /\ n' = n /\ p' = p /\ q' = q
  | Cleanup _ => True
  end.

(** ** The size of the table and the other keys *)

Definition within_capacity (rl : RateLimiter) : Prop :=
  Z.of_nat (size rl) <= MAX_RATE_LIMIT_BUCKETS.

Lemma check_cases rl now key m p q :
  snd (check rl now key m p q) = rl
  \/ (exists b, snd (check rl now key m p q) = <[key := b]> rl
      /\ (rl !! key = None -> Z.of_nat (size rl) < MAX_RATE_LIMIT_BUCKETS)).
Proof.
  unfold check. destruct (m =? 0); [by left|].
  destruct (is_none (rl !! key) && _) eqn:E; [by left|]. right.
  destruct (check_bucket _ _ _ _ _) as [r b] eqn:Eb. exists b. split; [done|].
  intros Hn. rewrite Hn in E. simpl in E. b2p. done.
Qed.

Lemma check_capacity rl now key m p q :
  within_capacity rl -> within_capacity (snd (check rl now key m p q)).
Proof.
  unfold within_capacity. intros Hc.
  destruct (check_cases rl now key m p q) as [->|(b & -> & Hb)]; [done|].
  destruct (rl !! key) as [b'|] eqn:E.
  - rewrite map_size_insert_Some by eauto. done.
  - rewrite map_size_insert_None by done. specialize (Hb eq_refl). lia.
Qed.

Lemma check_size rl now key m p q :
  (size (snd (check rl now key m p q)) <= S (size rl))%nat.
Proof.
  destruct (check_cases rl now key m p q) as [->|(b & -> & _)]; [lia|].
  destruct (rl !! key) eqn:E.
  - rewrite map_size_insert_Some by eauto. lia.
  - by rewrite map_size_insert_None.
Qed.

(** A check depends on its own bucket, and on the rest of the table only when it needs a place
    there. *)
Lemma check_agrees rl rl2 now key m p q :
  rl !! key = rl2 !! key ->
  is_Some (rl !! key)
    \/ Z.of_nat (size rl) < MAX_RATE_LIMIT_BUCKETS /\ Z.of_nat (size rl2) < MAX_RATE_LIMIT_BUCKETS ->
  fst (check rl now key m p q) = fst (check rl2 now key m p q)
  /\ snd (check rl now key m p q) !! key = snd (check rl2 now key m p q) !! key.
Proof.
  intros Hk Hroom. unfold check. destruct (m =? 0); [done|]. rewrite <- Hk.
  assert (Hg : forall l : RateLimiter,
            is_Some (rl !! key) \/ Z.of_nat (size l) < MAX_RATE_LIMIT_BUCKETS ->
            is_none (rl !! key) && (MAX_RATE_LIMIT_BUCKETS <=? Z.of_nat (size l)) = false).
  { intros l [[b ->]|Hl]; [done|]. destruct (Z.leb_spec MAX_RATE_LIMIT_BUCKETS (Z.of_nat (size l)));
      [lia|]. apply andb_false_r. }
  rewrite !Hg by tauto. destruct (check_bucket _ _ _ _ _) as [r b]. split; [done|].
  cbn [snd]. by rewrite !lookup_insert_eq.
Qed.

Lemma cleanup_subseteq rl now : cleanup rl now ⊆ rl.
Proof. apply map_filter_subseteq. Qed.

Lemma cleanup_capacity rl now : within_capacity rl -> within_capacity (cleanup rl now).
Proof.
  unfold within_capacity. intros Hc. pose proof (map_subseteq_size _ _ (cleanup_subseteq rl now)).
  lia.
Qed.

Lemma run_capacity cs rl : within_capacity rl -> within_capacity (run rl cs).
Proof.
  unfold run. revert rl. induction cs as [|c cs IH]; intros rl Hc; simpl; [done|].
  apply IH. destruct c; simpl; [by apply check_capacity|by apply cleanup_capacity].
Qed.

Lemma check_other rl now key key' m p q :
  key <> key' -> snd (check rl now key m p q) !! key' = rl !! key'.
Proof.
  intros Hne. destruct (check_cases rl now key m p q) as [->|(b & -> & _)]; [done|].
  by apply lookup_insert_ne.
Qed.

(** ** Exact budgets at one instant *)

(** A bucket that holds exactly [k] tokens at [now]. *)
Definition holds (now : Instant) (k : Z) (b : RateBucket) : Prop :=
  last_check b = now /\ tokens b = f64_of_Z k /\ blocked_until b = None.

Lemma take_token_same_instant now n k rate q b :
  small n -> 0 <= k <= n -> f64_positive rate -> holds now k b ->
  take_token now (f64_of_Z n) rate q b =
  if 1 <=? k
  then (Done true, {| last_check := now; tokens := f64_of_Z (k - 1);
                      max_tokens := f64_of_Z n; blocked_until := None |})
  else match instant_add now (from_secs q) with
       | Some until => (Done false, {| last_check := now; tokens := f64_of_Z k;
                                       max_tokens := f64_of_Z n; blocked_until := Some until |})
       | None => (Panic, {| last_check := now; tokens := f64_of_Z k;
                            max_tokens := f64_of_Z n; blocked_until := None |})
       end.
Proof.
  intros Hn Hk Hr (Hl & Ht & Hb). unfold small in Hn. unfold take_token.
  rewrite Hl, Ht, Hb, duration_since_same, as_secs_f64_zero, f64_mul_zero by done.
  rewrite f64_add_zero by (unfold small; lia).
  rewrite f64_of_Z_min by (unfold small; lia). rewrite Z.min_l by lia.
  unfold f64_one. rewrite f64_of_Z_ge by (unfold small; lia).
  destruct (Z.leb_spec 1 k); [|done]. rewrite f64_of_Z_sub by (unfold small; lia). done.
Qed.

Lemma refill_rate_positive n p :
  0 < n < 2 ^ 53 -> 0 <= p < 2 ^ 53 -> f64_positive (refill_rate_of n p).
Proof.
  intros Hn Hp. unfold refill_rate_of. destruct (Z.eqb_spec p 0).
  - destruct n as [|r|r]; [lia| |lia]. rewrite f64_of_Z_pos by lia. done.
  - apply f64_div_positive; lia.
Qed.

(** Settings for which the arithmetic is exact and the penalty does not overflow the clock. *)
Definition exact_settings (now n p q : Z) : Prop :=
  0 < n < 2 ^ 53 /\ 0 <= p < 2 ^ 53 /\ is_Some (instant_add now (from_secs q)).

Lemma check_holding rl now key n p q k b :
  exact_settings now n p q -> 0 <= k <= n -> rl !! key = Some b -> holds now k b ->
  check rl now key n p q =
  if 1 <=? k
  then (Done true, <[key := {| last_check := now; tokens := f64_of_Z (k - 1);
                               max_tokens := f64_of_Z n; blocked_until := None |}]> rl)
  else (Done false, <[key := {| last_check := now; tokens := f64_of_Z k;
                                max_tokens := f64_of_Z n;
                                blocked_until := Some (now + from_secs q) |}]> rl).
Proof.
  intros (Hn & Hp & [u Hu]) Hk Hl Hb. pose proof (instant_add_Some _ _ _ Hu) as ->.
  unfold check. rewrite Hl. simpl. destruct (Z.eqb_spec n 0); [lia|].
  unfold check_bucket. pose proof Hb as (_ & _ & Hnone). rewrite Hnone.
  rewrite (take_token_same_instant now n k) by
    (unfold small; auto using refill_rate_positive || lia).
  rewrite Hu. by destruct (1 <=? k).
Qed.

(** A key that has no bucket behaves like one whose bucket is full. *)
Lemma check_fresh rl now key n p q :
  rl !! key = None -> Z.of_nat (size rl) < MAX_RATE_LIMIT_BUCKETS -> n <> 0 ->
  check rl now key n p q = check (<[key := fresh_bucket now (f64_of_Z n)]> rl) now key n p q.
Proof.
  intros Hl Hs Hn. unfold check. rewrite Hl, lookup_insert_eq. simpl.
  destruct (Z.leb_spec MAX_RATE_LIMIT_BUCKETS (Z.of_nat (size rl))); [lia|].
  destruct (Z.eqb_spec n 0); [done|]. destruct (check_bucket _ _ _ _ _). by rewrite insert_insert_eq.
Qed.

Lemma fresh_holds now n : holds now n (fresh_bucket now (f64_of_Z n)).
Proof. done. Qed.

(** ** Penalties *)

Lemma check_while_blocked rl now key n p q b u :
  n <> 0 -> rl !! key = Some b -> blocked_until b = Some u -> now < u ->
  check rl now key n p q = (Done false, rl).
Proof.
  intros Hn Hl Hb Hu. unfold check. rewrite Hl. simpl. destruct (Z.eqb_spec n 0); [done|].
  unfold check_bucket. rewrite Hb. destruct (Z.ltb_spec now u); [|lia].
  by rewrite insert_id.
Qed.

Lemma check_bucket_expired now max rate q b u :
  blocked_until b = Some u -> u <= now ->
  check_bucket now max rate q b = check_bucket now max rate q (fresh_bucket now max).
Proof.
  intros Hb Hu. unfold check_bucket. rewrite Hb. simpl. destruct (Z.ltb_spec now u); [lia|].
  reflexivity.
Qed.

(** ** What cleanup keeps *)

(** The buckets [cleanup] never removes, whatever the time: [tokens] is not refilled there. *)
Definition sticky (b : RateBucket) : Prop :=
  f64_lt (tokens b) (f64_sub (max_tokens b) f64_thousandth) = true.

Lemma sticky_kept now b : sticky b -> keep_bucket now b = true.
Proof.
  unfold sticky, keep_bucket. intros ->. destruct (blocked_until b); [apply orb_true_r|done].
Qed.

Lemma cleanup_sticky rl now key b :
  rl !! key = Some b -> sticky b -> cleanup rl now !! key = Some b.
Proof.
  intros Hl Hs. apply map_lookup_filter_Some. split; [done|]. by apply sticky_kept.
Qed.

Lemma cleanup_all_sticky rl now :
  (forall key b, rl !! key = Some b -> sticky b) -> cleanup rl now = rl.
Proof.
  intros H. apply map_filter_id. intros key b Hl. apply sticky_kept. by eapply H.
Qed.

(** A bucket of [n] that has just given a token away is sticky, for every budget up to
    1024. *)
Definition sticky_after (n : Z) : bool :=
  f64_lt (f64_of_Z (n - 1)) (f64_sub (f64_of_Z n) f64_thousandth).

Lemma sticky_after_all : forallb sticky_after (map Z.of_nat (seq 1 1024)) = true.
Proof. vm_compute. reflexivity. Qed.

Lemma sticky_after_small n : 1 <= n <= 1024 -> sticky_after n = true.
Proof.
  intros Hn. pose proof sticky_after_all as H. rewrite forallb_In in H. apply H.
  apply list_elem_of_In, in_map_iff. exists (Z.to_nat n). split; [lia|]. apply in_seq. lia.
Qed.

Lemma sticky_level k n :
  0 <= k < n -> n <= 1024 ->
  f64_lt (f64_of_Z k) (f64_sub (f64_of_Z n) f64_thousandth) = true.
Proof.
  intros Hk Hn. pose proof (sticky_after_small n ltac:(lia)) as Hs. unfold sticky_after in Hs.
  destruct (decide (k = n - 1)) as [->|Hne]; [done|].
  apply (f64_lt_trans _ (f64_of_Z (n - 1))); [|done].
  rewrite f64_of_Z_lt by (unfold small; lia). apply Z.ltb_lt. lia.
Qed.

(** ** Budgets among other calls *)

Section Budget.
Context (now : Instant) (key : string) (n p q : Z).
Hypothesis Hset : exact_settings now n p q.
Hypothesis Hsmall : n <= 1024.
Hypothesis Hpenalty : 0 < q.

(** The bucket holds [k] tokens of [n], some of which have been taken; or it is blocked. *)
Definition partly (k : Z) (rl : RateLimiter) : Prop :=
  exists b, rl !! key = Some b /\ holds now k b /\ max_tokens b = f64_of_Z n.

Definition barred (rl : RateLimiter) : Prop :=
  exists b, rl !! key = Some b /\ blocked_until b = Some (now + from_secs q)
            /\ tokens b = f64_of_Z 0 /\ max_tokens b = f64_of_Z n.

(** Calls that are not the key's own leave its bucket where it is. *)
Lemma beside_lookup rl c b :
  asks key c = false -> rl !! key = Some b -> sticky b -> step rl c !! key = Some b.
Proof.
  intros Ha Hl Hs. destruct c as [t k m p' q'|t]; simpl in *.
  - apply bool_decide_eq_false in Ha. by rewrite check_other.
  - by apply cleanup_sticky.
Qed.

Lemma partly_beside k rl c :
  0 <= k < n -> asks key c = false -> partly k rl -> partly k (step rl c).
Proof.
  intros Hk Ha (b & Hl & Hb & Hm). exists b. split; [|done]. apply beside_lookup; [done|done|].
  destruct Hb as (_ & Ht & _). unfold sticky. rewrite Ht, Hm. by apply sticky_level.
Qed.

Lemma barred_beside rl c : asks key c = false -> barred rl -> barred (step rl c).
Proof.
  destruct Hset as [Hn _]. intros Ha (b & Hl & Hb & Ht & Hm). exists b. split; [|done].
  apply beside_lookup; [done|done|]. unfold sticky. rewrite Ht, Hm. apply sticky_level; lia.
Qed.

(** The key's own check. *)
Lemma partly_own k rl :
  0 <= k <= n -> partly k rl \/ (exists b, rl !! key = Some b /\ holds now k b) ->
  let '(r, rl') := check rl now key n p q in
  if 1 <=? k then r = Done true /\ partly (k - 1) rl' else r = Done false /\ barred rl'.
Proof.
  intros Hk Hb. assert (exists b, rl !! key = Some b /\ holds now k b) as (b & Hl & Hh).
  { destruct Hb as [(b & ? & ? & _)|?]; eauto. }
  rewrite (check_holding rl now key n p q k b) by done.
  destruct (Z.leb_spec 1 k); (split; [done|]); (eexists; split; [apply lookup_insert_eq|]).
  - by split.
  - assert (k = 0) as -> by lia. by split_and!.
Qed.

Lemma barred_own rl : barred rl -> check rl now key n p q = (Done false, rl).
Proof.
  destruct Hset as [Hn _]. intros (b & Hl & Hb & _). eapply check_while_blocked; [lia|done|done|].
  unfold from_secs, NANOS_PER_SEC. lia.
Qed.

Definition own_checks (cs : list call) : nat := length (List.filter (asks key) cs).

Lemma answers_barred cs rl :
  Forall (around now key n p q) cs -> barred rl ->
  answers key rl cs = replicate (own_checks cs) (Done false).
Proof.
  intros Ha. revert rl. induction Ha as [|c cs Hc _ IH]; intros rl Hb; [done|].
  unfold own_checks. cbn [answers List.filter]. destruct (asks key c) eqn:Ec.
  - destruct c as [t k n' p' q'|t]; [|done]. simpl in Ec, Hc. apply bool_decide_eq_true in Ec as ->.
    destruct (Hc eq_refl) as (-> & -> & -> & ->). rewrite decide_True by done. cbn [step].
    rewrite barred_own by done. cbn [fst snd app length replicate]. f_equal. by apply IH.
  - rewrite (IH (step rl c)) by (by apply barred_beside).
    destruct c as [t k n' p' q'|t]; [|done]. simpl in Ec. apply bool_decide_eq_false in Ec.
    by rewrite decide_False.
Qed.

Lemma answers_partly cs rl k :
  0 <= k < n -> Forall (around now key n p q) cs -> partly k rl ->
  answers key rl cs
  = replicate (own_checks cs `min` Z.to_nat k) (Done true)
    ++ replicate (own_checks cs - Z.to_nat k) (Done false).
Proof.
  intros Hk Ha. revert rl k Hk. induction Ha as [|c cs Hc Hcs IH]; intros rl k Hk Hb; [done|].
  unfold own_checks in *. cbn [answers List.filter]. destruct (asks key c) eqn:Ec.
  - destruct c as [t k' n' p' q'|t]; [|done]. simpl in Ec, Hc. apply bool_decide_eq_true in Ec as ->.
    destruct (Hc eq_refl) as (-> & -> & -> & ->). rewrite decide_True by done. cbn [step].
    pose proof (partly_own k rl ltac:(lia) (or_introl Hb)) as Ho.
    destruct (check rl now key n p q) as [r rl']. cbn [fst snd app length].
    destruct (Z.leb_spec 1 k); destruct Ho as [-> Ho].
    + rewrite (IH rl' (k - 1)) by (done || lia).
      replace (Z.to_nat k) with (S (Z.to_nat (k - 1))) by lia. done.
    + rewrite answers_barred by done. replace (Z.to_nat k) with 0%nat by lia. done.
  - rewrite (IH (step rl c) k) by (done || by apply partly_beside).
    destruct c as [t k' n' p' q'|t]; [|done]. simpl in Ec. apply bool_decide_eq_false in Ec.
    by rewrite decide_False.
Qed.

End Budget.

#[export] Hint Resolve check_capacity cleanup_capacity run_capacity : proxy.
