(* ===== verification/AuthLimiter.v ===== *)
(** * The authentication lockout table ([AuthLimiter] of [src/rules.rs])

    One entry per source address.  The detailed methods come first; then the abstract lockout
    automaton a caller may rely on ([phase]), and the lemmas by which the table implements
    it. *)

From S2P Require Import Prelude RustStr F64.

Open Scope Z_scope.

Definition MAX_AUTH_LIMITER_KEYS : Z := 16384.

Record AuthLockoutState : Type := {
  failures : Z;
  first_failure : Instant;
  lock_until : option Instant
}.

Abbreviation AuthLimiter := (gmap string AuthLockoutState).

Definition AuthLimiter_new : AuthLimiter := ∅.

Definition is_blocked (al : AuthLimiter) (now : Instant) (key : string) : bool :=
  match al !! key with
  | Some s => is_some_and (lock_until s) (fun u => now <? u)
  | None => false
  end.

Definition new_entry (now : Instant) : AuthLockoutState :=
  {| failures := 0; first_failure := now; lock_until := None |}.

(** An expired lock is lifted, then an old window is restarted. *)
Definition expire_lock (now : Instant) (e : AuthLockoutState) : AuthLockoutState :=
  match lock_until e with
  | Some u => if u <=? now then new_entry now else e
  | None => e
  end.

Definition expire_window (now : Instant) (window : Duration) (e : AuthLockoutState)
  : AuthLockoutState :=
  if window <? duration_since now (first_failure e)
  then {| failures := 0; first_failure := now; lock_until := lock_until e |}
  else e.

Definition count_failure (e : AuthLockoutState) : AuthLockoutState :=
  {| failures := saturating_add_u32 (failures e) 1; first_failure := first_failure e;
     lock_until := lock_until e |}.

Definition set_lock (e : AuthLockoutState) (u : option Instant) : AuthLockoutState :=
  {| failures := failures e; first_failure := first_failure e; lock_until := u |}.

Definition fail_entry (now : Instant) (max : Z) (window lockout : Duration)
    (e : AuthLockoutState) : outcome bool * AuthLockoutState :=
  let e1 := count_failure (expire_window now window (expire_lock now e)) in
  if (max <=? failures e1) && is_none (lock_until e1)
  then match instant_add now lockout with
       | Some u => (Done true, set_lock e1 (Some u))
       | None => (Panic, e1)
       end
  else (Done false, e1).

Definition record_failure (al : AuthLimiter) (now : Instant) (key : string)
    (max : Z) (window lockout : Duration) : outcome bool * AuthLimiter :=
  if (MAX_AUTH_LIMITER_KEYS <=? Z.of_nat (size al)) && is_none (al !! key)
  then (Done false, al)
  else
    let '(r, e) := fail_entry now max window lockout (unwrap_or (al !! key) (new_entry now)) in
    (r, <[key := e]> al).

Definition record_success (al : AuthLimiter) (key : string) : AuthLimiter := delete key al.

Definition keep_entry (now : Instant) (s : AuthLockoutState) : bool :=
  match lock_until s with
  | Some u => now <? u
  | None => duration_since now (first_failure s) <? from_secs 600
  end.

Definition cleanup (al : AuthLimiter) (now : Instant) : AuthLimiter :=
  filter (fun kv => keep_entry now kv.2 = true) al.

(** The outcomes of failures recorded for one key at the given instants. *)
Fixpoint fail_at (al : AuthLimiter) (times : list Instant) (key : string)
    (max : Z) (window lockout : Duration) : list (outcome bool) * AuthLimiter :=
  match times with
  | [] => ([], al)
  | now :: times' =>
      let '(r, al1) := record_failure al now key max window lockout in
      let '(rs, al2) := fail_at al1 times' key max window lockout in
      (r :: rs, al2)
  end.

(** ** The abstract lockout automaton *)

Inductive phase : Type :=
  | Clear
  | Counting (n : Z) (since : Instant)
  | Locked (until : Instant).

(** The phase an entry is in at [now]. *)
Definition phase_of (now : Instant) (window : Duration) (o : option AuthLockoutState) : phase :=
  match o with
  | None => Clear
  | Some e =>
      match lock_until e with
      | Some u => if now <? u then Locked u else Clear
      | None =>
          if window <? duration_since now (first_failure e) then Clear
          else Counting (failures e) (first_failure e)
      end
  end.

(** A failure counts towards [max]; the one that reaches it locks and is reported.  A locked
    source stays locked until the instant the lock was given. *)
Definition spec_failure (now : Instant) (max : Z) (lockout : Duration) (p : phase)
  : bool * phase :=
  match p with
  | Clear => if max <=? 1 then (true, Locked (now + lockout)) else (false, Counting 1 now)
  | Counting n since =>
      if max <=? n + 1 then (true, Locked (now + lockout)) else (false, Counting (n + 1) since)
  | Locked u => (false, Locked u)
  end.

Definition spec_blocked (p : phase) : bool :=
  match p with
  | Locked _ => true
  | _ => false
  end.

(** Entries as the methods leave them: an unlocked entry has counted fewer than [max]. *)
Definition entry_wf (max : Z) (e : AuthLockoutState) : Prop :=
  0 <= failures e <= U32_MAX /\ (lock_until e = None -> failures e < max).

Definition table_wf (max : Z) (al : AuthLimiter) : Prop :=
  forall key e, al !! key = Some e -> entry_wf max e.

Definition within_capacity (al : AuthLimiter) : Prop :=
  Z.of_nat (size al) <= MAX_AUTH_LIMITER_KEYS.

(** ** A lock holds *)

Definition locked (al : AuthLimiter) (key : string) (u : Instant) : Prop :=
  exists e, al !! key = Some e /\ lock_until e = Some u.

Lemma locked_blocks al now key u : locked al key u -> now < u -> is_blocked al now key = true.
Proof. intros (e & He & Hu) Ht. unfold is_blocked. rewrite He, Hu. by apply Z.ltb_lt. Qed.

Lemma locked_failure al now key key' max window lockout u :
  locked al key u -> now < u ->
  locked (snd (record_failure al now key' max window lockout)) key u.
Proof.
  intros (e & He & Hu) Ht. unfold record_failure. destruct (_ && _); [by exists e|].
  destruct (decide (key' = key)) as [->|Hne].
  - rewrite He. cbn [unwrap_or].
    destruct (fail_entry _ _ _ _ _) as [r e'] eqn:Ef. cbn [snd]. exists e'.
    rewrite lookup_insert_eq. split; [done|]. unfold fail_entry, expire_lock in Ef. rewrite Hu in Ef.
    rewrite (proj2 (Z.leb_gt u now) Ht) in Ef.
    assert (Hw : lock_until (count_failure (expire_window now window e)) = Some u).
    { unfold expire_window. by case_bool. }
    rewrite Hw in Ef. unfold is_none in Ef. cbn [is_some negb] in Ef. rewrite andb_false_r in Ef.
    by injection Ef as <- <-.
  - destruct (fail_entry _ _ _ _ _) as [r e']. cbn [snd]. exists e.
    by rewrite lookup_insert_ne.
Qed.

Lemma locked_cleanup al now key u : locked al key u -> now < u -> locked (cleanup al now) key u.
Proof.
  intros (e & He & Hu) Ht. exists e. split; [|done]. apply map_lookup_filter_Some. split; [done|].
  unfold keep_entry. simpl. rewrite Hu. by apply Z.ltb_lt.
Qed.

Lemma locked_success al key key' u :
  key' <> key -> locked al key u -> locked (record_success al key') key u.
Proof. intros Hne (e & He & Hu). exists e. unfold record_success. by rewrite lookup_delete_ne. Qed.

(** ** The table implements the automaton *)

Lemma expire_bounds now window e :
  0 <= failures e <= U32_MAX ->
  0 <= failures (expire_window now window (expire_lock now e)) <= U32_MAX.
Proof.
  intros He. unfold expire_window, expire_lock, new_entry. repeat case_bool; simpl; unfold U32_MAX in *; lia.
Qed.

Lemma fail_entry_wf now max window lockout e :
  1 <= max -> entry_wf max e -> is_Some (instant_add now lockout) ->
  entry_wf max (snd (fail_entry now max window lockout e)).
Proof.
  intros Hm [He Hl] [u Hu]. unfold fail_entry. rewrite Hu.
  pose proof (expire_bounds now window e He) as Hf.
  set (e0 := expire_window now window (expire_lock now e)) in *.
  destruct ((max <=? failures (count_failure e0)) && is_none (lock_until (count_failure e0)))
    eqn:E; simpl; split; simpl; unfold saturating_add_u32 in *; try done; try lia.
  intros Hn. apply andb_false_iff in E as [E|E]; b2p; simpl in *;
    [unfold saturating_add_u32 in E; lia|rewrite Hn in E; done].
Qed.

Lemma record_failure_wf al now key max window lockout :
  1 <= max -> table_wf max al -> is_Some (instant_add now lockout) ->
  table_wf max (snd (record_failure al now key max window lockout)).
Proof.
  intros Hm Hw Hi. unfold record_failure. case_bool; [done|].
  assert (He : entry_wf max (unwrap_or (al !! key) (new_entry now))).
  { destruct (al !! key) eqn:E; simpl; [by eapply Hw|].
    split; simpl; unfold U32_MAX; lia. }
  pose proof (fail_entry_wf now max window lockout _ Hm He Hi) as H.
  destruct (fail_entry _ _ _ _ _) as [r e]. simpl in *. intros k e'.
  rewrite lookup_insert. case_decide; [intros [= <-]; done|apply Hw].
Qed.

Lemma phase_expired now window e v :
  lock_until e = Some v -> v <= now -> phase_of now window (Some e) = Clear.
Proof. intros He Hv. simpl. rewrite He. destruct (Z.ltb_spec now v); [lia|done]. Qed.

Lemma phase_locked now window e v :
  lock_until e = Some v -> now < v -> phase_of now window (Some e) = Locked v.
Proof. intros He Hv. simpl. rewrite He. destruct (Z.ltb_spec now v); [done|lia]. Qed.

(** One failure on an entry is one step of the automaton. *)
Lemma fail_entry_refines now max window lockout e :
  1 <= max <= U32_MAX -> 0 <= window -> 0 < lockout ->
  entry_wf max e -> is_Some (instant_add now lockout) ->
  let '(r, e') := fail_entry now max window lockout e in
  let '(b, p) := spec_failure now max lockout (phase_of now window (Some e)) in
  r = Done b /\ phase_of now window (Some e') = p.
Proof.
  intros Hm Hw Hlo [Hf Hl] [u Hu]. pose proof (instant_add_Some _ _ _ Hu) as ->.
  assert (Hsat : forall n, n < U32_MAX -> saturating_add_u32 n 1 = n + 1)
    by (unfold saturating_add_u32; lia).
  assert (Hself : (window <? duration_since now now) = false)
    by (rewrite duration_since_same; apply Z.ltb_ge; lia).
  assert (Hlock : (now <? now + lockout) = true) by (apply Z.ltb_lt; lia).
  assert (HU : 1 < U32_MAX) by (unfold U32_MAX; lia).
  destruct e as [n t l]. cbn [failures first_failure lock_until] in *.
  unfold fail_entry, expire_lock, expire_window, count_failure, new_entry, set_lock.
  rewrite Hu. destruct l as [v|].
  - cbn [lock_until]. destruct (Z.leb_spec v now) as [Hv|Hv];
      cbn [failures first_failure lock_until].
    + rewrite Hself. cbn [failures first_failure lock_until].
      rewrite (phase_expired now window _ v) by done. rewrite Hsat, andb_true_r by lia.
      cbn [spec_failure]. change (0 + 1) with 1. destruct (max <=? 1); split; try done; simpl.
      * by rewrite Hlock.
      * by rewrite Hself.
    + rewrite (phase_locked now window _ v) by (done || lia).
      destruct (window <? duration_since now t); cbn [failures first_failure lock_until];
        destruct (max <=? _); cbn [andb is_none is_some negb spec_failure];
        split; try done; by apply phase_locked.
  - specialize (Hl eq_refl). unfold phase_of at 1. cbn [failures first_failure lock_until].
    destruct (window <? duration_since now t) eqn:Ew; cbn [failures first_failure lock_until];
      rewrite Hsat, andb_true_r by lia; cbn [spec_failure].
    + change (0 + 1) with 1. destruct (max <=? 1); split; try done; simpl.
      * by rewrite Hlock.
      * by rewrite Hself.
    + destruct (max <=? n + 1); split; try done; simpl.
      * by rewrite Hlock.
      * by rewrite Ew.
Qed.

Lemma new_entry_phase now window : 0 <= window -> phase_of now window (Some (new_entry now)) = Counting 0 now.
Proof.
  intros Hw. unfold phase_of, new_entry; cbn [lock_until first_failure failures].
  rewrite duration_since_same. destruct (Z.ltb_spec window 0); [lia|done].
Qed.

Definition has_room (al : AuthLimiter) (key : string) : Prop :=
  is_Some (al !! key) \/ Z.of_nat (size al) < MAX_AUTH_LIMITER_KEYS.

Lemma has_room_guard al key :
  has_room al key -> (MAX_AUTH_LIMITER_KEYS <=? Z.of_nat (size al)) && is_none (al !! key) = false.
Proof.
  intros [[e ->]|Hs]; [apply andb_false_r|]. destruct (Z.leb_spec MAX_AUTH_LIMITER_KEYS (Z.of_nat (size al))); [lia|done].
Qed.

Lemma room_guard al key :
  is_none (al !! key) && (MAX_AUTH_LIMITER_KEYS <=? Z.of_nat (size al)) = false -> has_room al key.
Proof.
  unfold has_room. destruct (al !! key) eqn:E; [eauto|]. simpl. intros Hs. b2p. by right.
Qed.

Lemma record_failure_refines al now key max window lockout :
  1 <= max <= U32_MAX -> 0 <= window -> 0 < lockout ->
  table_wf max al -> has_room al key -> is_Some (instant_add now lockout) ->
  let '(r, al') := record_failure al now key max window lockout in
  let '(b, p) := spec_failure now max lockout (phase_of now window (al !! key)) in
  r = Done b /\ phase_of now window (al' !! key) = p.
Proof.
  intros Hm Hw Hlo Ht Hr Hi. unfold record_failure. rewrite has_room_guard by done.
  assert (He : entry_wf max (unwrap_or (al !! key) (new_entry now))).
  { destruct (al !! key) eqn:E; simpl; [by eapply Ht|]. split; simpl; unfold U32_MAX; lia. }
  pose proof (fail_entry_refines now max window lockout _ Hm Hw Hlo He Hi) as H.
  destruct (fail_entry now max window lockout _) as [r e'] eqn:Ef.
  rewrite lookup_insert_eq. destruct (al !! key) as [e|]; simpl unwrap_or in *; [done|].
  rewrite new_entry_phase in H by done. cbn [phase_of spec_failure] in *.
  replace (0 + 1) with 1 in H by lia. done.
Qed.

Lemma is_blocked_refines al now key window :
  is_blocked al now key = spec_blocked (phase_of now window (al !! key)).
Proof.
  unfold is_blocked, phase_of. destruct (al !! key) as [e|]; [|done].
  destruct (lock_until e) as [u|]; simpl; by case_bool.
Qed.

(** ** Other keys, capacity *)

Lemma record_failure_other al now key key' max window lockout :
  key <> key' -> snd (record_failure al now key max window lockout) !! key' = al !! key'.
Proof.
  intros Hne. unfold record_failure. case_bool; [done|].
  destruct (fail_entry _ _ _ _ _). by apply lookup_insert_ne.
Qed.

Lemma record_failure_capacity al now key max window lockout :
  within_capacity al -> within_capacity (snd (record_failure al now key max window lockout)).
Proof.
  unfold within_capacity, record_failure. intros Hc. case_bool; [done|].
  destruct (fail_entry _ _ _ _ _) as [r e]. simpl. destruct (al !! key) eqn:E.
  - rewrite map_size_insert_Some by eauto. done.
  - rewrite map_size_insert_None by done. simpl in *.
    match goal with H : _ && _ = false |- _ => rewrite andb_true_r in H end. b2p. lia.
Qed.

Lemma record_failure_full al now key max window lockout :
  al !! key = None -> MAX_AUTH_LIMITER_KEYS <= Z.of_nat (size al) ->
  record_failure al now key max window lockout = (Done false, al).
Proof.
  intros Hn Hs. unfold record_failure. apply Z.leb_le in Hs. by rewrite Hn, Hs.
Qed.

(** ** Cleanup cannot be observed *)

Lemma cleanup_lookup al now key :
  cleanup al now !! key =
  match al !! key with
  | Some e => if keep_entry now e then Some e else None
  | None => None
  end.
Proof.
  unfold cleanup. destruct (al !! key) as [e|] eqn:E.
  - destruct (keep_entry now e) eqn:K.
    + by apply map_lookup_filter_Some.
    + apply map_lookup_filter_None. right. intros e' He'. simpl. congruence.
  - apply map_lookup_filter_None. by left.
Qed.

Lemma cleanup_phase al now now' key window :
  now <= now' -> 0 <= window < from_secs 600 ->
  phase_of now' window (cleanup al now !! key) = phase_of now' window (al !! key).
Proof.
  intros Hle Hw. rewrite cleanup_lookup. destruct (al !! key) as [e|]; [|done].
  unfold keep_entry. destruct (lock_until e) as [u|] eqn:El.
  - destruct (Z.ltb_spec now u); [done|]. simpl. rewrite El.
    destruct (Z.ltb_spec now' u); [lia|done].
  - destruct (Z.ltb_spec (duration_since now (first_failure e)) (from_secs 600)); [done|].
    simpl. rewrite El. destruct (Z.ltb_spec window (duration_since now' (first_failure e))); [done|].
    unfold duration_since in *. lia.
Qed.

Lemma cleanup_wf max al now : table_wf max al -> table_wf max (cleanup al now).
Proof.
  intros Hw key e. rewrite cleanup_lookup. destruct (al !! key) eqn:E; [|done].
  case_bool; [|done]. intros [= <-]. by eapply Hw.
Qed.

Lemma cleanup_size al now : (size (cleanup al now) <= size al)%nat.
Proof. apply map_subseteq_size, map_filter_subseteq. Qed.

#[export] Hint Resolve record_failure_wf cleanup_wf : proxy.
