(* ===== verification/Conditions.v ===== *)
(** * Rule conditions ([match_*_condition], [evaluate_condition], [evaluate_node] of
    [src/rules.rs])

    One function per condition field, each a dispatch on the operator's name as in the source.
    [EvaluationContext.headers] is a [HashMap]; it is the list of its entries in the order the
    map happens to iterate, about which nothing is assumed. *)

From S2P Require Import Prelude RustStr F64 Net External Json Config.

Section Conditions.
Context `{NumberApi} `{RegexApi} `{!JsonApi} `{IpNetApi}.

Record EvaluationContext : Type := {
  ctx_path : string;
  ctx_method : string;
  ctx_headers : list (string * string);
  ctx_client_ip : string;
  ctx_body_json : option JsonValue;
  ctx_user_role : option string
}.

(** [condition.value.as_ref().and_then(yaml_value_to_string)]. *)
Definition value_string (c : Condition) : option string :=
  match value c with
  | Some v => yaml_value_to_string v
  | None => None
  end.

(** The sequence of an [in] or [not_in] condition. *)
Definition value_sequence (c : Condition) : option (list YamlValue) :=
  match value c with
  | Some (YSequence seq) => Some seq
  | _ => None
  end.

Definition regex_match (c : Condition) (s : string) : option bool :=
  option_map (fun r => is_match r s) (compiled_regex c).

Definition match_path_condition (c : Condition) (path : string) : bool :=
  let val := value_string c in
  let op := operator c in
  if String.eqb op "equals" then is_some_and val (fun v => String.eqb path v)
  else if String.eqb op "not_equals" then is_none_or val (fun v => negb (String.eqb path v))
  else if String.eqb op "contains" then is_some_and val (fun v => contains path v)
  else if String.eqb op "not_contains" then is_none_or val (fun v => negb (contains path v))
  else if String.eqb op "starts_with" then is_some_and val (fun v => starts_with path v)
  else if String.eqb op "ends_with" then is_some_and val (fun v => ends_with path v)
  else if String.eqb op "matches" then unwrap_or (regex_match c path) false
  else if String.eqb op "not_matches" then unwrap_or (option_map negb (regex_match c path)) true
  else if String.eqb op "in" then
    match value_sequence c with
    | Some seq =>
        existsb (fun v => is_some_and (yaml_value_to_string v) (fun s => String.eqb s path)) seq
    | None => false
    end
  else if String.eqb op "not_in" then
    match value_sequence c with
    | Some seq =>
        forallb (fun v => is_none_or (yaml_value_to_string v)
                            (fun s => negb (String.eqb s path))) seq
    | None => true
    end
  else false.

Definition match_method_condition (c : Condition) (method : string) : bool :=
  let val := value_string c in
  let op := operator c in
  if String.eqb op "equals" then is_some_and val (fun v => eq_ignore_ascii_case method v)
  else if String.eqb op "not_equals" then
    is_none_or val (fun v => negb (eq_ignore_ascii_case method v))
  else if String.eqb op "in" then
    match value_sequence c with
    | Some seq =>
        existsb (fun v => is_some_and (yaml_value_to_string v)
                            (fun s => eq_ignore_ascii_case method s)) seq
    | None => false
    end
  else if String.eqb op "not_in" then
    match value_sequence c with
    | Some seq =>
        forallb (fun v => is_none_or (yaml_value_to_string v)
                            (fun s => negb (eq_ignore_ascii_case method s))) seq
    | None => true
    end
  else false.

(** [headers.iter().find(|(k, _)| k.eq_ignore_ascii_case(header_name))]. *)
Definition find_header (headers : list (string * string)) (header_name : string)
  : option string :=
  option_map snd (List.find (fun kv => eq_ignore_ascii_case (fst kv) header_name) headers).

Definition opt_string_eqb (a b : option string) : bool := bool_decide (a = b).

Definition match_header_condition (c : Condition) (headers : list (string * string))
    (header_name : string) : bool :=
  let header_val := find_header headers header_name in
  let cond_val := value_string c in
  let op := operator c in
  if String.eqb op "equals" then
    is_some_and header_val (fun v => opt_string_eqb cond_val (Some v))
  else if String.eqb op "not_equals" then
    is_none_or header_val (fun v => negb (opt_string_eqb cond_val (Some v)))
  else if String.eqb op "contains" then
    is_some_and header_val (fun v => is_some_and cond_val (fun cv => contains v cv))
  else if String.eqb op "not_contains" then
    is_none_or header_val (fun v => is_none_or cond_val (fun cv => negb (contains v cv)))
  else if String.eqb op "starts_with" then
    is_some_and header_val (fun v => is_some_and cond_val (fun cv => starts_with v cv))
  else if String.eqb op "ends_with" then
    is_some_and header_val (fun v => is_some_and cond_val (fun cv => ends_with v cv))
  else if String.eqb op "matches" then
    is_some_and header_val (fun v => unwrap_or (regex_match c v) false)
  else if String.eqb op "exists" then is_some header_val
  else if String.eqb op "not_exists" then is_none header_val
  else if String.eqb op "in" then
    match value_sequence c with
    | Some seq =>
        is_some_and header_val (fun hv =>
          existsb (fun v => is_some_and (yaml_value_to_string v)
                              (fun s => String.eqb s hv)) seq)
    | None => false
    end
  else if String.eqb op "not_in" then
    match value_sequence c with
    | Some seq =>
        is_none_or header_val (fun hv =>
          forallb (fun v => is_none_or (yaml_value_to_string v)
                              (fun s => negb (String.eqb s hv))) seq)
    | None => true
    end
  else false.

(** The strings an address condition lists, and the networks among them. *)
Definition condition_cidrs (c : Condition) : list string :=
  match value c with
  | Some (YSequence seq) => omap yaml_value_to_string seq
  | Some v => option_list (yaml_value_to_string v)
  | None => []
  end.

Definition condition_nets (c : Condition) : list IpNet := omap IpNet_parse (condition_cidrs c).

Definition match_ip_condition (c : Condition) (client_ip_str : string) : bool :=
  let client_ip := IpAddr_parse client_ip_str in
  let cidrs := condition_cidrs c in
  let ipnets := condition_nets c in
  let op := operator c in
  if String.eqb op "equals" then
    is_some_and (value_string c) (fun v =>
      is_some_and client_ip (fun ip => String.eqb (IpAddr_to_string ip) v))
  else if String.eqb op "not_equals" then
    is_none_or (value_string c) (fun v =>
      is_none_or client_ip (fun ip => negb (String.eqb (IpAddr_to_string ip) v)))
  else if String.eqb op "in" then
    match ipnets with
    | [] => is_some_and client_ip (fun ip =>
              existsb (fun s => String.eqb s (IpAddr_to_string ip)) cidrs)
    | _ :: _ => is_some_and client_ip (fun ip => existsb (fun net => net_contains net ip) ipnets)
    end
  else if String.eqb op "not_in" then
    match ipnets with
    | [] => is_none_or client_ip (fun ip =>
              forallb (fun s => negb (String.eqb s (IpAddr_to_string ip))) cidrs)
    | _ :: _ => is_none_or client_ip (fun ip =>
              negb (existsb (fun net => net_contains net ip) ipnets))
    end
  else false.

(** [as_str], [as_bool], [as_i64], [as_u64], [as_f64] of a [serde_json::Value]. *)
Definition as_str (v : JsonValue) : option string :=
  match v with JString s => Some s | _ => None end.
Definition as_bool (v : JsonValue) : option bool :=
  match v with JBool b => Some b | _ => None end.
Definition as_i64 (v : JsonValue) : option Z :=
  match v with JNumber n => json_as_i64 n | _ => None end.
Definition as_u64 (v : JsonValue) : option Z :=
  match v with JNumber n => json_as_u64 n | _ => None end.
Definition as_f64 (v : JsonValue) : option f64 :=
  match v with JNumber n => json_as_f64 n | _ => None end.

Definition opt_Z_eqb (a : option Z) (z : Z) : bool := bool_decide (a = Some z).

Definition value_equal (yaml_val : YamlValue) (json_val : JsonValue) : bool :=
  match yaml_val with
  | YString s => opt_string_eqb (as_str json_val) (Some s)
  | YBool b => bool_decide (as_bool json_val = Some b)
  | YNumber n =>
      match as_i64 json_val with
      | Some json_n => opt_Z_eqb (yaml_as_i64 n) json_n
      | None =>
          match as_u64 json_val with
          | Some json_n => opt_Z_eqb (yaml_as_u64 n) json_n
          | None =>
              match as_f64 json_val with
              | Some json_n => is_some_and (yaml_as_f64 n) (fun x => f64_eq x json_n)
              | None => false
              end
          end
      end
  | _ =>
      match json_val with
      | JNull => match yaml_val with YNull => true | _ => false end
      | _ => false
      end
  end.

(** The text a body value is searched in. *)
Definition json_text (v : JsonValue) : string :=
  match v with
  | JString s => s
  | other => json_to_string other
  end.

Definition json_contains (json_val : JsonValue) (cond_str : string) : bool :=
  match json_val with
  | JString s => contains s cond_str
  | JArray arr => existsb (fun item => is_some_and (as_str item) (fun s => String.eqb s cond_str)) arr
  | other => contains (json_to_string other) cond_str
  end.

Definition json_not_contains (json_val : JsonValue) (cond_str : string) : bool :=
  match json_val with
  | JString s => negb (contains s cond_str)
  | JArray arr =>
      forallb (fun item => is_none_or (as_str item) (fun s => negb (String.eqb s cond_str))) arr
  | other => negb (contains (json_to_string other) cond_str)
  end.

Definition match_body_condition (c : Condition) (body_json : option JsonValue)
    (field_path : string) : bool :=
  let json_val := match body_json with Some b => json_get b field_path | None => None end in
  let op := operator c in
  if String.eqb op "exists" then is_some json_val
  else if String.eqb op "not_exists" then is_none json_val
  else
    match json_val with
    | None => false
    | Some json_val =>
        if String.eqb op "equals" then is_some_and (value c) (fun cv => value_equal cv json_val)
        else if String.eqb op "not_equals" then
          is_none_or (value c) (fun cv => negb (value_equal cv json_val))
        else if String.eqb op "contains" then
          match value_string c with
          | Some cond_str => json_contains json_val cond_str
          | None => false
          end
        else if String.eqb op "not_contains" then
          match value_string c with
          | Some cond_str => json_not_contains json_val cond_str
          | None => true
          end
        else if String.eqb op "in" then
          match value_sequence c with
          | Some seq => existsb (fun v => value_equal v json_val) seq
          | None => false
          end
        else if String.eqb op "not_in" then
          match value_sequence c with
          | Some seq => forallb (fun v => negb (value_equal v json_val)) seq
          | None => true
          end
        else if String.eqb op "starts_with" then
          is_some_and (value_string c) (fun cv => starts_with (json_text json_val) cv)
        else if String.eqb op "matches" then unwrap_or (regex_match c (json_text json_val)) false
        else false
    end.

Definition evaluate_condition (c : Condition) (ctx : EvaluationContext) : bool :=
  let f := field c in
  if String.eqb f "method" then match_method_condition c (ctx_method ctx)
  else if String.eqb f "path" then match_path_condition c (ctx_path ctx)
  else if String.eqb f "client_ip" then match_ip_condition c (ctx_client_ip ctx)
  else
    match strip_prefix "header." f with
    | Some header_name => match_header_condition c (ctx_headers ctx) header_name
    | None =>
        match strip_prefix "body." f with
        | Some field_path => match_body_condition c (ctx_body_json ctx) field_path
        | None => false
        end
    end.

Fixpoint evaluate_node (node : ConditionNode) (ctx : EvaluationContext) : bool :=
  match node with
  | Leaf c => evaluate_condition c ctx
  | And l => forallb (fun n => evaluate_node n ctx) l
  | Or l => existsb (fun n => evaluate_node n ctx) l
  end.

(** ** Operators and their negations *)

(** The documented pairs: the second operator of a pair is the negation of the first. *)
Inductive negated : string -> string -> Prop :=
  | neg_equals : negated "equals" "not_equals"
  | neg_contains : negated "contains" "not_contains"
  | neg_matches : negated "matches" "not_matches"
  | neg_in : negated "in" "not_in"
  | neg_exists : negated "exists" "not_exists".

(** The same condition under another operator. *)
Definition with_operator (c : Condition) (op : string) : Condition :=
  {| field := field c; operator := op; value := value c; compiled_regex := compiled_regex c |}.

Lemma in_not_in (f : string -> bool) (seq : list YamlValue) :
  forallb (fun v => is_none_or (yaml_value_to_string v) (fun s => negb (f s))) seq
  = negb (existsb (fun v => is_some_and (yaml_value_to_string v) f) seq).
Proof.
  rewrite <- forallb_negb_existsb. apply forallb_ext_eq. intros v. apply is_none_or_negb.
Qed.

(** Unfold a dispatch on a literal operator. *)
Ltac dispatch :=
  unfold match_path_condition, match_method_condition, match_header_condition,
    match_ip_condition, match_body_condition, value_string, value_sequence, regex_match,
    condition_nets, condition_cidrs;
  cbn [with_operator operator value compiled_regex field]; cbv zeta; eval_strings.

Lemma path_negation c op nop path :
  negated op nop -> op <> "exists" ->
  match_path_condition (with_operator c nop) path
  = negb (match_path_condition (with_operator c op) path).
Proof.
  intros Hn Hne. destruct Hn; try done; dispatch; rewrite ?is_none_or_negb; try done.
  - by destruct (compiled_regex c).
  - destruct (value c) as [[]|]; try done. apply (in_not_in (fun s => String.eqb s path)).
Qed.

Lemma method_negation c op nop method :
  negated op nop -> op = "equals" \/ op = "in" ->
  match_method_condition (with_operator c nop) method
  = negb (match_method_condition (with_operator c op) method).
Proof.
  intros Hn Hop. destruct Hn; try (destruct Hop; done); dispatch; rewrite ?is_none_or_negb; try done.
  destruct (value c) as [[]|]; try done. apply (in_not_in (fun s => eq_ignore_ascii_case method s)).
Qed.

Lemma is_none_or_negb_is_some_and {A B} (o : option A) (p : option B) (f : A -> B -> bool) :
  is_none_or o (fun a => is_none_or p (fun b => negb (f a b)))
  = negb (is_some_and o (fun a => is_some_and p (f a))).
Proof. by destruct o, p. Qed.

Lemma header_negation c op nop headers name :
  negated op nop -> op <> "matches" ->
  match_header_condition (with_operator c nop) headers name
  = negb (match_header_condition (with_operator c op) headers name).
Proof.
  intros Hn Hne. destruct Hn; try done; dispatch;
    rewrite ?is_none_or_negb, ?is_none_or_negb_is_some_and; try done.
  destruct (value c) as [[]|]; try done. destruct (find_header headers name); [|done]. simpl.
  apply (in_not_in (fun s => String.eqb s _)).
Qed.

Lemma ip_negation c op nop ip :
  negated op nop -> op = "equals" \/ op = "in" ->
  match_ip_condition (with_operator c nop) ip
  = negb (match_ip_condition (with_operator c op) ip).
Proof.
  intros Hn Hop. destruct Hn; try (destruct Hop; done); dispatch.
  - apply is_none_or_negb_is_some_and.
  - set (cidrs := match value c with Some _ => _ | None => _ end).
    destruct (omap IpNet_parse cidrs); destruct (IpAddr_parse ip); simpl;
      try done. apply forallb_negb_existsb.
Qed.

(** On a field the body has, the body operators are negations of each other; the field's
    absence makes both of a pair false, except for [exists] and [not_exists]. *)
Lemma json_not_contains_negb v s : json_not_contains v s = negb (json_contains v s).
Proof.
  destruct v; simpl; try done. rewrite <- forallb_negb_existsb. apply forallb_ext_eq.
  intros item. apply is_none_or_negb.
Qed.

Lemma body_negation c op nop body path :
  negated op nop -> op <> "matches" -> is_Some (json_get body path) ->
  match_body_condition (with_operator c nop) (Some body) path
  = negb (match_body_condition (with_operator c op) (Some body) path).
Proof.
  intros Hn Hne [v Hv]. destruct Hn; try done; dispatch; rewrite Hv; try done.
  - apply is_none_or_negb.
  - destruct (value c) as [y|]; [|done]. destruct (yaml_value_to_string y); [|done].
    apply json_not_contains_negb.
  - destruct (value c) as [[]|]; try done. apply forallb_negb_existsb.
Qed.

Lemma body_absent c op body path :
  op <> "not_exists" -> body = None \/ (exists b, body = Some b /\ json_get b path = None) ->
  match_body_condition (with_operator c op) body path = false.
Proof.
  intros Hop Hb. unfold match_body_condition. cbn [with_operator operator].
  assert (Hn : match body with Some b => json_get b path | None => None end = None)
    by (destruct Hb as [->|(b & -> & ->)]; done).
  rewrite Hn. destruct (String.eqb op "exists"); [done|].
  destruct (String.eqb_spec op "not_exists"); done.
Qed.

(** ** Header lookup does not depend on the iteration order *)

Lemma find_header_In headers name v :
  find_header headers name = Some v ->
  exists k, (k, v) ∈ headers /\ eq_ignore_ascii_case k name = true.
Proof.
  unfold find_header. destruct (List.find _ headers) as [[k v']|] eqn:E; [|done].
  intros [= <-]. apply List.find_some in E as [Hin He]. exists k.
  split; [by apply list_elem_of_In|done].
Qed.

Lemma find_header_None headers name :
  find_header headers name = None ->
  forall k v, (k, v) ∈ headers -> eq_ignore_ascii_case k name = false.
Proof.
  unfold find_header. destruct (List.find _ headers) as [[k v']|] eqn:E; [done|].
  intros _ k v Hin. apply (List.find_none _ _ E (k, v)). by apply list_elem_of_In.
Qed.

(** The keys of the header map, which [handle] fills with lower-case names. *)
Definition lower_keys (headers : list (string * string)) : Prop :=
  NoDup (map fst headers) /\ forall k v, (k, v) ∈ headers -> to_lower k = k.

Lemma find_header_unique headers k v name :
  lower_keys headers -> (k, v) ∈ headers -> eq_ignore_ascii_case k name = true ->
  find_header headers name = Some v.
Proof.
  intros [Hnd Hl] Hin He. destruct (find_header headers name) as [v'|] eqn:E.
  - apply find_header_In in E as (k' & Hin' & He').
    unfold eq_ignore_ascii_case in He, He'. b2p.
    assert (k' = k) as -> by (rewrite <- (Hl k' v'), <- (Hl k v) by done; congruence).
    apply list_elem_of_lookup in Hin as [i Hi], Hin' as [j Hj].
    assert (i = j) as ->.
    { apply (NoDup_lookup (map fst headers) i j k Hnd).
      - change (map fst headers) with (fst <$> headers). by rewrite list_lookup_fmap, Hi.
      - change (map fst headers) with (fst <$> headers). by rewrite list_lookup_fmap, Hj. }
    congruence.
  - by rewrite (find_header_None _ _ E k v Hin) in He.
Qed.

Lemma find_header_permutation h1 h2 name :
  lower_keys h1 -> h1 ≡ₚ h2 -> find_header h1 name = find_header h2 name.
Proof.
  intros Hl Hp. assert (Hl2 : lower_keys h2).
  { destruct Hl as [Hnd Hl]. split; [by rewrite <- Hp|]. intros k v. rewrite <- Hp. apply Hl. }
  destruct (find_header h1 name) as [v|] eqn:E.
  - apply find_header_In in E as (k & Hin & He). rewrite Hp in Hin.
    symmetry. by eapply find_header_unique.
  - destruct (find_header h2 name) as [v|] eqn:E2; [|done].
    apply find_header_In in E2 as (k & Hin & He). rewrite <- Hp in Hin.
    by rewrite (find_header_None _ _ E k v Hin) in He.
Qed.

(** ** Nodes are formulas over their conditions *)

(** The truth of a node, given the truth of conditions. *)
Inductive node_holds (ctx : EvaluationContext) : ConditionNode -> Prop :=
  | holds_leaf c : evaluate_condition c ctx = true -> node_holds ctx (Leaf c)
  | holds_and l : Forall (node_holds ctx) l -> node_holds ctx (And l)
  | holds_or l n : n ∈ l -> node_holds ctx n -> node_holds ctx (Or l).

Lemma evaluate_node_holds ctx n : evaluate_node n ctx = true <-> node_holds ctx n.
Proof.
  induction n as [c|l IH|l IH] using ConditionNode_ind'; simpl.
  - split; [by constructor|by inversion 1].
  - rewrite forallb_In. rewrite Forall_forall in IH. split.
    + intros Hl. constructor. apply Forall_forall. intros n Hn. by apply IH, Hl.
    + inversion 1 as [|? Hl|]; subst. rewrite Forall_forall in Hl.
      intros n Hn. by apply IH, Hl.
  - rewrite existsb_In. rewrite Forall_forall in IH. split.
    + intros (n & Hn & He). apply (holds_or ctx l n Hn). by apply IH.
    + inversion 1; subst. eexists. split; [done|]. by apply IH.
Qed.

End Conditions.
