(* ===== verification/Rules.v ===== *)
(** * The rule engine ([evaluate_request_detailed], [collect_response_filters] of
    [src/rules.rs])

    Evaluation threads the rate limiter through the rules.  The check made while the [i]-th rule
    is evaluated reads the clock at [now i]; a check that panics (a penalty beyond the clock)
    unwinds the whole evaluation. *)

From S2P Require Import Prelude RustStr F64 Net External Json Config RateLimiter Conditions.

Open Scope Z_scope.

Section Rules.
Context `{NumberApi} `{RegexApi} `{!JsonApi} `{IpNetApi}.

Inductive RuleResult : Type :=
  | Allow
  | Deny (status : Z) (message : string).

Record RuleDecision : Type := {
  decision_result : RuleResult;
  decision_rule_name : option string;
  decision_action : option string;
  decision_dry_run : bool
}.

Definition RuleDecision_allow : RuleDecision :=
  {| decision_result := Allow; decision_rule_name := None; decision_action := None;
     decision_dry_run := false |}.

(** What one iteration of the rule loop does: [return] a decision or go on. *)
Inductive verdict : Type :=
  | Return (d : RuleDecision)
  | Continue.

(** The decision of a rule that denies: an allow tagged [dry_run] when the rule is dry. *)
Definition deny_decision (rule : Rule) (action : string) (is_dry : bool) (status : Z)
    (message : string) : RuleDecision :=
  {| decision_result := if is_dry then Allow else Deny status message;
     decision_rule_name := Some (rule_name rule);
     decision_action := Some action;
     decision_dry_run := is_dry |}.

Definition rule_matches (rule : Rule) (ctx : EvaluationContext) : bool :=
  negb (length (rule_conditions rule) =? 0)%nat
  && forallb (fun c => evaluate_node c ctx) (rule_conditions rule).

(** [format!("{}:{}", rule.name, ctx.client_ip)]. *)
Definition rate_key (name client_ip : string) : string := name +:+ ":" +:+ client_ip.

(** One iteration of the loop up to its only access to shared state: it either knows its
    verdict, or asks the rate limiter, which stores and locks its table by itself. *)
Inductive rule_step : Type :=
  | Decide (v : verdict)
  | Limit (key : string) (rl_config : RateLimitConfig) (refused : RuleDecision).

Definition step_rule (rule : Rule) (ctx : EvaluationContext) : rule_step :=
  if negb (rule_matches rule ctx) then Decide Continue
  else
    let is_dry := unwrap_or (rule_dry_run rule) false in
    let action := rule_action rule in
    if String.eqb action "deny" then
      Decide (Return (deny_decision rule "deny" is_dry
         (unwrap_or (rule_status rule) 403)
         (unwrap_or (rule_message rule) "Forbidden by rule")))
    else if String.eqb action "allow" then
      Decide (Return {| decision_result := Allow; decision_rule_name := Some (rule_name rule);
                        decision_action := Some "allow"; decision_dry_run := false |})
    else if String.eqb action "require_role" then
      let required := unwrap_or (rule_role rule) "admin" in
      let user_role := unwrap_or (ctx_user_role ctx) "" in
      if negb (String.eqb user_role "admin") && negb (String.eqb user_role required) then
        Decide (Return (deny_decision rule "require_role" is_dry
           (unwrap_or (rule_status rule) 403)
           (unwrap_or (rule_message rule) ("Role '" +:+ required +:+ "' required"))))
      else Decide Continue
    else if String.eqb action "response_filter" then Decide Continue
    else if String.eqb action "rate_limit" then
      if is_dry then Decide Continue
      else
        match rule_rate_limit rule with
        | None => Decide Continue
        | Some rl_config =>
            Limit (rate_key (rule_name rule) (ctx_client_ip ctx)) rl_config
              (deny_decision rule "rate_limit" is_dry
                 (unwrap_or (rule_status rule) 429)
                 (unwrap_or (rule_message rule) "Rate limit exceeded"))
        end
    else Decide Continue.

Definition evaluate_rule (rule : Rule) (ctx : EvaluationContext) (rl : RateLimiter)
    (now : Instant) : outcome verdict * RateLimiter :=
  match step_rule rule ctx with
  | Decide v => (Done v, rl)
  | Limit key c refused =>
      let '(allowed, rl') := check rl now key (requests c) (period c) (penalty c) in
      (outcome_map (fun ok : bool => if ok then Continue else Return refused) allowed, rl')
  end.

Fixpoint evaluate_from (i : nat) (rules : list Rule) (ctx : EvaluationContext)
    (rl : RateLimiter) (now : nat -> Instant) : outcome RuleDecision * RateLimiter :=
  match rules with
  | [] => (Done RuleDecision_allow, rl)
  | rule :: rules' =>
      match evaluate_rule rule ctx rl (now i) with
      | (Done (Return d), rl') => (Done d, rl')
      | (Done Continue, rl') => evaluate_from (S i) rules' ctx rl' now
      | (Panic, rl') => (Panic, rl')
      end
  end.

Definition evaluate_request_detailed (rules : list Rule) (ctx : EvaluationContext)
    (rl : RateLimiter) (now : nat -> Instant) : outcome RuleDecision * RateLimiter :=
  evaluate_from 0 rules ctx rl now.

Definition evaluate_request (rules : list Rule) (ctx : EvaluationContext)
    (rl : RateLimiter) (now : nat -> Instant) : outcome RuleResult * RateLimiter :=
  let '(d, rl') := evaluate_request_detailed rules ctx rl now in
  (outcome_map decision_result d, rl').

Definition collect_response_filters (rules : list Rule) (ctx : EvaluationContext)
  : list ResponseFilterEntry :=
  concat (map (fun rule =>
    if rule_matches rule ctx then unwrap_or (rule_response_filter rule) [] else []) rules).

(** ** One rule *)

(** The decision one rule would enforce, its rate limit aside. *)
Definition denies (rule : Rule) (ctx : EvaluationContext) : bool :=
  rule_matches rule ctx && negb (unwrap_or (rule_dry_run rule) false)
  && (String.eqb (rule_action rule) "deny"
      || (String.eqb (rule_action rule) "require_role"
          && negb (String.eqb (unwrap_or (ctx_user_role ctx) "") "admin")
          && negb (String.eqb (unwrap_or (ctx_user_role ctx) "")
                              (unwrap_or (rule_role rule) "admin")))).

(** A rule the loop steps over whatever the limiter says: it does not match, or it is none of
    the terminating actions in this context. *)
Definition passes (rule : Rule) (ctx : EvaluationContext) : bool :=
  negb (rule_matches rule ctx)
  || negb (String.eqb (rule_action rule) "deny"
           || String.eqb (rule_action rule) "allow"
           || (String.eqb (rule_action rule) "require_role"
               && negb (String.eqb (unwrap_or (ctx_user_role ctx) "") "admin")
               && negb (String.eqb (unwrap_or (ctx_user_role ctx) "")
                                   (unwrap_or (rule_role rule) "admin")))
           || (String.eqb (rule_action rule) "rate_limit"
               && negb (unwrap_or (rule_dry_run rule) false))).

Definition denied_status (rule : Rule) : Z := unwrap_or (rule_status rule) 403.

Lemma passes_continue rule ctx rl now :
  passes rule ctx = true -> evaluate_rule rule ctx rl now = (Done Continue, rl).
Proof.
  unfold passes, evaluate_rule, step_rule. destruct (rule_matches rule ctx); [|done]. simpl.
  destruct (String.eqb_spec (rule_action rule) "deny"); [done|].
  destruct (String.eqb_spec (rule_action rule) "allow"); [done|]. simpl.
  destruct (String.eqb_spec (rule_action rule) "require_role") as [->|_]; simpl; eval_strings.
  - rewrite orb_false_r. intros Hn%negb_true_iff. by rewrite Hn.
  - destruct (String.eqb_spec (rule_action rule) "response_filter"); [done|].
    destruct (String.eqb_spec (rule_action rule) "rate_limit"); [|done]. simpl.
    by destruct (unwrap_or (rule_dry_run rule) false).
Qed.

Lemma denies_step rule ctx :
  denies rule ctx = true ->
  exists message,
    step_rule rule ctx
    = Decide (Return (deny_decision rule (rule_action rule) false (denied_status rule) message)).
Proof.
  unfold denies, step_rule. destruct (rule_matches rule ctx); [|done]. simpl.
  destruct (unwrap_or (rule_dry_run rule) false); [done|]. simpl.
  destruct (String.eqb_spec (rule_action rule) "deny") as [->|_]; [eauto|]. simpl.
  destruct (String.eqb_spec (rule_action rule) "require_role") as [->|_]; [|done].
  eval_strings. simpl. intros ->. eauto.
Qed.

Lemma denies_return rule ctx rl now :
  denies rule ctx = true ->
  exists action message,
    evaluate_rule rule ctx rl now
    = (Done (Return (deny_decision rule action false (denied_status rule) message)), rl)
    /\ action = rule_action rule.
Proof.
  intros (m & Hs)%denies_step. unfold evaluate_rule. rewrite Hs. eauto.
Qed.

(** How a rule can deny, reached at [now] with the limiter in state [rl] and leaving it in
    [rl']: by itself, or because the limiter refuses the client there and then. *)
Inductive justified (rule : Rule) (ctx : EvaluationContext) (rl : RateLimiter) (now : Instant)
    (rl' : RateLimiter) : RuleDecision -> Prop :=
  | justified_deny m :
      rule_action rule = "deny" -> rl' = rl ->
      justified rule ctx rl now rl' (deny_decision rule "deny" false (denied_status rule) m)
  | justified_role m :
      rule_action rule = "require_role" ->
      unwrap_or (ctx_user_role ctx) "" <> "admin" ->
      unwrap_or (ctx_user_role ctx) "" <> unwrap_or (rule_role rule) "admin" -> rl' = rl ->
      justified rule ctx rl now rl'
        (deny_decision rule "require_role" false (denied_status rule) m)
  | justified_rate m c :
      rule_action rule = "rate_limit" -> rule_rate_limit rule = Some c ->
      check rl now (rule_name rule +:+ ":" +:+ ctx_client_ip ctx)
        (requests c) (period c) (penalty c) = (Done false, rl') ->
      justified rule ctx rl now rl'
        (deny_decision rule "rate_limit" false (unwrap_or (rule_status rule) 429) m).

Lemma evaluate_rule_deny rule ctx rl rl' now d s m :
  evaluate_rule rule ctx rl now = (Done (Return d), rl') -> decision_result d = Deny s m ->
  rule_matches rule ctx = true /\ unwrap_or (rule_dry_run rule) false = false
  /\ justified rule ctx rl now rl' d.
Proof.
  unfold evaluate_rule, step_rule. destruct (rule_matches rule ctx); [|done]. simpl. intros He Hd.
  split; [done|].
  destruct (String.eqb_spec (rule_action rule) "deny").
  { injection He as <- <-. destruct (unwrap_or (rule_dry_run rule) false); [done|].
    split; [done|]. by constructor. }
  destruct (String.eqb_spec (rule_action rule) "allow"); [by injection He as <- <-|].
  destruct (String.eqb_spec (rule_action rule) "require_role").
  { destruct (negb _ && negb _) eqn:Er; [|done]. injection He as <- <-.
    destruct (unwrap_or (rule_dry_run rule) false); [done|]. split; [done|].
    b2p. by constructor. }
  destruct (String.eqb_spec (rule_action rule) "response_filter"); [done|].
  destruct (String.eqb_spec (rule_action rule) "rate_limit"); [|done].
  destruct (unwrap_or (rule_dry_run rule) false); [done|].
  destruct (rule_rate_limit rule) as [c|] eqn:Ec; [|done].
  destruct (check _ _ _ _ _ _) as [[[]|] rl1] eqn:Ek; simpl in He; try done.
  injection He as <- <-. split; [done|]. by eapply justified_rate.
Qed.

(** ** The loop *)

Lemma evaluate_from_app i rules rules' ctx rl now :
  forallb (fun r => passes r ctx) rules = true ->
  evaluate_from i (rules ++ rules') ctx rl now
  = evaluate_from (i + length rules) rules' ctx rl now.
Proof.
  revert i. induction rules as [|r rules IH]; intros i; simpl.
  - by rewrite Nat.add_0_r.
  - intros [Hr Hrs]%andb_true_iff. rewrite passes_continue by done.
    rewrite IH by done. by rewrite Nat.add_succ_r.
Qed.

(** The rule that denies, and what the rules before it did: evaluated alone they end with the
    default decision, in the limiter state the denying rule starts from. *)
Lemma evaluate_from_deny i rules ctx rl rl' now d s m :
  evaluate_from i rules ctx rl now = (Done d, rl') -> decision_result d = Deny s m ->
  exists before rule after rl1,
    rules = before ++ rule :: after
    /\ evaluate_from i before ctx rl now = (Done RuleDecision_allow, rl1)
    /\ rule_matches rule ctx = true /\ unwrap_or (rule_dry_run rule) false = false
    /\ justified rule ctx rl1 (now (i + length before)%nat) rl' d.
Proof.
  revert i rl. induction rules as [|r rules IH]; intros i rl He Hd; simpl in He.
  - by injection He as <- <-.
  - destruct (evaluate_rule r ctx rl (now i)) as [[[d'|]|] rl1] eqn:Er; [| |done].
    + injection He as -> ->. exists [], r, rules, rl. split; [done|]. split; [done|].
      rewrite Nat.add_0_r. by eapply evaluate_rule_deny.
    + destruct (IH _ _ He Hd) as (before & rule & after & rl2 & -> & Hb & Hm & Hr & Hj).
      exists (r :: before), rule, after, rl2. cbn [evaluate_from length]. rewrite Er.
      rewrite Nat.add_succ_r. by split_and!.
Qed.

(** Dry rules never block and never touch the limiter. *)
Lemma evaluate_rule_dry rule ctx rl now :
  unwrap_or (rule_dry_run rule) false = true ->
  snd (evaluate_rule rule ctx rl now) = rl
  /\ (fst (evaluate_rule rule ctx rl now) = Done Continue
      \/ exists d, fst (evaluate_rule rule ctx rl now) = Done (Return d)
                   /\ decision_result d = Allow).
Proof.
  intros Hd. unfold evaluate_rule, step_rule. rewrite Hd. destruct (rule_matches rule ctx); simpl; [|auto].
  repeat case_bool; simpl; eauto 6.
Qed.

Lemma evaluate_from_dry i rules ctx rl now :
  forallb (fun r => unwrap_or (rule_dry_run r) false) rules = true ->
  exists d, evaluate_from i rules ctx rl now = (Done d, rl) /\ decision_result d = Allow.
Proof.
  revert i. induction rules as [|r rules IH]; intros i; simpl; [eauto|].
  intros [Hr Hrs]%andb_true_iff. pose proof (evaluate_rule_dry r ctx rl (now i) Hr) as [Hs Hf].
  destruct (evaluate_rule r ctx rl (now i)) as [o rl1]. simpl in *. subst rl1.
  destruct Hf as [->|(d & -> & Hd)]; eauto.
Qed.

(** ** Which bucket a client can touch *)

Lemma rate_key_inj n1 n2 ip1 ip2 :
  has_char ":"%char ip1 = false -> has_char ":"%char ip2 = false ->
  rate_key n1 ip1 = rate_key n2 ip2 -> n1 = n2 /\ ip1 = ip2.
Proof.
  unfold rate_key. intros Hc1 Hc2. revert n2. induction n1 as [|a n1 IH]; intros [|b n2]; simpl.
  - by intros [= ->].
  - intros [= <- E]. exfalso. revert E. intros ->.
    rewrite has_char_append in Hc1. simpl in Hc1. by rewrite orb_true_r in Hc1.
  - intros [= -> E]. exfalso. revert E. intros <-.
    rewrite has_char_append in Hc2. simpl in Hc2. by rewrite orb_true_r in Hc2.
  - intros [= -> E]. destruct (IH _ E) as [-> ->]. done.
Qed.

Lemma rate_key_inj_ip name ip ip' : rate_key name ip = rate_key name ip' -> ip = ip'.
Proof.
  unfold rate_key. induction name as [|a name IH]; simpl; [by intros [= ->]|].
  intros [= E]. by apply IH.
Qed.

Lemma step_rule_key rule ctx key c d :
  step_rule rule ctx = Limit key c d -> key = rate_key (rule_name rule) (ctx_client_ip ctx).
Proof. unfold step_rule. repeat case_bool; try done. by intros [= <-]. Qed.

Lemma evaluate_rule_other rule ctx rl now key :
  (forall name, key <> rate_key name (ctx_client_ip ctx)) ->
  snd (evaluate_rule rule ctx rl now) !! key = rl !! key.
Proof.
  intros Hk. unfold evaluate_rule. destruct (step_rule rule ctx) as [v|k c d] eqn:Es; [done|].
  apply step_rule_key in Es as ->.
  pose proof (check_other rl now (rate_key (rule_name rule) (ctx_client_ip ctx)) key
                (requests c) (period c) (penalty c)) as Ho.
  destruct (check _ _ _ _ _ _) as [o rl1]. by apply Ho.
Qed.

Lemma evaluate_from_other i rules ctx rl now key :
  (forall name, key <> rate_key name (ctx_client_ip ctx)) ->
  snd (evaluate_from i rules ctx rl now) !! key = rl !! key.
Proof.
  intros Hk. revert i rl. induction rules as [|r rules IH]; intros i rl; simpl; [done|].
  pose proof (evaluate_rule_other r ctx rl (now i) key Hk) as Ho.
  destruct (evaluate_rule r ctx rl (now i)) as [[[d|]|] rl1]; simpl in *; try done.
  by rewrite IH.
Qed.

Lemma evaluate_rule_capacity rule ctx rl now :
  RateLimiter.within_capacity rl ->
  RateLimiter.within_capacity (snd (evaluate_rule rule ctx rl now)).
Proof.
  intros Hc. unfold evaluate_rule. destruct (step_rule rule ctx) as [v|k c d]; [done|].
  pose proof (check_capacity rl now k (requests c) (period c) (penalty c) Hc) as Ho.
  by destruct (check _ _ _ _ _ _) as [o rl1].
Qed.

Lemma evaluate_from_capacity i rules ctx rl now :
  RateLimiter.within_capacity rl ->
  RateLimiter.within_capacity (snd (evaluate_from i rules ctx rl now)).
Proof.
  revert i rl. induction rules as [|r rules IH]; intros i rl Hc; simpl; [done|].
  pose proof (evaluate_rule_capacity r ctx rl (now i) Hc) as Ho.
  destruct (evaluate_rule r ctx rl (now i)) as [[[d|]|] rl1]; simpl in *; auto.
Qed.

Lemma evaluate_rule_size rule ctx rl now :
  (size (snd (evaluate_rule rule ctx rl now)) <= S (size rl))%nat.
Proof.
  unfold evaluate_rule. destruct (step_rule rule ctx) as [v|k c d]; [simpl; lia|].
  pose proof (check_size rl now k (requests c) (period c) (penalty c)).
  by destruct (check _ _ _ _ _ _) as [o rl1].
Qed.

Lemma evaluate_from_size i rules ctx rl now :
  (size (snd (evaluate_from i rules ctx rl now)) <= size rl + length rules)%nat.
Proof.
  revert i rl. induction rules as [|r rules IH]; intros i rl; simpl; [lia|].
  pose proof (evaluate_rule_size r ctx rl (now i)) as Ho.
  destruct (evaluate_rule r ctx rl (now i)) as [[[d|]|] rl1]; simpl in *; try lia.
  specialize (IH (S i) rl1). lia.
Qed.

(** ** What a client can see of the limiter *)

(** Two limiters a client cannot tell apart in [k] checks: they agree on its buckets, and it
    needs no new place in the table or both have that many. *)
Definition same_for (ip : string) (names : list string) (rl rl2 : RateLimiter) (k : nat) : Prop :=
  (forall name, rl !! rate_key name ip = rl2 !! rate_key name ip)
  /\ ((forall name, name ∈ names -> is_Some (rl !! rate_key name ip))
      \/ Z.of_nat (size rl) + Z.of_nat k <= MAX_RATE_LIMIT_BUCKETS
         /\ Z.of_nat (size rl2) + Z.of_nat k <= MAX_RATE_LIMIT_BUCKETS).

Lemma evaluate_rule_elsewhere rule ctx rl now key :
  key <> rate_key (rule_name rule) (ctx_client_ip ctx) ->
  snd (evaluate_rule rule ctx rl now) !! key = rl !! key.
Proof.
  intros Hne. unfold evaluate_rule. destruct (step_rule rule ctx) as [v|k c d] eqn:E; [done|].
  apply step_rule_key in E as ->.
  pose proof (check_other rl now _ key (requests c) (period c) (penalty c) (not_eq_sym Hne)).
  by destruct (check _ _ _ _ _ _).
Qed.

Lemma evaluate_rule_own rule ctx rl rl2 now :
  let key := rate_key (rule_name rule) (ctx_client_ip ctx) in
  rl !! key = rl2 !! key ->
  is_Some (rl !! key)
    \/ Z.of_nat (size rl) < MAX_RATE_LIMIT_BUCKETS /\ Z.of_nat (size rl2) < MAX_RATE_LIMIT_BUCKETS ->
  fst (evaluate_rule rule ctx rl now) = fst (evaluate_rule rule ctx rl2 now)
  /\ snd (evaluate_rule rule ctx rl now) !! key = snd (evaluate_rule rule ctx rl2 now) !! key
  /\ (is_Some (rl !! key) -> is_Some (snd (evaluate_rule rule ctx rl now) !! key)).
Proof.
  intros key Hk Hroom. unfold evaluate_rule.
  destruct (step_rule rule ctx) as [v|k c d] eqn:E; [done|]. apply step_rule_key in E as ->.
  destruct (check_agrees rl rl2 now key (requests c) (period c) (penalty c) Hk Hroom) as [Hf Hs].
  pose proof (check_cases rl now key (requests c) (period c) (penalty c)) as Hc.
  fold key. destruct (check rl now _ _ _ _), (check rl2 now _ _ _ _). simpl in *.
  split_and!; [by rewrite Hf|done|]. intros Hi. destruct Hc as [->|(b & -> & _)]; [done|].
  rewrite lookup_insert_eq. eauto.
Qed.

Lemma evaluate_rule_same rule names ctx rl rl2 now k :
  rule_name rule ∈ names -> same_for (ctx_client_ip ctx) names rl rl2 (S k) ->
  fst (evaluate_rule rule ctx rl now) = fst (evaluate_rule rule ctx rl2 now)
  /\ same_for (ctx_client_ip ctx) names (snd (evaluate_rule rule ctx rl now))
       (snd (evaluate_rule rule ctx rl2 now)) k.
Proof.
  intros Hin [Hk Hroom]. destruct (evaluate_rule_own rule ctx rl rl2 now (Hk _)) as (Hf & Hs & Hi).
  { destruct Hroom as [Hn|]; [left; by apply Hn|right; lia]. }
  split; [done|]. split.
  - intros name. destruct (decide (rate_key name (ctx_client_ip ctx)
                            = rate_key (rule_name rule) (ctx_client_ip ctx))) as [->|Hne]; [done|].
    by rewrite !evaluate_rule_elsewhere.
  - destruct Hroom as [Hn|[Hl1 Hl2]].
    + left. intros name Hname. destruct (decide (rate_key name (ctx_client_ip ctx)
        = rate_key (rule_name rule) (ctx_client_ip ctx))) as [->|Hne]; [by apply Hi, Hn|].
      rewrite evaluate_rule_elsewhere by done. by apply Hn.
    + right. pose proof (evaluate_rule_size rule ctx rl now).
      pose proof (evaluate_rule_size rule ctx rl2 now). lia.
Qed.

Lemma evaluate_from_same i rules names ctx rl rl2 now :
  (forall r, r ∈ rules -> rule_name r ∈ names) ->
  same_for (ctx_client_ip ctx) names rl rl2 (length rules) ->
  fst (evaluate_from i rules ctx rl now) = fst (evaluate_from i rules ctx rl2 now).
Proof.
  revert i rl rl2. induction rules as [|r rules IH]; intros i rl rl2 Hn Hs; simpl; [done|].
  destruct (evaluate_rule_same r names ctx rl rl2 (now i) (length rules)) as [Hf Hnext];
    [apply Hn; set_solver|done|].
  destruct (evaluate_rule r ctx rl (now i)) as [[[d|]|] rl1],
    (evaluate_rule r ctx rl2 (now i)) as [[[d2|]|] rl3]; simpl in *; simplify_eq; try done.
  apply IH; [|done]. intros r' Hr. apply Hn. set_solver.
Qed.

(** ** Collected response filters *)

Lemma collect_response_filters_spec rules ctx f :
  f ∈ collect_response_filters rules ctx <->
  exists rule filters, rule ∈ rules /\ rule_matches rule ctx = true
    /\ rule_response_filter rule = Some filters /\ f ∈ filters.
Proof.
  unfold collect_response_filters. rewrite list_elem_of_In, in_concat. split.
  - intros (fs & Hfs & Hf). apply in_map_iff in Hfs as (rule & <- & Hr).
    destruct (rule_matches rule ctx) eqn:Em; [|done].
    destruct (rule_response_filter rule) as [filters|] eqn:Ef; [|done].
    exists rule, filters. by rewrite !list_elem_of_In.
  - intros (rule & filters & Hr & Hm & Hf & Hin). exists filters.
    split; [|by apply list_elem_of_In]. apply in_map_iff. exists rule.
    rewrite Hm, Hf. split; [done|]. by apply list_elem_of_In.
Qed.

End Rules.
