(* ===== verification/Path.v ===== *)
(** * Request paths and token comparison ([src/main.rs])

    [percent_decode], [strip_api_version_prefix], [canonicalize_path], [requires_json_body],
    [sanitize_for_log] and [constant_time_eq]. *)

From S2P Require Import Prelude RustStr F64 External.

Open Scope Z_scope.

Definition MAX_PATH_LEN : Z := 8192.

Definition slash : ascii := "/"%char.

(** ** Definitions *)

(** The index loop of [percent_decode], on the bytes from [i] on. *)
Fixpoint percent_decode (bytes : list Z) : option (list Z) :=
  match bytes with
  | [] => Some []
  | b :: rest =>
      if b =? 37 then
        match rest with
        | h :: l :: rest' =>
            match to_digit16 h, to_digit16 l with
            | Some h, Some l =>
                option_map (cons ((h * 16 + l) mod 256)) (percent_decode rest')
            | _, _ => None
            end
        | _ => None
        end
      else option_map (cons b) (percent_decode rest)
  end.

Definition is_version_char (a : ascii) : bool := is_ascii_digit a || (code a =? 46).

Definition strip_api_version_prefix (path : string) : string :=
  match strip_prefix "/v" path with
  | None => path
  | Some rest =>
      if is_empty rest then path
      else
        match split_once slash rest with
        | Some (version_part, tail) =>
            if negb (is_empty version_part) && negb (String.eqb version_part ".")
               && str_all is_version_char version_part
            then String slash tail
            else path
        | None => path
        end
  end.

Definition control_byte (b : Z) : bool := (b =? 0) || (b <? 32) || (b =? 127).

(** The segment loop: the vector is kept with its last element first. *)
Definition push_segment (segments : list string) (seg : string) : list string :=
  if is_empty seg || String.eqb seg "." then segments
  else if String.eqb seg ".." then tail segments
  else seg :: segments.

Definition normal_segments (path : string) : list string :=
  rev (fold_left push_segment (split slash path) []).

Definition render_path (segments : list string) (trailing_slash : bool) : string :=
  let out := "/" +:+ join "/" segments in
  if trailing_slash && (1 <? String.length out)%nat then out +:+ "/" else out.

Definition canonicalize_path (raw : string) : option string :=
  if is_empty raw || negb (starts_with raw "/") then None
  else if MAX_PATH_LEN <? Z.of_nat (String.length raw) then None
  else
    match percent_decode (as_bytes raw) with
    | None => None
    | Some decoded_bytes =>
        if existsb control_byte decoded_bytes then None
        else
          match from_utf8 decoded_bytes with
          | None => None
          | Some decoded =>
              let decoded := strip_api_version_prefix decoded in
              let trailing_slash :=
                (1 <? String.length decoded)%nat && ends_with decoded "/" in
              Some (render_path (normal_segments decoded) trailing_slash)
          end
    end.

Definition requires_json_body `{RegexApi} (path : string) : bool :=
  String.eqb path "/containers/create"
  || match Regex_new "^/containers/[^/]+/update$" with
     | Ok r => is_match r path
     | Err _ => false
     end.

(** [char::is_control] on a character given by its UTF-8 bytes: U+0000-001F, U+007F-009F. *)
Definition is_control_char (c : string) : bool :=
  match as_bytes c with
  | [b] => (b <? 32) || (b =? 127)
  | [b0; b1] => (b0 =? 194) && in_range 128 159 b1
  | _ => false
  end.

Definition sanitize_char (c : string) : string :=
  if is_control_char c || String.eqb c (String (char_of 34) "") || String.eqb c "\" then "?" else c.

Definition sanitize_for_log (s : string) : string :=
  join "" (map sanitize_char (take 256 (chars s))).

(** [lxor] of the lengths as [u32], then every byte position of the longer slice. *)
Definition constant_time_eq (a b : list Z) : bool :=
  let max_len := Nat.max (length a) (length b) in
  let diff := Z.lxor (Z.of_nat (length a)) (Z.of_nat (length b)) mod (U32_MAX + 1) in
  let diff := fold_left (fun diff i =>
                let x := nth i a 0 in
                let y := nth i b 0 in
                Z.lor diff (Z.lxor x y)) (seq 0 max_len) diff in
  diff =? 0.

(** ** Bytes *)

Lemma code_range (a : ascii) : is_byte (code a).
Proof.
  unfold is_byte, code, U8_MAX. pose proof (Ascii.N_ascii_bounded a). lia.
Qed.

Lemma char_of_code (a : ascii) : char_of (code a) = a.
Proof. unfold char_of, code. rewrite N2Z.id. apply Ascii.ascii_N_embedding. Qed.

Lemma code_char_of (z : Z) : is_byte z -> code (char_of z) = z.
Proof.
  unfold is_byte, U8_MAX. intros Hz. unfold char_of, code.
  rewrite Ascii.N_ascii_embedding by lia. lia.
Qed.

Lemma of_bytes_as_bytes (s : string) : of_bytes (as_bytes s) = s.
Proof.
  unfold of_bytes, as_bytes. induction s as [|a s IH]; simpl; [done|].
  by rewrite char_of_code, IH.
Qed.

Lemma as_bytes_of_bytes (l : list Z) : Forall is_byte l -> as_bytes (of_bytes l) = l.
Proof.
  unfold of_bytes, as_bytes. induction 1 as [|z l Hz Hl IH]; simpl; [done|].
  by rewrite code_char_of, IH.
Qed.

Lemma as_bytes_length (s : string) : length (as_bytes s) = String.length s.
Proof. unfold as_bytes. induction s; simpl; congruence. Qed.

Lemma as_bytes_append (s t : string) : as_bytes (s +:+ t) = as_bytes s ++ as_bytes t.
Proof. unfold as_bytes. induction s; simpl; congruence. Qed.

Lemma as_bytes_range (s : string) : Forall is_byte (as_bytes s).
Proof. unfold as_bytes. induction s; simpl; constructor; auto using code_range. Qed.

Lemma as_bytes_inj (s t : string) : as_bytes s = as_bytes t -> s = t.
Proof. intros E. by rewrite <- (of_bytes_as_bytes s), E, of_bytes_as_bytes. Qed.

(** ** Percent-decoding *)

(** Spelling every byte as [%XX] is a right inverse of the decoder. *)
Definition hex_digit (z : Z) : Z := if z <? 10 then z + 48 else z + 55.

Definition percent_encode (l : list Z) : list Z :=
  concat (map (fun b => [37; hex_digit (b / 16); hex_digit (b mod 16)]) l).

Lemma to_digit16_hex (z : Z) : 0 <= z < 16 -> to_digit16 (hex_digit z) = Some z.
Proof.
  intros Hz. unfold hex_digit, to_digit16, in_range.
  destruct (Z.ltb_spec z 10).
  - destruct (Z.leb_spec 48 (z + 48)), (Z.leb_spec (z + 48) 57); simpl; try lia. f_equal. lia.
  - destruct (Z.leb_spec 48 (z + 55)), (Z.leb_spec (z + 55) 57),
      (Z.leb_spec 97 (z + 55)), (Z.leb_spec (z + 55) 102),
      (Z.leb_spec 65 (z + 55)), (Z.leb_spec (z + 55) 70); simpl; try lia; f_equal; lia.
Qed.

Lemma percent_decode_encode_app (l t : list Z) :
  Forall is_byte l ->
  percent_decode (percent_encode l ++ t) = option_map (app l) (percent_decode t).
Proof.
  induction 1 as [|b l Hb Hl IH]; [simpl; by destruct (percent_decode t)|].
  unfold is_byte, U8_MAX in Hb.
  assert (0 <= b / 16 < 16) by (split; [apply Z.div_pos|apply Z.div_lt_upper_bound]; lia).
  assert (0 <= b mod 16 < 16) by (apply Z.mod_pos_bound; lia).
  change (percent_encode (b :: l) ++ t)
    with (37 :: hex_digit (b / 16) :: hex_digit (b mod 16) :: percent_encode l ++ t).
  cbn [percent_decode]. change (37 =? 37) with true. cbv iota.
  rewrite !to_digit16_hex by done. rewrite IH.
  replace ((b / 16 * 16 + b mod 16) mod 256) with b.
  - by destruct (percent_decode t).
  - pose proof (Z.div_mod b 16 ltac:(lia)). rewrite Z.mod_small; lia.
Qed.

Lemma percent_decode_encode (l : list Z) :
  Forall is_byte l -> percent_decode (percent_encode l) = Some l.
Proof.
  intros Hl. pose proof (percent_decode_encode_app l [] Hl) as E.
  rewrite app_nil_r in E. rewrite E. simpl. by rewrite app_nil_r.
Qed.

Lemma percent_decode_plain (l : list Z) :
  Forall (fun b => b <> 37) l -> percent_decode l = Some l.
Proof.
  induction 1 as [|b l Hb Hl IH]; [done|]. simpl. apply Z.eqb_neq in Hb. rewrite Hb, IH. done.
Qed.

(** Induction on the recursive calls of the decoder. *)
Lemma percent_decode_props (n : nat) (l d : list Z) :
  (length l <= n)%nat -> Forall is_byte l -> percent_decode l = Some d ->
  (length d <= length l)%nat /\ Forall is_byte d.
Proof.
  revert l d. induction n as [|n IH]; intros [|b l] d Hn Hl; simpl in *;
    try (intros [= <-]; done); try lia.
  apply Forall_cons in Hl as [Hb Hl]. destruct (b =? 37).
  - destruct l as [|h [|k l]]; try done.
    destruct (to_digit16 h) as [x|], (to_digit16 k) as [y|]; try done.
    destruct (percent_decode l) as [d'|] eqn:E; [|done]. intros [= <-]. simpl in *.
    apply Forall_cons in Hl as [_ [_ Hl]%Forall_cons].
    destruct (IH l d') as [H1 H2]; [lia|done|done|]. split; [lia|].
    constructor; [|done]. unfold is_byte, U8_MAX.
    pose proof (Z.mod_pos_bound (x * 16 + y) 256). lia.
  - destruct (percent_decode l) as [d'|] eqn:E; [|done]. intros [= <-]. simpl.
    destruct (IH l d') as [H1 H2]; [lia|done|done|]. split; [lia|]. by constructor.
Qed.

(** ** Segments *)

(** A segment that names something: not empty, not a dot segment, no separator, and none of
    the bytes [P] excludes. *)
Definition proper_segment (s : string) : Prop :=
  s <> "" /\ s <> "." /\ s <> ".." /\ has_char slash s = false.

Lemma push_segment_proper stack seg :
  Forall proper_segment stack -> has_char slash seg = false ->
  Forall proper_segment (push_segment stack seg).
Proof.
  intros Hs Hc. unfold push_segment, is_empty.
  destruct (String.eqb_spec seg ""); [done|]. destruct (String.eqb_spec seg "."); [done|].
  simpl. destruct (String.eqb_spec seg "..").
  - destruct Hs; simpl; [constructor|done].
  - by constructor.
Qed.

Lemma fold_push_proper segs stack :
  Forall proper_segment stack -> Forall (fun s => has_char slash s = false) segs ->
  Forall proper_segment (fold_left push_segment segs stack).
Proof.
  intros Hs Hc. revert stack Hs. induction Hc as [|s segs Hc _ IH]; intros stack Hs; simpl; [done|].
  apply IH. by apply push_segment_proper.
Qed.

Lemma normal_segments_proper path : Forall proper_segment (normal_segments path).
Proof.
  unfold normal_segments. apply Forall_rev. apply fold_push_proper; [constructor|].
  apply split_pieces.
Qed.

(** Proper segments are pushed as they are. *)
Lemma fold_push_id segs stack :
  Forall proper_segment segs -> fold_left push_segment segs stack = rev segs ++ stack.
Proof.
  intros Hs. revert stack. induction Hs as [|s segs (H1 & H2 & H3 & _) _ IH]; intros stack;
    simpl; [done|].
  rewrite IH. unfold push_segment, is_empty.
  apply String.eqb_neq in H1, H2, H3. rewrite H1, H2, H3. simpl. by rewrite <- app_assoc.
Qed.

(** The segments only keep bytes of the path. *)
Definition all_chars (P : ascii -> Prop) (s : string) : Prop :=
  Forall P (String.list_ascii_of_string s).

Lemma all_chars_append P s t : all_chars P (s +:+ t) <-> all_chars P s /\ all_chars P t.
Proof.
  unfold all_chars. rewrite <- Forall_app. induction s as [|a s IH]; simpl; [done|].
  rewrite !Forall_cons. tauto.
Qed.

Lemma all_chars_split P c s : all_chars P s -> Forall (all_chars P) (split c s).
Proof.
  unfold all_chars. induction s as [|a s IH]; simpl; intros Hs; [repeat constructor|].
  apply Forall_cons in Hs as [Ha Hs]. specialize (IH Hs).
  destruct (Ascii.eqb a c); [by repeat constructor|].
  destruct (split c s) as [|p ps]; [by repeat constructor|].
  apply Forall_cons in IH as [Hp Hps]. constructor; [by constructor|done].
Qed.

Lemma all_chars_join P sep l :
  all_chars P sep -> Forall (all_chars P) l -> all_chars P (join sep l).
Proof.
  intros Hsep. induction 1 as [|p ps Hp Hps IH]; [constructor|].
  destruct ps as [|q qs]; [done|]. rewrite join_cons by done.
  by rewrite !all_chars_append.
Qed.

Lemma fold_push_sub (Q : string -> Prop) segs stack :
  Forall Q segs -> Forall Q stack -> Forall Q (fold_left push_segment segs stack).
Proof.
  intros Hs. revert stack. induction Hs as [|s segs H1 _ IH]; intros stack Hst; simpl; [done|].
  apply IH. unfold push_segment. repeat case_bool; [done| |by constructor].
  destruct Hst; simpl; [constructor|done].
Qed.

(** The rendered length never exceeds the length of the segments read. *)
Fixpoint total_length (l : list string) : nat :=
  match l with
  | [] => 0
  | s :: l' => S (String.length s) + total_length l'
  end.

Lemma total_length_app l k : total_length (l ++ k) = (total_length l + total_length k)%nat.
Proof. induction l; simpl; lia. Qed.

Lemma total_length_rev l : total_length (rev l) = total_length l.
Proof. induction l; simpl; [done|]. rewrite total_length_app. simpl. lia. Qed.

Lemma join_length l : l <> [] -> S (String.length (join "/" l)) = total_length l.
Proof.
  induction l as [|p [|q l] IH]; intros Hl; [done|simpl; lia|].
  rewrite join_cons, !append_length by done. specialize (IH ltac:(done)).
  cbn [total_length] in *. change (String.length "/") with 1%nat. lia.
Qed.

Lemma split_total c s : total_length (split c s) = S (String.length s).
Proof.
  induction s as [|a s IH]; simpl; [done|].
  destruct (Ascii.eqb a c); simpl; [by rewrite IH|].
  destruct (split_cons c s) as (p & ps & E). rewrite E in *. simpl in *. lia.
Qed.

Lemma push_total stack seg :
  (total_length (push_segment stack seg) <= total_length stack + S (String.length seg))%nat.
Proof.
  unfold push_segment. repeat case_bool; simpl; try lia. destruct stack; simpl; lia.
Qed.

Lemma fold_push_total segs stack :
  (total_length (fold_left push_segment segs stack) <= total_length stack + total_length segs)%nat.
Proof.
  revert stack. induction segs as [|s segs IH]; intros stack; simpl; [lia|].
  specialize (IH (push_segment stack s)). pose proof (push_total stack s). lia.
Qed.

(** ** The version prefix *)

Lemma strip_version_cases path :
  strip_api_version_prefix path = path
  \/ exists v t, path = "/v" +:+ v +:+ String slash t
       /\ strip_api_version_prefix path = String slash t.
Proof.
  unfold strip_api_version_prefix. destruct (strip_prefix "/v" path) as [rest|] eqn:E; [|by left].
  destruct (is_empty rest); [by left|].
  destruct (split_once slash rest) as [[v t]|] eqn:Es; [|by left].
  destruct (_ && _); [|by left]. right. exists v, t. split; [|done].
  apply strip_prefix_spec in E as ->. by apply split_once_spec in Es as [-> _].
Qed.

Lemma strip_version_props (P : ascii -> Prop) path :
  all_chars P path -> all_chars P (strip_api_version_prefix path)
  /\ (String.length (strip_api_version_prefix path) <= String.length path)%nat.
Proof.
  intros Hp. destruct (strip_version_cases path) as [->|(v & t & Hpath & ->)]; [auto|].
  rewrite Hpath in Hp |- *. apply all_chars_append in Hp as [_ Hp].
  apply all_chars_append in Hp as [_ Hp]. split; [done|].
  rewrite !append_length. simpl. lia.
Qed.

(** ** The canonical path *)

(** What every path that reaches the rules looks like. *)
Record canonical (p : string) : Prop := {
  canonical_segments : exists segs trailing,
    p = render_path segs trailing /\ Forall proper_segment segs;
  canonical_clean : all_chars (fun a => control_byte (code a) = false) p;
  canonical_length : Z.of_nat (String.length p) <= MAX_PATH_LEN
}.

Lemma render_length segs trailing :
  (String.length (render_path segs trailing)
   <= S (total_length segs))%nat.
Proof.
  unfold render_path. assert (Hl : (String.length ("/" +:+ join "/" segs) <= S (total_length segs - 1))%nat).
  { destruct segs as [|p ps]; [simpl; lia|]. pose proof (join_length (p :: ps) ltac:(done)).
    rewrite append_length. change (String.length "/") with 1%nat. lia. }
  destruct (trailing && _) eqn:E; [|lia]. apply andb_true_iff in E as [_ E].
  apply Nat.ltb_lt in E. rewrite append_length. change (String.length "/") with 1%nat. lia.
Qed.

Lemma render_clean P segs trailing :
  P slash -> Forall (all_chars P) segs -> all_chars P (render_path segs trailing).
Proof.
  intros Hsl Hs. assert (Hone : all_chars P "/") by (repeat constructor; done).
  unfold render_path. case_bool; rewrite !all_chars_append; split_and!; try done;
    by apply all_chars_join.
Qed.

Lemma of_bytes_clean l :
  Forall is_byte l -> existsb control_byte l = false ->
  all_chars (fun a => control_byte (code a) = false) (of_bytes l).
Proof.
  unfold all_chars, of_bytes. rewrite String.list_ascii_of_string_of_list_ascii.
  induction 1 as [|z l Hz Hl IH]; simpl; [constructor|].
  intros [H1 H2]%orb_false_iff. constructor; [by rewrite code_char_of|auto].
Qed.

Lemma of_bytes_length l : String.length (of_bytes l) = length l.
Proof. unfold of_bytes. induction l; simpl; congruence. Qed.

(** The trailing slash adds one byte only when a segment precedes it, so the canonical path is
    never longer than the path it came from. *)
Lemma normal_segments_total path :
  (total_length (normal_segments path) <= S (String.length path))%nat.
Proof.
  unfold normal_segments. rewrite total_length_rev.
  pose proof (fold_push_total (split slash path) []) as Hf. rewrite split_total in Hf.
  simpl in Hf. lia.
Qed.

Lemma split_snoc c s : split c (s +:+ String c "") = split c s ++ [""].
Proof.
  induction s as [|a s IH]; simpl; [by rewrite Ascii.eqb_refl|].
  destruct (Ascii.eqb a c); [by rewrite IH|]. rewrite IH.
  destruct (split_cons c s) as (p & ps & ->). done.
Qed.

Lemma fold_push_cons_empty segs stack :
  fold_left push_segment ("" :: segs) stack = fold_left push_segment segs stack.
Proof. done. Qed.

(** The rendered path is no longer than the path its segments were read from. *)
Lemma render_normal_length t :
  let path := String slash t in
  let trailing := (1 <? String.length path)%nat && ends_with path "/" in
  (String.length (render_path (normal_segments path) trailing) <= String.length path)%nat.
Proof.
  cbv zeta. set (path := String slash t).
  assert (Hn : normal_segments path = rev (fold_left push_segment (split slash t) [])) by done.
  assert (Hone : String.length "/" = 1%nat) by done.
  assert (Htot : (total_length (normal_segments path) <= S (String.length t))%nat).
  { rewrite Hn, total_length_rev. pose proof (fold_push_total (split slash t) []) as Hf.
    rewrite split_total in Hf. simpl in Hf. lia. }
  unfold render_path. set (out := "/" +:+ join "/" (normal_segments path)).
  assert (Hout : (String.length out = 1 \/ String.length out = total_length (normal_segments path))%nat).
  { subst out. rewrite append_length, Hone. destruct (normal_segments path) as [|p ps] eqn:E.
    - by left.
    - right. pose proof (join_length (p :: ps) ltac:(done)). lia. }
  assert (Hlen : String.length path = S (String.length t)) by done.
  destruct ((1 <? String.length path)%nat && ends_with path "/" && (1 <? String.length out)%nat)
    eqn:Eb; [|destruct Hout; lia].
  apply andb_true_iff in Eb as [Eb H3]. apply andb_true_iff in Eb as [_ He].
  apply Nat.ltb_lt in H3. rewrite append_length, Hone.
  apply ends_with_spec in He as [u Hu]. destruct u as [|b u]; [by simplify_eq/=; lia|].
  simpl in Hu. injection Hu as <- Hu.
  assert (total_length (normal_segments path) <= S (String.length u))%nat.
  { rewrite Hn, total_length_rev, Hu. change "/" with (String slash "").
    rewrite split_snoc, fold_left_app.
    pose proof (fold_push_total (split slash u) []) as Hf. rewrite split_total in Hf. exact Hf. }
  assert (String.length t = S (String.length u)) by (rewrite Hu, append_length, Hone; lia).
  destruct Hout; lia.
Qed.

Lemma strip_version_slash t :
  exists u, strip_api_version_prefix (String slash t) = String slash u.
Proof.
  destruct (strip_version_cases (String slash t)) as [->|(v & u & _ & ->)]; eauto.
Qed.

Lemma decoded_slash raw d :
  starts_with raw "/" = true -> percent_decode (as_bytes raw) = Some d ->
  exists d', d = 47 :: d'.
Proof.
  intros Hs Hd. apply starts_with_spec in Hs as [t ->]. rewrite as_bytes_append in Hd.
  change (as_bytes "/") with [47] in Hd. cbn [app percent_decode] in Hd.
  change (47 =? 37) with false in Hd. cbv iota in Hd.
  destruct (percent_decode (as_bytes t)); [|done]. injection Hd as <-. eauto.
Qed.

Lemma canonicalize_Some raw p :
  canonicalize_path raw = Some p ->
  canonical p /\ (String.length p <= String.length raw)%nat.
Proof.
  unfold canonicalize_path. destruct (is_empty raw || negb (starts_with raw "/")) eqn:Es; [done|].
  apply orb_false_iff in Es as [_ Es]. apply negb_false_iff in Es.
  destruct (Z.ltb_spec MAX_PATH_LEN (Z.of_nat (String.length raw))) as [|Hlen]; [done|].
  destruct (percent_decode (as_bytes raw)) as [d|] eqn:Ed; [|done].
  destruct (existsb control_byte d) eqn:Ec; [done|].
  unfold from_utf8. destruct (utf8_valid d); [|done]. intros [= <-].
  destruct (percent_decode_props _ _ _ (le_n _) (as_bytes_range raw) Ed) as [Hdl Hdr].
  destruct (decoded_slash _ _ Es Ed) as [d' ->]. rewrite as_bytes_length in Hdl.
  pose proof (of_bytes_clean _ Hdr Ec) as Hclean.
  pose proof (of_bytes_length (47 :: d')) as Hol.
  destruct (strip_version_props _ _ Hclean) as [Hc Hl].
  change (of_bytes (47 :: d')) with (String slash (of_bytes d')) in *.
  destruct (strip_version_slash (of_bytes d')) as [u Hu]. rewrite Hu in *.
  pose proof (render_normal_length u) as Hr. cbv zeta in Hr.
  set (tr := _ && _) in *. split; [|lia]. constructor.
  - exists (normal_segments (String slash u)), tr. split; [done|]. apply normal_segments_proper.
  - apply render_clean; [done|]. unfold normal_segments. apply Forall_rev.
    apply fold_push_sub; [by apply all_chars_split|constructor].
  - lia.
Qed.

(** ** Canonical paths are fixed points *)

Lemma append_not_slash x s t :
  s <> "" -> has_char slash s = false -> x +:+ s <> t +:+ "/".
Proof.
  intros Hne Hc. revert t. induction x as [|a x IH]; intros t E.
  - change ("" +:+ s) with s in E. subst s. rewrite has_char_append in Hc. simpl in Hc.
    by rewrite orb_true_r in Hc.
  - destruct t as [|b t]; simpl in E; injection E as _ E.
    + destruct x; [by simpl in E|done].
    + by eapply IH.
Qed.

Lemma join_last segs :
  segs <> [] -> Forall proper_segment segs ->
  exists x s, join "/" segs = x +:+ s /\ s <> "" /\ has_char slash s = false.
Proof.
  intros Hne. induction 1 as [|p ps (H1 & _ & _ & H4) Hps IH]; [done|].
  destruct ps as [|q qs]; [by exists "", p|]. rewrite join_cons by done.
  destruct IH as (x & s & -> & Hs); [done|]. exists (p +:+ "/" +:+ x), s.
  by rewrite !append_assoc.
Qed.

Lemma join_ne segs : segs <> [] -> Forall proper_segment segs -> join "/" segs <> "".
Proof.
  intros Hne Hs. destruct (join_last segs Hne Hs) as (x & s & -> & Hs1 & _). by destruct x.
Qed.

Lemma proper_no_slash segs :
  Forall proper_segment segs -> Forall (fun s => has_char slash s = false) segs.
Proof. intros Hs. eapply Forall_impl; [exact Hs|]. by intros s (_ & _ & _ & ?). Qed.

Lemma normal_render_eq segs :
  segs <> [] -> Forall proper_segment segs ->
  normal_segments ("/" +:+ join "/" segs) = segs
  /\ normal_segments ("/" +:+ join "/" segs +:+ "/") = segs
  /\ ends_with ("/" +:+ join "/" segs) "/" = false.
Proof.
  intros Hne Hs. pose proof (proper_no_slash _ Hs) as Hc. unfold normal_segments.
  assert (Hsplit : split slash (join "/" segs) = segs) by (by apply split_join).
  split_and!.
  - simpl. rewrite Hsplit, fold_push_id by done. by rewrite app_nil_r, rev_involutive.
  - simpl. change "/" with (String slash "") at 2. rewrite split_snoc, Hsplit, fold_left_app. simpl.
    rewrite fold_push_id by done. change (push_segment [] "") with (@nil string).
    change (rev (rev segs ++ []) = segs). by rewrite app_nil_r, rev_involutive.
  - apply not_true_is_false. intros [t Ht]%ends_with_spec.
    destruct (join_last segs Hne Hs) as (x & s & Hj & Hs1 & Hs2). rewrite Hj in Ht.
    rewrite <- append_assoc in Ht. by eapply append_not_slash in Ht.
Qed.

Lemma render_fixed segs tr :
  Forall proper_segment segs ->
  let p := render_path segs tr in
  render_path (normal_segments p) ((1 <? String.length p)%nat && ends_with p "/") = p.
Proof.
  intros Hs. cbv zeta. destruct segs as [|s0 ss] eqn:Es.
  { assert (render_path [] tr = "/") as -> by (by destruct tr). done. }
  rewrite <- Es in *. assert (Hne : segs <> []) by (by subst).
  destruct (normal_render_eq segs Hne Hs) as (N1 & N2 & E1).
  assert (Hlen : (1 <? String.length ("/" +:+ join "/" segs))%nat = true).
  { apply Nat.ltb_lt. rewrite append_length. change (String.length "/") with 1%nat.
    pose proof (join_ne segs Hne Hs) as Hj. destruct (join "/" segs); [done|simpl; lia]. }
  unfold render_path at 2 3 4. rewrite Hlen, andb_true_r.
  destruct tr; unfold render_path.
  - rewrite append_assoc, N2.
    assert (He : ends_with ("/" +:+ join "/" segs +:+ "/") "/" = true).
    { apply ends_with_spec. exists ("/" +:+ join "/" segs). by rewrite append_assoc. }
    rewrite He, Hlen, andb_true_r.
    assert (Hl2 : (1 <? String.length ("/" +:+ join "/" segs +:+ "/"))%nat = true).
    { apply Nat.ltb_lt. rewrite !append_length. change (String.length "/") with 1%nat. lia. }
    rewrite Hl2. by rewrite append_assoc.
  - by rewrite N1, E1, andb_false_r.
Qed.

Lemma clean_existsb p :
  all_chars (fun a => control_byte (code a) = false) p -> existsb control_byte (as_bytes p) = false.
Proof.
  unfold all_chars, as_bytes. induction (String.list_ascii_of_string p) as [|a l IH]; simpl; [done|].
  intros [Ha Hl]%Forall_cons. by rewrite Ha, IH.
Qed.

Lemma no_percent_bytes p : has_char "%"%char p = false -> Forall (fun b => b <> 37) (as_bytes p).
Proof.
  unfold as_bytes. induction p as [|a p IH]; simpl; [constructor|].
  intros [Ha Hp]%orb_false_iff. constructor; [|auto]. intros Hc.
  apply Ascii.eqb_neq in Ha. apply Ha. rewrite <- (char_of_code a), Hc. done.
Qed.

Lemma canonical_fixed p :
  canonical p -> has_char "%"%char p = false -> utf8_valid (as_bytes p) = true ->
  strip_api_version_prefix p = p -> canonicalize_path p = Some p.
Proof.
  intros [(segs & tr & Hp & Hs) Hc Hl] Hpc Hu Hv.
  assert (Hst : exists t, p = "/" +:+ t).
  { rewrite Hp. unfold render_path. case_bool; [|eauto]. rewrite append_assoc. eauto. }
  unfold canonicalize_path. destruct Hst as [t Ht].
  assert (Hstart : starts_with p "/" = true) by (rewrite Ht; apply starts_with_append).
  assert (Hnonempty : is_empty p = false) by (by rewrite Ht). rewrite Hstart, Hnonempty. simpl.
  destruct (Z.ltb_spec MAX_PATH_LEN (Z.of_nat (String.length p))); [lia|].
  rewrite percent_decode_plain by (by apply no_percent_bytes).
  rewrite clean_existsb by done. unfold from_utf8. rewrite Hu, of_bytes_as_bytes, Hv.
  f_equal. rewrite Hp. by apply (render_fixed segs tr).
Qed.

(** ** [constant_time_eq] *)

Lemma fold_lor_zero (f : nat -> Z) (l : list nat) (d : Z) :
  fold_left (fun d i => Z.lor d (f i)) l d = 0 <-> d = 0 /\ forall i, i ∈ l -> f i = 0.
Proof.
  revert d. induction l as [|i l IH]; intros d; simpl; [set_solver|].
  rewrite IH, Z.lor_eq_0_iff. set_solver.
Qed.

Lemma constant_time_eq_spec (a b : list Z) :
  Z.of_nat (length a) <= U32_MAX -> Z.of_nat (length b) <= U32_MAX ->
  constant_time_eq a b = true <-> a = b.
Proof.
  intros Ha Hb. unfold constant_time_eq. rewrite Z.eqb_eq, fold_lor_zero.
  assert (Hlen : Z.lxor (Z.of_nat (length a)) (Z.of_nat (length b)) mod (U32_MAX + 1) = 0
                 <-> length a = length b).
  { change (U32_MAX + 1) with (2 ^ 32). rewrite <- Z.land_ones by lia.
    assert (Hsmall : forall z, 0 <= z <= U32_MAX -> Z.land z (Z.ones 32) = z).
    { intros z Hz. rewrite Z.land_ones by lia. apply Z.mod_small.
      change (2 ^ 32) with (U32_MAX + 1). lia. }
    assert (Hx : Z.land (Z.lxor (Z.of_nat (length a)) (Z.of_nat (length b))) (Z.ones 32)
                 = Z.lxor (Z.of_nat (length a)) (Z.of_nat (length b))).
    { apply Z.bits_inj'. intros i Hi. rewrite Z.land_spec, !Z.lxor_spec.
      rewrite <- (Hsmall (Z.of_nat (length a))), <- (Hsmall (Z.of_nat (length b))) by lia.
      rewrite !Z.land_spec. destruct (Z.testbit (Z.ones 32) i); by rewrite ?andb_true_r, ?andb_false_r. }
    rewrite Hx, Z.lxor_eq_0_iff. lia. }
  rewrite Hlen. split; [|intros ->; split; [done|intros; apply Z.lxor_nilpotent]].
  intros [Hl Hall]. apply (nth_ext _ _ 0 0 Hl). intros i Hi. apply Z.lxor_eq_0_iff, Hall.
  apply list_elem_of_In, in_seq. lia.
Qed.
