(* ===== verification/Tls.v ===== *)
(** * TLS and client certificates ([src/tls.rs])

    The names of a client certificate, the role they grant, and the decisions of
    [build_server_config].  The X.509 parser, the PEM reader and rustls are parameters. *)

From S2P Require Import Prelude RustStr Config.

(** ** Definitions *)

Record CertIdentity : Type := {
  common_name : option string;
  sans : list string
}.

(** The names the X.509 parser finds in a certificate: each common name with its string form if
    it has one, and the entries of the subject alternative name. *)
Inductive GeneralName : Type :=
  | DNSName (s : string)
  | URI (s : string)
  | RFC822Name (s : string)
  | OtherGeneralName.

Class X509Api : Type := {
  Certificate : Type;
  from_der : list Z -> option Certificate;
  iter_common_name : Certificate -> list (option string);
  subject_alternative_name : Certificate -> option (list GeneralName)
}.

Definition san_string (name : GeneralName) : option string :=
  match name with
  | DNSName s | URI s | RFC822Name s => Some s
  | OtherGeneralName => None
  end.

Definition extract_identity `{X509Api} (cert_der : list Z) : option CertIdentity :=
  match from_der cert_der with
  | None => None
  | Some parsed =>
      let cn := match iter_common_name parsed with
                | cn :: _ => cn
                | [] => None
                end in
      let names := match subject_alternative_name parsed with
                   | Some names => omap san_string names
                   | None => []
                   end in
      Some {| common_name := cn; sans := names |}
  end.

Definition cn_match (pattern value : string) : bool :=
  if String.eqb pattern value then true
  else
    match strip_prefix "*." pattern with
    | Some rest =>
        match split_once "."%char value with
        | Some (_, after) => String.eqb after rest
        | None => false
        end
    | None => false
    end.

Definition candidates (identity : CertIdentity) : list string :=
  option_list (common_name identity) ++ sans identity.

(** The two nested loops: every entry of the map for one name before the next name. *)
Fixpoint first_entry (map : list CertRoleMapping) (cand : string) : option string :=
  match map with
  | [] => None
  | entry :: map' =>
      if cn_match (mapping_cn entry) cand then Some (mapping_role entry)
      else first_entry map' cand
  end.

Fixpoint first_candidate (map : list CertRoleMapping) (cands : list string) : option string :=
  match cands with
  | [] => None
  | cand :: cands' => or_else (first_entry map cand) (first_candidate map cands')
  end.

Definition resolve_mtls_role (identity : CertIdentity) (mtls : option MtlsConfig)
    : option string :=
  or_else
    match mtls with
    | Some cfg =>
        match cert_role_map cfg with
        | Some map => first_candidate map (candidates identity)
        | None => None
        end
    | None => None
    end
    match mtls with
    | Some m => default_role m
    | None => None
    end.

(** *** The server configuration *)

(** Opening a file and reading the PEM items in it, and the checks rustls makes. *)
Class RustlsApi : Type := {
  Cert : Type;
  PrivateKey : Type;
  open_file : string -> result string string;
  pem_certs : string -> list (result Cert string);
  pem_private_key : string -> result (option PrivateKey) string;
  roots_add : Cert -> result unit string;
  verifier_build : list Cert -> bool -> result unit string;
  single_cert : list Cert -> PrivateKey -> result unit string
}.

(** What the built configuration asks of a client: nothing, or a certificate from one of the
    roots, which may be left out unless it is required. *)
Inductive ClientAuth `{RustlsApi} : Type :=
  | NoClientAuth
  | VerifyClient (roots : list Cert) (require : bool).

Record ServerConfig `{RustlsApi} : Type := {
  server_certs : list Cert;
  server_key : PrivateKey;
  server_client_auth : ClientAuth
}.

Section ServerConfig.
Context `{RustlsApi}.

Definition load_certs (path : string) : result (list Cert) string :=
  let? file := map_err (fun e => "open " +:+ path +:+ " failed: " +:+ e) (open_file path) in
  let? out := traverse (map_err (fun e => "parse cert failed: " +:+ e)) (pem_certs file) in
  match out with
  | [] => Err ("no certificates found in " +:+ path)
  | _ => Ok out
  end.

Definition load_private_key (path : string) : result PrivateKey string :=
  let? file := map_err (fun e => "open " +:+ path +:+ " failed: " +:+ e) (open_file path) in
  let? key := map_err (fun e => "parse key failed: " +:+ e) (pem_private_key file) in
  match key with
  | Some key => Ok key
  | None => Err ("no private key found in " +:+ path)
  end.

Definition build_server_config (tls : TlsConfig) : result ServerConfig string :=
  let? certs := load_certs (tls_cert tls) in
  let? key := load_private_key (tls_key tls) in
  let install := map_err (fun e => "server cert install failed: " +:+ e) (single_cert certs key) in
  match tls_client_ca tls, unwrap_or (tls_require_client_cert tls) false with
  | Some ca_path, require =>
      let? cas := load_certs ca_path in
      let? _ := traverse (fun cert => map_err (fun e => "client CA add failed: " +:+ e)
                                              (roots_add cert)) cas in
      let? _ := map_err (fun e => "client verifier build failed: " +:+ e)
                        (verifier_build cas require) in
      let? _ := install in
      Ok {| server_certs := certs; server_key := key;
            server_client_auth := VerifyClient cas require |}
  | None, _ =>
      let? _ := install in
      Ok {| server_certs := certs; server_key := key; server_client_auth := NoClientAuth |}
  end.

End ServerConfig.

(** ** Wildcard matching *)

(** A pattern names a host: the same text, or [*.] standing for exactly one label. *)
Inductive names_host : string -> string -> Prop :=
  | names_exact s : names_host s s
  | names_wildcard label rest :
      has_char "."%char label = false -> names_host ("*." +:+ rest) (label +:+ "." +:+ rest).

Lemma cn_match_spec pattern value : cn_match pattern value = true <-> names_host pattern value.
Proof.
  unfold cn_match. destruct (String.eqb_spec pattern value) as [->|Hne].
  { split; [constructor|done]. }
  destruct (strip_prefix "*." pattern) as [rest|] eqn:Ep.
  - apply strip_prefix_spec in Ep as ->.
    destruct (split_once _ value) as [[label after]|] eqn:Es.
    + rewrite String.eqb_eq. apply split_once_spec in Es as [-> Hc].
      split; [intros ->; by apply (names_wildcard label)|].
      inversion 1 as [|l r Hl]; subst; [done|].
      assert (split_once "."%char (l +:+ String "." rest)
              = split_once "."%char (label +:+ String "." after)) as E by (simpl in *; congruence).
      rewrite (proj2 (split_once_spec _ _ l rest) (conj eq_refl Hl)) in E.
      rewrite (proj2 (split_once_spec _ _ label after) (conj eq_refl Hc)) in E. by simplify_eq.
    + split; [done|]. inversion 1 as [|l r Hl]; subst; [done|].
      assert (split_once "."%char (l +:+ String "." rest) = Some (l, rest)) as E
        by (by apply split_once_spec).
      simpl in Es. congruence.
  - split; [done|]. inversion 1 as [|l r Hl]; subst; [done|].
    pose proof (strip_prefix_append "*." r) as E. rewrite Ep in E. done.
Qed.

(** ** The role a certificate grants *)

Lemma first_entry_find map cand :
  first_entry map cand
  = option_map mapping_role (List.find (fun e => cn_match (mapping_cn e) cand) map).
Proof. induction map as [|e map IH]; simpl; [done|]. by destruct (cn_match _ _). Qed.

Lemma first_entry_Some map cand role :
  first_entry map cand = Some role ->
  exists e, e ∈ map /\ cn_match (mapping_cn e) cand = true /\ mapping_role e = role.
Proof.
  rewrite first_entry_find. destruct (List.find _ map) as [e|] eqn:E; [|done]. intros [= <-].
  apply List.find_some in E as [Hin Hm]. exists e. by rewrite list_elem_of_In.
Qed.

Lemma first_entry_None map cand :
  first_entry map cand = None <-> forall e, e ∈ map -> cn_match (mapping_cn e) cand = false.
Proof.
  rewrite first_entry_find. split.
  - destruct (List.find _ map) eqn:E; [done|]. intros _ e Hin.
    apply (List.find_none _ _ E). by apply list_elem_of_In.
  - intros Hall. destruct (List.find _ map) as [e|] eqn:E; [|done].
    apply List.find_some in E as [Hin Hm]. apply list_elem_of_In in Hin.
    rewrite Hall in Hm by done. done.
Qed.

Lemma first_candidate_Some map cands role :
  first_candidate map cands = Some role ->
  exists e c, e ∈ map /\ c ∈ cands /\ cn_match (mapping_cn e) c = true /\ mapping_role e = role.
Proof.
  induction cands as [|c cands IH]; simpl; [done|].
  destruct (first_entry map c) as [r|] eqn:E; simpl; [|set_solver].
  intros [= ->]. apply first_entry_Some in E as (e & ? & ? & ?). set_solver.
Qed.

Lemma first_candidate_None map cands :
  first_candidate map cands = None <->
  forall e c, e ∈ map -> c ∈ cands -> cn_match (mapping_cn e) c = false.
Proof.
  induction cands as [|c cands IH]; simpl; [set_solver|].
  destruct (first_entry map c) as [r|] eqn:E; simpl.
  - split; [done|]. intros Hall. apply first_entry_Some in E as (e & Hin & Hm & _).
    rewrite Hall in Hm by set_solver. done.
  - rewrite first_entry_None in E. rewrite IH. set_solver.
Qed.

(** The role map of a configuration; it is empty when there is none. *)
Definition role_map (mtls : option MtlsConfig) : list CertRoleMapping :=
  match mtls with
  | Some cfg => unwrap_or (cert_role_map cfg) []
  | None => []
  end.

Definition granted (identity : CertIdentity) (mtls : option MtlsConfig) (role : string) : Prop :=
  (exists e c, e ∈ role_map mtls /\ c ∈ candidates identity
               /\ names_host (mapping_cn e) c /\ mapping_role e = role)
  \/ ((forall e c, e ∈ role_map mtls -> c ∈ candidates identity -> ~ names_host (mapping_cn e) c)
      /\ exists cfg, mtls = Some cfg /\ default_role cfg = Some role).

Lemma resolve_mtls_role_map identity mtls :
  resolve_mtls_role identity mtls
  = or_else (first_candidate (role_map mtls) (candidates identity))
            (match mtls with Some m => default_role m | None => None end).
Proof.
  unfold resolve_mtls_role, role_map.
  assert (Hnil : forall l, first_candidate [] l = None) by (induction l; done).
  destruct mtls as [cfg|]; [destruct (cert_role_map cfg)|]; simpl; by rewrite ?Hnil.
Qed.
