(* ===== verification/Upgrade.v ===== *)
(** * Upgrade requests ([src/upgrade.rs]) *)

From S2P Require Import Prelude RustStr External.

Section Upgrade.
Context `{HttpApi}.

Definition header_has_token (value : HeaderValue) (token : string) : bool :=
  match to_str value with
  | None => false
  | Some s => existsb (fun t => eq_ignore_ascii_case t token) (map trim (split ","%char s))
  end.

Definition is_upgrade_request (headers : HeaderMap) : bool :=
  let connection_has_upgrade :=
    existsb (fun v => header_has_token v "upgrade") (header_get_all headers "connection") in
  let has_upgrade_header := is_some (header_get headers "upgrade") in
  connection_has_upgrade && has_upgrade_header.

(** A value lists a token: one of its comma-separated elements is the token, up to case and
    surrounding white space. *)
Definition lists_token (s token : string) : Prop :=
  exists elem, elem ∈ split ","%char s /\ to_lower (trim elem) = to_lower token.

Lemma header_has_token_spec v token :
  header_has_token v token = true <-> exists s, to_str v = Some s /\ lists_token s token.
Proof.
  unfold header_has_token, lists_token. destruct (to_str v) as [s|]; [|naive_solver].
  rewrite existsb_In. split.
  - intros (t & (elem & -> & Hin)%list_elem_of_fmap & Heq). exists s. split; [done|].
    exists elem. split; [done|]. by apply String.eqb_eq.
  - intros (s' & [= <-] & elem & Hin & Heq). exists (trim elem). split.
    + apply list_elem_of_fmap. eauto.
    + by apply String.eqb_eq.
Qed.

End Upgrade.
