(* ===== verification/Metrics.v ===== *)
(** * Metrics ([src/metrics.rs])

    The atomic counters, the per-rule counters, the latency histogram, and the Prometheus text
    rendered from them.  A counter is a [u64] that [fetch_add] wraps; a per-rule counter
    saturates. *)

From S2P Require Import Prelude RustStr.

Open Scope Z_scope.

(** ** State *)

(** The thirteen [AtomicU64] fields of [Metrics]. *)
Inductive Counter : Type :=
  | requests_total
  | requests_allowed
  | requests_denied
  | requests_dry_run
  | auth_failures_total
  | auth_lockouts_total
  | rate_limited_total
  | upstream_errors_total
  | upstream_timeouts_total
  | body_too_large_total
  | bad_request_total
  | request_timeouts_total
  | upgrade_total.

#[export] Instance Counter_eq_dec : EqDecision Counter.
Proof. solve_decision. Defined.

Record RuleCounters : Type := {
  rule_denied : Z;
  rule_dry_run_count : Z
}.

Definition RuleCounters_default : RuleCounters := {| rule_denied := 0; rule_dry_run_count := 0 |}.

Definition LATENCY_BUCKETS_MS : list Z := [5; 10; 25; 50; 100; 250; 500; 1000; 2500; 5000; 10000].
Definition LATENCY_BUCKET_COUNT : nat := 12.

Record LatencyHistogram : Type := {
  buckets : list Z;
  sum_ms : Z;
  hist_count : Z
}.

Definition LatencyHistogram_new : LatencyHistogram :=
  {| buckets := replicate LATENCY_BUCKET_COUNT 0; sum_ms := 0; hist_count := 0 |}.

Record Metrics : Type := {
  counters : Counter -> Z;
  by_rule : gmap string RuleCounters;
  latency : LatencyHistogram
}.

Definition Metrics_new : Metrics :=
  {| counters := fun _ => 0; by_rule := ∅; latency := LatencyHistogram_new |}.

(** ** Operations *)

(** [self.<c>.fetch_add(1, Ordering::Relaxed)] *)
Definition fetch_add (m : Metrics) (c : Counter) : Metrics :=
  {| counters := fun d => if decide (d = c) then wrapping_add_u64 (counters m c) 1
                          else counters m d;
     by_rule := by_rule m; latency := latency m |}.

Definition count_rule (e : RuleCounters) (dry_run : bool) : RuleCounters :=
  if dry_run then
    {| rule_denied := rule_denied e;
       rule_dry_run_count := saturating_add_u64 (rule_dry_run_count e) 1 |}
  else
    {| rule_denied := saturating_add_u64 (rule_denied e) 1;
       rule_dry_run_count := rule_dry_run_count e |}.

Definition record_rule_deny (m : Metrics) (rule_name : string) (dry_run : bool) : Metrics :=
  let e := default RuleCounters_default (by_rule m !! rule_name) in
  {| counters := counters m; by_rule := <[rule_name := count_rule e dry_run]> (by_rule m);
     latency := latency m |}.

(** The loop over the bounds: the first bound not below [ms], else the last bucket. *)
Fixpoint placed_idx (i : nat) (bounds : list Z) (ms : Z) : nat :=
  match bounds with
  | [] => LATENCY_BUCKET_COUNT - 1
  | bound :: bounds' => if ms <=? bound then i else placed_idx (S i) bounds' ms
  end.

(** One [fetch_add] on the histogram. *)
Inductive increment : Type :=
  | AddSum (ms : Z)
  | AddCount
  | AddBucket (i : nat).

Definition increment_by (h : LatencyHistogram) (i : increment) : LatencyHistogram :=
  match i with
  | AddSum ms => {| buckets := buckets h; sum_ms := wrapping_add_u64 (sum_ms h) ms;
                    hist_count := hist_count h |}
  | AddCount => {| buckets := buckets h; sum_ms := sum_ms h;
                   hist_count := wrapping_add_u64 (hist_count h) 1 |}
  | AddBucket i => {| buckets := alter (fun b => wrapping_add_u64 b 1) i (buckets h);
                      sum_ms := sum_ms h; hist_count := hist_count h |}
  end.

Definition increments (ms : Z) : list increment :=
  [AddSum ms; AddCount; AddBucket (placed_idx 0 LATENCY_BUCKETS_MS ms)].

Definition observe (h : LatencyHistogram) (ms : Z) : LatencyHistogram :=
  fold_left increment_by (increments ms) h.

Definition observe_upstream_latency_ms (m : Metrics) (ms : Z) : Metrics :=
  {| counters := counters m; by_rule := by_rule m; latency := observe (latency m) ms |}.

(** ** Rendering *)

Definition nl : string := String (char_of 10) "".
Definition quote : string := String (char_of 34) "".

Fixpoint escape_label (s : string) : string :=
  match s with
  | EmptyString => ""
  | String c s' =>
      (if Ascii.eqb c "\"%char then "\\"
       else if code c =? 34 then "\" +:+ quote
       else if code c =? 10 then "\n"
       else String c "") +:+ escape_label s'
  end.

Definition render_counter (m : Metrics) (name help : string) (c : Counter) : string :=
  "# HELP " +:+ name +:+ " " +:+ help +:+ nl
  +:+ "# TYPE " +:+ name +:+ " counter" +:+ nl
  +:+ name +:+ " " +:+ show (counters m c) +:+ nl.

Definition outcome_rows : list (string * string * Counter) :=
  [("docker_proxy_requests_allowed_total", "allowed", requests_allowed);
   ("docker_proxy_requests_denied_total", "denied", requests_denied);
   ("docker_proxy_requests_dry_run_total", "dry_run", requests_dry_run)].

Definition total_rows : list (string * string * Counter) :=
  [("docker_proxy_auth_failures_total", "Failed auth attempts", auth_failures_total);
   ("docker_proxy_auth_lockouts_total", "IP auth lockouts triggered", auth_lockouts_total);
   ("docker_proxy_rate_limited_total", "Requests blocked by rate limit", rate_limited_total);
   ("docker_proxy_upstream_errors_total", "Upstream docker errors", upstream_errors_total);
   ("docker_proxy_upstream_timeouts_total", "Upstream docker timeouts", upstream_timeouts_total);
   ("docker_proxy_body_too_large_total", "Requests rejected for body size",
    body_too_large_total);
   ("docker_proxy_bad_request_total", "Requests rejected as malformed", bad_request_total);
   ("docker_proxy_request_timeouts_total", "Client request read timeouts",
    request_timeouts_total);
   ("docker_proxy_upgrade_total", "HTTP upgrade (exec/attach) requests proxied",
    upgrade_total)].

Definition render_rule (row : string * RuleCounters) : string :=
  let escaped := escape_label row.1 in
  let line mode n :=
    "docker_proxy_rule_decisions_total{rule=" +:+ quote +:+ escaped +:+ quote
    +:+ ",mode=" +:+ quote +:+ mode +:+ quote +:+ "} " +:+ show n +:+ nl in
  line "enforced" (rule_denied row.2) +:+ line "dry_run" (rule_dry_run_count row.2).

Definition bucket_line (le : string) (cumulative : Z) : string :=
  "docker_proxy_upstream_latency_ms_bucket{le=" +:+ quote +:+ le +:+ quote +:+ "} "
  +:+ show cumulative +:+ nl.

(** The cumulative counts, one per bound. *)
Fixpoint cumulate (acc : Z) (bs : list Z) : list Z :=
  match bs with
  | [] => []
  | b :: bs' => let acc := saturating_add_u64 acc b in acc :: cumulate acc bs'
  end.

Definition render_latency (h : LatencyHistogram) : string :=
  let labels := map show LATENCY_BUCKETS_MS ++ ["+Inf"] in
  "# HELP docker_proxy_upstream_latency_ms Latency to docker upstream in milliseconds" +:+ nl
  +:+ "# TYPE docker_proxy_upstream_latency_ms histogram" +:+ nl
  +:+ join "" (zip_with bucket_line labels (cumulate 0 (buckets h)))
  +:+ "docker_proxy_upstream_latency_ms_sum " +:+ show (sum_ms h) +:+ nl
  +:+ "docker_proxy_upstream_latency_ms_count " +:+ show (hist_count h) +:+ nl.

(** [rows] is the iteration of the hash map, in whatever order it has. *)
Definition render_prometheus (m : Metrics) (rows : list (string * RuleCounters)) : string :=
  render_counter m "docker_proxy_requests_total" "Total HTTP requests received" requests_total
  +:+ join "" (map (fun row => render_counter m row.1.1
                     ("Requests with outcome '" +:+ row.1.2 +:+ "'") row.2) outcome_rows)
  +:+ join "" (map (fun row => render_counter m row.1.1 row.1.2 row.2) total_rows)
  +:+ "# HELP docker_proxy_rule_decisions_total Decisions per rule" +:+ nl
  +:+ "# TYPE docker_proxy_rule_decisions_total counter" +:+ nl
  +:+ join "" (map render_rule rows)
  +:+ render_latency (latency m).

(** ** Labels *)

(** How Prometheus reads a label value back. *)
Fixpoint unescape_label (s : string) : string :=
  match s with
  | EmptyString => ""
  | String c s' =>
      if Ascii.eqb c "\"%char then
        match s' with
        | String d s'' =>
            String (if Ascii.eqb d "n"%char then char_of 10 else d) (unescape_label s'')
        | EmptyString => ""
        end
      else String c (unescape_label s')
  end.

Lemma code_inj (a b : ascii) : code a = code b -> a = b.
Proof.
  unfold code. intros E%N2Z.inj. rewrite <- (Ascii.ascii_N_embedding a), E.
  apply Ascii.ascii_N_embedding.
Qed.

Lemma unescape_escape s : unescape_label (escape_label s) = s.
Proof.
  induction s as [|c s IH]; [done|]. cbn [escape_label].
  destruct (Ascii.eqb_spec c "\"%char) as [->|Hb].
  { change ("\\" +:+ escape_label s) with (String "\" (String "\" (escape_label s))).
    cbn [unescape_label]. by rewrite IH. }
  destruct (Z.eqb_spec (code c) 34) as [Hq|Hq].
  { change (("\" +:+ quote) +:+ escape_label s)
      with (String "\" (String (char_of 34) (escape_label s))).
    cbn [unescape_label]. rewrite IH. f_equal. by apply code_inj. }
  destruct (Z.eqb_spec (code c) 10) as [Hn|Hn].
  { change ("\n" +:+ escape_label s) with (String "\" (String "n" (escape_label s))).
    cbn [unescape_label]. rewrite IH. f_equal. by apply code_inj. }
  change (String c "" +:+ escape_label s) with (String c (escape_label s)). cbn [unescape_label].
  apply Ascii.eqb_neq in Hb. by rewrite Hb, IH.
Qed.

(** A label never breaks the line it is printed on. *)
Lemma escape_no_newline s : has_char (char_of 10) (escape_label s) = false.
Proof.
  induction s as [|c s IH]; [done|]. cbn [escape_label]. rewrite has_char_append, IH, orb_false_r.
  case_bool; [done|]. case_bool; [done|]. case_bool; [done|]. simpl. rewrite orb_false_r.
  apply Ascii.eqb_neq. intros ->. by apply Z.eqb_neq in Heqb1.
Qed.

(** ** Counters *)

Definition count_adds (c : Counter) (l : list Counter) : Z :=
  Z.of_nat (length (filter (fun d => d = c) l)).

Lemma fetch_add_all (l : list Counter) (m : Metrics) (c : Counter) :
  0 <= counters m c <= U64_MAX ->
  counters (fold_left fetch_add l m) c = (counters m c + count_adds c l) mod (U64_MAX + 1).
Proof.
  revert m. induction l as [|d l IH]; intros m Hm; cbn [fold_left].
  - unfold count_adds. simpl. rewrite Z.add_0_r. rewrite Z.mod_small; unfold U64_MAX in *; lia.
  - assert (Hd : counters (fetch_add m d) c
                 = (counters m c + if decide (d = c) then 1 else 0) mod (U64_MAX + 1)).
    { unfold fetch_add, wrapping_add_u64. cbn [counters].
      destruct (decide (c = d)), (decide (d = c)); subst; try done.
      rewrite Z.add_0_r, Z.mod_small; unfold U64_MAX in *; lia. }
    rewrite IH by (rewrite Hd; pose proof (Z.mod_pos_bound (counters m c +
      if decide (d = c) then 1 else 0) (U64_MAX + 1)); unfold U64_MAX in *; lia).
    rewrite Hd, Z.add_mod_idemp_l by (unfold U64_MAX; lia). f_equal.
    unfold count_adds. rewrite filter_cons. destruct (decide (d = c)); simpl; lia.
Qed.

Lemma record_rule_deny_lookup m name dry name' :
  by_rule (record_rule_deny m name dry) !! name'
  = if decide (name = name')
    then Some (count_rule (default RuleCounters_default (by_rule m !! name)) dry)
    else by_rule m !! name'.
Proof. cbn [record_rule_deny by_rule]. apply lookup_insert. Qed.

(** ** The histogram *)

(** The counts a scrape reports, without the machine width. *)
Fixpoint sums (acc : Z) (bs : list Z) : list Z :=
  match bs with
  | [] => []
  | b :: bs' => (acc + b) :: sums (acc + b) bs'
  end.

Lemma cumulate_sums acc bs :
  0 <= acc -> Forall (fun b => 0 <= b) bs ->
  Forall (fun s => s <= U64_MAX) (sums acc bs) -> cumulate acc bs = sums acc bs.
Proof.
  intros Hacc Hbs. revert acc Hacc. induction Hbs as [|b bs Hb _ IH]; intros acc Hacc; simpl; [done|].
  intros [Hs Hrest]%Forall_cons. unfold saturating_add_u64. rewrite Z.min_l by done.
  f_equal. apply IH; [lia|done].
Qed.

Definition bump (i : nat) (bs : list Z) : list Z := alter (fun b => b + 1) i bs.

Lemma sums_bump acc bs i :
  sums acc (bump i bs)
  = imap (fun j s => s + if (i <=? j)%nat then 1 else 0) (sums acc bs).
Proof.
  revert acc i. induction bs as [|b bs IH]; intros acc i; [done|].
  destruct i as [|i]; cbn [bump alter list_alter sums imap].
  - f_equal; [simpl; lia|].
    assert (Hshift : forall l a, sums (a + 1) l = imap (fun _ s => s + 1) (sums a l)).
    { induction l as [|x l IHl]; intros a; simpl; [done|]. f_equal; [lia|].
      rewrite <- IHl. f_equal. lia. }
    rewrite Z.add_assoc, Hshift. done.
  - f_equal; [simpl; lia|]. unfold bump in IH. rewrite IH. done.
Qed.

(** How many of the observations are at most [bound]. *)
Definition at_most (bound : Z) (l : list Z) : Z := Z.of_nat (length (filter (fun ms => ms <= bound) l)).

#[global] Arguments at_most : simpl never.

Definition cumulative_counts (h : LatencyHistogram) : list Z := cumulate 0 (buckets h).

Lemma at_most_snoc bound l ms :
  at_most bound (l ++ [ms]) = at_most bound l + if ms <=? bound then 1 else 0.
Proof.
  unfold at_most. rewrite filter_app, length_app, filter_cons.
  destruct (decide (ms <= bound)), (Z.leb_spec ms bound); simpl; lia.
Qed.

(** The bucket of an observation is the first whose bound reaches it. *)
Lemma placed_idx_spec ms j bound :
  LATENCY_BUCKETS_MS !! j = Some bound ->
  (placed_idx 0 LATENCY_BUCKETS_MS ms <=? j)%nat = (ms <=? bound).
Proof.
  intros Hj. do 11 (destruct j as [|j]; [injection Hj as <-; cbn [placed_idx LATENCY_BUCKETS_MS];
    repeat (match goal with |- context [if ms <=? ?b then _ else _] =>
      destruct (Z.leb_spec ms b) end); simpl; try done; symmetry;
    first [apply Z.leb_le; lia|apply Z.leb_gt; lia]|]). done.
Qed.

Lemma placed_idx_bound ms : (placed_idx 0 LATENCY_BUCKETS_MS ms <= 11)%nat.
Proof. cbn [placed_idx LATENCY_BUCKETS_MS]. repeat case_bool; cbv; lia. Qed.

#[global] Arguments placed_idx : simpl never.

(** *** Interleaved observations *)

Lemma wrapping_add_comm x a b :
  wrapping_add_u64 (wrapping_add_u64 x a) b = wrapping_add_u64 (wrapping_add_u64 x b) a.
Proof.
  unfold wrapping_add_u64. rewrite !Z.add_mod_idemp_l by (unfold U64_MAX; lia). f_equal. lia.
Qed.

Lemma increment_comm h i j :
  increment_by (increment_by h i) j = increment_by (increment_by h j) i.
Proof.
  destruct i as [a| |i], j as [b| |j]; cbn; try done; f_equal; try apply wrapping_add_comm.
  apply list_eq. intros k. rewrite !list_lookup_alter.
  destruct (decide (j = k)), (decide (i = k)), (decide (i = j)), (decide (j = i)); congruence.
Qed.

Lemma increments_permutation l l' h :
  l ≡ₚ l' -> fold_left increment_by l h = fold_left increment_by l' h.
Proof.
  intros Hp. revert h. induction Hp as [|i l l' _ IH|i j l|l1 l2 l3 _ IH1 _ IH2]; intros h;
    cbn [fold_left]; [done|apply IH|by rewrite increment_comm|by rewrite IH1].
Qed.

Lemma observe_increments l h :
  fold_left observe l h = fold_left increment_by (concat (map increments l)) h.
Proof.
  revert h. induction l as [|ms l IH]; intros h; [done|].
  cbn [map concat fold_left]. rewrite fold_left_app. apply IH.
Qed.

(** The histogram after the observations [l]. *)
Record observed (l : list Z) (h : LatencyHistogram) : Prop := {
  observed_buckets : length (buckets h) = LATENCY_BUCKET_COUNT;
  observed_range : Forall (fun b => 0 <= b <= Z.of_nat (length l)) (buckets h);
  observed_sums : sums 0 (buckets h)
                  = map (fun bound => at_most bound l) LATENCY_BUCKETS_MS ++ [Z.of_nat (length l)];
  observed_count : hist_count h = Z.of_nat (length l);
  observed_sum : sum_ms h = foldr Z.add 0 l mod (U64_MAX + 1)
}.

Lemma observed_new : observed [] LatencyHistogram_new.
Proof. constructor; try done. repeat constructor; simpl; lia. Qed.

Lemma foldr_add_snoc l z : foldr Z.add 0 (l ++ [z]) = foldr Z.add 0 l + z.
Proof. induction l; simpl; lia. Qed.

Lemma buckets_observe h ms n :
  Forall (fun b => 0 <= b <= n) (buckets h) -> n < U64_MAX ->
  buckets (observe h ms) = bump (placed_idx 0 LATENCY_BUCKETS_MS ms) (buckets h).
Proof.
  intros Hr Hn. change (buckets (observe h ms)) with
    (alter (fun b => wrapping_add_u64 b 1) (placed_idx 0 LATENCY_BUCKETS_MS ms) (buckets h)).
  unfold bump. generalize (placed_idx 0 LATENCY_BUCKETS_MS ms).
  induction Hr as [|b bs Hb _ IH]; intros [|i]; cbn [alter list_alter]; try done; f_equal.
  - unfold wrapping_add_u64. rewrite Z.mod_small; lia.
  - apply IH.
Qed.

Lemma observed_snoc l h ms :
  observed l h -> Z.of_nat (length l) < U64_MAX -> observed (l ++ [ms]) (observe h ms).
Proof.
  intros [Hb Hr Hs Hc Hm] Hlen.
  pose proof (buckets_observe h ms _ Hr Hlen) as Hbump.
  assert (Hl : Z.of_nat (length (l ++ [ms])) = Z.of_nat (length l) + 1)
    by (rewrite length_app; simpl; lia).
  constructor.
  - rewrite Hbump. unfold bump. by rewrite length_alter.
  - rewrite Hbump, Hl. unfold bump.
    generalize (placed_idx 0 LATENCY_BUCKETS_MS ms). revert Hr. generalize (buckets h).
    induction 1 as [|b bs Hb' Hbs IH]; intros [|i]; cbn [alter list_alter]; constructor;
      try lia; [|apply IH]. eapply Forall_impl; [exact Hbs|]. simpl. lia.
  - rewrite Hbump, sums_bump, Hs, Hl. rewrite imap_app. f_equal.
    + apply list_eq. intros j. rewrite list_lookup_imap, !list_lookup_fmap.
      destruct (LATENCY_BUCKETS_MS !! j) as [bound|] eqn:Ej; [|done]. simpl. f_equal.
      by rewrite at_most_snoc, (placed_idx_spec ms j bound Ej).
    + simpl. pose proof (placed_idx_bound ms) as Hp.
      destruct (placed_idx 0 LATENCY_BUCKETS_MS ms <=? _)%nat eqn:E; [f_equal; lia|].
      apply Nat.leb_gt in E. simpl in E. lia.
  - cbn. rewrite Hc, Hl. unfold wrapping_add_u64. rewrite Z.mod_small; lia.
  - cbn. rewrite Hm, foldr_add_snoc. unfold wrapping_add_u64.
    by rewrite Z.add_mod_idemp_l by (unfold U64_MAX; lia).
Qed.

Lemma observed_all l :
  Z.of_nat (length l) <= U64_MAX -> observed l (fold_left observe l LatencyHistogram_new).
Proof.
  induction l as [|ms l IH] using rev_ind; intros Hl; [apply observed_new|].
  rewrite length_app in Hl. simpl in Hl. rewrite fold_left_app. simpl.
  apply observed_snoc; [apply IH; lia|lia].
Qed.

Lemma observed_cumulative l h :
  observed l h -> Z.of_nat (length l) <= U64_MAX -> cumulative_counts h = sums 0 (buckets h).
Proof.
  intros [_ Hr Hs _ _] Hl. unfold cumulative_counts. apply cumulate_sums; [lia| |].
  - eapply Forall_impl; [exact Hr|]. simpl. lia.
  - rewrite Hs, Forall_app. split; [|by constructor].
    apply Forall_fmap, Forall_true. intros bound. simpl. unfold at_most.
    pose proof (length_filter (fun ms => ms <= bound) l). lia.
Qed.
