(* ===== verification/AuditLog.v ===== *)
(** * The audit log ([src/audit.rs])

    An event is handed to a bounded channel by [send] and appended to the log file, one line of
    JSON each, by the task [spawn] starts.  [step] interleaves the handlers' sends with the
    task's own steps: opening the file, and receiving and writing one event. *)

From S2P Require Import Prelude RustStr Net.

(** ** Data *)

Record AuditEvent : Type := {
  ev_timestamp : string;
  ev_event : string;
  ev_peer_ip : string;
  ev_method : string;
  ev_path : string;
  ev_user_agent : string;
  ev_user_role : option string;
  ev_identity : option string;
  ev_rule_name : option string;
  ev_rule_action : option string;
  ev_status : Z;
  ev_dry_run : bool;
  ev_message : option string
}.

(** [timestamp] is [Utc::now().to_rfc3339()]. *)
Definition AuditEvent_new (timestamp event : string) (peer_ip : IpAddr)
    (method path user_agent : string) : AuditEvent :=
  {| ev_timestamp := timestamp; ev_event := event; ev_peer_ip := IpAddr_to_string peer_ip;
     ev_method := method; ev_path := path; ev_user_agent := user_agent;
     ev_user_role := None; ev_identity := None; ev_rule_name := None; ev_rule_action := None;
     ev_status := 0; ev_dry_run := false; ev_message := None |}.

Definition CHANNEL_CAPACITY : nat := 4096.

(** The [mpsc] channel: the events in flight, and whether the receiver still exists. *)
Record Channel : Type := {
  queue : list AuditEvent;
  receiver_open : bool
}.

(** [tx] is [None] for a disabled sink; all clones of a sink share the channel. *)
Record AuditSink : Type := {
  tx : option Channel
}.

Definition AuditSink_disabled : AuditSink := {| tx := None |}.

(** [AuditSink::spawn]: a fresh channel, and the task that will open the file. *)
Definition AuditSink_spawn : AuditSink :=
  {| tx := Some {| queue := []; receiver_open := true |} |}.

Definition is_enabled (sink : AuditSink) : bool := is_some (tx sink).

(** [try_send]: a full channel drops the event, so does one whose receiver is gone. *)
Definition send (sink : AuditSink) (event : AuditEvent) : AuditSink :=
  match tx sink with
  | None => sink
  | Some ch =>
      if negb (receiver_open ch) then sink
      else if (length (queue ch) <? CHANNEL_CAPACITY)%nat
      then {| tx := Some {| queue := queue ch ++ [event]; receiver_open := true |} |}
      else sink
  end.

(** ** The writer task *)

(** [serde_json::to_string] on the derived [Serialize] instance of the event. *)
Class EventApi : Type := {
  event_to_string : AuditEvent -> result string string
}.

(** Compact JSON escapes the control characters of the strings it holds. *)
Class EventLaws `{EventApi} : Prop := {
  event_one_line ev s : event_to_string ev = Ok s -> has_char (char_of 10) s = false
}.

Section Writer.
Context `{EventApi}.

Definition newline : string := String (char_of 10) "".

Inductive task : Type :=
  | Opening
  | Waiting (file : string)                     (* in [rx.recv()] *)
  | Writing (file : string) (ev : AuditEvent)   (* in [write_event] *)
  | Returned.

Record log : Type := {
  sink : AuditSink;
  writer : task
}.

Definition spawn : log := {| sink := AuditSink_spawn; writer := Opening |}.

(** What [write_all] and [flush] leave in the file: the whole line, or on an error some first
    part of it. *)
Inductive io : Type :=
  | Written
  | Failed (kept : nat).

Definition write_event (file : string) (ev : AuditEvent) (r : io) : string :=
  match event_to_string ev with
  | Err _ => file
  | Ok line =>
      match r with
      | Written => file +:+ line +:+ newline
      | Failed kept => file +:+ String.substring 0 kept (line +:+ newline)
      end
  end.

Inductive action : Type :=
  | Send (ev : AuditEvent)              (* a handler calls [send] *)
  | Open (r : result string string)     (* the task opens the file, to append to its contents *)
  | Receive                             (* the task takes the next event *)
  | Write (r : io).                     (* and has written it *)

Definition close_receiver (s : AuditSink) : AuditSink :=
  {| tx := option_map (fun _ => {| queue := []; receiver_open := false |}) (tx s) |}.

(** A step that is not enabled changes nothing: the task waits. *)
Definition step (l : log) (a : action) : log :=
  match a with
  | Send ev => {| sink := send (sink l) ev; writer := writer l |}
  | Open r =>
      match writer l with
      | Opening =>
          match r with
          | Ok contents => {| sink := sink l; writer := Waiting contents |}
          | Err _ => {| sink := close_receiver (sink l); writer := Returned |}
          end
      | _ => l
      end
  | Receive =>
      match writer l, tx (sink l) with
      | Waiting file, Some ch =>
          match queue ch with
          | [] => l
          | ev :: rest =>
              {| sink := {| tx := Some {| queue := rest; receiver_open := receiver_open ch |} |};
                 writer := Writing file ev |}
          end
      | _, _ => l
      end
  | Write r =>
      match writer l with
      | Writing file ev => {| sink := sink l; writer := Waiting (write_event file ev r) |}
      | _ => l
      end
  end.

Definition run (l : log) (acts : list action) : log := fold_left step acts l.

Definition pending (l : log) : list AuditEvent :=
  match tx (sink l) with
  | Some ch => queue ch
  | None => []
  end.

(** The event the task holds. *)
Definition in_hand (l : log) : list AuditEvent :=
  match writer l with
  | Writing _ ev => [ev]
  | _ => []
  end.

Definition event_line (ev : AuditEvent) : string :=
  match event_to_string ev with
  | Ok line => line +:+ newline
  | Err _ => ""
  end.

(** ** Invariants *)

Lemma send_pending s ev :
  (length (match tx s with Some ch => queue ch | None => [] end) <= CHANNEL_CAPACITY)%nat ->
  (length (match tx (send s ev) with Some ch => queue ch | None => [] end) <= CHANNEL_CAPACITY)%nat.
Proof.
  unfold send. destruct s as [[ch|]]; simpl; [|lia]. destruct (receiver_open ch); simpl; [|lia].
  destruct (Nat.ltb_spec (length (queue ch)) CHANNEL_CAPACITY); simpl; [|lia].
  rewrite length_app. simpl. lia.
Qed.

Lemma step_pending l a :
  (length (pending l) <= CHANNEL_CAPACITY)%nat ->
  (length (pending (step l a)) <= CHANNEL_CAPACITY)%nat.
Proof.
  unfold pending. destruct a as [ev|r| |r]; simpl.
  - apply send_pending.
  - destruct (writer l), r; try done. destruct l as [[[ch|]] w]; simpl; lia.
  - destruct l as [[[ch|]] [|file|file ev|]]; simpl; try done. destruct (queue ch) eqn:E; simpl;
      rewrite ?E; simpl; lia.
  - by destruct (writer l).
Qed.

Lemma run_pending acts l :
  (length (pending l) <= CHANNEL_CAPACITY)%nat ->
  (length (pending (run l acts)) <= CHANNEL_CAPACITY)%nat.
Proof.
  revert l. induction acts as [|a acts IH]; intros l Hl; simpl; [done|].
  apply IH. by apply step_pending.
Qed.

Definition sent (acts : list action) : list AuditEvent :=
  omap (fun a => match a with Send ev => Some ev | _ => None end) acts.

(** Never more than the capacity in flight: the drop branch of [send] is not taken. *)
Fixpoint roomy (l : log) (acts : list action) : Prop :=
  match acts with
  | [] => True
  | a :: acts' =>
      match a with
      | Send _ => (length (pending l) < CHANNEL_CAPACITY)%nat
      | _ => True
      end /\ roomy (step l a) acts'
  end.

Lemma join_snoc_nil ls s : join "" (ls ++ [s]) = join "" ls +:+ s.
Proof.
  induction ls as [|x ls IH]; [done|]. cbn [app]. rewrite (join_cons "" x (ls ++ [s]));
    [|by destruct ls]. rewrite IH. destruct ls as [|y ls].
  - done.
  - rewrite (join_cons "" x (y :: ls)) by done. by rewrite !append_assoc.
Qed.

(** No write has failed, so the file is exactly the lines of the events taken off the queue, but
    for the one in hand. *)
Definition intact (contents : string) (evs : list AuditEvent) (l : log) : Prop :=
  match writer l with
  | Opening => tx (sink l) = Some {| queue := evs; receiver_open := true |}
  | Waiting file | Writing file _ =>
      exists taken q, evs = taken ++ in_hand l ++ q
      /\ tx (sink l) = Some {| queue := q; receiver_open := true |}
      /\ file = contents +:+ join "" (map event_line taken)
  | Returned => False
  end.

Lemma write_event_line file ev : write_event file ev Written = file +:+ event_line ev.
Proof.
  unfold write_event, event_line. destruct (event_to_string ev); [done|]. by rewrite append_nil_r.
Qed.

Definition opens (contents : string) (a : action) : Prop :=
  match a with
  | Open (Ok c) => c = contents
  | Open (Err _) | Write (Failed _) => False
  | _ => True
  end.

Lemma step_intact contents evs l a :
  intact contents evs l -> opens contents a ->
  match a with Send _ => (length (pending l) < CHANNEL_CAPACITY)%nat | _ => True end ->
  intact contents (evs ++ sent [a]) (step l a).
Proof.
  unfold intact, pending, in_hand. destruct l as [[t] w]; destruct a as [ev|r| |r]; simpl.
  - intros Hi _ Hroom. destruct w as [|file|file held|]; [| | |done].
    + subst t. unfold send. simpl in *. apply Nat.ltb_lt in Hroom. by rewrite Hroom.
    + destruct Hi as (taken & q & -> & -> & ->). unfold send. simpl in *.
      apply Nat.ltb_lt in Hroom. rewrite Hroom. exists taken, (q ++ [ev]).
      by rewrite app_assoc.
    + destruct Hi as (taken & q & -> & -> & ->). unfold send. simpl in *.
      apply Nat.ltb_lt in Hroom. rewrite Hroom. exists taken, (q ++ [ev]).
      by rewrite <- app_assoc.
  - intros Hi Ho _. rewrite app_nil_r. destruct w as [|file|file held|]; [|done..].
    destruct r as [c|e]; [|done]. simpl in *. subst c t. exists [], evs.
    by rewrite append_nil_r.
  - intros Hi Ho _. rewrite app_nil_r. destruct w as [|file|file held|]; [done| |done|done].
    destruct Hi as (taken & q & -> & -> & ->). simpl.
    destruct q as [|ev q]; simpl; [by exists taken, []|]. by exists taken, q.
  - intros Hi Ho _. rewrite app_nil_r. destruct w as [|file|file held|]; [done|done| |done].
    destruct r; [|done]. destruct Hi as (taken & q & -> & -> & ->). simpl.
    exists (taken ++ [held]), q. rewrite <- app_assoc. split_and!; [done|done|].
    rewrite write_event_line, map_app, append_assoc. f_equal. cbn [map]. by rewrite join_snoc_nil.
Qed.

Lemma run_intact contents acts l evs :
  intact contents evs l -> Forall (opens contents) acts -> roomy l acts ->
  intact contents (evs ++ sent acts) (run l acts).
Proof.
  intros Hi Ho. revert l evs Hi. induction Ho as [|a acts Ha _ IH]; intros l evs Hi Hr.
  { simpl. by rewrite app_nil_r. }
  destruct Hr as [Hroom Hr]. change (run l (a :: acts)) with (run (step l a) acts).
  replace (evs ++ sent (a :: acts)) with ((evs ++ sent [a]) ++ sent acts)
    by (rewrite <- app_assoc; by destruct a).
  apply IH; [|done]. by apply step_intact.
Qed.

End Writer.
