(* ===== verification/AuditText.v ===== *)
(** * The text of an audit event (the derived [Serialize] of [src/audit.rs])

    The JSON object an [AuditEvent] is serialised as, and how a reader of the log gets the event
    back from it.  This discharges the interface AuditLog.v is proved against. *)

From S2P Require Import Prelude RustStr External AuditLog.

Open Scope Z_scope.

(** ** The derived serialiser *)

Section Serialize.
Context `{JsonTextApi}.

Definition json_option (o : option string) : JsonValue :=
  match o with
  | None => JNull
  | Some s => JString s
  end.

Definition event_fields (ev : AuditEvent) : list (string * JsonValue) :=
  [("timestamp", JString (ev_timestamp ev)); ("event", JString (ev_event ev));
   ("peer_ip", JString (ev_peer_ip ev)); ("method", JString (ev_method ev));
   ("path", JString (ev_path ev)); ("user_agent", JString (ev_user_agent ev));
   ("user_role", json_option (ev_user_role ev)); ("identity", json_option (ev_identity ev));
   ("rule_name", json_option (ev_rule_name ev)); ("rule_action", json_option (ev_rule_action ev));
   ("status", JNumber (json_of_u64 (ev_status ev))); ("dry_run", JBool (ev_dry_run ev));
   ("message", json_option (ev_message ev))].

Definition AuditEvent_serialize (ev : AuditEvent) : JsonValue := JObject (event_fields ev).

(** [serde_json::to_string(ev)]. *)
#[export] Instance json_events : EventApi :=
  {| event_to_string := fun ev => json_write (AuditEvent_serialize ev) |}.

(** ** A reader of the log *)

Fixpoint member (name : string) (m : list (string * JsonValue)) : option JsonValue :=
  match m with
  | [] => None
  | (k, v) :: m' => if String.eqb k name then Some v else member name m'
  end.

Definition as_text (v : JsonValue) : option string :=
  match v with
  | JString s => Some s
  | _ => None
  end.

Definition as_option (v : JsonValue) : option (option string) :=
  match v with
  | JNull => Some None
  | JString s => Some (Some s)
  | _ => None
  end.

Definition as_status (v : JsonValue) : option Z :=
  match v with
  | JNumber n => json_as_u64 n
  | _ => None
  end.

Definition as_flag (v : JsonValue) : option bool :=
  match v with
  | JBool b => Some b
  | _ => None
  end.

(** The event an object of the log records. *)
Definition event_of_json (j : JsonValue) : option AuditEvent :=
  match j with
  | JObject m =>
      timestamp ← member "timestamp" m ≫= as_text;
      event ← member "event" m ≫= as_text;
      peer_ip ← member "peer_ip" m ≫= as_text;
      method ← member "method" m ≫= as_text;
      path ← member "path" m ≫= as_text;
      user_agent ← member "user_agent" m ≫= as_text;
      user_role ← member "user_role" m ≫= as_option;
      identity ← member "identity" m ≫= as_option;
      rule_name ← member "rule_name" m ≫= as_option;
      rule_action ← member "rule_action" m ≫= as_option;
      status ← member "status" m ≫= as_status;
      dry_run ← member "dry_run" m ≫= as_flag;
      message ← member "message" m ≫= as_option;
      Some {| ev_timestamp := timestamp; ev_event := event; ev_peer_ip := peer_ip;
              ev_method := method; ev_path := path; ev_user_agent := user_agent;
              ev_user_role := user_role; ev_identity := identity; ev_rule_name := rule_name;
              ev_rule_action := rule_action; ev_status := status; ev_dry_run := dry_run;
              ev_message := message |}
  | _ => None
  end.

End Serialize.

(** ** Facts *)

Section Facts.
Context `{JsonTextLaws}.

#[export] Instance json_event_laws : EventLaws.
Proof. constructor. intros ev s. apply json_one_line. Qed.

Lemma member_In name v m :
  NoDup (map fst m) -> member name m = Some v <-> (name, v) ∈ m.
Proof.
  induction m as [|[k w] m IH]; cbn [map fst member]; [set_solver|].
  intros [Hk Hm]%NoDup_cons. rewrite elem_of_cons.
  destruct (String.eqb_spec k name) as [->|Hne].
  - split; [intros [= ->]; by left|]. intros [[= ->]|Hin]; [done|].
    destruct Hk. apply list_elem_of_In, in_map_iff. exists (name, v).
    by rewrite <- list_elem_of_In.
  - rewrite (IH Hm). naive_solver.
Qed.

Lemma member_perm name m m' :
  NoDup (map fst m) -> m' ≡ₚ m -> member name m' = member name m.
Proof.
  intros Hm Hp. assert (Hm' : NoDup (map fst m')) by by rewrite Hp.
  destruct (member name m) as [v|] eqn:E.
  - apply member_In; [done|]. rewrite Hp. by apply member_In.
  - destruct (member name m') as [v|] eqn:E'; [|done].
    apply member_In in E'; [|done]. rewrite Hp in E'. apply member_In in E'; [|done]. congruence.
Qed.

Lemma event_fields_NoDup ev : NoDup (map fst (event_fields ev)).
Proof. apply (bool_decide_unpack _). by vm_compute. Qed.

Lemma as_json_option o : as_option (json_option o) = Some o.
Proof. by destruct o. Qed.

Lemma event_of_fields ev :
  0 <= ev_status ev <= U64_MAX -> event_of_json (JObject (event_fields ev)) = Some ev.
Proof.
  intros Hs. unfold event_of_json. repeat (eapply bind_eq; cbv beta; [eapply bind_eq;
    [reflexivity|first [reflexivity|apply as_json_option|by apply json_u64]]|]). by destruct ev.
Qed.

(** A line of the log reads back as the event it was written for. *)
Lemma event_reads_back ev line :
  0 <= ev_status ev <= U64_MAX -> event_to_string ev = Ok line ->
  exists j, json_from_slice (as_bytes line) = Ok j /\ event_of_json j = Some ev.
Proof.
  intros Hs Hw. apply json_written in Hw as (m & Hr & Hp); [|apply event_fields_NoDup|].
  2: { apply List.Forall_forall. intros kv Hin. unfold event_fields, json_option in Hin.
       repeat (destruct Hin as [<-|Hin]; [cbn; by repeat case_match|]). by destruct Hin. }
  exists (JObject m). split; [done|]. rewrite <- (event_of_fields ev Hs). unfold event_of_json.
  by rewrite !(member_perm _ _ _ (event_fields_NoDup ev) Hp).
Qed.

End Facts.
