(* ===== verification/Auth.v ===== *)
(** * Who is asking ([src/main.rs])

    The client address behind trusted proxies, the bearer token of a request, and the role a
    token carries: [parse_trusted_proxies], [compute_client_ip], [extract_bearer_token],
    [resolve_token_role] and [is_auth_strictly_configured]. *)

From S2P Require Import Prelude RustStr F64 Net External Json Config Path Tls.

Open Scope Z_scope.

Definition MAX_TOKEN_LEN : Z := 4096.

Section Auth.
Context `{NumberApi} `{RegexApi} `{IpNetApi} `{HttpApi}.

(** ** The client address *)

Definition parse_trusted_proxies (raw : list string) : list IpNet := omap IpNet_parse raw.

Definition trusted (trusted_proxies : list IpNet) (ip : IpAddr) : bool :=
  existsb (fun net => net_contains net ip) trusted_proxies.

(** [headers.get(name).and_then(|v| v.to_str().ok())] *)
Definition header_str (headers : HeaderMap) (name : string) : option string :=
  match header_get headers name with
  | Some v => to_str v
  | None => None
  end.

(** A loop that returns at the first element giving a value. *)
Fixpoint first_some {A B} (f : A -> option B) (l : list A) : option B :=
  match l with
  | [] => None
  | x :: l' => or_else (f x) (first_some f l')
  end.

Definition real_ip (v : string) : option IpAddr := IpAddr_parse (trim v).

Definition forwarded_for_entry (trusted_proxies : list IpNet) (entry : string) : option IpAddr :=
  match IpAddr_parse entry with
  | Some ip => if trusted trusted_proxies ip then None else Some ip
  | None => None
  end.

Definition forwarded_for (trusted_proxies : list IpNet) (v : string) : option IpAddr :=
  first_some (forwarded_for_entry trusted_proxies) (rev (map trim (split ","%char v))).

Definition is_quote (a : ascii) : bool := code a =? 34.

Definition forwarded_param (param : string) : option IpAddr :=
  match strip_prefix "for=" (trim param) with
  | None => None
  | Some rest =>
      let raw := trim_by is_quote rest in
      let raw := match strip_prefix "[" raw with
                 | Some s => unwrap_or (strip_suffix "]" s) raw
                 | None => raw
                 end in
      IpAddr_parse raw
  end.

Definition forwarded (v : string) : option IpAddr :=
  first_some (fun segment => first_some forwarded_param (split ";"%char segment))
             (rev (split ","%char v)).

Definition header_ip (headers : HeaderMap) (name : string) (f : string -> option IpAddr)
    : option IpAddr :=
  match header_str headers name with
  | Some v => f v
  | None => None
  end.

Definition compute_client_ip (peer_ip : IpAddr) (headers : HeaderMap)
    (trusted_proxies : list IpNet) : IpAddr :=
  if negb (trusted trusted_proxies peer_ip) then peer_ip
  else
    unwrap_or
      (or_else (header_ip headers "x-real-ip" real_ip)
      (or_else (header_ip headers "x-forwarded-for" (forwarded_for trusted_proxies))
               (header_ip headers "forwarded" forwarded)))
      peer_ip.

(** ** Tokens *)

(** [Err(())] is a malformed header, [Ok(None)] a missing one. *)
Definition extract_bearer_token (headers : HeaderMap) : result (option string) unit :=
  match header_get_all headers "authorization" with
  | [] => Ok None
  | _ :: _ :: _ => Err tt
  | [first] =>
      match to_str first with
      | None => Err tt
      | Some v =>
          match strip_prefix "Bearer " v with
          | Some t =>
              if negb (is_empty t) && (Z.of_nat (String.length t) <=? MAX_TOKEN_LEN)
              then Ok (Some t) else Err tt
          | None => Err tt
          end
      end
  end.

(** The loop compares every token and keeps the role of the first that matched. *)
Definition match_tokens (tokens : list TokenEntry) (token_bytes : list Z) : option string :=
  fold_left (fun matched t =>
    if constant_time_eq (as_bytes (token t)) token_bytes && is_none matched
    then Some (unwrap_or (token_role t) "user")
    else matched) tokens None.

Definition secret_matches (secret : string) (token_bytes : list Z) : bool :=
  negb (is_empty secret) && constant_time_eq (as_bytes secret) token_bytes.

Definition resolve_token_role (config : ProxyConfig) (env_secret token : string)
    : option string :=
  let token_bytes := as_bytes token in
  match config_auth config with
  | Some auth_config =>
      let matched := match auth_tokens auth_config with
                     | Some tokens => match_tokens tokens token_bytes
                     | None => None
                     end in
      match matched with
      | Some role => Some role
      | None =>
          match auth_secret auth_config with
          | Some secret => if secret_matches secret token_bytes then Some "admin" else None
          | None => None
          end
      end
  | None => if secret_matches env_secret token_bytes then Some "admin" else None
  end.

Definition auth_type_of (config : ProxyConfig) : option string :=
  match config_auth config with
  | Some a => auth_type a
  | None => None
  end.

Definition is_auth_strictly_configured (config : ProxyConfig) (env_secret : string) : bool :=
  match config_auth config with
  | Some auth =>
      let t := auth_type auth in
      if bool_decide (t = Some "none") then true
      else if bool_decide (t = Some "mtls") then true
      else
        let has_tokens := is_some_and (auth_tokens auth)
                            (fun tk => existsb (fun x => negb (is_empty (token x))) tk) in
        let has_secret := is_some_and (auth_secret auth) (fun s => negb (is_empty s)) in
        has_tokens || has_secret
  | None => negb (is_empty env_secret)
  end.

(** ** The address of a proxied client *)

Lemma first_some_app {A B} (f : A -> option B) (l k : list A) :
  first_some f (l ++ k) = or_else (first_some f l) (first_some f k).
Proof. induction l as [|x l IH]; simpl; [done|]. rewrite IH. by destruct (f x). Qed.

Lemma first_some_Some {A B} (f : A -> option B) (l : list A) (b : B) :
  first_some f l = Some b -> exists x, x ∈ l /\ f x = Some b.
Proof.
  induction l as [|x l IH]; simpl; [done|].
  destruct (f x) eqn:E; simpl; [intros [= ->]|]; set_solver.
Qed.

Lemma split_app c s t : split c (s +:+ String c t) = split c s ++ split c t.
Proof.
  induction s as [|a s IH]; simpl.
  - by rewrite Ascii.eqb_refl.
  - destruct (Ascii.eqb a c); simpl; [by rewrite IH|]. rewrite IH.
    by destruct (split_cons c s) as (p & ps & ->).
Qed.

Lemma forwarded_for_app nets left right :
  forwarded_for nets (left +:+ "," +:+ right)
  = or_else (forwarded_for nets right) (forwarded_for nets left).
Proof.
  unfold forwarded_for. change ("," +:+ right) with (String "," right).
  by rewrite split_app, map_app, rev_app_distr, first_some_app.
Qed.

Lemma forwarded_for_untrusted nets v ip :
  forwarded_for nets v = Some ip -> trusted nets ip = false.
Proof.
  intros (entry & _ & He)%first_some_Some. unfold forwarded_for_entry in He.
  destruct (IpAddr_parse entry) as [ip'|]; [|done].
  destruct (trusted nets ip') eqn:E; [done|]. by injection He as <-.
Qed.

(** ** Token roles *)

Lemma match_tokens_keep tokens tb role :
  fold_left (fun matched t =>
    if constant_time_eq (as_bytes (token t)) tb && is_none matched
    then Some (unwrap_or (token_role t) "user") else matched) tokens (Some role) = Some role.
Proof. induction tokens as [|t ts IH]; simpl; [done|]. by rewrite andb_false_r. Qed.

Definition same_token (tb : list Z) (t : TokenEntry) : bool :=
  constant_time_eq (as_bytes (token t)) tb.

Lemma match_tokens_find tokens tb :
  match_tokens tokens tb
  = option_map (fun t => unwrap_or (token_role t) "user") (List.find (same_token tb) tokens).
Proof.
  unfold match_tokens, same_token. induction tokens as [|t ts IH]; simpl; [done|].
  destruct (constant_time_eq _ _) eqn:E; simpl; [apply match_tokens_keep|done].
Qed.

(** No string of the configuration is longer than a 32-bit length can say. *)
Definition short (s : string) : Prop := Z.of_nat (String.length s) <= U32_MAX.

Definition short_secrets (config : ProxyConfig) (env_secret : string) : Prop :=
  short env_secret /\
  forall a, config_auth config = Some a ->
    (forall s, auth_secret a = Some s -> short s) /\
    (forall ts t, auth_tokens a = Some ts -> t ∈ ts -> short (token t)).

Lemma constant_time_strings s t :
  short s -> short t -> constant_time_eq (as_bytes s) (as_bytes t) = true <-> s = t.
Proof.
  unfold short. intros Hs Ht. rewrite constant_time_eq_spec by (by rewrite as_bytes_length).
  split; [apply as_bytes_inj|by intros ->].
Qed.

Lemma secret_matches_spec secret tok :
  short secret -> short tok ->
  secret_matches secret (as_bytes tok) = true <-> secret <> "" /\ secret = tok.
Proof.
  intros Hs Ht. unfold secret_matches. rewrite andb_true_iff, constant_time_strings by done.
  unfold is_empty. by rewrite negb_true_iff, String.eqb_neq.
Qed.

Lemma bearer_token_spec headers tok :
  extract_bearer_token headers = Ok (Some tok) ->
  tok <> "" /\ Z.of_nat (String.length tok) <= MAX_TOKEN_LEN /\
  exists v, header_get_all headers "authorization" = [v] /\ to_str v = Some ("Bearer " +:+ tok).
Proof.
  unfold extract_bearer_token. destruct (header_get_all _ _) as [|v [|]]; try done.
  destruct (to_str v) as [s|] eqn:Es; [|done].
  destruct (strip_prefix "Bearer " s) as [t|] eqn:Et; [|done].
  destruct (_ && _) eqn:Eb; [|done]. intros [= <-]. b2p.
  apply strip_prefix_spec in Et as ->. split_and!; [|done|eauto].
  by apply is_empty_false.
Qed.

(** The first entry for a token, and its role. *)
Definition first_token (tok : string) (ts : list TokenEntry) (role : string) : Prop :=
  exists before t after,
    ts = before ++ t :: after /\ token t = tok /\ (forall t', t' ∈ before -> token t' <> tok)
    /\ role = unwrap_or (token_role t) "user".

(** The credentials a configuration accepts, and the role each carries. *)
Inductive accepts (config : ProxyConfig) (env_secret tok : string) : string -> Prop :=
  | accepts_token a ts role :
      config_auth config = Some a -> auth_tokens a = Some ts -> first_token tok ts role ->
      accepts config env_secret tok role
  | accepts_secret a :
      config_auth config = Some a ->
      (forall ts t, auth_tokens a = Some ts -> t ∈ ts -> token t <> tok) ->
      auth_secret a = Some tok -> tok <> "" ->
      accepts config env_secret tok "admin"
  | accepts_env :
      config_auth config = None -> env_secret = tok -> tok <> "" ->
      accepts config env_secret tok "admin".

Lemma find_first {A} (f : A -> bool) (l : list A) (x : A) :
  List.find f l = Some x ->
  exists before after, l = before ++ x :: after /\ f x = true /\ forall y, y ∈ before -> f y = false.
Proof.
  induction l as [|y l IH]; simpl; [done|]. destruct (f y) eqn:E.
  - intros [= ->]. exists [], l. set_solver.
  - intros (b & a & -> & Hf & Hb)%IH. exists (y :: b), a. split_and!; [done|done|].
    intros z [->|?]%elem_of_cons; auto.
Qed.

Lemma find_here {A} (f : A -> bool) before x after :
  f x = true -> (forall y, y ∈ before -> f y = false) ->
  List.find f (before ++ x :: after) = Some x.
Proof.
  intros Hx. induction before as [|y b IH]; simpl; intros Hb; [by rewrite Hx|].
  rewrite Hb by set_solver. apply IH. set_solver.
Qed.

Lemma first_token_unique tok ts r r' : first_token tok ts r -> first_token tok ts r' -> r = r'.
Proof.
  intros (b & t & a & -> & Ht & Hb & ->) (b' & t' & a' & E & Ht' & Hb' & ->).
  revert b' E Hb Hb'. induction b as [|x b IH]; intros [|x' b'] E Hb Hb'; injection E as E1 E2.
  - by rewrite E1.
  - exfalso. apply (Hb' x'); [left|by rewrite <- E1].
  - exfalso. apply (Hb x); [left|by rewrite E1].
  - apply (IH b' E2); intros y Hy; [apply Hb|apply Hb']; by right.
Qed.

Lemma match_tokens_spec ts tok :
  short tok -> (forall t, t ∈ ts -> short (token t)) ->
  (forall role, match_tokens ts (as_bytes tok) = Some role <-> first_token tok ts role)
  /\ (match_tokens ts (as_bytes tok) = None <-> forall t, t ∈ ts -> token t <> tok).
Proof.
  intros Htok Hts.
  assert (Hm : forall t, t ∈ ts -> same_token (as_bytes tok) t = true <-> token t = tok)
    by (intros t Hin; apply constant_time_strings; auto).
  rewrite match_tokens_find. destruct (List.find _ ts) as [t|] eqn:Ef; simpl.
  - apply find_first in Ef as (b & a & -> & Ht & Hb). apply Hm in Ht; [|set_solver].
    assert (Hfirst : first_token tok (b ++ t :: a) (unwrap_or (token_role t) "user")).
    { exists b, t, a. split_and!; try done. intros t' Hin Heq. apply Hm in Heq; [|set_solver].
      rewrite Hb in Heq by done. done. }
    split; [intros role; split; [by intros [= <-]|]|].
    + intros Hr. f_equal. by eapply first_token_unique.
    + split; [done|]. intros Hn. exfalso. by apply (Hn t); [set_solver|].
  - assert (Hnone : forall t, t ∈ ts -> token t <> tok).
    { intros t Hin Heq. apply Hm in Heq; [|done].
      rewrite (List.find_none _ _ Ef t) in Heq by (by apply list_elem_of_In). done. }
    split; [intros role; split; [done|]|done].
    intros (b & t & a & -> & Ht & _). exfalso. by apply (Hnone t); [set_solver|].
Qed.

Lemma resolve_token_role_spec config env_secret tok role :
  short_secrets config env_secret -> short tok ->
  resolve_token_role config env_secret tok = Some role <-> accepts config env_secret tok role.
Proof.
  intros [Henv Hcfg] Htok. unfold resolve_token_role.
  destruct (config_auth config) as [a|] eqn:Ea.
  2:{ destruct (secret_matches env_secret (as_bytes tok)) eqn:Es.
      - apply secret_matches_spec in Es as [? ->]; [|done..]. split.
        + intros [= <-]. by apply accepts_env.
        + inversion 1; simplify_eq; done.
      - split; [done|]. inversion 1; simplify_eq.
        rewrite (proj2 (secret_matches_spec tok tok Htok Htok)) in Es; done. }
  destruct (Hcfg a eq_refl) as [Hsec Htoks].
  assert (Hsecret : (forall ts t, auth_tokens a = Some ts -> t ∈ ts -> token t <> tok) ->
     (match auth_secret a with
      | Some secret => if secret_matches secret (as_bytes tok) then Some "admin" else None
      | None => None
      end = Some role <-> accepts config env_secret tok role)).
  { intros Hnone. split.
    - destruct (auth_secret a) as [s|] eqn:Es; [|done].
      destruct (secret_matches s (as_bytes tok)) eqn:Em; [|done]. intros [= <-].
      apply secret_matches_spec in Em as [? ->]; [|by apply Hsec|done].
      by eapply accepts_secret.
    - inversion 1 as [a' ts ? Ha' Hts Hf|a' Ha' _ Hs Hne|]; simplify_eq.
      + exfalso. destruct Hf as (b & t & af & -> & Ht & _).
        eapply (Hnone _ t Hts); [set_solver|done].
      + by rewrite Hs, (proj2 (secret_matches_spec tok tok Htok Htok)). }
  destruct (auth_tokens a) as [ts|] eqn:Et; [|apply Hsecret; intros ? ? ?; congruence].
  destruct (match_tokens_spec ts tok Htok ltac:(eauto)) as [Hsome Hnone].
  destruct (match_tokens ts (as_bytes tok)) as [r|] eqn:Em.
  - pose proof (proj1 (Hsome r) eq_refl) as Hr. split; [intros [= <-]; by eapply accepts_token|].
    inversion 1 as [a' ts' ? Ha' Hts' Hf|a' Ha' Hn _ _|]; simplify_eq.
    + f_equal. by eapply first_token_unique.
    + exfalso. destruct Hr as (b & t & af & -> & Ht & _). by eapply (Hn _ t Et); [set_solver|].
  - apply Hsecret. intros ts' t Hts'. simplify_eq. by apply Hnone.
Qed.

End Auth.
