(* ===== verification/Effects.v ===== *)
(** * Request handlers as programs over the shared state

    A handler of [src/main.rs] runs as one task among many.  It is a [prog]: a tree of
    operations on the state the tasks share (the two limiters, the metrics, the audit sink, the
    configuration) and on the outside (the client's body, the Docker socket, the clocks, the
    log).  A [prog] is given meaning twice.

    - [reaches] lets every operation answer anything, so what is proved of every trace a program
      reaches holds however other tasks interleave with it and whatever the outside does.  [wp]
      is the matching proof rule.
    - [run] executes a program alone on a [World] and a [Host] that fixes the answers from
      outside. *)

From S2P Require Import Prelude RustStr F64 Net External Json Config RateLimiter AuthLimiter.
From S2P Require Import Conditions Rules Metrics AuditLog.

Open Scope Z_scope.

Section Effects.
Context `{NumberApi} `{RegexApi} `{!JsonApi} `{IpNetApi} `{HttpApi}.

(** ** Messages *)

Record UpstreamRequest : Type := {
  up_method : string;
  up_uri : string;
  up_headers : list (string * HeaderValue);
  up_body : list Z
}.

Record UpstreamResponse : Type := {
  res_status : Z;
  res_headers : HeaderMap
}.

Record HttpResponse : Type := {
  status : Z;
  resp_headers : list (string * HeaderValue);
  resp_body : list Z
}.

(** What [tokio::time::timeout] makes of a future. *)
Inductive timed (A : Type) : Type :=
  | InTime (a : A)
  | Elapsed.
#[global] Arguments InTime {A} a.
#[global] Arguments Elapsed {A}.

(** The two errors a limited body read tells apart. *)
Inductive BodyError : Type :=
  | LengthLimitError
  | OtherBodyError.

(** ** Operations *)

Inductive op : Type -> Type :=
  (* the authentication limiter *)
  | AuthIsBlocked (key : string) : op bool
  | AuthRecordFailure (key : string) (max : Z) (window lockout : Duration) : op bool
  | AuthRecordSuccess (key : string) : op unit
  (* the rate limiter *)
  | RateCheck (key : string) (max_requests period_secs penalty_secs : Z) : op bool
  (* the metrics *)
  | FetchAdd (c : Counter) : op unit
  | RecordRuleDeny (rule : string) (dry_run : bool) : op unit
  | ObserveLatency (ms : Z) : op unit
  | RenderPrometheus : op string
  (* the configuration holder, the audit sink, the clocks, the log *)
  | CurrentConfig : op ProxyConfig
  | AuditSend (ev : AuditEvent) : op unit
  | UtcNow : op string
  | LocalNow : op string
  | InstantNow : op Instant
  | LogInfo (line : string) : op unit
  (* the client and the Docker socket *)
  | ReadBody (limit : Z) : op (timed (result (list Z) BodyError))
  | Connect (path : string) : op (timed (timed (result unit string)))
  | Handshake : op (result unit string)
  | SpawnConnection : op unit
  | SendRequest (req : UpstreamRequest) : op (timed (result UpstreamResponse string))
  | ReadResponse (limit : Z) : op (timed (result (list Z) string))
  | AbortConnection : op unit
  | SpawnCopy : op unit
  (* the task of an upgraded connection *)
  | ClientUpgraded : op (timed (result unit string))
  | DockerUpgraded : op (timed (result unit string))
  | CopyBothWays : op unit.

Inductive prog (A : Type) : Type :=
  | Ret (a : A)
  | Do {X : Type} (o : op X) (k : X -> prog A).
#[global] Arguments Ret {A} a.
#[global] Arguments Do {A X} o k.

Fixpoint bind {A B} (p : prog A) (k : A -> prog B) : prog B :=
  match p with
  | Ret a => k a
  | Do o c => Do o (fun x => bind (c x) k)
  end.

Definition perform {X} (o : op X) : prog X := Do o Ret.

(** A phase of a handler ends the handler with a response ([Err]) or goes on ([Ok]). *)
Definition phase (A : Type) : Type := prog (result A HttpResponse).

Definition continue {A} (a : A) : phase A := Ret (Ok a).
Definition respond {A} (r : HttpResponse) : phase A := Ret (Err r).

Definition then_ {A B} (p : phase A) (k : A -> phase B) : phase B :=
  bind p (fun r => match r with
                   | Ok a => k a
                   | Err resp => Ret (Err resp)
                   end).

Definition finish (p : phase HttpResponse) : prog HttpResponse :=
  bind p (fun r => match r with Ok resp | Err resp => Ret resp end).

(** ** Traces *)

Inductive event : Type :=
  | Event {X : Type} (o : op X) (answer : X).

(** [reaches p t q]: answering its operations as [t] records, [p] becomes [q]. *)
Inductive reaches {A} : prog A -> list event -> prog A -> Prop :=
  | reaches_refl p : reaches p [] p
  | reaches_step {X} (o : op X) (k : X -> prog A) x t q :
      reaches (k x) t q -> reaches (Do o k) (Event o x :: t) q.

(** [wp G p h Q]: after the history [h], every operation of [p] is one [G] allows, and [p]
    returns only values and histories that satisfy [Q] — for all answers. *)
Fixpoint wp {A} (G : list event -> forall X, op X -> Prop) (p : prog A) (h : list event)
    (Q : list event -> A -> Prop) : Prop :=
  match p with
  | Ret a => Q h a
  | Do o k => G h _ o /\ forall x, wp G (k x) (h ++ [Event o x]) Q
  end.

Lemma wp_bind {A B} G (p : prog A) (k : A -> prog B) h Q :
  wp G (bind p k) h Q <-> wp G p h (fun h' a => wp G (k a) h' Q).
Proof.
  revert h. induction p as [a|X o c IH]; intros h; simpl; [done|].
  split; (intros [HG Hk]; split; [done|intros x; by apply IH]).
Qed.

Lemma wp_mono {A} (G G' : list event -> forall X, op X -> Prop) (p : prog A) h
    (Q Q' : list event -> A -> Prop) :
  (forall h X (o : op X), G h X o -> G' h X o) -> (forall h a, Q h a -> Q' h a) ->
  wp G p h Q -> wp G' p h Q'.
Proof.
  intros HG HQ. revert h. induction p as [a|X o c IH]; intros h; simpl; [auto|].
  intros [Ho Hk]. split; [auto|]. intros x. by apply IH.
Qed.

Definition allowed (G : forall X, op X -> Prop) (e : event) : Prop :=
  match e with
  | Event o _ => G _ o
  end.

(** Every operation of a trace was allowed where it happened. *)
Lemma wp_reaches {A} G (p q : prog A) t h Q :
  reaches p t q -> wp G p h Q ->
  wp G q (h ++ t) Q /\
  forall t1 t2 X (o : op X) x, t = t1 ++ Event o x :: t2 -> G (h ++ t1) X o.
Proof.
  intros Hr. revert h. induction Hr as [p|X o k x t q Hr IH]; intros h Hw.
  - rewrite app_nil_r. split; [done|]. by intros [|].
  - destruct Hw as [HG Hk]. destruct (IH _ (Hk x)) as [Hq Hall].
    rewrite <- app_assoc in Hq. split; [done|]. intros t1 t2 Y o' y E.
    destruct t1 as [|e t1].
    + pose proof (f_equal (fun l => match l with
                                    | e :: _ => allowed (G (h ++ [])) e
                                    | [] => True
                                    end) E) as E1.
      simpl in E1. rewrite <- E1. by rewrite app_nil_r.
    + injection E as <- E2. specialize (Hall t1 t2 Y o' y E2). by rewrite <- app_assoc in Hall.
Qed.

Lemma wp_prefix {A} G (p : prog A) h Q :
  wp G p h Q -> wp G p h (fun h' a => h `prefix_of` h' /\ Q h' a).
Proof.
  assert (Hgen : forall h0, h0 `prefix_of` h -> wp G p h Q ->
            wp G p h (fun h' a => h0 `prefix_of` h' /\ Q h' a)).
  { revert h. induction p as [a|X o c IH]; intros h h0 Hp; simpl; [done|].
    intros [HG Hk]. split; [done|]. intros x. apply IH; [|done]. by apply prefix_app_r. }
  by apply Hgen.
Qed.

Lemma wp_then {A B} G (p : phase A) (k : A -> phase B) h Q :
  wp G (then_ p k) h Q
  <-> wp G p h (fun h' r => match r with
                            | Ok a => wp G (k a) h' Q
                            | Err resp => Q h' (Err resp)
                            end).
Proof.
  unfold then_. rewrite wp_bind.
  split; (apply wp_mono; [done|]; intros h' [a|resp]; done).
Qed.

Lemma reaches_app {A} (p q r : prog A) t1 t2 :
  reaches p t1 q -> reaches q t2 r -> reaches p (t1 ++ t2) r.
Proof. intros Hp Hq. induction Hp as [p|X o k x t q' Hp IH]; [done|]. simpl. constructor; auto. Qed.

Lemma reaches_inv {A} (p q : prog A) t :
  reaches p t q ->
  match p with
  | Ret a => t = [] /\ q = p
  | Do o k => (t = [] /\ q = p) \/ exists x t', t = Event o x :: t' /\ reaches (k x) t' q
  end.
Proof. intros [[a|X o k]|X o k x t' q' Hr]; [done|by left|]. right. eauto. Qed.

(** A trace of [bind p k] stays in [p], or runs [p] to a value and goes on with [k]. *)
Lemma reaches_bind {A B} (p : prog A) (k : A -> prog B) t q :
  reaches (bind p k) t q ->
  (exists p', q = bind p' k /\ reaches p t p')
  \/ (exists t1 t2 a, t = t1 ++ t2 /\ reaches p t1 (Ret a) /\ reaches (k a) t2 q).
Proof.
  revert t. induction p as [a|X o c IH]; intros t Hr.
  - right. exists [], t, a. split_and!; [done|constructor|done].
  - apply reaches_inv in Hr as [[-> ->]|(x & t' & -> & Hr)].
    + left. exists (Do o c). split; [done|constructor].
    + apply IH in Hr as [(p' & -> & Hp)|(t1 & t2 & a & -> & Hp & Hk)].
      * left. exists p'. split; [done|]. by constructor.
      * right. exists (Event o x :: t1), t2, a. split_and!; [done|by constructor|done].
Qed.

Lemma reaches_bind_ret {A B} (p : prog A) (k : A -> prog B) t b :
  reaches (bind p k) t (Ret b) ->
  exists t1 t2 a, t = t1 ++ t2 /\ reaches p t1 (Ret a) /\ reaches (k a) t2 (Ret b).
Proof.
  intros [(p' & E & Hp)|Hr]%reaches_bind; [|done].
  destruct p' as [a|]; [|done]. exists t, [], a. rewrite app_nil_r. simpl in E. rewrite <- E.
  split_and!; [done|done|constructor].
Qed.

(** Programs whose operations all satisfy a predicate that does not look at the history. *)
Fixpoint only {A} (P : forall X, op X -> Prop) (p : prog A) : Prop :=
  match p with
  | Ret _ => True
  | Do o k => P _ o /\ forall x, only P (k x)
  end.

Lemma only_bind {A B} P (p : prog A) (k : A -> prog B) :
  only P p -> (forall a, only P (k a)) -> only P (bind p k).
Proof.
  intros Hp Hk. induction p as [a|X o c IH]; simpl in *; [done|].
  destruct Hp as [Ho Hc]. split; [done|]. intros x. by apply IH.
Qed.

Lemma only_wp {A} P (p : prog A) h :
  only P p -> wp (fun _ => P) p h (fun _ _ => True).
Proof.
  revert h. induction p as [a|X o c IH]; intros h; simpl; [done|].
  intros [Ho Hc]. split; [done|]. intros x. by apply IH.
Qed.

(** A program of such operations may be followed through its own traces. *)
Lemma wp_traces {A} (P : forall X, op X -> Prop) G (p : prog A) h Q :
  only P p -> (forall h' X (o : op X), h `prefix_of` h' -> P X o -> G h' X o) ->
  (forall t a, reaches p t (Ret a) -> Q (h ++ t) a) -> wp G p h Q.
Proof.
  revert h. induction p as [a|X o c IH]; intros h Hp HG HQ; simpl in *.
  - rewrite <- (app_nil_r h). apply HQ. constructor.
  - destruct Hp as [Ho Hc]. split; [by apply HG|]. intros x. apply IH; [done| |].
    + intros h' Y o' Hh. apply HG. etrans; [|exact Hh]. by apply prefix_app_r.
    + intros t a Hr. rewrite <- app_assoc. apply HQ. by constructor.
Qed.

Lemma wp_only {A} P G (p : prog A) h Q :
  only P p -> (forall h' X (o : op X), h `prefix_of` h' -> P X o -> G h' X o) ->
  (forall h' a, h `prefix_of` h' -> Q h' a) -> wp G p h Q.
Proof.
  intros Hp HG HQ. apply (wp_traces P); [done|done|]. intros t a _. apply HQ. by exists t.
Qed.

End Effects.

(** [let!] runs a phase and leaves the handler when it responds; [do] is sequencing. *)
Declare Scope prog_scope.
Delimit Scope prog_scope with prog.
Notation "'let!' x := p 'in' k" := (then_ p (fun x => k))
  (at level 10, x binder, p at level 100, k at level 200) : prog_scope.
Notation "'do' x <- p ; k" := (bind p (fun x => k))
  (at level 100, x binder, p at level 99, k at level 200) : prog_scope.
Notation "p ;; k" := (bind p (fun _ => k)) (at level 100, right associativity) : prog_scope.
