(* ===== verification/World.v ===== *)
(** * One task on the shared state

    [World] is the state the tasks of the proxy share ([ProxyState] without its constants), and
    [exec_op] what each operation does to it: the component's own definition.  [Host] fixes the
    answers that come from outside.  [run] executes a program alone, to the end or to a panic. *)

From S2P Require Import Prelude RustStr F64 Net External Json Config RateLimiter AuthLimiter.
From S2P Require Import Conditions Rules Metrics AuditLog Effects.

Open Scope Z_scope.

Section World.
Context `{NumberApi} `{RegexApi} `{!JsonApi} `{IpNetApi} `{HttpApi}.

Record World : Type := {
  auth_limiter : AuthLimiter;
  rate_limiter : RateLimiter;
  metrics : Metrics;
  audit : AuditSink;
  config_holder : ProxyConfig;
  now : Instant;
  log_lines : list string;
  sent_upstream : list UpstreamRequest
}.

(** The outside of one request.  [host_checked] is the clock as a rate check read it, which it
    does before it waits for the lock of the table; other tasks may have run since. *)
Record Host : Type := {
  host_body : timed (result (list Z) BodyError);
  host_connect : timed (timed (result unit string));
  host_handshake : result unit string;
  host_send : UpstreamRequest -> timed (result UpstreamResponse string);
  host_response : timed (result (list Z) string);
  host_latency : Duration;
  host_checked : Instant;
  host_utc : string;
  host_local : string;
  host_client_upgraded : timed (result unit string);
  host_docker_upgraded : timed (result unit string)
}.

Definition set_auth (w : World) (al : AuthLimiter) : World :=
  {| auth_limiter := al; rate_limiter := rate_limiter w; metrics := metrics w; audit := audit w;
     config_holder := config_holder w; now := now w; log_lines := log_lines w;
     sent_upstream := sent_upstream w |}.

Definition set_rate (w : World) (rl : RateLimiter) : World :=
  {| auth_limiter := auth_limiter w; rate_limiter := rl; metrics := metrics w; audit := audit w;
     config_holder := config_holder w; now := now w; log_lines := log_lines w;
     sent_upstream := sent_upstream w |}.

Definition set_metrics (w : World) (m : Metrics) : World :=
  {| auth_limiter := auth_limiter w; rate_limiter := rate_limiter w; metrics := m;
     audit := audit w; config_holder := config_holder w; now := now w; log_lines := log_lines w;
     sent_upstream := sent_upstream w |}.

Definition set_audit (w : World) (s : AuditSink) : World :=
  {| auth_limiter := auth_limiter w; rate_limiter := rate_limiter w; metrics := metrics w;
     audit := s; config_holder := config_holder w; now := now w; log_lines := log_lines w;
     sent_upstream := sent_upstream w |}.

Definition add_log (w : World) (line : string) : World :=
  {| auth_limiter := auth_limiter w; rate_limiter := rate_limiter w; metrics := metrics w;
     audit := audit w; config_holder := config_holder w; now := now w;
     log_lines := log_lines w ++ [line]; sent_upstream := sent_upstream w |}.

Definition add_sent (w : World) (req : UpstreamRequest) (d : Duration) : World :=
  {| auth_limiter := auth_limiter w; rate_limiter := rate_limiter w; metrics := metrics w;
     audit := audit w; config_holder := config_holder w; now := now w + Z.max 0 d;
     log_lines := log_lines w; sent_upstream := sent_upstream w ++ [req] |}.

(** [ProxyState::swap_config]. *)
Definition swap_config (w : World) (new_cfg : ProxyConfig) : World :=
  {| auth_limiter := auth_limiter w; rate_limiter := rate_limiter w; metrics := metrics w;
     audit := audit w; config_holder := new_cfg; now := now w; log_lines := log_lines w;
     sent_upstream := sent_upstream w |}.

(** A limited read fails once the body passes the limit. *)
Definition limited {E} (limit : Z) (too_long : E) (r : timed (result (list Z) E))
    : timed (result (list Z) E) :=
  match r with
  | InTime (Ok b) => if limit <? Z.of_nat (length b) then InTime (Err too_long) else r
  | _ => r
  end.

(** The instant a rate check works with: no later than the one at which it gets the lock. *)
Definition check_instant (h : Host) (w : World) : Instant := Z.min (host_checked h) (now w).

Definition exec_op (h : Host) {X} (o : op X) (w : World) : outcome X * World :=
  match o in op X return outcome X * World with
  | AuthIsBlocked key => (Done (AuthLimiter.is_blocked (auth_limiter w) (now w) key), w)
  | AuthRecordFailure key max window lockout =>
      let '(r, al) := record_failure (auth_limiter w) (now w) key max window lockout in
      (r, set_auth w al)
  | AuthRecordSuccess key => (Done tt, set_auth w (record_success (auth_limiter w) key))
  | RateCheck key m p q =>
      let '(r, rl) := RateLimiter.check (rate_limiter w) (check_instant h w) key m p q in
      (r, set_rate w rl)
  | FetchAdd c => (Done tt, set_metrics w (fetch_add (metrics w) c))
  | RecordRuleDeny rule dry => (Done tt, set_metrics w (record_rule_deny (metrics w) rule dry))
  | ObserveLatency ms => (Done tt, set_metrics w (observe_upstream_latency_ms (metrics w) ms))
  | RenderPrometheus =>
      (Done (render_prometheus (metrics w) (map_to_list (by_rule (metrics w)))), w)
  | CurrentConfig => (Done (config_holder w), w)
  | AuditSend ev => (Done tt, set_audit w (AuditLog.send (audit w) ev))
  | UtcNow => (Done (host_utc h), w)
  | LocalNow => (Done (host_local h), w)
  | InstantNow => (Done (now w), w)
  | LogInfo line => (Done tt, add_log w line)
  | ReadBody limit => (Done (limited limit LengthLimitError (host_body h)), w)
  | Connect _ => (Done (host_connect h), w)
  | Handshake => (Done (host_handshake h), w)
  | SpawnConnection => (Done tt, w)
  | SendRequest req => (Done (host_send h req), add_sent w req (host_latency h))
  | ReadResponse limit => (Done (limited limit "length limit exceeded" (host_response h)), w)
  | AbortConnection => (Done tt, w)
  | SpawnCopy => (Done tt, w)
  | ClientUpgraded => (Done (host_client_upgraded h), w)
  | DockerUpgraded => (Done (host_docker_upgraded h), w)
  | CopyBothWays => (Done tt, w)
  end.

Fixpoint run (h : Host) {A} (p : prog A) (w : World) : outcome A * World :=
  match p with
  | Ret a => (Done a, w)
  | Do o k =>
      match exec_op h o w with
      | (Done x, w') => run h (k x) w'
      | (Panic, w') => (Panic, w')
      end
  end.

Lemma run_bind {A B} h (p : prog A) (k : A -> prog B) w :
  run h (bind p k) w
  = match run h p w with
    | (Done a, w') => run h (k a) w'
    | (Panic, w') => (Panic, w')
    end.
Proof.
  revert w. induction p as [a|X o c IH]; intros w; simpl; [done|].
  destruct (exec_op h o w) as [[x|] w']; [apply IH|done].
Qed.

(** A run is a trace, so everything [wp] shows of traces holds of it. *)
Lemma run_reaches {A} h (p : prog A) w a w' :
  run h p w = (Done a, w') -> exists t, reaches p t (Ret a).
Proof.
  revert w. induction p as [b|X o c IH]; intros w; simpl.
  - intros [= -> _]. exists []. constructor.
  - destruct (exec_op h o w) as [[x|] w1]; [|done]. intros Hr.
    destruct (IH _ _ Hr) as [t Ht]. exists (Event o x :: t). by constructor.
Qed.

(** What the operations of a trace have in common with the state they leave. *)
Lemma run_invariant {A} h (I : World -> Prop) (P : forall X, op X -> Prop) (p : prog A) w :
  (forall X (o : op X) w, P X o -> I w -> I (exec_op h o w).2) ->
  only P p -> I w -> I (run h p w).2.
Proof.
  intros HI Hp. revert w. induction p as [a|X o c IH]; intros w Hw; simpl; [done|].
  destruct Hp as [Ho Hc]. specialize (HI X o w Ho Hw) as HIw.
  destruct (exec_op h o w) as [[x|] w1]; [|done]. by apply IH.
Qed.

End World.
