(* ===== verification/Evaluate.v ===== *)
(** * Rule evaluation as a task ([evaluate_request_detailed] of [src/rules.rs])

    The rules of a request are evaluated while other requests run.  The only shared state the
    loop touches is the rate limiter, whose table is locked for one [check] at a time, so the
    loop is a program with one operation per rate limit and anything may happen between two.
    Run alone it is the function [Rules.evaluate_request_detailed]. *)

From S2P Require Import Prelude RustStr F64 Net External Json Config RateLimiter AuthLimiter.
From S2P Require Import Conditions Rules Metrics AuditLog Effects World.

Open Scope Z_scope.
Open Scope prog_scope.

Section Evaluate.
Context `{NumberApi} `{RegexApi} `{!JsonApi} `{IpNetApi} `{HttpApi}.

Definition perform_step (s : rule_step) : prog verdict :=
  match s with
  | Decide v => Ret v
  | Limit key c refused =>
      do ok <- perform (RateCheck key (requests c) (period c) (penalty c));
      Ret (if ok : bool then Continue else Return refused)
  end.

Fixpoint evaluate_rules (rules : list Rule) (ctx : EvaluationContext) : prog RuleDecision :=
  match rules with
  | [] => Ret RuleDecision_allow
  | rule :: rules' =>
      do v <- perform_step (step_rule rule ctx);
      match v with
      | Return d => Ret d
      | Continue => evaluate_rules rules' ctx
      end
  end.

(** ** Alone, it is the function *)

Lemma perform_step_run h rule ctx w :
  run h (perform_step (step_rule rule ctx)) w
  = let '(v, rl) := evaluate_rule rule ctx (rate_limiter w) (check_instant h w) in
    (v, set_rate w rl).
Proof.
  unfold evaluate_rule. destruct (step_rule rule ctx) as [v|key c refused]; simpl.
  - by destruct w.
  - by destruct (check _ _ _ _ _ _) as [[[]|] rl].
Qed.

Lemma evaluate_rules_run h i rules ctx w :
  run h (evaluate_rules rules ctx) w
  = let '(d, rl) := evaluate_from i rules ctx (rate_limiter w) (fun _ => check_instant h w) in
    (d, set_rate w rl).
Proof.
  revert i w. induction rules as [|rule rules IH]; intros i w; cbn [evaluate_rules evaluate_from].
  - by destruct w.
  - rewrite run_bind, perform_step_run.
    destruct (evaluate_rule _ _ _ _) as [[[d|]|] rl]; try done. by rewrite (IH (S i)).
Qed.

(** ** Whatever the limiter answers *)

Definition rate_op (X : Type) (o : op X) : Prop :=
  match o with
  | RateCheck _ _ _ _ => True
  | _ => False
  end.

Lemma evaluate_rules_only rules ctx : only rate_op (evaluate_rules rules ctx).
Proof.
  induction rules as [|rule rules IH]; [done|]. cbn [evaluate_rules]. apply only_bind.
  - by destruct (step_rule rule ctx).
  - by intros [d|].
Qed.

(** What the loop answers is either settled by a rule, every rate limit before it granted, or
    the default when every rule was stepped over. *)
Definition granted (e : event) : Prop :=
  match e with
  | Event o x =>
      match o in op X return X -> Prop with
      | RateCheck _ _ _ _ => fun ok => ok = true
      | _ => fun _ => False
      end x
  end.

(** A rule that allows outright: [allow], or a dry run of a denial. *)
Definition permits (rule : Rule) (ctx : EvaluationContext) : Prop :=
  exists d, step_rule rule ctx = Decide (Return d) /\ decision_result d = Rules.Allow.

Lemma permits_not_denies rule ctx : permits rule ctx -> denies rule ctx = false.
Proof.
  intros (d & Hs & Ha). destruct (denies rule ctx) eqn:Hd; [|done].
  destruct (denies_step rule ctx Hd) as (m & Hs'). rewrite Hs in Hs'. by injection Hs' as ->.
Qed.

Lemma step_rule_refused rule ctx key c d :
  step_rule rule ctx = Limit key c d -> exists s m, decision_result d = Deny s m.
Proof. unfold step_rule. repeat case_bool; try done. intros [= <- <- <-]. eauto. Qed.

Lemma perform_step_continue rule ctx t :
  reaches (perform_step (step_rule rule ctx)) t (Ret Continue) ->
  Forall granted t /\ denies rule ctx = false.
Proof.
  intros Hr. pose proof (denies_step rule ctx) as Hd. destruct (step_rule rule ctx) as [v|k c r].
  - apply (reaches_inv (Ret v)) in Hr as [-> [= <-]]. split; [done|].
    destruct (denies rule ctx); [|done]. by destruct (Hd eq_refl) as (m & [=]).
  - apply (reaches_inv (Do _ _)) in Hr as [[_ [=]]|(ok & t' & -> & Hr)].
    apply reaches_inv in Hr as [-> E]. destruct ok; [|by injection E].
    split; [by repeat constructor|].
    destruct (denies rule ctx); [|done]. by destruct (Hd eq_refl).
Qed.

Lemma perform_step_return rule ctx t d :
  reaches (perform_step (step_rule rule ctx)) t (Ret (Return d)) ->
  decision_result d = Rules.Allow -> t = [] /\ permits rule ctx.
Proof.
  intros Hr Ha. unfold permits. destruct (step_rule rule ctx) as [v|k c r] eqn:Es.
  - apply (reaches_inv (Ret v)) in Hr as [-> [= <-]]. split; [done|]. by exists d.
  - apply (reaches_inv (Do _ _)) in Hr as [[_ [=]]|(ok & t' & -> & Hr)].
    apply reaches_inv in Hr as [-> E]. destruct ok; [done|]. injection E as ->.
    apply step_rule_refused in Es as (s & m & Es). by rewrite Ha in Es.
Qed.

(** An allowed request was granted by every rate limit it met, and no rule that denies it
    comes before the rule that permitted it. *)
Lemma evaluate_rules_allowed rules ctx t d :
  reaches (evaluate_rules rules ctx) t (Ret d) -> decision_result d = Rules.Allow ->
  Forall granted t
  /\ forall pre r post, rules = pre ++ r :: post -> denies r ctx = true ->
       exists r', r' ∈ pre /\ permits r' ctx.
Proof.
  revert t. induction rules as [|rule rules IH]; intros t Hr Ha.
  - apply reaches_inv in Hr as [-> _]. split; [done|]. by intros [].
  - cbn [evaluate_rules] in Hr.
    apply reaches_bind_ret in Hr as (t1 & t2 & [d'|] & -> & Hp & Hk).
    + apply reaches_inv in Hk as [-> [= <-]]. apply perform_step_return in Hp as [-> Hperm]; [|done].
      split; [done|]. intros [|r0 pre] r post [= <- ->] Hd; [|exists rule; set_solver].
      by rewrite (permits_not_denies _ _ Hperm) in Hd.
    + apply perform_step_continue in Hp as [Hg Hn]. apply IH in Hk as [Hgs Hrs]; [|done].
      split; [by apply Forall_app|]. intros [|r0 pre] r post [= <- ->] Hd; [by rewrite Hn in Hd|].
      destruct (Hrs pre r post eq_refl Hd) as (r' & Hin & Hr'). exists r'. set_solver.
Qed.

(** [decided rules ctx d h]: somewhere in the history [h], the rules were evaluated from the
    first to the one that settled the decision [d], each rate limit being asked in turn. *)
Definition decided (rules : list Rule) (ctx : EvaluationContext) (d : RuleDecision)
    (h : list event) : Prop :=
  exists h1 t h2, h = h1 ++ t ++ h2 /\ reaches (evaluate_rules rules ctx) t (Ret d).

Lemma decided_mono rules ctx d h h' :
  h `prefix_of` h' -> decided rules ctx d h -> decided rules ctx d h'.
Proof.
  intros [h3 ->] (h1 & t & h2 & -> & Hr). exists h1, t, (h2 ++ h3). by rewrite <- !app_assoc.
Qed.

End Evaluate.
