(* ===== verification/Authenticate.v ===== *)
(** * Authentication ([authenticate] of [src/main.rs])

    The lockout test, then one of the three authentication types.  [credentials] says, without
    the limiter and the metrics, who a request is. *)

From S2P Require Import Prelude RustStr F64 Net External Json Config AuthLimiter Metrics Tls.
From S2P Require Import Path Auth Effects World.

Open Scope Z_scope.
Open Scope prog_scope.

Definition AUTH_FAIL_MAX : Z := 10.
Definition AUTH_FAIL_WINDOW : Duration := from_secs 60.
Definition AUTH_FAIL_LOCKOUT : Duration := from_secs 300.

Section Authenticate.
Context `{NumberApi} `{RegexApi} `{!JsonApi} `{IpNetApi} `{HttpApi}.

Inductive AuthOutcome : Type :=
  | Allowed (role identity : option string)
  | Denied (status : Z) (message : string).

(** The failure branches: count it, record it, and count the lockout it may have set off. *)
Definition auth_failure (auth_key : string) : prog unit :=
  perform (FetchAdd auth_failures_total) ;;
  do locked <- perform (AuthRecordFailure auth_key AUTH_FAIL_MAX AUTH_FAIL_WINDOW
                          AUTH_FAIL_LOCKOUT);
  if locked : bool then perform (FetchAdd auth_lockouts_total) else Ret tt.

Definition cert_name (id : CertIdentity) : option string :=
  or_else (common_name id) (head (sans id)).

Definition mtls_config (config : ProxyConfig) : option MtlsConfig :=
  match config_auth config with
  | Some a => auth_mtls a
  | None => None
  end.

Definition authenticate (env_secret : string) (config : ProxyConfig) (headers : HeaderMap)
    (peer_ip : IpAddr) (cert : option CertIdentity) : prog AuthOutcome :=
  let auth_key := IpAddr_to_string peer_ip in
  do blocked <- perform (AuthIsBlocked auth_key);
  if blocked : bool then Ret (Denied 429 "Too many authentication failures")
  else
    let auth_type := auth_type_of config in
    if bool_decide (auth_type = Some "none") then Ret (Allowed None None)
    else if bool_decide (auth_type = Some "mtls") then
      match cert with
      | None => Ret (Denied 401 "mTLS required but no client certificate presented")
      | Some id =>
          match resolve_mtls_role id (mtls_config config) with
          | Some role =>
              perform (AuthRecordSuccess auth_key) ;;
              Ret (Allowed (Some role) (cert_name id))
          | None =>
              auth_failure auth_key ;;
              Ret (Denied 401 "Client certificate not authorized")
          end
      end
    else if negb (is_auth_strictly_configured config env_secret) then
      Ret (Denied 401 "Authentication is not configured")
    else
      match extract_bearer_token headers with
      | Ok None => auth_failure auth_key ;; Ret (Denied 401 "Missing authorization")
      | Err _ => auth_failure auth_key ;; Ret (Denied 401 "Malformed authorization")
      | Ok (Some token) =>
          match resolve_token_role config env_secret token with
          | Some role =>
              perform (AuthRecordSuccess auth_key) ;; Ret (Allowed (Some role) None)
          | None => auth_failure auth_key ;; Ret (Denied 401 "Invalid token")
          end
      end.

(** ** Who a request is *)

(** The role and the name a request is entitled to under a configuration. *)
Inductive entitled (config : ProxyConfig) (env_secret : string) (headers : HeaderMap)
    (cert : option CertIdentity) : option string -> option string -> Prop :=
  | entitled_none :
      auth_type_of config = Some "none" -> entitled config env_secret headers cert None None
  | entitled_mtls id role :
      auth_type_of config = Some "mtls" -> cert = Some id ->
      granted id (mtls_config config) role ->
      entitled config env_secret headers cert (Some role) (cert_name id)
  | entitled_token tok role v :
      auth_type_of config <> Some "none" -> auth_type_of config <> Some "mtls" ->
      header_get_all headers "authorization" = [v] -> to_str v = Some ("Bearer " +:+ tok) ->
      tok <> "" -> Z.of_nat (String.length tok) <= MAX_TOKEN_LEN ->
      accepts config env_secret tok role ->
      entitled config env_secret headers cert (Some role) None.

Lemma resolve_mtls_role_granted id mtls role :
  resolve_mtls_role id mtls = Some role -> granted id mtls role.
Proof.
  rewrite resolve_mtls_role_map. unfold granted.
  destruct (first_candidate _ _) as [r|] eqn:E; simpl.
  - intros [= ->]. left. apply first_candidate_Some in E as (e & c & ? & ? & Hm & ?).
    exists e, c. by rewrite <- cn_match_spec.
  - intros Hd. right. split; [|destruct mtls; naive_solver].
    intros e c He Hc Hn%cn_match_spec. rewrite first_candidate_None in E.
    rewrite E in Hn by done. done.
Qed.

(** ** The program of [authenticate] *)

(** A failure is recorded for the peer, by the three constants. *)
Definition auth_limits (key k : string) (max : Z) (window lockout : Duration) : Prop :=
  k = key /\ max = AUTH_FAIL_MAX /\ window = AUTH_FAIL_WINDOW /\ lockout = AUTH_FAIL_LOCKOUT.

(** The operations of [authenticate]: the limiter entry of the peer, which only a request that
    was not blocked clears, and two counters. *)
Definition auth_op (key : string) (h : list event) (X : Type) (o : op X) : Prop :=
  match o with
  | AuthIsBlocked k => k = key
  | AuthRecordFailure k max window lockout => auth_limits key k max window lockout
  | AuthRecordSuccess k => k = key /\ Event (AuthIsBlocked key) false ∈ h
  | FetchAdd c => c = auth_failures_total \/ c = auth_lockouts_total
  | _ => False
  end.

(** What an outcome tells of the trace behind it. *)
Definition authenticated (env_secret : string) (config : ProxyConfig) (headers : HeaderMap)
    (key : string) (cert : option CertIdentity) (h h' : list event) (o : AuthOutcome) : Prop :=
  h `prefix_of` h' /\
  match o with
  | Allowed role identity =>
      Event (AuthIsBlocked key) false ∈ h' /\
      (short_secrets config env_secret -> entitled config env_secret headers cert role identity)
  | Denied s _ => s = 401 \/ s = 429
  end.

Lemma bearer_entitled config env_secret headers cert tok role :
  short_secrets config env_secret ->
  auth_type_of config <> Some "none" -> auth_type_of config <> Some "mtls" ->
  extract_bearer_token headers = Ok (Some tok) ->
  resolve_token_role config env_secret tok = Some role ->
  entitled config env_secret headers cert (Some role) None.
Proof.
  intros Hs Hn Hm (Hne & Hlen & v & Hv & Hstr)%bearer_token_spec Hr.
  eapply entitled_token; [done..|]. apply resolve_token_role_spec; [done| |done].
  unfold short, U32_MAX, MAX_TOKEN_LEN in *. lia.
Qed.

Lemma auth_failure_wp key h Q :
  (forall h', h `prefix_of` h' -> Q h' tt) ->
  wp (auth_op key) (auth_failure key) h Q.
Proof.
  intros HQ. split; [by left|]. intros []. split; [done|]. intros [|]; simpl.
  - split; [by right|]. intros []. apply HQ. rewrite <- !app_assoc. by apply prefix_app_r.
  - apply HQ. rewrite <- !app_assoc. by apply prefix_app_r.
Qed.

Lemma denied_after_failure env_secret config headers key cert h h0 (m : string) :
  h `prefix_of` h0 ->
  wp (auth_op key) (auth_failure key ;; Ret (Denied 401 m)) h0
     (authenticated env_secret config headers key cert h).
Proof.
  intros Hp. apply wp_bind. apply auth_failure_wp. intros h' Hp'. simpl. split; [|by left].
  by trans h0.
Qed.

Lemma authenticate_wp env_secret config headers peer_ip cert h :
  let key := IpAddr_to_string peer_ip in
  wp (auth_op key) (authenticate env_secret config headers peer_ip cert) h
     (authenticated env_secret config headers key cert h).
Proof.
  intros key. unfold authenticate. fold key. split; [done|]. intros [|]; simpl.
  { split; [by apply prefix_app_r|by right]. }
  set (h1 := h ++ [Event (AuthIsBlocked key) false]).
  assert (Hp : h `prefix_of` h1) by (by apply prefix_app_r).
  assert (Hin : Event (AuthIsBlocked key) false ∈ h1) by set_solver.
  case_bool_decide as Hn; [split; [done|]; split; [done|]; intros _; by constructor|].
  case_bool_decide as Hm.
  { destruct cert as [id|]; [|split; [done|by left]].
    destruct (resolve_mtls_role id _) as [role|] eqn:Er; [|by apply denied_after_failure].
    split; [by split|]. intros []. split; [by apply prefix_app_r|]. split; [set_solver|].
    intros _. eapply entitled_mtls; [done..|]. by apply resolve_mtls_role_granted. }
  destruct (is_auth_strictly_configured _ _); simpl; [|split; [done|by left]].
  destruct (extract_bearer_token headers) as [[tok|]|] eqn:Et;
    [|by apply denied_after_failure..].
  destruct (resolve_token_role _ _ tok) as [role|] eqn:Er; [|by apply denied_after_failure].
  split; [by split|]. intros []. split; [by apply prefix_app_r|]. split; [set_solver|].
  intros Hshort. by eapply bearer_entitled.
Qed.

End Authenticate.
