(* ===== verification/Handle.v ===== *)
(** * The request handler ([handle] of [src/main.rs])

    One definition per stretch of the handler that ends in an early return, composed in the
    order of the source.  Diagnostics other than the request log ([warn!], [error!]) are left
    out. *)

From S2P Require Import Prelude RustStr F64 Net External Json Config AuthLimiter RateLimiter.
From S2P Require Import Conditions Rules Metrics AuditLog Tls Upgrade Path Auth Effects World.
From S2P Require Import Authenticate.

Open Scope Z_scope.
Open Scope prog_scope.

Definition MAX_REQ_BODY_BYTES : Z := 10 * 1024 * 1024.
Definition MAX_RESP_BODY_BYTES : Z := 64 * 1024 * 1024.

Definition HOP_BY_HOP_HEADERS : list string :=
  ["connection"; "keep-alive"; "proxy-authenticate"; "proxy-authorization"; "te"; "trailer";
   "transfer-encoding"; "content-length"].

Definition CLIENT_FORWARD_DROP_HEADERS : list string :=
  ["authorization"; "host"; "x-forwarded-for"; "x-forwarded-host"; "x-forwarded-proto";
   "x-forwarded-port"; "x-real-ip"; "forwarded"; "via"].

Definition str_in (s : string) (l : list string) : bool := existsb (String.eqb s) l.

Section Handle.
Context `{NumberApi} `{RegexApi} `{!JsonApi} `{IpNetApi} `{HttpApi}.

(** ** Data *)

Record SocketAddr : Type := {
  peer_ip : IpAddr;
  peer_port : Z
}.

Record Request : Type := {
  req_method : string;
  uri_path : string;
  uri_query : option string;
  req_headers : HeaderMap
}.

(** The constants of [ProxyState]; its shared parts are the [World]. *)
Record ProxyState : Type := {
  socket_path : string;
  env_secret : string;
  audit_enabled : bool;
  metrics_endpoint : option string
}.

(** What the log and the audit events say of a request. *)
Record RequestInfo : Type := {
  info_peer : SocketAddr;
  info_method : string;
  info_path : string;
  info_user_agent : string
}.

(** ** Responses *)

Definition build_response (s : Z) (headers : list (string * option HeaderValue)) (body : list Z)
    : option HttpResponse :=
  option_map (fun hs => {| status := s; resp_headers := hs; resp_body := body |})
    (foldr (fun h acc => match h.2, acc with
                         | Some v, Some hs => Some ((h.1, v) :: hs)
                         | _, _ => None
                         end) (Some []) headers).

Definition empty_response : HttpResponse := {| status := 200; resp_headers := []; resp_body := [] |}.

Definition make_response_bytes (s : Z) (content_type : string) (body : list Z) : HttpResponse :=
  unwrap_or (build_response s [("content-type", HeaderValue_from_str content_type)] body)
            empty_response.

Definition make_response_string (s : Z) (body : string) : HttpResponse :=
  make_response_bytes s "text/plain; charset=utf-8" (as_bytes body).

Definition make_response (s : Z) (body : string) : HttpResponse := make_response_string s body.

(** ** Log and audit *)

Definition log_line (local_now : string) (info : RequestInfo) (s : Z) : string :=
  "[" +:+ local_now +:+ "] " +:+ IpAddr_to_string (peer_ip (info_peer info)) +:+ " "
  +:+ info_method info +:+ " " +:+ sanitize_for_log (info_path info) +:+ " - " +:+ show s
  +:+ " - " +:+ quote +:+ sanitize_for_log (info_user_agent info) +:+ quote.

Definition log_request (info : RequestInfo) (s : Z) : prog unit :=
  do local_now <- perform LocalNow;
  perform (LogInfo (log_line local_now info s)).

Definition with_path (info : RequestInfo) (path : string) : RequestInfo :=
  {| info_peer := info_peer info; info_method := info_method info; info_path := path;
     info_user_agent := info_user_agent info |}.

(** [if state.audit.is_enabled() { let mut ev = AuditEvent::new(..); ..; state.audit.send(ev) }] *)
Definition audit_event (state : ProxyState) (info : RequestInfo) (name : string)
    (fill : AuditEvent -> AuditEvent) : prog unit :=
  if audit_enabled state then
    do utc <- perform UtcNow;
    perform (AuditSend (fill (AuditEvent_new utc name (peer_ip (info_peer info))
               (info_method info) (info_path info) (info_user_agent info))))
  else Ret tt.

(** Count, log and answer: the shape of every early return on an error. *)
Definition reject {A} (c : Counter) (info : RequestInfo) (s : Z) (body : string) : phase A :=
  perform (FetchAdd c) ;; log_request info s ;; respond (make_response s body).

Definition reject_uncounted {A} (info : RequestInfo) (s : Z) (body : string) : phase A :=
  log_request info s ;; respond (make_response s body).

(** ** The request line *)

Definition bad_query (q : string) : bool :=
  (MAX_PATH_LEN <? Z.of_nat (String.length q)) || existsb control_byte (as_bytes q).

Definition check_path (info : RequestInfo) (req : Request) : phase string :=
  match canonicalize_path (uri_path req) with
  | Some canonical_path => continue canonical_path
  | None => reject bad_request_total info 400 "Malformed request path"
  end.

Definition check_query (info : RequestInfo) (req : Request) : phase unit :=
  match uri_query req with
  | Some q =>
      if bad_query q then reject bad_request_total info 400 "Malformed query string"
      else continue tt
  | None => continue tt
  end.

Definition path_and_query (canonical_path : string) (raw_query : option string) : string :=
  match raw_query with
  | Some q => canonical_path +:+ "?" +:+ q
  | None => canonical_path
  end.

(** ** Authentication and the metrics endpoint *)

Definition auth_denied_event (s : Z) (msg : string) (ev : AuditEvent) : AuditEvent :=
  {| ev_timestamp := ev_timestamp ev; ev_event := ev_event ev; ev_peer_ip := ev_peer_ip ev;
     ev_method := ev_method ev; ev_path := ev_path ev; ev_user_agent := ev_user_agent ev;
     ev_user_role := ev_user_role ev; ev_identity := ev_identity ev;
     ev_rule_name := ev_rule_name ev; ev_rule_action := ev_rule_action ev;
     ev_status := s; ev_dry_run := ev_dry_run ev; ev_message := Some msg |}.

Definition authenticate_request (state : ProxyState) (config : ProxyConfig) (info : RequestInfo)
    (req : Request) (cert : option CertIdentity) : phase (option string * option string) :=
  do outcome <- authenticate (env_secret state) config (req_headers req)
                  (peer_ip (info_peer info)) cert;
  match outcome with
  | Allowed role identity => continue (role, identity)
  | Denied s msg =>
      perform (FetchAdd requests_denied) ;;
      audit_event state info "auth_denied" (auth_denied_event s msg) ;;
      log_request info s ;;
      respond (make_response s msg)
  end.

Definition metrics_requested (state : ProxyState) (canonical_path method : string) : bool :=
  is_some_and (metrics_endpoint state)
    (fun mp => String.eqb canonical_path mp && String.eqb method "GET").

Definition serve_metrics (state : ProxyState) (info : RequestInfo) : phase unit :=
  if metrics_requested state (info_path info) (info_method info) then
    do body <- perform RenderPrometheus;
    respond (make_response_bytes 200 "text/plain; version=0.0.4; charset=utf-8" (as_bytes body))
  else continue tt.

(** ** What the rules and the upstream request are built from *)

(** The first value of each header that is a string. *)
Definition header_map (headers : HeaderMap) : gmap string string :=
  fold_left (fun m kv =>
    match to_str kv.2 with
    | Some v => match m !! kv.1 with
                | Some _ => m
                | None => <[kv.1 := v]> m
                end
    | None => m
    end) (header_iter headers) ∅.

Definition forwardable (name : string) : bool :=
  negb (str_in name HOP_BY_HOP_HEADERS) && negb (str_in name CLIENT_FORWARD_DROP_HEADERS)
  && negb (String.eqb name "upgrade").

Definition forward_headers (headers : HeaderMap) : list (string * HeaderValue) :=
  List.filter (fun kv => forwardable kv.1) (header_iter headers).

Definition trusted_proxies_of (config : ProxyConfig) : list IpNet :=
  match config_global config with
  | Some g => match global_trusted_proxies g with
              | Some v => parse_trusted_proxies v
              | None => []
              end
  | None => []
  end.

Definition eval_ctx (config : ProxyConfig) (info : RequestInfo) (req : Request)
    (body_json : option JsonValue) (user_role : option string) : EvaluationContext :=
  {| ctx_path := info_path info;
     ctx_method := info_method info;
     ctx_headers := map_to_list (header_map (req_headers req));
     ctx_client_ip := IpAddr_to_string (compute_client_ip (peer_ip (info_peer info))
                        (req_headers req) (trusted_proxies_of config));
     ctx_body_json := body_json;
     ctx_user_role := user_role |}.

End Handle.
