(* ===== verification/Forward.v ===== *)
(** * Rules, upstream and upgrades ([handle] and [handle_upgrade] of [src/main.rs])

    The second half of the handler: the request body, the decision of the rules, the exchange
    with the Docker socket, and the upgraded connection. *)

From S2P Require Import Prelude RustStr F64 Net External Json Config AuthLimiter RateLimiter.
From S2P Require Import Conditions Rules Metrics AuditLog Tls Upgrade Path Auth Effects World Evaluate.
From S2P Require Import Authenticate Handle.

Open Scope Z_scope.
Open Scope prog_scope.

Section Forward.
Context `{NumberApi} `{RegexApi} `{!JsonApi} `{IpNetApi} `{HttpApi}.

(** ** The request body *)

Definition read_request_body (info : RequestInfo) : phase (list Z) :=
  do r <- perform (ReadBody MAX_REQ_BODY_BYTES);
  match r with
  | InTime (Ok b) => continue b
  | InTime (Err LengthLimitError) =>
      reject body_too_large_total info 413 "Request body too large"
  | InTime (Err OtherBodyError) => reject bad_request_total info 400 "Request body invalid"
  | Elapsed => reject request_timeouts_total info 408 "Request body read timeout"
  end.

Definition parse_body (info : RequestInfo) (body_bytes : list Z) : phase (option JsonValue) :=
  match body_bytes with
  | [] => continue None
  | _ =>
      match json_from_slice body_bytes with
      | Ok v => continue (Some v)
      | Err e =>
          if requires_json_body (info_path info) then
            reject bad_request_total info 400
              ("Request body must be valid JSON for this endpoint: " +:+ e)
          else continue None
      end
  end.

(** ** The decision *)

Definition dry_run_event (user_role identity rule_name : option string)
    (action : option string) (ev : AuditEvent) : AuditEvent :=
  {| ev_timestamp := ev_timestamp ev; ev_event := ev_event ev; ev_peer_ip := ev_peer_ip ev;
     ev_method := ev_method ev; ev_path := ev_path ev; ev_user_agent := ev_user_agent ev;
     ev_user_role := user_role; ev_identity := identity; ev_rule_name := rule_name;
     ev_rule_action := action; ev_status := ev_status ev; ev_dry_run := true;
     ev_message := ev_message ev |}.

Definition deny_event (user_role identity : option string) (d : RuleDecision) (s : Z)
    (message : string) (ev : AuditEvent) : AuditEvent :=
  {| ev_timestamp := ev_timestamp ev; ev_event := ev_event ev; ev_peer_ip := ev_peer_ip ev;
     ev_method := ev_method ev; ev_path := ev_path ev; ev_user_agent := ev_user_agent ev;
     ev_user_role := user_role; ev_identity := identity;
     ev_rule_name := decision_rule_name d; ev_rule_action := decision_action d;
     ev_status := s; ev_dry_run := ev_dry_run ev; ev_message := Some message |}.

Definition record_dry_run (state : ProxyState) (info : RequestInfo)
    (user_role identity : option string) (d : RuleDecision) : prog unit :=
  match decision_rule_name d with
  | Some rn =>
      if decision_dry_run d then
        perform (FetchAdd requests_dry_run) ;;
        perform (RecordRuleDeny rn true) ;;
        audit_event state info "dry_run"
          (dry_run_event user_role identity (Some rn) (decision_action d))
      else Ret tt
  | None => Ret tt
  end.

(** [upgrade] is the branch of an upgrade request, which does not count rate limits. *)
Definition enforce (upgrade : bool) (state : ProxyState) (info : RequestInfo)
    (user_role identity : option string) (d : RuleDecision) : phase unit :=
  match decision_result d with
  | Rules.Allow => continue tt
  | Rules.Deny s message =>
      perform (FetchAdd requests_denied) ;;
      (if negb upgrade && bool_decide (decision_action d = Some "rate_limit")
       then perform (FetchAdd rate_limited_total) else Ret tt) ;;
      match decision_rule_name d with
      | Some rn => perform (RecordRuleDeny rn false)
      | None => Ret tt
      end ;;
      let status_code := unwrap_or (StatusCode_from_u16 s) 403 in
      audit_event state info "deny" (deny_event user_role identity d status_code message) ;;
      log_request info status_code ;;
      respond (make_response_string status_code message)
  end.

(** ** The Docker socket *)

(** [connect_upstream] maps its own timeout to an error; [handle] times it again. *)
Definition connect_upstream (r : timed (result unit string)) : result unit string :=
  match r with
  | InTime r => r
  | Elapsed => Err "deadline has elapsed"
  end.

Definition connect (state : ProxyState) (info : RequestInfo) : phase unit :=
  do r <- perform (Connect (socket_path state));
  match r with
  | InTime r =>
      match connect_upstream r with
      | Ok _ => continue tt
      | Err _ => reject upstream_errors_total info 502 "docker socket unavailable"
      end
  | Elapsed => reject upstream_timeouts_total info 504 "docker socket connect timeout"
  end.

Definition handshake (info : RequestInfo) : phase unit :=
  do r <- perform Handshake;
  match r with
  | Ok _ => perform SpawnConnection ;; continue tt
  | Err _ => reject upstream_errors_total info 502 "docker handshake failed"
  end.

(** [Request::builder()..body(..)]: it fails on a target that is no URI and on a header value
    that is not one. *)
Definition build_request (method uri : string) (headers : list (string * option HeaderValue))
    (body : list Z) : option UpstreamRequest :=
  if uri_valid uri then
    option_map (fun r => {| up_method := method; up_uri := uri; up_headers := resp_headers r;
                            up_body := body |})
      (build_response 200 headers body)
  else None.

Definition upstream_request (info : RequestInfo) (req : Request) (uri : string)
    (body : list Z) : option UpstreamRequest :=
  build_request (info_method info) uri
    ([("host", HeaderValue_from_str "docker.proxy");
      ("connection", HeaderValue_from_str "close")]
     ++ map (fun kv => (kv.1, Some kv.2)) (forward_headers (req_headers req))) body.

Definition send_request (info : RequestInfo) (aborts : bool) (r : UpstreamRequest)
    : phase UpstreamResponse :=
  do a <- perform (SendRequest r);
  match a with
  | InTime (Ok res) => continue res
  | InTime (Err _) =>
      (if aborts then perform (FetchAdd upstream_errors_total) ;; perform AbortConnection ;;
         log_request info 502 ;; respond (make_response 502 "docker request failed")
       else reject upstream_errors_total info 502 "docker request failed")
  | Elapsed =>
      (if aborts then perform (FetchAdd upstream_timeouts_total) ;; perform AbortConnection ;;
         log_request info 504 ;; respond (make_response 504 "docker upstream timeout")
       else reject upstream_timeouts_total info 504 "docker upstream timeout")
  end.

Definition read_response (info : RequestInfo) : phase (list Z) :=
  do r <- perform (ReadResponse MAX_RESP_BODY_BYTES);
  match r with
  | InTime (Ok b) => continue b
  | InTime (Err _) => reject upstream_errors_total info 502 "failed to read docker response"
  | Elapsed => reject upstream_timeouts_total info 504 "docker response timeout"
  end.

(** ** The response to the client *)

Definition response_content_type (headers : HeaderMap) : string :=
  unwrap_or (header_str headers "content-type") "application/octet-stream".

Definition final_bytes (filters : list ResponseFilterEntry) (content_type : string)
    (bytes : list Z) : list Z :=
  if negb (length filters =? 0)%nat && contains content_type "application/json"
  then apply_response_filters filters bytes else bytes.

Definition kept_headers (headers : HeaderMap) : list (string * HeaderValue) :=
  List.filter (fun kv => negb (str_in kv.1 HOP_BY_HOP_HEADERS)
                         && negb (String.eqb kv.1 "content-length")) (header_iter headers).

Definition client_response (res : UpstreamResponse) (content_type : string) (body : list Z)
    : option HttpResponse :=
  let kept := kept_headers (res_headers res) in
  let emitted_content_type := existsb (fun kv => String.eqb kv.1 "content-type") kept in
  build_response (res_status res)
    (map (fun kv => (kv.1, Some kv.2)) kept
     ++ if emitted_content_type then []
        else [("content-type", HeaderValue_from_str content_type)]) body.

Definition elapsed_ms (start finish : Instant) : Z :=
  Z.min (duration_since finish start / 1000000) U64_MAX.

Definition exchange (state : ProxyState) (info : RequestInfo) (req : Request) (uri : string)
    (body : list Z) (filters : list ResponseFilterEntry) : phase HttpResponse :=
  do upstream_start <- perform InstantNow;
  let! _ := connect state info in
  let! _ := handshake info in
  match upstream_request info req uri body with
  | None => reject_uncounted info 502 "failed to build upstream request"
  | Some r =>
      let! res := send_request info false r in
      let content_type := response_content_type (res_headers res) in
      let! response_bytes := read_response info in
      do finish_time <- perform InstantNow;
      perform (ObserveLatency (elapsed_ms upstream_start finish_time)) ;;
      perform (FetchAdd requests_allowed) ;;
      log_request info (res_status res) ;;
      match client_response res content_type (final_bytes filters content_type response_bytes) with
      | Some resp => continue resp
      | None => respond (make_response 502 "failed to build response")
      end
  end.

(** ** Upgraded connections *)

Definition upgrade_upstream_request (info : RequestInfo) (req : Request) (uri : string)
    (upgrade_value : option string) : option UpstreamRequest :=
  build_request (info_method info) uri
    ([("host", HeaderValue_from_str "docker.proxy");
      ("connection", HeaderValue_from_str "upgrade")]
     ++ match upgrade_value with
        | Some u => [("upgrade", HeaderValue_from_str u)]
        | None => []
        end
     ++ map (fun kv => (kv.1, Some kv.2)) (forward_headers (req_headers req))) [].

Definition upgrade_refused (info : RequestInfo) (res : UpstreamResponse) : phase HttpResponse :=
  do r <- perform (ReadResponse MAX_RESP_BODY_BYTES);
  let bytes := match r with
               | InTime (Ok b) => b
               | _ => []
               end in
  log_request info (res_status res) ;;
  continue (unwrap_or
    (build_response (res_status res)
       (map (fun kv => (kv.1, Some kv.2)) (kept_headers (res_headers res))) bytes)
    (make_response 502 "upgrade rejected")).

Definition switch_header (name : string) : bool :=
  negb (String.eqb name "content-length")
  && negb (str_in name HOP_BY_HOP_HEADERS && negb (String.eqb name "connection")
           && negb (String.eqb name "upgrade")).

Definition upgrade_accepted (info : RequestInfo) (res : UpstreamResponse) : phase HttpResponse :=
  perform SpawnCopy ;;
  log_request info (res_status res) ;;
  continue (unwrap_or
    (build_response (res_status res)
       (map (fun kv => (kv.1, Some kv.2))
            (List.filter (fun kv => switch_header kv.1) (header_iter (res_headers res)))) [])
    (make_response 502 "upgrade response build failed")).

Definition handle_upgrade (state : ProxyState) (info : RequestInfo) (req : Request)
    (uri : string) (upgrade_value : option string) : phase HttpResponse :=
  let! _ := connect state info in
  let! _ := handshake info in
  match upgrade_upstream_request info req uri upgrade_value with
  | None =>
      perform AbortConnection ;;
      reject_uncounted info 502 "failed to build upstream request"
  | Some r =>
      let! res := send_request info true r in
      if res_status res =? 101 then upgrade_accepted info res else upgrade_refused info res
  end.

(** The task behind [SpawnCopy]: both sides are awaited in turn, then the bytes are copied. *)
Definition await_upgrade (side : op (timed (result unit string))) : prog bool :=
  do r <- perform side;
  match r with
  | InTime (Ok _) => Ret true
  | InTime (Err _) => perform (FetchAdd upstream_errors_total) ;; perform AbortConnection ;;
                      Ret false
  | Elapsed => perform (FetchAdd upstream_timeouts_total) ;; perform AbortConnection ;;
               Ret false
  end.

Definition upgrade_task : prog unit :=
  do client <- await_upgrade ClientUpgraded;
  if client : bool then
    do docker <- await_upgrade DockerUpgraded;
    if docker : bool then perform CopyBothWays ;; perform AbortConnection else Ret tt
  else Ret tt.

(** ** The handler *)

Definition upgrade_branch (state : ProxyState) (config : ProxyConfig) (info : RequestInfo)
    (req : Request) (uri : string) (user_role identity : option string) : phase HttpResponse :=
  perform (FetchAdd upgrade_total) ;;
  do decision <- evaluate_rules (rules_of config) (eval_ctx config info req None user_role);
  record_dry_run state info user_role identity decision ;;
  let! _ := enforce true state info user_role identity decision in
  perform (FetchAdd requests_allowed) ;;
  handle_upgrade state info req uri (header_str (req_headers req) "upgrade").

Definition plain_branch (state : ProxyState) (config : ProxyConfig) (info : RequestInfo)
    (req : Request) (uri : string) (user_role identity : option string) : phase HttpResponse :=
  let! body_bytes := read_request_body info in
  let! body_json := parse_body info body_bytes in
  let ctx := eval_ctx config info req body_json user_role in
  do decision <- evaluate_rules (rules_of config) ctx;
  record_dry_run state info user_role identity decision ;;
  let! _ := enforce false state info user_role identity decision in
  exchange state info req uri body_bytes (collect_response_filters (rules_of config) ctx).

Definition raw_info (req : Request) (peer : SocketAddr) : RequestInfo :=
  {| info_peer := peer; info_method := req_method req; info_path := uri_path req;
     info_user_agent := unwrap_or (header_str (req_headers req) "user-agent") "-" |}.

Definition handle (state : ProxyState) (req : Request) (peer : SocketAddr)
    (cert : option CertIdentity) : prog HttpResponse :=
  finish (
    perform (FetchAdd requests_total) ;;
    let raw := raw_info req peer in
    let! canonical_path := check_path raw req in
    let info := with_path raw canonical_path in
    let! _ := check_query info req in
    let uri := path_and_query canonical_path (uri_query req) in
    do config <- perform CurrentConfig;
    let! who := authenticate_request state config info req cert in
    let! _ := serve_metrics state info in
    if is_upgrade_request (req_headers req)
    then upgrade_branch state config info req uri who.1 who.2
    else plain_branch state config info req uri who.1 who.2).

End Forward.
