(* ===== verification/Gate.v ===== *)
(** * What reaches the Docker socket

    The facts a trace of [handle] shows before the socket is touched: the peer was not locked
    out, the request was entitled to its role under the configuration of the moment, and the
    rules of that configuration, given the path, the role and the body that are forwarded,
    decided to allow it.  They hold of every trace, whatever other tasks do in between. *)

From S2P Require Import Prelude RustStr F64 Net External Json Config AuthLimiter RateLimiter.
From S2P Require Import Conditions Rules Metrics AuditLog Tls Upgrade Path Auth Effects World Evaluate.
From S2P Require Import Authenticate Handle Forward.

Open Scope Z_scope.
Open Scope prog_scope.

Section Gate.
Context `{NumberApi} `{RegexApi} `{!JsonApi} `{IpNetApi} `{HttpApi}.
Context (state : ProxyState) (req : Request) (peer : SocketAddr) (cert : option CertIdentity).

(** ** The evidence *)

Definition peer_key : string := IpAddr_to_string (peer_ip peer).

Definition canonical_info (path : string) : RequestInfo := with_path (raw_info req peer) path.

(** The JSON the rules are shown for a body. *)
Definition seen_body (body : list Z) : option JsonValue :=
  match body with
  | [] => None
  | _ => result_ok (json_from_slice body)
  end.

Definition admitted (config : ProxyConfig) (role identity : option string) (h : list event)
    : Prop :=
  Event CurrentConfig config ∈ h /\ Event (AuthIsBlocked peer_key) false ∈ h /\
  (short_secrets config (env_secret state) ->
   entitled config (env_secret state) (req_headers req) cert role identity).

Definition well_formed (path : string) : Prop :=
  canonicalize_path (uri_path req) = Some path
  /\ is_some_and (uri_query req) bad_query = false.

Definition cleared (path : string) (body : list Z) (h : list event) : Prop :=
  well_formed path /\
  exists config role identity d,
    admitted config role identity h /\
    decided (rules_of config)
      (eval_ctx config (canonical_info path) req (seen_body body) role) d h /\
    decision_result d = Rules.Allow.

(** The headers the proxy writes itself, before those it forwards. *)
Definition own_part (own : list (string * HeaderValue)) : Prop :=
  exists host conn rest,
    own = ("host", host) :: ("connection", conn) :: rest
    /\ HeaderValue_from_str "docker.proxy" = Some host
    /\ HeaderValue_from_str (if is_upgrade_request (req_headers req) then "upgrade" else "close")
       = Some conn
    /\ match header_str (req_headers req) "upgrade" with
       | Some u =>
           if is_upgrade_request (req_headers req)
           then exists v, HeaderValue_from_str u = Some v /\ rest = [("upgrade", v)]
           else rest = []
       | None => rest = []
       end.

Definition forwarded_as (path : string) (r : UpstreamRequest) : Prop :=
  up_method r = req_method req /\ up_uri r = path_and_query path (uri_query req)
  /\ exists own, own_part own /\ up_headers r = own ++ forward_headers (req_headers req).

Definition gate (h : list event) (X : Type) (o : op X) : Prop :=
  match o with
  | Connect p => p = socket_path state /\ exists path body, cleared path body h
  | SendRequest r => exists path, cleared path (up_body r) h /\ forwarded_as path r
  | AuthIsBlocked k => k = peer_key
  | AuthRecordSuccess k => k = peer_key /\ Event (AuthIsBlocked peer_key) false ∈ h
  | AuthRecordFailure k max window lockout => auth_limits peer_key k max window lockout
  | _ => True
  end.

Definition quiet (X : Type) (o : op X) : Prop :=
  match o with
  | Connect _ | SendRequest _ | AuthIsBlocked _ | AuthRecordSuccess _
  | AuthRecordFailure _ _ _ _ => False
  | _ => True
  end.

(** ** Growing histories *)

Lemma prefix_in (h h' : list event) e : h `prefix_of` h' -> e ∈ h -> e ∈ h'.
Proof. intros [t ->] Hin. apply elem_of_app. by left. Qed.

Lemma admitted_mono config role identity h h' :
  h `prefix_of` h' -> admitted config role identity h -> admitted config role identity h'.
Proof. intros Hp (Hc & Hb & He). split_and!; eauto using prefix_in. Qed.

Lemma cleared_mono path body h h' :
  h `prefix_of` h' -> cleared path body h -> cleared path body h'.
Proof.
  intros Hp (Hw & config & role & identity & d & Ha & He & Hd). split; [done|].
  exists config, role, identity, d. split_and!; eauto using decided_mono, admitted_mono.
Qed.

Lemma quiet_gate h X (o : op X) : quiet X o -> gate h X o.
Proof. by destruct o. Qed.

(** A quiet phase passes the gate and only lengthens the history. *)
Lemma wp_quiet {A} (p : prog A) h Q :
  only quiet p -> (forall h' a, h `prefix_of` h' -> Q h' a) -> wp gate p h Q.
Proof. intros Hp HQ. apply (wp_only quiet); auto using quiet_gate. Qed.

Ltac quiet_steps :=
  repeat first
    [ done
    | match goal with
      | |- _ /\ _ => split
      | |- forall _, _ => intros ?
      | |- only _ (bind _ _) => apply only_bind
      | |- only _ (match ?x with _ => _ end) => destruct x
      | |- only _ (if ?x then _ else _) => destruct x
      end
    | progress simpl ].

Lemma log_request_quiet info s : only quiet (log_request info s).
Proof. done. Qed.

Lemma reject_quiet {A} c info s body : only quiet (reject (A := A) c info s body).
Proof. done. Qed.

Lemma audit_event_quiet info name fill : only quiet (audit_event state info name fill).
Proof. unfold audit_event. quiet_steps. Qed.

Lemma record_dry_run_quiet info role identity d :
  only quiet (record_dry_run state info role identity d).
Proof.
  unfold record_dry_run, audit_event. quiet_steps.
Qed.

Lemma enforce_quiet u info role identity d :
  only quiet (enforce u state info role identity d).
Proof. unfold enforce, audit_event. quiet_steps. Qed.

Lemma serve_metrics_quiet info : only quiet (serve_metrics state info).
Proof. unfold serve_metrics. quiet_steps. Qed.

Lemma handshake_quiet info : only quiet (handshake info).
Proof. unfold handshake. quiet_steps. Qed.

Lemma read_response_quiet info : only quiet (read_response info).
Proof. unfold read_response. quiet_steps. Qed.

Lemma upgrade_accepted_quiet info res : only quiet (upgrade_accepted info res).
Proof. unfold upgrade_accepted. quiet_steps. Qed.

Lemma upgrade_refused_quiet info res : only quiet (upgrade_refused info res).
Proof. unfold upgrade_refused. quiet_steps. Qed.

(** ** The phases that decide *)

(** A postcondition on the phases that go on. *)
Definition after {A} (P : list event -> A -> Prop) (h : list event) (r : result A HttpResponse)
    : Prop :=
  match r with
  | Ok a => P h a
  | Err _ => True
  end.

Definition any {A} : list event -> A -> Prop := fun _ _ => True.

Lemma wp_then_after {A B} (p : phase A) (k : A -> phase B) h :
  wp gate p h (after (fun h' a => wp gate (k a) h' any)) -> wp gate (then_ p k) h any.
Proof. intros Hp. apply wp_then. eapply wp_mono; [done| |exact Hp]. by intros h' [a|r]. Qed.

Lemma reject_wp {A} c info s body h (P : list event -> A -> Prop) :
  wp gate (reject c info s body) h (after P).
Proof. by repeat split. Qed.

Lemma quiet_after {A} (p : phase A) h (P : list event -> A -> Prop) :
  only quiet p -> (forall h' a, h `prefix_of` h' -> P h' a) -> wp gate p h (after P).
Proof. intros Hp HP. apply wp_quiet; [done|]. intros h' [a|r] Hh; [by apply HP|done]. Qed.

Lemma check_path_wp info h (P : list event -> string -> Prop) :
  (forall path, canonicalize_path (uri_path req) = Some path -> P h path) ->
  wp gate (check_path info req) h (after P).
Proof. intros HP. unfold check_path. destruct (canonicalize_path _); [by apply HP|apply reject_wp]. Qed.

Lemma check_query_wp info h (P : list event -> unit -> Prop) :
  (is_some_and (uri_query req) bad_query = false -> P h tt) ->
  wp gate (check_query info req) h (after P).
Proof.
  intros HP. unfold check_query. destruct (uri_query req) as [q|]; [|by apply HP].
  simpl in HP. destruct (bad_query q); [apply reject_wp|by apply HP].
Qed.

Lemma authenticate_request_wp config info h P :
  info_peer info = peer ->
  Event CurrentConfig config ∈ h ->
  (forall h' role identity, h `prefix_of` h' -> admitted config role identity h' ->
     P h' (role, identity)) ->
  wp gate (authenticate_request state config info req cert) h (after P).
Proof.
  intros Hpeer Hc HP. unfold authenticate_request. apply wp_bind. rewrite Hpeer.
  refine (wp_mono _ _ _ _ _ _ _ _ (authenticate_wp _ config _ _ cert h)).
  - intros h' X o Ho. by destruct o.
  - intros h' [role identity|s m] [Hp Hout]; simpl in *.
    + destruct Hout as [Hb He]. apply HP; [done|]. split_and!; [by eapply prefix_in|done|done].
    + split; [done|]. intros []. unfold audit_event. by destruct (audit_enabled state); repeat split.
Qed.

Lemma serve_metrics_wp info h (P : list event -> unit -> Prop) :
  P h tt -> wp gate (serve_metrics state info) h (after P).
Proof. intros HP. unfold serve_metrics. case_bool; [by repeat split|done]. Qed.

Lemma parse_body_wp info body h (P : list event -> option JsonValue -> Prop) :
  P h (seen_body body) -> wp gate (parse_body info body) h (after P).
Proof.
  intros HP. unfold parse_body, seen_body in *. destruct body as [|b body]; [done|].
  destruct (json_from_slice (b :: body)); [done|].
  destruct (requires_json_body _); [apply reject_wp|done].
Qed.

Lemma enforce_wp u info role identity d h (P : list event -> unit -> Prop) :
  (decision_result d = Rules.Allow -> P h tt) ->
  wp gate (enforce u state info role identity d) h (after P).
Proof.
  intros HP. unfold enforce. destruct (decision_result d) as [|s m]; [by apply HP|].
  unfold audit_event.
  destruct (negb u && _), (decision_rule_name d), (audit_enabled state); by repeat split.
Qed.

Lemma connect_wp info h (P : list event -> unit -> Prop) :
  (exists path body, cleared path body h) ->
  (forall h', h `prefix_of` h' -> P h' tt) ->
  wp gate (connect state info) h (after P).
Proof.
  intros Hc HP. split; [done|]. intros r. simpl.
  destruct r as [r|]; [|by repeat split]. destruct (connect_upstream r); [|by repeat split].
  simpl. apply HP. by apply prefix_app_r.
Qed.

Lemma send_request_wp info aborts r h (P : list event -> UpstreamResponse -> Prop) :
  (exists path, cleared path (up_body r) h /\ forwarded_as path r) ->
  (forall h' res, h `prefix_of` h' -> P h' res) ->
  wp gate (send_request info aborts r) h (after P).
Proof.
  intros Hc HP. split; [done|]. intros a. simpl.
  destruct a as [[res|]|]; [|destruct aborts; by repeat split..].
  simpl. apply HP. by apply prefix_app_r.
Qed.

(** ** The forwarded request *)

Lemma build_response_headers s hs body r :
  build_response s hs body = Some r ->
  Forall2 (fun h kv => kv.1 = h.1 /\ h.2 = Some kv.2) hs (resp_headers r)
  /\ status r = s /\ resp_body r = body.
Proof.
  unfold build_response. destruct (foldr _ _ hs) as [l|] eqn:E; [|done]. intros [= <-].
  split; [|done]. simpl. revert l E. induction hs as [|[k v] hs IH]; intros l E; simpl in *.
  - injection E as <-. constructor.
  - destruct v as [v|], (foldr _ _ hs) as [l'|]; try done. injection E as <-.
    constructor; [done|]. by apply IH.
Qed.

(** What the builder makes of a list of headers. *)
Definition built (hs : list (string * option HeaderValue)) (l : list (string * HeaderValue))
    : Prop :=
  Forall2 (fun h kv => kv.1 = h.1 /\ h.2 = Some kv.2) hs l.

Lemma built_values l l' : built (map (fun kv => (kv.1, Some kv.2)) l) l' -> l' = l.
Proof.
  unfold built. revert l'. induction l as [|[k v] l IH]; intros l' Hb; simpl in Hb.
  - by inversion Hb.
  - inversion Hb as [|? [k' v'] ? l1 [Hk Hv] Hl]; subst. simpl in *.
    injection Hv as <-. rewrite Hk. f_equal. by apply IH.
Qed.

Lemma build_request_forwarded path hs body r :
  (forall own, built hs own -> own_part own) ->
  build_request (req_method req) (path_and_query path (uri_query req))
    (hs ++ map (fun kv => (kv.1, Some kv.2)) (forward_headers (req_headers req))) body = Some r ->
  forwarded_as path r /\ up_body r = body.
Proof.
  intros Hs. unfold build_request. destruct (uri_valid _); [|done].
  destruct (build_response _ _ _) as [resp|] eqn:E; [|done]. intros [= <-].
  apply build_response_headers in E as (Hall & _). split; [|done]. split_and!; [done|done|].
  apply Forall2_app_inv_l in Hall as (own & rest & Hown & Hrest & ->).
  exists own. split; [by apply Hs|]. simpl. by rewrite (built_values _ _ Hrest).
Qed.

Lemma upstream_request_forwarded path body r :
  is_upgrade_request (req_headers req) = false ->
  upstream_request (canonical_info path) req (path_and_query path (uri_query req)) body = Some r ->
  forwarded_as path r /\ up_body r = body.
Proof.
  intros Hu. apply build_request_forwarded. intros own Hb. unfold own_part. rewrite Hu.
  inversion Hb as [|? [k v] ? l1 [Hk Hv] Hl]; subst.
  inversion Hl as [|? [k' v'] ? l2 [Hk' Hv'] Hl2]; subst. inversion Hl2; subst. simpl in *; subst.
  exists v, v', []. split_and!; try done. by destruct (header_str _ _).
Qed.

Lemma upgrade_request_forwarded path r :
  is_upgrade_request (req_headers req) = true ->
  upgrade_upstream_request (canonical_info path) req (path_and_query path (uri_query req))
    (header_str (req_headers req) "upgrade") = Some r ->
  forwarded_as path r /\ up_body r = [].
Proof.
  intros Hu. unfold upgrade_upstream_request. rewrite app_assoc.
  apply build_request_forwarded. intros own Hb. unfold own_part. rewrite Hu.
  inversion Hb as [|? [k v] ? l1 [Hk Hv] Hl]; subst.
  inversion Hl as [|? [k' v'] ? l2 [Hk' Hv'] Hl2]; subst. simpl in *; subst.
  exists v, v', l2. split_and!; try done. destruct (header_str _ _) as [u|]; [|by inversion Hl2].
  inversion Hl2 as [|? [k3 v3] ? l3 [Hk3 Hv3] Hl3]; subst. inversion Hl3; subst. simpl in *; subst.
  by exists v3.
Qed.

(** ** The whole handler *)

Lemma exchange_wp path body filters h :
  is_upgrade_request (req_headers req) = false -> cleared path body h ->
  wp gate (exchange state (canonical_info path) req (path_and_query path (uri_query req))
             body filters) h any.
Proof.
  intros Hup Hc. unfold exchange. split; [done|]. intros t0. cbn [bind perform].
  apply wp_then_after, connect_wp; [exists path, body|].
  { eapply cleared_mono; [|done]. by apply prefix_app_r. }
  intros h1 Hp1. apply wp_then_after, quiet_after; [apply handshake_quiet|]. intros h2 _ Hp2.
  assert (Hc2 : cleared path body h2).
  { eapply cleared_mono; [|done]. trans h1; [|done]. trans (h ++ [Event InstantNow t0]); [|done].
    by apply prefix_app_r. }
  destruct (upstream_request _ _ _ _) as [r|] eqn:Er; [|by repeat split].
  apply upstream_request_forwarded in Er as [Hf Hb]; [|done].
  apply wp_then_after, send_request_wp; [exists path; by rewrite Hb|].
  intros h3 res Hp3. apply wp_then_after, quiet_after; [apply read_response_quiet|].
  intros h4 bytes Hp4. simpl. repeat split. intros. by case_bool.
Qed.

Lemma handle_upgrade_wp path h :
  is_upgrade_request (req_headers req) = true -> cleared path [] h ->
  wp gate (handle_upgrade state (canonical_info path) req (path_and_query path (uri_query req))
             (header_str (req_headers req) "upgrade")) h any.
Proof.
  intros Hup Hc. unfold handle_upgrade. apply wp_then_after, connect_wp; [by exists path, []|].
  intros h1 Hp1. apply wp_then_after, quiet_after; [apply handshake_quiet|]. intros h2 _ Hp2.
  assert (Hc2 : cleared path [] h2) by (eapply cleared_mono; [|done]; by trans h1).
  destruct (upgrade_upstream_request _ _ _ _) as [r|] eqn:Er; [|by repeat split].
  apply upgrade_request_forwarded in Er as [Hf Hb]; [|done].
  apply wp_then_after, send_request_wp; [exists path; by rewrite Hb|].
  intros h3 res Hp3. destruct (res_status res =? 101); by repeat split.
Qed.

(** The decision of the rules clears the request, when it is to allow it. *)
Lemma decision_wp u path config role identity body (k : unit -> phase HttpResponse) h :
  well_formed path -> admitted config role identity h ->
  (forall h', h `prefix_of` h' -> cleared path body h' -> wp gate (k tt) h' any) ->
  let info := canonical_info path in
  wp gate (do d <- evaluate_rules (rules_of config)
                     (eval_ctx config info req (seen_body body) role);
           record_dry_run state info role identity d ;;
           then_ (enforce u state info role identity d) k) h any.
Proof.
  intros Hw Ha Hk info. apply wp_bind, (wp_traces rate_op); [apply evaluate_rules_only| |].
  { intros h' X o _ Ho. by destruct o. }
  intros t d Ht. apply wp_bind, wp_quiet; [apply record_dry_run_quiet|]. intros h' _ Hp.
  apply wp_then_after, enforce_wp. intros Hd.
  assert (Hp' : h `prefix_of` h') by (etrans; [|exact Hp]; by apply prefix_app_r).
  apply Hk; [done|]. split; [done|]. exists config, role, identity, d.
  split_and!; [by eapply admitted_mono| |done]. eapply decided_mono; [exact Hp|].
  exists h, t, []. by rewrite app_nil_r.
Qed.

Lemma plain_branch_wp path config role identity h :
  is_upgrade_request (req_headers req) = false ->
  well_formed path -> admitted config role identity h ->
  wp gate (plain_branch state config (canonical_info path) req
             (path_and_query path (uri_query req)) role identity) h any.
Proof.
  intros Hup Hw Ha. unfold plain_branch.
  apply wp_then_after, quiet_after; [unfold read_request_body; quiet_steps|].
  intros h1 body Hp1. apply wp_then_after, parse_body_wp. cbv zeta.
  eapply decision_wp; [done|by eapply admitted_mono|].
  intros h2 Hp2 Hc. by apply exchange_wp.
Qed.

Lemma upgrade_branch_wp path config role identity h :
  is_upgrade_request (req_headers req) = true ->
  well_formed path -> admitted config role identity h ->
  wp gate (upgrade_branch state config (canonical_info path) req
             (path_and_query path (uri_query req)) role identity) h any.
Proof.
  intros Hup Hw Ha. unfold upgrade_branch. split; [done|]. intros []. cbn [bind perform].
  assert (Hp : h `prefix_of` h ++ [Event (FetchAdd upgrade_total) tt]) by (by apply prefix_app_r).
  apply (decision_wp _ _ _ _ _ []); [done|by eapply admitted_mono|].
  intros h2 Hp2 Hc. split; [done|]. intros []. cbn [bind perform].
  apply handle_upgrade_wp; [done|].
  eapply cleared_mono; [|done]. by apply prefix_app_r.
Qed.

Lemma handle_wp h : wp gate (handle state req peer cert) h any.
Proof.
  unfold handle, finish. apply wp_bind, (wp_mono gate gate _ _ any); [done|by intros h' [r|r]|].
  change (wp gate (perform (FetchAdd requests_total) ;;
    then_ (check_path (raw_info req peer) req) (fun path =>
    then_ (check_query (canonical_info path) req) (fun _ =>
    do config <- perform CurrentConfig;
    then_ (authenticate_request state config (canonical_info path) req cert) (fun who =>
    then_ (serve_metrics state (canonical_info path)) (fun _ =>
    if is_upgrade_request (req_headers req)
    then upgrade_branch state config (canonical_info path) req
           (path_and_query path (uri_query req)) who.1 who.2
    else plain_branch state config (canonical_info path) req
           (path_and_query path (uri_query req)) who.1 who.2))))) h any).
  split; [done|]. intros []. cbn [bind perform].
  apply wp_then_after, check_path_wp. intros path Hpath.
  apply wp_then_after, check_query_wp. intros Hq.
  split; [done|]. intros config. cbn [bind perform].
  apply wp_then_after, authenticate_request_wp; [done|set_solver|].
  intros h1 role identity Hp1 Ha. apply wp_then_after, serve_metrics_wp. cbn [fst snd].
  destruct (is_upgrade_request _) eqn:Hup; [by apply upgrade_branch_wp|by apply plain_branch_wp].
Qed.

(** A trace of the handler shows, before a request is sent to the Docker socket, that it was
    judged. *)
Lemma handler_sends_judged (before after : list event) (r : UpstreamRequest)
    (answer : timed (result UpstreamResponse string)) (q : prog HttpResponse)
    (Hrun : reaches (handle state req peer cert)
              (before ++ Event (SendRequest r) answer :: after) q) :
  exists path config role identity d h1 checks h2,
    let ctx := eval_ctx config (with_path (raw_info req peer) path) req
                        (seen_body (up_body r)) role in
    canonicalize_path (uri_path req) = Some path
    /\ up_method r = req_method req /\ up_uri r = path_and_query path (uri_query req)
    /\ Event CurrentConfig config ∈ before
    /\ Event (AuthIsBlocked (IpAddr_to_string (peer_ip peer))) false ∈ before
    /\ (short_secrets config (env_secret state) ->
        entitled config (env_secret state) (req_headers req) cert role identity)
    /\ before = h1 ++ checks ++ h2
    /\ reaches (evaluate_rules (rules_of config) ctx) checks (Ret d)
    /\ decision_result d = Rules.Allow /\ Forall granted checks
    /\ forall pre rule post, rules_of config = pre ++ rule :: post -> denies rule ctx = true ->
         exists rule', rule' ∈ pre /\ permits rule' ctx.
Proof.
  destruct (wp_reaches _ _ _ _ _ _ Hrun (handle_wp [])) as [_ Hg].
  specialize (Hg before after _ (SendRequest r) answer eq_refl).
  destruct Hg as (path & ([Hpath _] & config & role & identity & d & (Hc & Hb & He) & Hd & Ha)
                  & Hm & Hu & _).
  destruct Hd as (h1 & checks & h2 & Eh & Hr). simpl in Eh.
  destruct (evaluate_rules_allowed _ _ _ _ Hr Ha) as [Hgr Hden].
  exists path, config, role, identity, d, h1, checks, h2. split_and!; done.
Qed.

End Gate.
