(* ===== verification/Accounting.v ===== *)
(** * What a request adds to the metrics and the audit log

    A weight on operations is summed over a trace; [shifts] bounds what a program adds to the
    sum, for all answers.  Two weights matter: the counters that say how a request ended, and
    the balance of denials counted against denials audited. *)

From S2P Require Import Prelude RustStr F64 Net External Json Config AuthLimiter RateLimiter.
From S2P Require Import Conditions Rules Metrics AuditLog Tls Upgrade Path Auth Effects World Evaluate.
From S2P Require Import Authenticate Handle Forward.

Open Scope Z_scope.
Open Scope prog_scope.

Section Accounting.
Context `{NumberApi} `{RegexApi} `{!JsonApi} `{IpNetApi} `{HttpApi}.

(** ** Weights *)

Definition weight : Type := forall X : Type, op X -> Z.

Definition event_weight (w : weight) (e : event) : Z :=
  match e with
  | Event o _ => w _ o
  end.

Definition tally (w : weight) (t : list event) : Z := foldr Z.add 0 (map (event_weight w) t).

Lemma tally_app w t1 t2 : tally w (t1 ++ t2) = tally w t1 + tally w t2.
Proof. unfold tally. induction t1 as [|e t1 IH]; simpl; lia. Qed.

Definition free (h : list event) (X : Type) (o : op X) : Prop := True.

Definition shifts {A} (w : weight) (p : prog A) (R : A -> Z -> Prop) : Prop :=
  forall h, wp free p h (fun h' a => R a (tally w h' - tally w h)).

Lemma shifts_ret {A} w (a : A) (R : A -> Z -> Prop) : R a 0 -> shifts w (Ret a) R.
Proof. intros HR h. simpl. by rewrite Z.sub_diag. Qed.

Lemma shifts_do {A X} w (o : op X) (k : X -> prog A) R :
  (forall x, shifts w (k x) (fun a d => R a (w X o + d))) -> shifts w (Do o k) R.
Proof.
  intros Hk h. split; [done|]. intros x. eapply wp_mono; [done| |exact (Hk x (h ++ [Event o x]))].
  intros h' a Ha. simpl in Ha. rewrite tally_app in Ha. unfold tally in Ha at 3. simpl in Ha.
  by replace (tally w h' - tally w h)
    with (w X o + (tally w h' - (tally w h + (w X o + 0)))) by lia.
Qed.

Lemma shifts_mono {A} w (p : prog A) (R R' : A -> Z -> Prop) :
  (forall a d, R a d -> R' a d) -> shifts w p R -> shifts w p R'.
Proof. intros HR Hp h. eapply wp_mono; [done| |exact (Hp h)]. intros h' a. apply HR. Qed.

Lemma shifts_bind {A B} w (p : prog A) (k : A -> prog B) R1 R :
  shifts w p R1 ->
  (forall a d, R1 a d -> shifts w (k a) (fun b d' => R b (d + d'))) ->
  shifts w (bind p k) R.
Proof.
  intros Hp Hk h. apply wp_bind. eapply wp_mono; [done| |exact (Hp h)].
  intros h1 a Ha. eapply wp_mono; [done| |exact (Hk a _ Ha h1)].
  intros h2 b Hb. simpl in Hb.
  by replace (tally w h2 - tally w h)
    with (tally w h1 - tally w h + (tally w h2 - tally w h1)) by lia.
Qed.

Definition zero {A} (a : A) (d : Z) : Prop := d = 0.

Lemma shifts_only {A} w (p : prog A) :
  only (fun X o => w X o = 0) p -> shifts w p zero.
Proof.
  intros Hp h. unfold zero. eapply wp_mono with (G := free) (Q := fun h' _ => tally w h' = tally w h);
    [done|intros; lia|].
  assert (Hself : tally w h = tally w h) by done. revert Hself. generalize h at 1 3.
  induction p as [a|X o c IH]; intros h1 Hh; simpl in *; [done|].
  destruct Hp as [Ho Hc]. split; [done|]. intros x. apply IH; [done|].
  rewrite tally_app. unfold tally at 2. simpl. lia.
Qed.

(** Evaluating the rules touches the rate limiter only. *)
Lemma evaluation_weightless w rules ctx :
  (forall X (o : op X), rate_op X o -> w X o = 0) -> shifts w (evaluate_rules rules ctx) zero.
Proof.
  intros Hw. apply shifts_only. pose proof (evaluate_rules_only rules ctx) as Ho. revert Ho.
  generalize (evaluate_rules rules ctx). induction p as [a|X o c IH]; simpl; [done|].
  intros [Hr Hc]. auto.
Qed.

(** A phase that goes on shifts by nothing; one that responds, by what [R] says. *)
Definition ends {A} (R : HttpResponse -> Z -> Prop) (r : result A HttpResponse) (d : Z) : Prop :=
  match r with
  | Ok _ => d = 0
  | Err resp => R resp d
  end.

Lemma shifts_then {A B} w (p : phase A) (k : A -> phase B) (Rok : B -> Z -> Prop) Rerr :
  let R r d := match r with Ok b => Rok b d | Err resp => Rerr resp d end in
  shifts w p (ends Rerr) -> (forall a, shifts w (k a) R) -> shifts w (then_ p k) R.
Proof.
  intros R Hp Hk. eapply shifts_bind; [exact Hp|]. intros [a|resp] d Hd; simpl in Hd.
  - subst d. apply Hk.
  - apply shifts_ret. simpl. by rewrite Z.add_0_r.
Qed.

Lemma shifts_trace {A} w (p : prog A) R t a :
  shifts w p R -> reaches p t (Ret a) -> R a (tally w t).
Proof.
  intros Hs Hr. destruct (wp_reaches _ _ _ _ _ _ Hr (Hs [])) as [Hq _].
  simpl in Hq. by rewrite Z.sub_0_r in Hq.
Qed.

(** Symbolic execution of a phase: one operation or one test at a time. *)
Ltac shift_steps :=
  repeat match goal with
  | |- shifts _ (Do _ _) _ => apply shifts_do; intros ?
  | |- shifts _ (perform _) _ => apply shifts_do; intros ?
  | |- shifts _ (Ret _) _ => apply shifts_ret
  | |- shifts _ (continue _) _ => apply shifts_ret
  | |- shifts _ (respond _) _ => apply shifts_ret
  | |- shifts _ (bind (match ?x with _ => _ end) _) _ => destruct x
  | |- shifts _ (match ?x with _ => _ end) _ => destruct x
  | |- shifts _ _ _ => progress cbn [bind perform respond continue]
  end.

(** ** How a request ends *)

Definition outcome_counter (c : Counter) : bool :=
  match c with
  | requests_allowed | requests_denied | upstream_errors_total | upstream_timeouts_total
  | body_too_large_total | bad_request_total | request_timeouts_total => true
  | _ => false
  end.

(** One for each counter that says how a request ended, and for a scrape of the metrics. *)
Definition outcome_weight : weight := fun X o =>
  match o with
  | FetchAdd c => if outcome_counter c then 1 else 0
  | RenderPrometheus => 1
  | _ => 0
  end.

(** Denials counted, less denials audited. *)
Definition denial_name (ev : AuditEvent) : bool :=
  String.eqb (ev_event ev) "deny" || String.eqb (ev_event ev) "auth_denied".

Definition denial_weight : weight := fun X o =>
  match o with
  | FetchAdd requests_denied => 1
  | AuditSend ev => if denial_name ev then -1 else 0
  | _ => 0
  end.

(** One for each increment of one counter. *)
Definition adds_weight (c : Counter) : weight := fun X o =>
  match o with
  | FetchAdd c' => if decide (c' = c) then 1 else 0
  | _ => 0
  end.

Definition build_failed : HttpResponse := make_response 502 "failed to build upstream request".

(** The one uncounted way to end a request that is no upgrade. *)
Definition counted_once (resp : HttpResponse) (d : Z) : Prop :=
  d = 1 \/ (d = 0 /\ resp = build_failed).

Context (state : ProxyState) (req : Request) (peer : SocketAddr) (cert : option CertIdentity).

Lemma check_path_outcome info :
  shifts outcome_weight (check_path info req) (ends counted_once).
Proof. unfold check_path, reject, log_request. shift_steps; simpl; first [done|by left]. Qed.

Lemma check_query_outcome info :
  shifts outcome_weight (check_query info req) (ends counted_once).
Proof. unfold check_query, reject, log_request. shift_steps; simpl; first [done|by left]. Qed.

Lemma authenticate_outcome config ip :
  shifts outcome_weight (authenticate (env_secret state) config (req_headers req) ip cert)
    (fun _ d => d = 0).
Proof. unfold authenticate, auth_failure. shift_steps; simpl; done. Qed.

Lemma authenticate_request_outcome config info :
  shifts outcome_weight (authenticate_request state config info req cert) (ends counted_once).
Proof.
  unfold authenticate_request, audit_event, log_request.
  eapply shifts_bind; [apply authenticate_outcome|]. intros a d ->.
  shift_steps; simpl; first [done|by left].
Qed.

Lemma serve_metrics_outcome info :
  shifts outcome_weight (serve_metrics state info) (ends counted_once).
Proof. unfold serve_metrics. shift_steps; simpl; first [done|by left]. Qed.

Lemma read_request_body_outcome info :
  shifts outcome_weight (read_request_body info) (ends counted_once).
Proof. unfold read_request_body, reject, log_request. shift_steps; simpl; first [done|by left]. Qed.

Lemma parse_body_outcome info body :
  shifts outcome_weight (parse_body info body) (ends counted_once).
Proof. unfold parse_body, reject, log_request. shift_steps; simpl; first [done|by left]. Qed.

Lemma record_dry_run_outcome info role identity d :
  shifts outcome_weight (record_dry_run state info role identity d) (fun _ n => n = 0).
Proof. unfold record_dry_run, audit_event. shift_steps; simpl; done. Qed.

Lemma enforce_outcome u info role identity d :
  shifts outcome_weight (enforce u state info role identity d) (ends counted_once).
Proof. unfold enforce, audit_event, log_request. shift_steps; simpl; first [done|by left]. Qed.

Lemma connect_outcome info :
  shifts outcome_weight (connect state info) (ends counted_once).
Proof. unfold connect, reject, log_request. shift_steps; simpl; first [done|by left]. Qed.

Lemma handshake_outcome info :
  shifts outcome_weight (handshake info) (ends counted_once).
Proof. unfold handshake, reject, log_request. shift_steps; simpl; first [done|by left]. Qed.

Lemma send_request_outcome info aborts r :
  shifts outcome_weight (send_request info aborts r) (ends counted_once).
Proof.
  unfold send_request, reject, log_request.
  destruct aborts; shift_steps; simpl; first [done|by left].
Qed.

Lemma read_response_outcome info :
  shifts outcome_weight (read_response info) (ends counted_once).
Proof. unfold read_response, reject, log_request. shift_steps; simpl; first [done|by left]. Qed.

Definition either (R : HttpResponse -> Z -> Prop) (r : result HttpResponse HttpResponse) (d : Z)
    : Prop :=
  match r with
  | Ok resp | Err resp => R resp d
  end.

(** A phase may come first wherever it shifts by nothing when it goes on. *)
Lemma then_outcome {A} w R (p : phase A) (k : A -> phase HttpResponse) :
  shifts w p (ends R) -> (forall a, shifts w (k a) (either R)) ->
  shifts w (then_ p k) (either R).
Proof. intros Hp Hk. by apply (shifts_then w p k R R). Qed.

Lemma exchange_outcome info uri body filters :
  shifts outcome_weight (exchange state info req uri body filters) (either counted_once).
Proof.
  unfold exchange. apply shifts_do. intros t0. cbn [bind perform].
  apply then_outcome; [apply connect_outcome|]. intros _.
  apply then_outcome; [apply handshake_outcome|]. intros _.
  destruct (upstream_request _ _ _ _) as [r|].
  2:{ unfold reject_uncounted, log_request. shift_steps. simpl. by right. }
  apply then_outcome; [apply send_request_outcome|]. intros res.
  apply then_outcome; [apply read_response_outcome|]. intros bytes.
  unfold log_request. shift_steps; simpl; by left.
Qed.

Lemma plain_branch_outcome config info uri role identity :
  shifts outcome_weight (plain_branch state config info req uri role identity)
    (either counted_once).
Proof.
  unfold plain_branch. apply then_outcome; [apply read_request_body_outcome|]. intros body.
  apply then_outcome; [apply parse_body_outcome|]. intros json. cbv zeta.
  eapply shifts_bind; [apply evaluation_weightless; by intros ? []|]. intros d n ->.
  eapply shifts_bind; [apply record_dry_run_outcome|]. intros _ n ->.
  apply then_outcome; [apply enforce_outcome|]. intros _. apply exchange_outcome.
Qed.

Lemma handle_outcome :
  is_upgrade_request (req_headers req) = false ->
  shifts outcome_weight (handle state req peer cert) counted_once.
Proof.
  intros Hu. unfold handle, finish.
  apply (shifts_bind _ _ _ (either counted_once)); [|intros [r|r] d Hd; apply shifts_ret; simpl in *;
    by rewrite Z.add_0_r].
  apply shifts_do. intros []. cbn [bind perform]. cbv zeta.
  apply then_outcome; [apply check_path_outcome|]. intros path.
  apply then_outcome; [apply check_query_outcome|]. intros _.
  apply shifts_do. intros config. cbn [bind perform].
  apply then_outcome; [apply authenticate_request_outcome|]. intros who.
  apply then_outcome; [apply serve_metrics_outcome|]. intros _. rewrite Hu.
  apply plain_branch_outcome.
Qed.

(** ** Denials are audited *)

Lemma zero_ends {A} w (p : phase A) : shifts w p zero -> shifts w p (ends zero).
Proof. apply shifts_mono. by intros [a|r] d. Qed.

Lemma zero_either w (p : phase HttpResponse) : shifts w p zero -> shifts w p (either zero).
Proof. apply shifts_mono. by intros [a|r] d. Qed.

Ltac weightless :=
  apply shifts_only;
  repeat first
    [ done
    | match goal with
      | |- _ /\ _ => split
      | |- forall _, _ => intros ?
      | |- only _ (bind _ _) => apply only_bind
      | |- only _ (match ?x with _ => _ end) => destruct x
      | |- only _ (if ?x then _ else _) => destruct x
      end
    | progress simpl ].

Lemma decision_total u info role identity rules ctx (k : unit -> phase HttpResponse) :
  (forall x, shifts (adds_weight requests_total) (k x) (either zero)) ->
  shifts (adds_weight requests_total)
    (do d <- evaluate_rules rules ctx;
     record_dry_run state info role identity d ;;
     then_ (enforce u state info role identity d) k) (either zero).
Proof.
  intros Hk. eapply shifts_bind; [apply evaluation_weightless; by intros ? []|]. intros d n ->.
  eapply shifts_bind; [unfold record_dry_run, audit_event; weightless|]. intros _ n ->.
  apply then_outcome; [|exact Hk]. apply zero_ends.
  unfold enforce, audit_event, log_request. weightless.
Qed.

(** Every request is counted as it arrives, and once. *)
Lemma handle_total : shifts (adds_weight requests_total) (handle state req peer cert) (fun _ d => d = 1).
Proof.
  unfold handle, finish. cbn [bind perform]. apply shifts_do. intros [].
  apply (shifts_mono _ _ zero); [unfold zero; simpl; lia|]. cbv zeta.
  apply (shifts_bind _ _ _ (either zero)); [|intros [r|r] d Hd; apply shifts_ret; unfold zero in *;
    simpl in *; lia].
  apply then_outcome; [apply zero_ends; unfold check_path; weightless|]. intros path.
  apply then_outcome; [apply zero_ends; unfold check_query; weightless|]. intros _.
  apply shifts_do. intros config. cbn [bind perform].
  apply then_outcome.
  { apply zero_ends. unfold authenticate_request, authenticate, auth_failure, audit_event,
      log_request. weightless. }
  intros who. apply then_outcome; [apply zero_ends; unfold serve_metrics; weightless|]. intros _.
  destruct (is_upgrade_request _).
  - unfold upgrade_branch. apply shifts_do. intros []. cbn [bind perform].
    apply decision_total. intros _. apply shifts_do. intros []. cbn [bind perform].
    apply zero_either. unfold handle_upgrade, connect, handshake, send_request, upgrade_accepted,
      upgrade_refused, then_. weightless.
  - unfold plain_branch.
    apply then_outcome; [apply zero_ends; unfold read_request_body; weightless|]. intros body.
    apply then_outcome; [apply zero_ends; unfold parse_body; weightless|]. intros json.
    apply decision_total. intros _. apply zero_either.
    unfold exchange, connect, handshake, send_request, read_response, then_. weightless.
Qed.

Hypothesis audited : audit_enabled state = true.

Lemma authenticate_request_denials config info :
  shifts denial_weight (authenticate_request state config info req cert) (ends zero).
Proof.
  unfold authenticate_request. apply (shifts_bind _ _ _ zero).
  - unfold authenticate, auth_failure. weightless.
  - intros a d ->. unfold audit_event, log_request. rewrite audited. shift_steps; done.
Qed.

Lemma record_dry_run_denials info role identity d :
  shifts denial_weight (record_dry_run state info role identity d) zero.
Proof. unfold record_dry_run, audit_event. weightless. Qed.

Lemma enforce_denials u info role identity d :
  shifts denial_weight (enforce u state info role identity d) (ends zero).
Proof. unfold enforce, audit_event, log_request. rewrite audited. shift_steps; done. Qed.

Lemma exchange_denials info uri body filters :
  shifts denial_weight (exchange state info req uri body filters) (either zero).
Proof.
  apply zero_either. unfold exchange, connect, handshake, send_request, read_response, then_.
  weightless.
Qed.

Lemma handle_upgrade_denials info uri v :
  shifts denial_weight (handle_upgrade state info req uri v) (either zero).
Proof.
  apply zero_either. unfold handle_upgrade, connect, handshake, send_request, upgrade_accepted,
    upgrade_refused, then_. weightless.
Qed.

Lemma decision_denials u info role identity rules ctx (k : unit -> phase HttpResponse) :
  (forall x, shifts denial_weight (k x) (either zero)) ->
  shifts denial_weight
    (do d <- evaluate_rules rules ctx;
     record_dry_run state info role identity d ;;
     then_ (enforce u state info role identity d) k) (either zero).
Proof.
  intros Hk. eapply shifts_bind; [apply evaluation_weightless; by intros ? []|]. intros d n ->.
  eapply shifts_bind; [apply record_dry_run_denials|]. intros _ n ->.
  apply then_outcome; [apply enforce_denials|exact Hk].
Qed.

Lemma handle_denials : shifts denial_weight (handle state req peer cert) zero.
Proof.
  unfold handle, finish.
  apply (shifts_bind _ _ _ (either zero)); [|intros [r|r] d Hd; apply shifts_ret; unfold zero in *;
    simpl in *; lia].
  apply shifts_do. intros []. cbn [bind perform]. cbv zeta.
  apply then_outcome; [apply zero_ends; unfold check_path; weightless|]. intros path.
  apply then_outcome; [apply zero_ends; unfold check_query; weightless|]. intros _.
  apply shifts_do. intros config. cbn [bind perform].
  apply then_outcome; [apply authenticate_request_denials|]. intros who.
  apply then_outcome; [apply zero_ends; unfold serve_metrics; weightless|]. intros _.
  destruct (is_upgrade_request _).
  - unfold upgrade_branch. apply shifts_do. intros []. cbn [bind perform].
    apply (decision_denials true). intros _. apply shifts_do. intros []. cbn [bind perform].
    apply handle_upgrade_denials.
  - unfold plain_branch.
    apply then_outcome; [apply zero_ends; unfold read_request_body; weightless|]. intros body.
    apply then_outcome; [apply zero_ends; unfold parse_body; weightless|]. intros json.
    apply (decision_denials false). intros _. apply exchange_denials.
Qed.

End Accounting.
