(* ===== verification/Termination.v ===== *)
(** * How long a request runs ([handle] of [src/main.rs])

    Every trace of the handler is bounded: by a constant, plus one operation for each rule of
    the configuration it read.  [cost] charges an operation one unit and pays the rules of a
    configuration back when it is read; [within] bounds what a program can spend, for all
    answers, and so the length of all its traces. *)

From S2P Require Import Prelude RustStr F64 Net External Json Config RateLimiter AuthLimiter.
From S2P Require Import Conditions Rules Metrics AuditLog Tls Upgrade Path Auth Effects World.
From S2P Require Import Evaluate Authenticate Handle Forward.

Open Scope Z_scope.
Open Scope prog_scope.

Section Termination.
Context `{NumberApi} `{RegexApi} `{!JsonApi} `{IpNetApi} `{HttpApi}.

(** The rules an event puts before the handler. *)
Definition rules_read (e : event) : Z :=
  match e with
  | Event o x =>
      match o in op X return X -> Z with
      | CurrentConfig => fun config => Z.of_nat (length (rules_of config))
      | _ => fun _ => 0
      end x
  end.

Definition total_read (t : list event) : Z := foldr Z.add 0 (map rules_read t).

Lemma rules_read_nonneg e : 0 <= rules_read e.
Proof. destruct e as [X o x]. destruct o; simpl; lia. Qed.

Lemma total_read_nonneg t : 0 <= total_read t.
Proof.
  unfold total_read. induction t as [|e t IH]; simpl; [lia|]. pose proof (rules_read_nonneg e). lia.
Qed.

Lemma total_read_in t e : e ∈ t -> rules_read e <= total_read t.
Proof.
  unfold total_read. induction t as [|e' t IH]; [set_solver|]. simpl.
  pose proof (total_read_nonneg t) as Ht. unfold total_read in Ht.
  pose proof (rules_read_nonneg e'). intros [->|Hin%IH]%elem_of_cons; lia.
Qed.

Fixpoint within {A} (n : Z) (p : prog A) : Prop :=
  match p with
  | Ret _ => 0 <= n
  | Do o k => 1 <= n /\ forall x, within (n - 1 + rules_read (Event o x)) (k x)
  end.

Lemma total_read_app t1 t2 : total_read (t1 ++ t2) = total_read t1 + total_read t2.
Proof. unfold total_read. induction t1 as [|e t1 IH]; simpl; lia. Qed.

Lemma within_nonneg {A} n (p : prog A) : within n p -> 0 <= n.
Proof. destruct p; simpl; lia. Qed.

Lemma within_mono {A} n m (p : prog A) : n <= m -> within n p -> within m p.
Proof.
  revert n m. induction p as [a|X o k IH]; simpl; intros n m Hnm; [lia|].
  intros [Hn Hk]. split; [lia|]. intros x. eapply IH; [|apply Hk]. lia.
Qed.

Lemma within_bind {A B} n m (p : prog A) (k : A -> prog B) :
  0 <= m -> within n p -> (forall a, within m (k a)) -> within (n + m) (bind p k).
Proof.
  intros Hm. revert n. induction p as [a|X o c IH]; simpl; intros n Hp Hk.
  - eapply within_mono; [|apply Hk]. lia.
  - destruct Hp as [Hn Hc]. split; [lia|]. intros x.
    eapply within_mono; [|apply IH; [apply Hc|done]]. lia.
Qed.

Lemma within_then {A B} n m (p : phase A) (k : A -> phase B) :
  0 <= m -> within n p -> (forall a, within m (k a)) -> within (n + m) (then_ p k).
Proof. intros Hm Hp Hk. apply within_bind; [done|done|]. by intros [a|r]. Qed.

(** The bound on traces, and what is left to the program they reach. *)
Lemma within_reaches {A} n (p q : prog A) t :
  within n p -> reaches p t q -> within (n + total_read t - Z.of_nat (length t)) q.
Proof.
  intros Hp Hr. revert n Hp. induction Hr as [p|X o k x t q Hr IH]; intros n Hp.
  - unfold total_read. simpl. by rewrite Z.add_0_r, Z.sub_0_r.
  - destruct Hp as [Hn Hk]. apply IH in Hk. eapply within_mono; [|exact Hk].
    cbn [length]. unfold total_read. cbn [map foldr]. lia.
Qed.

(** ** The phases *)

Ltac spend :=
  unfold log_request, perform, audit_event, reject, reject_uncounted, respond, continue in *;
  repeat first
    [ done
    | lia
    | match goal with
      | |- _ /\ _ => split
      | |- forall _, _ => intros ?
      | |- context [match ?x with _ => _ end] => destruct x
      | |- within _ (bind _ _) => apply within_bind
      end
    | progress simpl ].

Lemma perform_step_within s : within 1 (perform_step s).
Proof. destruct s; spend. Qed.

Lemma evaluate_rules_within rules ctx :
  within (Z.of_nat (length rules)) (evaluate_rules rules ctx).
Proof.
  induction rules as [|rule rules IH]; [done|]. cbn [evaluate_rules length].
  replace (Z.of_nat (S (length rules))) with (1 + Z.of_nat (length rules)) by lia.
  apply within_bind; [lia|apply perform_step_within|]. intros [d|]; simpl; [lia|done].
Qed.

Lemma log_request_within info s : within 2 (log_request info s).
Proof. spend. Qed.

Lemma authenticate_within env_secret config headers ip cert :
  within 4 (authenticate env_secret config headers ip cert).
Proof. unfold authenticate, auth_failure. spend. Qed.

Lemma authenticate_request_within state config info req cert :
  within 9 (authenticate_request state config info req cert).
Proof.
  apply (within_bind 4 5); [lia|apply authenticate_within|]. intros [role identity|s m]; spend.
Qed.

Lemma record_dry_run_within state info role identity d :
  within 4 (record_dry_run state info role identity d).
Proof. unfold record_dry_run. spend. Qed.

Lemma enforce_within u state info role identity d :
  within 7 (enforce u state info role identity d).
Proof. unfold enforce. spend. Qed.

Lemma connect_within state info : within 4 (connect state info).
Proof. unfold connect. spend. Qed.

Lemma handshake_within info : within 4 (handshake info).
Proof. unfold handshake. spend. Qed.

Lemma send_request_within info aborts r : within 5 (send_request info aborts r).
Proof. unfold send_request. spend. Qed.

Lemma read_response_within info : within 4 (read_response info).
Proof. unfold read_response. spend. Qed.

Lemma exchange_within state info req uri body filters :
  within 23 (exchange state info req uri body filters).
Proof.
  unfold exchange. apply (within_bind 1 22); [lia|spend|]. intros start.
  apply (within_then 4 18); [lia|apply connect_within|]. intros _.
  apply (within_then 4 14); [lia|apply handshake_within|]. intros _.
  destruct (upstream_request _ _ _ _) as [r|]; [|spend].
  apply (within_then 5 9); [lia|apply send_request_within|]. intros res. cbv zeta.
  apply (within_then 4 5); [lia|apply read_response_within|]. intros bytes. spend.
Qed.

Lemma handle_upgrade_within state info req uri v :
  within 16 (handle_upgrade state info req uri v).
Proof.
  unfold handle_upgrade. apply (within_then 4 12); [lia|apply connect_within|]. intros _.
  apply (within_then 4 8); [lia|apply handshake_within|]. intros _.
  destruct (upgrade_upstream_request _ _ _ _) as [r|]; [|spend].
  apply (within_then 5 3); [lia|apply send_request_within|]. intros res.
  unfold upgrade_accepted, upgrade_refused. spend.
Qed.

Lemma decision_within u state info role identity rules ctx (k : unit -> phase HttpResponse) n :
  0 <= n -> (forall x, within n (k x)) ->
  within (Z.of_nat (length rules) + (4 + (7 + n)))
    (do d <- evaluate_rules rules ctx;
     record_dry_run state info role identity d ;;
     then_ (enforce u state info role identity d) k).
Proof.
  intros Hn Hk. apply within_bind; [lia|apply evaluate_rules_within|]. intros d.
  apply within_bind; [lia|apply record_dry_run_within|]. intros _.
  by apply within_then; [|apply enforce_within|].
Qed.

(** The operations of one request, besides one per rule. *)
Definition HANDLER_BOUND : Z := 59.

Lemma handle_within state req peer cert : within HANDLER_BOUND (handle state req peer cert).
Proof.
  unfold handle, finish. apply (within_bind 59 0); [done| |by intros [r|r]].
  apply (within_bind 1 58); [lia|spend|]. intros _. cbv zeta.
  apply (within_then 3 55); [lia|unfold check_path; spend|]. intros path.
  apply (within_then 3 52); [lia|unfold check_query; spend|]. intros _.
  split; [lia|]. intros config. cbn [bind perform rules_read].
  set (n := Z.of_nat (length (rules_of config))). assert (0 <= n) by (unfold n; lia).
  eapply within_mono with (n := 9 + (1 + (n + (4 + (7 + 30))))); [lia|].
  apply within_then; [lia|apply authenticate_request_within|]. intros who.
  apply within_then; [lia|unfold serve_metrics; spend|]. intros _.
  destruct (is_upgrade_request _).
  - unfold upgrade_branch. eapply within_mono with (n := 1 + (n + (4 + (7 + 17)))); [lia|].
    apply within_bind; [lia|spend|]. intros _. apply decision_within; [lia|]. intros _.
    apply (within_bind 1 16); [lia|spend|]. intros _. apply handle_upgrade_within.
  - unfold plain_branch. eapply within_mono with (n := 4 + (3 + (n + (4 + (7 + 23))))); [lia|].
    apply within_then; [lia|unfold read_request_body; spend|]. intros body.
    apply within_then; [lia|unfold parse_body; spend|]. intros json. cbv zeta.
    apply decision_within; [lia|]. intros _. apply exchange_within.
Qed.

Lemma await_upgrade_within side : within 4 (await_upgrade side).
Proof.
  unfold await_upgrade. split; [lia|]. intros x. cbn [bind perform].
  apply (within_mono 2); [pose proof (rules_read_nonneg (Event side x)); lia|].
  destruct x as [[]|]; spend.
Qed.

Lemma upgrade_task_within : within 10 upgrade_task.
Proof.
  unfold upgrade_task. apply (within_bind 4 6); [lia|apply await_upgrade_within|].
  intros []; [|simpl; lia]. apply (within_bind 4 2); [lia|apply await_upgrade_within|].
  intros []; spend.
Qed.

(** An upgraded connection reads no configuration. *)
Definition no_config (X : Type) (o : op X) : Prop :=
  match o with
  | CurrentConfig => False
  | _ => True
  end.

Lemma upgrade_task_no_config : only no_config upgrade_task.
Proof.
  assert (Ha : forall side, no_config _ side -> only no_config (await_upgrade side)).
  { intros side Hs. split; [done|]. intros r. cbn [bind perform]. by destruct r as [[]|]. }
  unfold upgrade_task. apply only_bind; [by apply Ha|]. intros []; [|done].
  apply only_bind; [by apply Ha|]. by intros [].
Qed.

(** ** Which panics it risks *)

(** The only panics of an operation are an [Instant] past the end of the clock: a penalty or a
    lockout that does not fit. *)
Definition rule_penalties (config : ProxyConfig) : list Z :=
  omap (fun r => option_map penalty (rule_rate_limit r)) (rules_of config).

(** What is left to do under a configuration: its penalties, the lockout, and no other
    configuration. *)
Definition careful (config : ProxyConfig) (X : Type) (o : op X) : Prop :=
  match o with
  | RateCheck _ _ _ q => q ∈ rule_penalties config
  | AuthRecordFailure _ _ _ lockout => lockout = AUTH_FAIL_LOCKOUT
  | CurrentConfig => False
  | _ => True
  end.

(** What comes before. *)
Definition early (X : Type) (o : op X) : Prop :=
  match o with
  | RateCheck _ _ _ _ | AuthRecordFailure _ _ _ _ | CurrentConfig => False
  | _ => True
  end.

(** The configuration is read at most once, and what follows is careful with it. *)
Fixpoint reads_once {A} (p : prog A) : Prop :=
  match p with
  | Ret _ => True
  | Do o k =>
      match o in op X return (X -> prog A) -> (X -> Prop) -> Prop with
      | CurrentConfig => fun k _ => forall config, only (careful config) (k config)
      | o => fun _ rest => early _ o /\ forall x, rest x
      end k (fun x => reads_once (k x))
  end.

Lemma reads_once_bind {A B} (p : prog A) (k : A -> prog B) :
  only early p -> (forall a, reads_once (k a)) -> reads_once (bind p k).
Proof.
  intros Hp Hk. induction p as [a|X o c IH]; simpl in *; [done|]. destruct Hp as [Ho Hc].
  destruct o; try done; split; try done; intros x; by apply IH.
Qed.

Lemma only_reaches {A} P (p q : prog A) t :
  only P p -> reaches p t q -> Forall (allowed P) t /\ only P q.
Proof.
  intros Hp Hr. induction Hr as [p|X o k x t q Hr IH]; [done|]. destruct Hp as [Ho Hk].
  destruct (IH (Hk x)) as [Ht Hq]. by split; [constructor|].
Qed.

Definition config_read {A} (t : list event) (q : prog A) : Prop :=
  exists t1 config t2, t = t1 ++ Event CurrentConfig config :: t2
    /\ Forall (allowed early) t1 /\ Forall (allowed (careful config)) t2
    /\ only (careful config) q.

Lemma reads_once_trace {A} (p q : prog A) t :
  reads_once p -> reaches p t q -> (Forall (allowed early) t /\ reads_once q) \/ config_read t q.
Proof.
  intros Hp Hr. induction Hr as [p|X o k x t q Hr IH]; [by left|].
  assert (Hearly : early _ o -> reads_once (k x) ->
    (Forall (allowed early) (Event o x :: t) /\ reads_once q) \/ config_read (Event o x :: t) q).
  { intros Ho Hk. destruct (IH Hk) as [[Ht Hq]|(t1 & config & t2 & -> & Ht1 & Ht2 & Hq)].
    - left. by split; [constructor|].
    - right. exists (Event o x :: t1), config, t2. split_and!; [done|by constructor|done|done]. }
  destruct o; simpl in Hp; try (destruct Hp as [? Hk]; by apply Hearly).
  right. destruct (only_reaches _ _ _ _ (Hp x) Hr) as [Ht Hq]. exists [], x, t. by split_and!.
Qed.

Lemma silent_read (P : forall X, op X -> Prop) t :
  ~ P _ CurrentConfig -> Forall (allowed P) t -> total_read t = 0.
Proof.
  intros HP. induction 1 as [|[X o x] t He _ IH]; [done|]. unfold total_read in *. cbn [map foldr].
  rewrite IH. by destruct o.
Qed.

(** So the rules a trace has read are those of one configuration. *)
Lemma reads_once_total {A} (p q : prog A) t n :
  reads_once p -> reaches p t q -> 0 <= n -> (forall e, e ∈ t -> rules_read e <= n) ->
  total_read t <= n.
Proof.
  intros Hp Hr Hn Ht. destruct (reads_once_trace p q t Hp Hr)
    as [[He _]|(t1 & config & t2 & -> & Ht1 & Ht2 & _)].
  - rewrite (silent_read early t (fun f => f) He). lia.
  - rewrite total_read_app, (silent_read early t1 (fun f => f) Ht1). unfold total_read.
    cbn [map foldr]. fold (total_read t2).
    rewrite (silent_read (careful config) t2 (fun f => f) Ht2).
    specialize (Ht (Event CurrentConfig config) ltac:(set_solver)). lia.
Qed.

Ltac careful_steps :=
  repeat first
    [ done
    | match goal with
      | |- _ /\ _ => split
      | |- forall _, _ => intros ?
      | |- only _ (bind _ _) => apply only_bind
      | |- only _ (match ?x with _ => _ end) => destruct x
      | |- only _ (if ?x then _ else _) => destruct x
      end
    | progress simpl ].

Lemma step_rule_penalty rule ctx key c d :
  step_rule rule ctx = Limit key c d -> rule_rate_limit rule = Some c.
Proof. unfold step_rule. repeat case_match; try done. by intros [= <- <- <-]. Qed.

Lemma evaluate_rules_careful config rules ctx :
  (forall r, r ∈ rules -> r ∈ rules_of config) ->
  only (careful config) (evaluate_rules rules ctx).
Proof.
  induction rules as [|rule rules IH]; intros Hr; [done|]. cbn [evaluate_rules]. apply only_bind.
  - destruct (step_rule rule ctx) as [v|k c d] eqn:Es; [done|]. split; [|done]. simpl.
    unfold rule_penalties. apply list_elem_of_omap. exists rule. split; [set_solver|].
    by rewrite (step_rule_penalty _ _ _ _ _ Es).
  - intros [d|]; [done|]. apply IH. set_solver.
Qed.

Lemma authenticate_request_careful state config info req cert :
  only (careful config) (authenticate_request state config info req cert).
Proof.
  unfold authenticate_request, authenticate, auth_failure, audit_event, log_request. careful_steps.
Qed.

Lemma record_dry_run_careful config state info role identity d :
  only (careful config) (record_dry_run state info role identity d).
Proof. unfold record_dry_run, audit_event. careful_steps. Qed.

Lemma enforce_careful config u state info role identity d :
  only (careful config) (enforce u state info role identity d).
Proof. unfold enforce, audit_event, log_request. careful_steps. Qed.

Lemma exchange_careful config state info req uri body filters :
  only (careful config) (exchange state info req uri body filters).
Proof.
  unfold exchange, connect, handshake, send_request, read_response, then_. careful_steps.
Qed.

Lemma handle_upgrade_careful config state info req uri v :
  only (careful config) (handle_upgrade state info req uri v).
Proof.
  unfold handle_upgrade, connect, handshake, send_request, upgrade_accepted, upgrade_refused, then_.
  careful_steps.
Qed.

Lemma only_then {A B} P (p : phase A) (k : A -> phase B) :
  only P p -> (forall a, only P (k a)) -> only P (then_ p k).
Proof. intros Hp Hk. apply only_bind; [done|]. by intros [a|r]. Qed.

Lemma upgrade_branch_careful state config info req uri role identity :
  only (careful config) (upgrade_branch state config info req uri role identity).
Proof.
  unfold upgrade_branch. split; [done|]. intros []. cbn [bind perform].
  apply only_bind; [by apply evaluate_rules_careful|]. intros d.
  apply only_bind; [apply record_dry_run_careful|]. intros _.
  apply only_then; [apply enforce_careful|]. intros _. split; [done|]. intros [].
  cbn [bind perform]. apply handle_upgrade_careful.
Qed.

Lemma plain_branch_careful state config info req uri role identity :
  only (careful config) (plain_branch state config info req uri role identity).
Proof.
  unfold plain_branch. apply only_then; [unfold read_request_body; careful_steps|]. intros body.
  apply only_then; [unfold parse_body; careful_steps|]. intros json. cbv zeta.
  apply only_bind; [by apply evaluate_rules_careful|]. intros d.
  apply only_bind; [apply record_dry_run_careful|]. intros _.
  apply only_then; [apply enforce_careful|]. intros _. apply exchange_careful.
Qed.

Lemma reads_once_then {A B} (p : phase A) (k : A -> phase B) :
  only early p -> (forall a, reads_once (k a)) -> reads_once (then_ p k).
Proof. intros Hp Hk. apply reads_once_bind; [done|]. by intros [a|r]. Qed.

Lemma reads_once_finish (p : phase HttpResponse) : reads_once p -> reads_once (finish p).
Proof.
  unfold finish. induction p as [[r|r]|X o k IH]; intros Hp; [done|done|]. cbn [bind].
  destruct o; simpl in *; try (split; [tauto|]; intros x; apply IH, Hp).
  intros config. apply only_bind; [done|]. by intros [r|r].
Qed.

Lemma handle_reads_once state req peer cert : reads_once (handle state req peer cert).
Proof.
  unfold handle. apply reads_once_finish. split; [done|]. intros []. cbn [bind perform]. cbv zeta.
  apply reads_once_then; [unfold check_path; careful_steps|]. intros path.
  apply reads_once_then; [unfold check_query; careful_steps|]. intros _.
  intros config. cbn [bind perform].
  apply only_then; [apply authenticate_request_careful|]. intros who.
  apply only_then; [unfold serve_metrics; careful_steps|]. intros _.
  destruct (is_upgrade_request _); [apply upgrade_branch_careful|apply plain_branch_careful].
Qed.

End Termination.
