(* ===== verification/Relay.v ===== *)
(** * Upgraded connections ([handle_upgrade] of [src/main.rs])

    Once both sides of an upgrade are resolved, two copy loops run side by side: [c2d] from the
    client to the Docker socket and [d2c] back.  Each reads at most a buffer, under the idle
    timeout, and writes it whole before it reads again; [tokio::join!] waits for both.  A
    [copier] is one loop with the bytes that went through it, a [relay] the pair; [step] does one
    read, one write of [write_all], or one shutdown in one of them. *)

From S2P Require Import Prelude.

Open Scope Z_scope.

Definition UPGRADE_COPY_BUF_BYTES : Z := 32 * 1024.

(** ** One direction *)

(** Where the loop stands: before a read, inside [write_all] with the bytes it still has to
    write, shutting the writer down, or over; a write that failed leaves its bytes behind. *)
Inductive position : Type :=
  | Reading
  | Writing (rest : list Z)
  | Shutting (lost : list Z)
  | Finished (lost : list Z).

(** [received] and [delivered] are the bytes read from one side and written to the other. *)
Record copier : Type := {
  at_ : position;
  received : list Z;
  delivered : list Z
}.

Definition copier_new : copier := {| at_ := Reading; received := []; delivered := [] |}.

Inductive io : Type :=
  | ReadBytes (chunk : list Z)      (* [Ok(n)]; [[]] is the end of the stream *)
  | ReadFailed                      (* an error *)
  | IdleTimeout                     (* no read within [UPGRADE_IDLE_TIMEOUT] *)
  | Wrote (n : nat)                 (* a write inside [write_all]; none written is an error *)
  | WriteFailed
  | ShutDown.

Definition move (c : copier) (p : position) : copier :=
  {| at_ := p; received := received c; delivered := delivered c |}.

(** What cannot happen where the loop stands, or passes its buffer, changes nothing. *)
Definition copy_step (c : copier) (e : io) : copier :=
  match at_ c, e with
  | Reading, ReadBytes [] => move c (Shutting [])
  | Reading, ReadBytes chunk =>
      if Z.of_nat (length chunk) <=? UPGRADE_COPY_BUF_BYTES then
        {| at_ := Writing chunk; received := received c ++ chunk; delivered := delivered c |}
      else c
  | Reading, ReadFailed => move c (Shutting [])
  | Reading, IdleTimeout => move c (Shutting [])
  | Writing rest, Wrote O => move c (Shutting rest)
  | Writing rest, Wrote n =>
      if (n <=? length rest)%nat then
        {| at_ := match drop n rest with
                  | [] => Reading
                  | rest' => Writing rest'
                  end;
           received := received c; delivered := delivered c ++ take n rest |}
      else c
  | Writing rest, WriteFailed => move c (Shutting rest)
  | Shutting lost, ShutDown => move c (Finished lost)
  | _, _ => c
  end.

(** ** Both directions *)

Inductive direction : Type :=
  | ClientToDocker
  | DockerToClient.

#[global] Instance direction_eq_dec : EqDecision direction.
Proof. solve_decision. Defined.

Record relay : Type := {
  c2d : copier;
  d2c : copier
}.

Definition relay_new : relay := {| c2d := copier_new; d2c := copier_new |}.

Definition half (r : relay) (d : direction) : copier :=
  match d with
  | ClientToDocker => c2d r
  | DockerToClient => d2c r
  end.

Definition step (r : relay) (ev : direction * io) : relay :=
  match ev.1 with
  | ClientToDocker => {| c2d := copy_step (c2d r) ev.2; d2c := d2c r |}
  | DockerToClient => {| c2d := c2d r; d2c := copy_step (d2c r) ev.2 |}
  end.

Definition run (r : relay) (evs : list (direction * io)) : relay := fold_left step evs r.

Definition is_finished (c : copier) : bool :=
  match at_ c with
  | Finished _ => true
  | _ => false
  end.

(** [tokio::join!] returns, and the connection to the Docker socket is dropped. *)
Definition joined (r : relay) : bool := is_finished (c2d r) && is_finished (d2c r).

(** ** What holds of a copier *)

(** The bytes read and not written: still to be written, or lost to a failed write. *)
Definition in_flight (c : copier) : list Z :=
  match at_ c with
  | Reading => []
  | Writing rest | Shutting rest | Finished rest => rest
  end.

Record copier_inv (c : copier) : Prop := {
  inv_conserved : received c = delivered c ++ in_flight c;
  inv_buffer : Z.of_nat (length (in_flight c)) <= UPGRADE_COPY_BUF_BYTES
}.

Lemma copier_new_inv : copier_inv copier_new.
Proof. by constructor. Qed.

Lemma copy_step_inv c e : copier_inv c -> copier_inv (copy_step c e).
Proof.
  intros [Hc Hb]. destruct c as [p rcv dlv]. unfold in_flight in *. simpl in *. subst rcv.
  destruct p as [|rest|lost|lost], e as [[|b chunk]| | |[|n]| |]; simpl in *; try by constructor.
  - unfold copy_step, move. cbn [at_].
    destruct (Z.leb_spec (Z.of_nat (length (b :: chunk))) UPGRADE_COPY_BUF_BYTES); [|by constructor].
    constructor; unfold in_flight; cbn [at_ received delivered]; [by rewrite app_nil_r|done].
  - unfold copy_step, move. cbn [at_ received delivered].
    destruct (Nat.leb_spec (S n) (length rest)); [|by constructor].
    assert (Hlen : (length (drop (S n) rest) <= length rest)%nat) by (rewrite length_drop; lia).
    pose proof (take_drop (S n) rest) as Hsplit.
    constructor; unfold in_flight; cbn [at_ received delivered].
    + rewrite <- Hsplit at 1. destruct (drop (S n) rest); by rewrite <- app_assoc, ?app_nil_r.
    + destruct (drop (S n) rest); [unfold UPGRADE_COPY_BUF_BYTES; simpl|]; lia.
Qed.

(** Bytes are lost only by a write that fails or writes nothing. *)
Definition write_error (e : io) : bool :=
  match e with
  | WriteFailed | Wrote O => true
  | _ => false
  end.

Definition lost (c : copier) : list Z :=
  match at_ c with
  | Shutting l | Finished l => l
  | _ => []
  end.

Lemma copy_step_lost c e : write_error e = false -> lost c = [] -> lost (copy_step c e) = [].
Proof.
  destruct c as [[|rest|l|l] rcv dlv], e as [[|b chunk]| | |[|n]| |]; simpl; try done; intros _ Hl.
  - unfold copy_step. cbn [at_]. by destruct (_ <=? _).
  - unfold copy_step. cbn [at_]. destruct (_ <=? _)%nat; [|done]. unfold lost. cbn [at_].
    by destruct (drop _ _).
Qed.

Definition copy_run (c : copier) (es : list io) : copier := fold_left copy_step es c.

Lemma copy_run_inv es c : copier_inv c -> copier_inv (copy_run c es).
Proof. revert c. induction es as [|e es IH]; intros c Hc; [done|]. by apply IH, copy_step_inv. Qed.

Lemma copy_run_lost es c :
  forallb (fun e => negb (write_error e)) es = true -> lost c = [] -> lost (copy_run c es) = [].
Proof.
  revert c. induction es as [|e es IH]; intros c; simpl; [done|].
  intros [He%negb_true_iff Hes]%andb_true_iff Hc. by apply IH, copy_step_lost.
Qed.

(** A loop that has read its last byte never reads again. *)
Lemma copy_run_finished es c : is_finished c = true -> copy_run c es = c.
Proof.
  destruct c as [[|rest|l|l] rcv dlv]; try done. intros _. induction es as [|e es IH]; [done|].
  simpl. by destruct e as [[|b chunk]| | |[|n]| |].
Qed.

(** ** The directions are independent *)

Definition events_of (d : direction) (evs : list (direction * io)) : list io :=
  omap (fun ev => if decide (ev.1 = d) then Some ev.2 else None) evs.

Lemma run_half evs r d : half (run r evs) d = copy_run (half r d) (events_of d evs).
Proof.
  revert r. induction evs as [|[d' e] evs IH]; intros r; [done|].
  change (run r ((d', e) :: evs)) with (run (step r (d', e)) evs). rewrite IH.
  unfold events_of. simpl. by destruct d', d.
Qed.
