(* ===== verification/Server.v ===== *)
(** * Start-up, the listener loop and reload ([main] and its helpers in [src/main.rs])

    The command line, the choice of configuration file, socket, address and TLS; the state
    [main] builds; the accept loop with its connection limit; and the reload on SIGHUP. *)

From S2P Require Import Prelude RustStr F64 Net External Json Config Metrics Tls Path Auth.
From S2P Require Import Handle.

Open Scope Z_scope.

Section Server.
Context `{NumberApi} `{RegexApi} `{RustlsApi}.

(** ** The command line *)

Inductive cli : Type :=
  | CliRun (check_config : bool) (explicit_config : option string)
  | CliHelp
  | CliExit (code : Z) (message : string).

(** The loop over [args[1..]]: the first [--help] or error ends it. *)
Fixpoint parse_args (args : list string) (check_config : bool) (explicit_config : option string)
    : cli :=
  match args with
  | [] => CliRun check_config explicit_config
  | arg :: rest =>
      if String.eqb arg "--check-config" then parse_args rest true explicit_config
      else if String.eqb arg "--config" then
        match rest with
        | [] => CliExit 2 "--config requires a path argument"
        | path :: rest' => parse_args rest' check_config (Some path)
        end
      else if String.eqb arg "--help" || String.eqb arg "-h" then CliHelp
      else CliExit 2 ("unknown argument: " +:+ arg)
  end.

(** [env::set_var]. *)
Definition set_var (env : Env) (name v : string) : Env :=
  {| env_var := fun n => if String.eqb n name then Some v else env_var env n;
     path_exists := path_exists env; read_to_string := read_to_string env;
     yaml_from_str := yaml_from_str env |}.

Definition with_explicit (env : Env) (explicit_config : option string) : Env :=
  match explicit_config with
  | Some p => set_var env "DOCKER_PROXY_CONFIG" p
  | None => env
  end.

Definition load_config_from_default_path (env : Env)
    : result (ProxyConfig * option string) string :=
  match default_config_path env with
  | Some p => let? cfg := load_from_path env p in Ok (cfg, Some p)
  | None => let? cfg := load env in Ok (cfg, None)
  end.

(** ** Effective configuration *)

Definition render_global (g : GlobalConfig) : string :=
  "port: " +:+ show (unwrap_or (global_port g) 2376) +:+ nl
  +:+ match global_socket g with
      | Some s => "socket: " +:+ s +:+ nl
      | None => ""
      end
  +:+ match global_log_format g with
      | Some f => "log_format: " +:+ f +:+ nl
      | None => ""
      end
  +:+ match global_tls g with
      | Some t => "tls: cert=" +:+ tls_cert t +:+ ", key=" +:+ tls_key t +:+ ", client_ca="
                  +:+ unwrap_or (tls_client_ca t) "(none)" +:+ nl
      | None => ""
      end
  +:+ match global_metrics g with
      | Some m => "metrics: enabled=" +:+ (if unwrap_or (metrics_enabled m) false then "true" else "false")
                  +:+ ", path=" +:+ unwrap_or (metrics_path m) "/metrics" +:+ nl
      | None => ""
      end.

Definition render_auth (a : AuthConfig) : string :=
  "auth.type: " +:+ unwrap_or (auth_type a) "(unset)" +:+ nl
  +:+ match auth_tokens a with
      | Some toks => "auth.tokens: " +:+ show (Z.of_nat (length toks)) +:+ " configured" +:+ nl
      | None => ""
      end.

Definition render_rule_line (i : nat) (r : Rule) : string :=
  "  " +:+ show (Z.of_nat i + 1) +:+ ". " +:+ rule_name r +:+ " [priority="
  +:+ show (priority_of r) +:+ ", action=" +:+ rule_action r
  +:+ (if unwrap_or (rule_dry_run r) false then ", dry_run" else "") +:+ "]" +:+ nl.

Definition render_effective_rules (config : ProxyConfig) : string :=
  "# Effective configuration" +:+ nl +:+ nl
  +:+ match config_global config with
      | Some g => render_global g
      | None => ""
      end
  +:+ match config_auth config with
      | Some a => render_auth a
      | None => ""
      end
  +:+ nl +:+ "rules (after priority sort):" +:+ nl
  +:+ match config_rules config with
      | Some rules => join "" (imap render_rule_line rules)
      | None => "  (no rules configured)" +:+ nl
      end.

(** ** The Docker socket *)

(** The paths tried on a system other than macOS. *)
Definition socket_candidates : list string := ["/var/run/docker.sock"; "/run/docker.sock"].

Definition resolve_socket_path (env : Env) (config_socket : option string) : option string :=
  or_else
    match config_socket with
    | Some sock => if path_exists env sock then Some sock else None
    | None => None
    end
  (or_else
    match env_var env "DOCKER_SOCKET" with
    | Some path => if path_exists env path then Some path else None
    | None => None
    end
    (List.find (path_exists env) socket_candidates)).

(** ** The listener *)

Record Listener : Type := {
  listen_addr : string;
  listen_tls : option ServerConfig
}.

Definition listen_port (env : Env) (config : ProxyConfig) : Z :=
  unwrap_or
    (or_else
      match config_global config with
      | Some g => global_port g
      | None => None
      end
      match env_var env "DOCKER_PROXY_PORT" with
      | Some p => parse_u16 p
      | None => None
      end) 2376.

Definition bind_host (config : ProxyConfig) : string :=
  match config_global config with
  | Some g => unwrap_or (global_bind g) "127.0.0.1"
  | None => "127.0.0.1"
  end.

Definition tls_of (config : ProxyConfig) : option TlsConfig :=
  match config_global config with
  | Some g => global_tls g
  | None => None
  end.

(** The warning of cleartext tokens. *)
Definition cleartext_warning (config : ProxyConfig) : bool :=
  negb (String.eqb (bind_host config) "127.0.0.1")
  && negb (String.eqb (bind_host config) "localhost") && is_none (tls_of config).

(** [bind] is [TcpListener::bind]. *)
Definition create_listener (env : Env) (bind : string -> result unit string)
    (config : ProxyConfig) : result Listener string :=
  let? acceptor :=
    match tls_of config with
    | Some tls_cfg => let? sc := build_server_config tls_cfg in Ok (Some sc)
    | None => Ok None
    end in
  let addr_str := bind_host config +:+ ":" +:+ show (listen_port env config) in
  let? _ := bind addr_str in
  Ok {| listen_addr := addr_str; listen_tls := acceptor |}.

(** ** Start-up *)

(** What [main] hands to the listener loop. *)
Record startup : Type := {
  start_config : ProxyConfig;
  start_loaded_from : option string;
  start_state : ProxyState;
  start_audit_path : option string
}.

Inductive start : Type :=
  | Exit (code : Z) (message : string)
  | Printed (text : string)
  | Start (s : startup).

Definition metrics_path_of (config : ProxyConfig) : option string :=
  match config_global config with
  | Some g =>
      match global_metrics g with
      | Some m => if unwrap_or (metrics_enabled m) false
                  then Some (unwrap_or (metrics_path m) "/metrics") else None
      | None => None
      end
  | None => None
  end.

Definition audit_path_of (config : ProxyConfig) : option string :=
  match config_global config with
  | Some g =>
      match global_audit_log g with
      | Some p => if is_empty p then None else Some p
      | None => None
      end
  | None => None
  end.

Definition config_socket (config : ProxyConfig) : option string :=
  match config_global config with
  | Some g => global_socket g
  | None => None
  end.

Definition help_text : string :=
  "docker-proxy [--config <path>] [--check-config]" +:+ nl +:+
  "  --config        path to YAML config (default: $DOCKER_PROXY_CONFIG or ./config.yaml)" +:+ nl
  +:+ "  --check-config  parse and print effective rule set, then exit".

(** The filter directives and the global subscriber of the tracing library. *)
Class TracingApi : Type := {
  Directive : Type;
  parse_directive : string -> result Directive string;
  directives_from_env : Env -> list Directive
}.

Section Main.
Context `{TracingApi}.

Record Subscriber : Type := {
  filter_directives : list Directive;
  json_format : bool
}.

Definition init_tracing (env : Env) (log_format : string) (log_level : option string)
    : result Subscriber string :=
  let? base := parse_directive "docker_proxy=info" in
  let filter := directives_from_env env ++ [base] in
  let? filter :=
    match log_level with
    | Some level =>
        let? d := parse_directive ("docker_proxy=" +:+ level) in Ok (filter ++ [d])
    | None => Ok filter
    end in
  Ok {| filter_directives := filter; json_format := eq_ignore_ascii_case log_format "json" |}.

Definition log_format_of (config : ProxyConfig) : string :=
  unwrap_or
    match config_global config with
    | Some g => global_log_format g
    | None => None
    end "text".

Definition main_start (env : Env) (args : list string) : start :=
  match parse_args args false None with
  | CliExit code message => Exit code message
  | CliHelp => Printed help_text
  | CliRun check_config explicit_config =>
      let env := with_explicit env explicit_config in
      match load_config_from_default_path env with
      | Err e => Exit 2 ("config load failed: " +:+ e)
      | Ok (config, loaded_from) =>
          if check_config then Printed (render_effective_rules config)
          else
            let log_level := match config_global config with
                             | Some g => global_log_level g
                             | None => None
                             end in
            match init_tracing env (log_format_of config) log_level with
            | Err e => Exit 1 e
            | Ok _ =>
                match resolve_socket_path env (config_socket config) with
                | None => Exit 1 "cannot start — set DOCKER_SOCKET or ensure docker is running"
                | Some socket =>
                    let audit_path := audit_path_of config in
                    Start {| start_config := config;
                             start_loaded_from := loaded_from;
                             start_state :=
                               {| socket_path := socket;
                                  env_secret := unwrap_or (env_var env "DOCKER_PROXY_SECRET") "";
                                  audit_enabled := is_some audit_path;
                                  metrics_endpoint := metrics_path_of config |};
                             start_audit_path := audit_path |}
                end
            end
      end
  end.

End Main.

End Server.

(** ** The accept loop *)

Section Loop.
Context `{NumberApi} `{RegexApi}.

Definition MAX_CONCURRENT_CONNS : nat := 1024.

(** Where the loop stands: at its top, in [create_listener] on the configuration it has read, or
    accepting connections on the listener of that configuration. *)
Inductive loop_at : Type :=
  | Top
  | Binding (cfg : ProxyConfig)
  | Listening (cfg : ProxyConfig).

(** [conns]: the connections being served, each with the number of the listener that accepted
    it; a rebind starts a new listener with a semaphore of its own.  [swapped]: the reload task
    has swapped a configuration in and is about to notify the loop.  [notified]: the permit that
    [Notify] keeps until it is taken. *)
Record server : Type := {
  current : ProxyConfig;
  at_loop : loop_at;
  first_bind : bool;
  generation : nat;
  conns : list (nat * nat);
  next_conn : nat;
  swapped : bool;
  notified : bool
}.

Definition bound (s : server) : bool :=
  match at_loop s with
  | Listening _ => true
  | _ => false
  end.

Inductive action : Type :=
  | Enter                                        (* [current_config] at the top of the loop *)
  | Bind (ok : bool)                             (* the outcome of [create_listener] *)
  | Accept                                       (* a connection is accepted *)
  | Close (conn : nat)                           (* a served connection ends *)
  | Sighup (loaded : result ProxyConfig string)  (* the reload task reads the file and swaps *)
  | Notify                                       (* the reload task notifies the loop *)
  | Wake.                                        (* the loop takes the notification *)

Definition permits_used (s : server) : nat :=
  length (filter (fun c => c.1 = generation s) (conns s)).

Inductive step_result : Type :=
  | Running (s : server)
  | Stopped.

Definition go (s : server) (l : loop_at) : server :=
  {| current := current s; at_loop := l; first_bind := first_bind s; generation := generation s;
     conns := conns s; next_conn := next_conn s; swapped := swapped s; notified := notified s |}.

Definition set_conns (s : server) (cs : list (nat * nat)) (next : nat) : server :=
  {| current := current s; at_loop := at_loop s; first_bind := first_bind s;
     generation := generation s; conns := cs; next_conn := next; swapped := swapped s;
     notified := notified s |}.

(** [swap_config], then [notify_one]. *)
Definition swap (s : server) (cfg : ProxyConfig) : server :=
  {| current := cfg; at_loop := at_loop s; first_bind := first_bind s;
     generation := generation s; conns := conns s; next_conn := next_conn s; swapped := true;
     notified := notified s |}.

Definition notify_one (s : server) : server :=
  {| current := current s; at_loop := at_loop s; first_bind := first_bind s;
     generation := generation s; conns := conns s; next_conn := next_conn s; swapped := false;
     notified := true |}.

(** A step that is not enabled where the loop or the reload task stands changes nothing. *)
Definition server_step (s : server) (a : action) : step_result :=
  match a with
  | Enter =>
      match at_loop s with
      | Top => Running (go s (Binding (current s)))
      | _ => Running s
      end
  | Bind ok =>
      match at_loop s with
      | Binding cfg =>
          if ok then
            Running {| current := current s; at_loop := Listening cfg;
                       first_bind := first_bind s; generation := S (generation s);
                       conns := conns s; next_conn := next_conn s; swapped := swapped s;
                       notified := notified s |}
          else if first_bind s then Stopped else Running (go s Top)
      | _ => Running s
      end
  | Accept =>
      if bound s && (permits_used s <? MAX_CONCURRENT_CONNS)%nat then
        Running (set_conns s ((generation s, next_conn s) :: conns s) (S (next_conn s)))
      else Running s
  | Close conn =>
      Running (set_conns s (filter (fun c => c.2 <> conn) (conns s)) (next_conn s))
  | Sighup loaded =>
      match swapped s, loaded with
      | false, Ok cfg => Running (swap s cfg)
      | _, _ => Running s
      end
  | Notify => Running (if swapped s then notify_one s else s)
  | Wake =>
      if bound s && notified s then
        Running {| current := current s; at_loop := Top; first_bind := false;
                   generation := generation s; conns := conns s; next_conn := next_conn s;
                   swapped := swapped s; notified := false |}
      else Running s
  end.

Fixpoint server_run (s : server) (acts : list action) : step_result :=
  match acts with
  | [] => Running s
  | a :: acts' =>
      match server_step s a with
      | Running s' => server_run s' acts'
      | Stopped => Stopped
      end
  end.

Definition server_init (config : ProxyConfig) : server :=
  {| current := config; at_loop := Top; first_bind := true; generation := 0; conns := [];
     next_conn := 0; swapped := false; notified := false |}.

(** The connections of one listener. *)
Definition conns_of (g : nat) (s : server) : nat := length (filter (fun c => c.1 = g) (conns s)).

Record server_inv (s : server) : Prop := {
  inv_generation : forall c, c ∈ conns s -> (c.1 <= generation s)%nat;
  inv_limit : forall g, (conns_of g s <= MAX_CONCURRENT_CONNS)%nat
}.

Lemma server_init_inv config : server_inv (server_init config).
Proof. constructor; unfold conns_of; simpl; [set_solver|lia]. Qed.

Lemma filter_filter_length (P Q : nat * nat -> Prop) `{!forall c, Decision (P c)}
    `{!forall c, Decision (Q c)} (l : list (nat * nat)) :
  (length (filter P (filter Q l)) <= length (filter P l))%nat.
Proof.
  induction l as [|c l IH]; [done|]. rewrite !filter_cons.
  destruct (decide (Q c)); [rewrite filter_cons|]; destruct (decide (P c)); simpl; lia.
Qed.

Lemma server_step_inv s a s' : server_inv s -> server_step s a = Running s' -> server_inv s'.
Proof.
  intros [Hg Hl]. unfold conns_of in Hl.
  destruct a as [|ok| |conn|loaded| |]; cbn [server_step].
  - by destruct (at_loop s); intros [= <-].
  - destruct (at_loop s); [by intros [= <-]| |by intros [= <-]].
    destruct ok; [|by destruct (first_bind s); intros [= <-]].
    intros [= <-]. constructor; simpl; [intros c Hc; specialize (Hg c Hc); lia|exact Hl].
  - destruct (bound s && _) eqn:E; [|by intros [= <-]]. intros [= <-].
    apply andb_true_iff in E as [_ E]. apply Nat.ltb_lt in E.
    constructor; simpl; [intros c [->|Hc]%elem_of_cons; [done|by apply Hg]|].
    intros g. unfold conns_of. simpl. rewrite filter_cons. destruct (decide _) as [<-|]; [|apply Hl].
    simpl. unfold permits_used in E. simpl in *. lia.
  - intros [= <-]. constructor; simpl.
    + intros c [_ Hc]%list_elem_of_filter. by apply Hg.
    + intros g. unfold conns_of. simpl. etrans; [|apply (Hl g)].
      apply filter_filter_length.
  - by destruct (swapped s), loaded; intros [= <-].
  - by destruct (swapped s); intros [= <-].
  - by destruct (bound s && notified s); intros [= <-].
Qed.

Lemma server_run_inv acts s s' : server_inv s -> server_run s acts = Running s' -> server_inv s'.
Proof.
  revert s. induction acts as [|a acts IH]; intros s Hs; simpl; [by intros [= <-]|].
  destruct (server_step s a) as [s1|] eqn:E; [|done]. apply IH. by eapply server_step_inv.
Qed.

(** Every case of a step. *)
Ltac server_cases a s :=
  destruct a as [|[]| | |[]| |]; cbn [server_step]; unfold bound;
  destruct (at_loop s) eqn:?, (swapped s) eqn:?, (notified s) eqn:?; cbn [andb];
  try (destruct (_ <? _)%nat).

(** Nothing but a failed first bind stops the proxy. *)
Lemma server_step_first s a s' :
  first_bind s = false -> server_step s a = Running s' -> first_bind s' = false.
Proof. intros Hf. server_cases a s; rewrite ?Hf; by intros [= <-]. Qed.

Lemma server_step_runs s a : first_bind s = false -> server_step s a <> Stopped.
Proof. intros Hf. server_cases a s; by rewrite ?Hf. Qed.

Lemma server_never_stops acts s : first_bind s = false -> server_run s acts <> Stopped.
Proof.
  revert s. induction acts as [|a acts IH]; intros s Hf; simpl; [done|].
  destruct (server_step s a) as [s1|] eqn:E; [|by destruct (server_step_runs s a Hf)].
  apply IH. by eapply server_step_first.
Qed.

(** The last configuration that was swapped in: the reload task reads the next file when it has
    notified the loop of the last one. *)
Fixpoint last_loaded (config : ProxyConfig) (busy : bool) (acts : list action) : ProxyConfig :=
  match acts with
  | [] => config
  | Sighup (Ok cfg) :: acts' =>
      if busy then last_loaded config busy acts' else last_loaded cfg true acts'
  | Notify :: acts' => last_loaded config false acts'
  | _ :: acts' => last_loaded config busy acts'
  end.

Lemma server_run_current acts s s' :
  server_run s acts = Running s' -> current s' = last_loaded (current s) (swapped s) acts.
Proof.
  revert s. induction acts as [|a acts IH]; intros s; cbn [server_run]; [by intros [= <-]|].
  destruct (server_step s a) as [s1|] eqn:E; [|done]. intros Hr. rewrite (IH _ Hr).
  revert E. server_cases a s; try (destruct (first_bind s)); intros [= <-]; cbn;
    repeat match goal with H : swapped s = _ |- _ => rewrite ?H; clear H end; done.
Qed.

(** The steps that leave the connections and the configuration alone. *)
Definition tacit (a : action) : Prop :=
  match a with
  | Enter | Bind _ | Notify | Wake => True
  | _ => False
  end.

Lemma tacit_step s a s' :
  tacit a -> server_step s a = Running s' ->
  conns s' = conns s /\ next_conn s' = next_conn s /\ current s' = current s.
Proof. server_cases a s; try done; try (destruct (first_bind s)); by intros _ [= <-]. Qed.

Lemma server_next s a s' : server_step s a = Running s' -> (next_conn s <= next_conn s')%nat.
Proof. server_cases a s; try (destruct (first_bind s)); intros [= <-]; cbn; lia. Qed.

Lemma server_current s a s' :
  server_step s a = Running s' -> (forall c, a <> Sighup (Ok c)) -> current s' = current s.
Proof.
  server_cases a s; try (destruct (first_bind s)); intros [= <-] Hn; try done;
    by edestruct Hn.
Qed.

(** *** No reload is lost *)

(** The loop works with the configuration in force, or is going to be told that it does not. *)
Definition follows (s : server) : Prop :=
  match at_loop s with
  | Top => True
  | Binding cfg | Listening cfg => cfg = current s \/ swapped s = true \/ notified s = true
  end.

Lemma server_step_follows s a s' : follows s -> server_step s a = Running s' -> follows s'.
Proof.
  unfold follows. server_cases a s; try (destruct (first_bind s));
    intros Hf [= <-]; cbn; repeat match goal with H : _ s = _ |- _ => rewrite H end;
    naive_solver.
Qed.

Lemma server_run_follows acts s s' :
  follows s -> server_run s acts = Running s' -> follows s'.
Proof.
  revert s. induction acts as [|a acts IH]; intros s Hs; simpl; [by intros [= <-]|].
  destruct (server_step s a) as [s1|] eqn:E; [|done]. apply IH. by eapply server_step_follows.
Qed.

(** The steps by which the reload task and the loop get to the configuration in force from
    wherever they stand; [ok] is whether a listener that was being bound can be. *)
Definition catch_up (ok : bool) : list action :=
  [Notify; Enter; Bind ok; Wake; Enter; Bind true].

Lemma follows_catches_up s ok :
  follows s -> ok = true \/ first_bind s = false ->
  exists s', server_run s (catch_up ok) = Running s' /\ at_loop s' = Listening (current s)
    /\ current s' = current s /\ conns s' = conns s.
Proof.
  destruct s as [cur l fb g cs next [] []], l as [|cfg|cfg], ok, fb; unfold follows; cbn;
    intros Hf Hok; try (by destruct Hok);
    eexists; split_and!; try reflexivity; cbn; f_equal; naive_solver.
Qed.

End Loop.
