(* ===== verification/System.v ===== *)
(** * The running proxy ([main], [serve_plain], [serve_tls], [spawn_sighup_reloader] of
    [src/main.rs])

    The components put together: the accept loop, a task for each connection with the request it
    serves, the relays of upgraded connections, the reloader, the periodic clean-up and the
    writer of the audit log, all on one shared state.  A step of the system is one step of one
    of them, so a run is an arbitrary interleaving; what the outside does (clients, the Docker
    socket, the clock, the file system) is part of the action.  [journal] records every
    operation with the task that performed it. *)

From S2P Require Import Prelude RustStr F64 Net External Json Config RateLimiter AuthLimiter.
From S2P Require Import Conditions Rules Metrics AuditLog Tls Upgrade Path Auth Effects World.
From S2P Require Import Evaluate Authenticate Handle Forward Server.

Open Scope Z_scope.

Section System.
Context `{NumberApi} `{RegexApi} `{!JsonApi} `{IpNetApi} `{HttpApi} `{X509Api} `{!RustlsApi}.
Context `{EventApi}.

(** ** Connections *)

(** A connection task: it may still owe a TLS handshake, wait for the request, or serve it.
    Keep-alive is off, so it serves one request; [Serving] with a program that has returned is
    a response on its way out. *)
Inductive conn_task : Type :=
  | Greeting (peer : SocketAddr)
  | Waiting (peer : SocketAddr) (cert : option CertIdentity)
  | Serving (peer : SocketAddr) (cert : option CertIdentity) (req : Request)
            (p : prog HttpResponse).

(** [conn.peer_certificates().and_then(|certs| certs.first().cloned())
    .and_then(|leaf| extract_identity(&leaf))]. *)
Definition peer_identity (peer_certificates : option (list (list Z))) : option CertIdentity :=
  match peer_certificates with
  | Some certs =>
      match head certs with
      | Some leaf => extract_identity leaf
      | None => None
      end
  | None => None
  end.

Definition serve_plain (peer : SocketAddr) : conn_task := Waiting peer None.

(** What is left of a TLS connection once the handshake has answered. *)
Definition serve_tls (peer : SocketAddr)
    (handshake : timed (result (option (list (list Z))) string)) : option conn_task :=
  match handshake with
  | InTime (Ok peer_certificates) => Some (Waiting peer (peer_identity peer_certificates))
  | InTime (Err _) => None
  | Elapsed => None
  end.

(** [if let Some(acc) = tls_acceptor { serve_tls(..) } else { serve_plain(..) }]. *)
Definition accept_task (l : Listener) (peer : SocketAddr) : conn_task :=
  if is_some (listen_tls l) then Greeting peer else serve_plain peer.

(** ** The state *)

Inductive owner : Type :=
  | Handler (c : nat)
  | Relay (c : nat).

#[global] Instance owner_eq_dec : EqDecision owner.
Proof. solve_decision. Defined.

(** [requests], [configs] and [journal] are history: the request each connection has sent, the
    configurations that have been in force, and the operations performed. *)
Record system : Type := {
  srv : server;
  listener : option Listener;
  shared : World;
  writer : AuditLog.task;
  tasks : gmap nat conn_task;
  relays : gmap nat (prog unit);
  requests : gmap nat (SocketAddr * option CertIdentity * Request);
  configs : list ProxyConfig;
  journal : list (owner * event)
}.

Definition boot_world (config : ProxyConfig) (audit_on : bool) (t0 : Instant) : World :=
  {| auth_limiter := AuthLimiter_new; rate_limiter := RateLimiter_new; metrics := Metrics_new;
     audit := if audit_on then AuditSink_spawn else AuditSink_disabled;
     config_holder := config; now := t0; log_lines := []; sent_upstream := [] |}.

(** What [main] has set up when it enters the loop. *)
Definition boot (s : startup) (t0 : Instant) : system :=
  {| srv := server_init (start_config s); listener := None;
     shared := boot_world (start_config s) (is_some (start_audit_path s)) t0;
     writer := AuditLog.Opening; tasks := ∅; relays := ∅; requests := ∅;
     configs := [start_config s]; journal := [] |}.

Definition set_srv (s : system) (v : server) (l : option Listener) : system :=
  {| srv := v; listener := l; shared := shared s; writer := writer s; tasks := tasks s;
     relays := relays s; requests := requests s; configs := configs s; journal := journal s |}.

Definition set_shared (s : system) (w : World) : system :=
  {| srv := srv s; listener := listener s; shared := w; writer := writer s; tasks := tasks s;
     relays := relays s; requests := requests s; configs := configs s; journal := journal s |}.

Definition set_tasks (s : system) (ts : gmap nat conn_task) : system :=
  {| srv := srv s; listener := listener s; shared := shared s; writer := writer s; tasks := ts;
     relays := relays s; requests := requests s; configs := configs s; journal := journal s |}.

Definition set_relays (s : system) (rs : gmap nat (prog unit)) : system :=
  {| srv := srv s; listener := listener s; shared := shared s; writer := writer s;
     tasks := tasks s; relays := rs; requests := requests s; configs := configs s;
     journal := journal s |}.

Definition record (s : system) (who : owner) (e : event) : system :=
  {| srv := srv s; listener := listener s; shared := shared s; writer := writer s;
     tasks := tasks s; relays := relays s; requests := requests s; configs := configs s;
     journal := journal s ++ [(who, e)] |}.

(** ** Steps *)

(** A connection task ends: its permit goes back to its listener's semaphore. *)
Definition end_connection (s : system) (c : nat) : system :=
  match server_step (srv s) (Close c) with
  | Running v => set_tasks (set_srv s v (listener s)) (delete c (tasks s))
  | Stopped => s
  end.

(** [let _permit = permit] was taken from the semaphore of the current listener, or the stream
    is dropped. *)
Definition accept_connection (s : system) (peer : SocketAddr) : system :=
  match listener s with
  | Some l =>
      if bound (srv s) && (permits_used (srv s) <? MAX_CONCURRENT_CONNS)%nat then
        match server_step (srv s) Accept with
        | Running v =>
            set_tasks (set_srv s v (listener s))
              (<[next_conn (srv s) := accept_task l peer]> (tasks s))
        | Stopped => s
        end
      else s
  | None => s
  end.

Definition tls_handshake (s : system) (c : nat)
    (r : timed (result (option (list (list Z))) string)) : system :=
  match tasks s !! c with
  | Some (Greeting peer) =>
      match serve_tls peer r with
      | Some t => set_tasks s (<[c := t]> (tasks s))
      | None => end_connection s c
      end
  | _ => s
  end.

(** [service_fn(move |req| handle(req, peer, identity.clone(), state.clone()))]. *)
Definition receive_request (state : ProxyState) (s : system) (c : nat) (req : Request)
    : system :=
  match tasks s !! c with
  | Some (Waiting peer cert) =>
      {| srv := srv s; listener := listener s; shared := shared s; writer := writer s;
         tasks := <[c := Serving peer cert req (handle state req peer cert)]> (tasks s);
         relays := relays s; requests := <[c := (peer, cert, req)]> (requests s);
         configs := configs s; journal := journal s |}
  | _ => s
  end.

(** [tokio::spawn] in [handle_upgrade]: the relay is a task of its own, without a permit. *)
Definition spawned {X} (o : op X) (c : nat) (rs : gmap nat (prog unit))
    : gmap nat (prog unit) :=
  match o with
  | SpawnCopy => <[c := upgrade_task]> rs
  | _ => rs
  end.

(** The handler performs its next operation; a panic unwinds its task. *)
Definition progress (s : system) (c : nat) (h : Host) : system :=
  match tasks s !! c with
  | Some (Serving peer cert req (Do o k)) =>
      match exec_op h o (shared s) with
      | (Done x, w) =>
          record (set_relays (set_tasks (set_shared s w)
                    (<[c := Serving peer cert req (k x)]> (tasks s)))
                    (spawned o c (relays s))) (Handler c) (Event o x)
      | (Panic, w) => end_connection (set_shared s w) c
      end
  | _ => s
  end.

Definition relay_progress (s : system) (c : nat) (h : Host) : system :=
  match relays s !! c with
  | Some (Do o k) =>
      match exec_op h o (shared s) with
      | (Done x, w) =>
          record (set_relays (set_shared s w) (<[c := k x]> (relays s))) (Relay c) (Event o x)
      | (Panic, w) => set_relays (set_shared s w) (delete c (relays s))
      end
  | Some (Ret _) => set_relays s (delete c (relays s))
  | None => s
  end.

(** A step of the loop, or of the reload task, that only moves the task. *)
Definition loop_step (s : system) (a : action) : system :=
  match server_step (srv s) a with
  | Running v => set_srv s v (listener s)
  | Stopped => s
  end.

(** The reload task, on [SIGHUP]: a file that loads is swapped in, and the loop is notified next
    ([Notify]); without a file at start-up there is no such task.  A signal that arrives before
    the loop is notified waits. *)
Definition reload_config (loaded_from : option string) (s : system) (env : Env) : system :=
  match loaded_from with
  | None => s
  | Some path =>
      match load_from_path env path with
      | Ok cfg =>
          if swapped (srv s) then s else
          match server_step (srv s) (Sighup (Ok cfg)) with
          | Running v =>
              {| srv := v; listener := listener s; shared := swap_config (shared s) cfg;
                 writer := writer s; tasks := tasks s; relays := relays s;
                 requests := requests s; configs := configs s ++ [cfg]; journal := journal s |}
          | Stopped => s
          end
      | Err _ => s
      end
  end.

(** [create_listener] on the configuration the loop has read; [None] is the return of [main]
    when the first bind fails. *)
Definition bind_listener (s : system) (env : Env) (bind : string -> result unit string)
    : option system :=
  match at_loop (srv s) with
  | Binding cfg =>
      let r := create_listener env bind cfg in
      match server_step (srv s) (Bind (is_ok r)) with
      | Running v =>
          Some (set_srv s v match r with Ok l => Some l | Err _ => listener s end)
      | Stopped => None
      end
  | _ => Some s
  end.

(** The two calls of the clean-up task. *)
Definition clean_rates (s : system) : system :=
  let w := shared s in set_shared s (set_rate w (RateLimiter.cleanup (rate_limiter w) (now w))).

Definition clean_auth (s : system) : system :=
  let w := shared s in set_shared s (set_auth w (AuthLimiter.cleanup (auth_limiter w) (now w))).

(** A step of the audit writer, on its channel and its file. *)
Definition writer_step (s : system) (a : AuditLog.action) : system :=
  let l := AuditLog.step {| sink := audit (shared s); AuditLog.writer := writer s |} a in
  {| srv := srv s; listener := listener s; shared := set_audit (shared s) (sink l);
     writer := AuditLog.writer l; tasks := tasks s; relays := relays s;
     requests := requests s; configs := configs s; journal := journal s |}.

Definition elapse (s : system) (d : Duration) : system :=
  let w := shared s in
  set_shared s {| auth_limiter := auth_limiter w; rate_limiter := rate_limiter w;
                  metrics := metrics w; audit := audit w; config_holder := config_holder w;
                  now := now w + Z.max 0 d; log_lines := log_lines w;
                  sent_upstream := sent_upstream w |}.

Inductive act : Type :=
  | EnterLoop
  | BindListener (env : Env) (bind : string -> result unit string)
  | AcceptConnection (peer : SocketAddr)
  | TlsHandshake (c : nat) (r : timed (result (option (list (list Z))) string))
  | ReceiveRequest (c : nat) (req : Request)
  | Progress (c : nat) (h : Host)
  | EndConnection (c : nat)                      (* answered, closed by the peer or timed out *)
  | RelayProgress (c : nat) (h : Host)
  | ReloadConfig (env : Env)                     (* SIGHUP *)
  | NotifyLoop
  | TakeNotification
  | CleanRates
  | CleanAuth
  | WriterOpen (r : result string string)
  | WriterReceive
  | WriterWrite (r : io)
  | Elapse (d : Duration).

Definition sys_step (state : ProxyState) (loaded_from : option string) (s : system) (a : act)
    : option system :=
  match a with
  | EnterLoop => Some (loop_step s Enter)
  | BindListener env bind => bind_listener s env bind
  | AcceptConnection peer => Some (accept_connection s peer)
  | TlsHandshake c r => Some (tls_handshake s c r)
  | ReceiveRequest c req => Some (receive_request state s c req)
  | Progress c h => Some (progress s c h)
  | EndConnection c => Some (end_connection s c)
  | RelayProgress c h => Some (relay_progress s c h)
  | ReloadConfig env => Some (reload_config loaded_from s env)
  | NotifyLoop => Some (loop_step s Notify)
  | TakeNotification => Some (loop_step s Wake)
  | CleanRates => Some (clean_rates s)
  | CleanAuth => Some (clean_auth s)
  | WriterOpen r => Some (writer_step s (AuditLog.Open r))
  | WriterReceive => Some (writer_step s AuditLog.Receive)
  | WriterWrite r => Some (writer_step s (AuditLog.Write r))
  | Elapse d => Some (elapse s d)
  end.

Fixpoint sys_run (state : ProxyState) (loaded_from : option string) (s : system)
    (acts : list act) : option system :=
  match acts with
  | [] => Some s
  | a :: acts' =>
      match sys_step state loaded_from s a with
      | Some s' => sys_run state loaded_from s' acts'
      | None => None
      end
  end.

(** The whole program, from its start-up. *)
Definition main_run (start : startup) (t0 : Instant) (acts : list act) : option system :=
  sys_run (start_state start) (start_loaded_from start) (boot start t0) acts.

End System.
