(* ===== verification/SystemInv.v ===== *)
(** * Invariants of the running proxy

    What holds of every state the system of System.v reaches: the shared tables keep to their
    bounds, every connection task holds a permit, the journal restricted to one connection is a
    trace of the handler on the request it sent, every configuration a request saw was in force,
    and the counters are exactly what the journal added to them. *)

From S2P Require Import Prelude RustStr F64 Net External Json Config RateLimiter AuthLimiter.
From S2P Require Import Conditions Rules Metrics AuditLog Tls Upgrade Path Auth Effects World.
From S2P Require Import Evaluate Authenticate Handle Forward Accounting Server System.

Open Scope Z_scope.

(** ** What one operation does to the shared state *)

Section Exec.
Context `{NumberApi} `{RegexApi} `{!JsonApi} `{IpNetApi} `{HttpApi}.

Definition queue_of (w : World) : list AuditEvent :=
  match tx (audit w) with
  | Some ch => queue ch
  | None => []
  end.

(** The bounds of the shared tables. *)
Record bounded (w : World) : Prop := {
  bounded_rate : RateLimiter.within_capacity (rate_limiter w);
  bounded_auth : AuthLimiter.within_capacity (auth_limiter w);
  bounded_audit : (length (queue_of w) <= CHANNEL_CAPACITY)%nat;
  bounded_counters : forall c, 0 <= counters (metrics w) c <= U64_MAX
}.

Definition sent_by (e : event) : list UpstreamRequest :=
  match e with
  | Event o _ => match o with SendRequest r => [r] | _ => [] end
  end.

Definition added_by (e : event) : list Counter :=
  match e with
  | Event o _ => match o with FetchAdd c => [c] | _ => [] end
  end.

(** The configurations an event has seen are among [cfgs]. *)
Definition known (cfgs : list ProxyConfig) (e : event) : Prop :=
  match e with
  | Event o x =>
      match o in op X return X -> Prop with
      | CurrentConfig => fun config => config ∈ cfgs
      | _ => fun _ => True
      end x
  end.

Lemma wrapping_add_range a b : 0 <= wrapping_add_u64 a b <= U64_MAX.
Proof.
  unfold wrapping_add_u64. pose proof (Z.mod_pos_bound (a + b) (U64_MAX + 1) ltac:(done)). lia.
Qed.

Lemma exec_bounded h X (o : op X) w : bounded w -> bounded (exec_op h o w).2.
Proof.
  intros [Hr Ha Hq Hc]. destruct o; simpl; try done.
  - destruct (record_failure _ _ _ _ _ _) as [r al] eqn:E. constructor; try done. simpl.
    pose proof (record_failure_capacity (auth_limiter w) (now w) key max window lockout Ha) as Hf.
    by rewrite E in Hf.
  - constructor; try done. simpl. unfold record_success, AuthLimiter.within_capacity in *.
    pose proof (map_subseteq_size _ _ (delete_subseteq (auth_limiter w) key)). lia.
  - destruct (RateLimiter.check _ _ _ _ _ _) as [r rl] eqn:E. constructor; try done. simpl.
    pose proof (check_capacity (rate_limiter w) (check_instant h w) key max_requests period_secs
                  penalty_secs Hr) as Hf. by rewrite E in Hf.
  - constructor; try done. intros c'. cbn. destruct (decide (c' = c)); [|apply Hc].
    apply wrapping_add_range.
  - constructor; try done. unfold queue_of in *. simpl. by apply send_pending.
Qed.

Lemma exec_config h X (o : op X) w : config_holder (exec_op h o w).2 = config_holder w.
Proof. destruct o; simpl; try done; repeat case_match; done. Qed.

Lemma exec_sent h X (o : op X) w (x : X) :
  sent_upstream (exec_op h o w).2 = sent_upstream w ++ sent_by (Event o x).
Proof. destruct o; simpl; rewrite ?app_nil_r; try done; by case_match. Qed.

Lemma exec_metrics h X (o : op X) w (x : X) :
  counters (metrics (exec_op h o w).2)
  = counters (fold_left fetch_add (added_by (Event o x)) (metrics w)).
Proof. destruct o; simpl; try done; by case_match. Qed.

Lemma exec_known h X (o : op X) w x w' cfgs :
  exec_op h o w = (Done x, w') -> config_holder w ∈ cfgs -> known cfgs (Event o x).
Proof. intros E Hc. destruct o; try done. simpl in E. by injection E as <- <-. Qed.

(** An operation that panics (a lockout or a penalty beyond the clock) has left no trace but
    in its limiter. *)
Lemma exec_panic h X (o : op X) w w' :
  exec_op h o w = (Panic, w') -> forall x, sent_by (Event o x) = [] /\ added_by (Event o x) = [].
Proof. by destruct o. Qed.

End Exec.

(** ** The history of the tasks *)

Section Journal.
Context `{NumberApi} `{RegexApi} `{!JsonApi} `{IpNetApi} `{HttpApi} `{X509Api} `{!RustlsApi}.
Context `{EventApi}.

(** The trace of one task. *)
Definition trace_of (who : owner) (j : list (owner * event)) : list event :=
  omap (fun we => if decide (we.1 = who) then Some we.2 else None) j.

Definition sends (j : list (owner * event)) : list UpstreamRequest :=
  concat (map (fun we => sent_by we.2) j).

Definition adds (j : list (owner * event)) : list Counter :=
  concat (map (fun we => added_by we.2) j).

Lemma trace_of_snoc who j who' e :
  trace_of who (j ++ [(who', e)])
  = trace_of who j ++ if decide (who' = who) then [e] else [].
Proof.
  unfold trace_of. rewrite omap_app. f_equal. simpl. by destruct (decide _).
Qed.

Lemma trace_of_app who j1 j2 : trace_of who (j1 ++ j2) = trace_of who j1 ++ trace_of who j2.
Proof. apply omap_app. Qed.

Lemma sends_snoc j who e : sends (j ++ [(who, e)]) = sends j ++ sent_by e.
Proof. unfold sends. rewrite map_app, concat_app. simpl. by rewrite app_nil_r. Qed.

Lemma adds_snoc j who e : adds (j ++ [(who, e)]) = adds j ++ added_by e.
Proof. unfold adds. rewrite map_app, concat_app. simpl. by rewrite app_nil_r. Qed.

(** The certificate of a connection is the leaf its handshake presented. *)
Definition presented (cert : option CertIdentity) : Prop :=
  cert = None \/ exists certs, cert = peer_identity certs.

Context (state : ProxyState) (loaded_from : option string).

(** *** The shared state *)

Record shared_inv (s : system) : Prop := {
  inv_bounded : bounded (shared s);
  inv_sent : sent_upstream (shared s) = sends (journal s);
  inv_counters : forall c,
    counters (metrics (shared s)) c
    = counters (fold_left fetch_add (adds (journal s)) Metrics_new) c
}.

(** *** Configurations *)

(** What a configuration that loaded is. *)
Definition in_service (cfg : ProxyConfig) : Prop :=
  config_wf cfg /\ StronglySorted by_priority (rules_of cfg)
  /\ Forall (fun r => Forall regex_ready (rule_leaves r)) (rules_of cfg).

Record config_inv (s : system) : Prop := {
  inv_current : current (srv s) = config_holder (shared s);
  inv_in_force : config_holder (shared s) ∈ configs s;
  inv_service : Forall in_service (configs s);
  inv_known : Forall (fun we => known (configs s) we.2) (journal s)
}.

(** *** Connections *)

Definition identified (t : conn_task) : Prop :=
  match t with
  | Greeting _ => True
  | Waiting _ cert | Serving _ cert _ _ => presented cert
  end.

Record conn_inv (s : system) : Prop := {
  inv_server : server_inv (srv s);
  inv_permit : forall c t, tasks s !! c = Some t -> exists g, (g, c) ∈ conns (srv s);
  inv_fresh : forall g c, (g, c) ∈ conns (srv s) -> (c < next_conn (srv s))%nat;
  inv_identified : forall c t, tasks s !! c = Some t -> identified t
}.

(** *** Requests *)

Record request_inv (s : system) : Prop := {
  inv_serving : forall c peer cert req p,
    tasks s !! c = Some (Serving peer cert req p) ->
    requests s !! c = Some (peer, cert, req)
    /\ reaches (handle state req peer cert) (trace_of (Handler c) (journal s)) p;
  inv_requested : forall c peer cert req,
    requests s !! c = Some (peer, cert, req) ->
    (c < next_conn (srv s))%nat /\ presented cert
    /\ exists p, reaches (handle state req peer cert) (trace_of (Handler c) (journal s)) p;
  inv_silent : forall c,
    requests s !! c = None -> trace_of (Handler c) (journal s) = [];
  inv_unasked : forall c t,
    tasks s !! c = Some t ->
    match t with Serving _ _ _ _ => True | _ => requests s !! c = None end
}.

(** ** Requests are preserved *)

Lemma request_frame s s' :
  (forall c t, tasks s' !! c = Some t -> tasks s !! c = Some t) ->
  requests s' = requests s -> journal s' = journal s ->
  (next_conn (srv s) <= next_conn (srv s'))%nat -> request_inv s -> request_inv s'.
Proof.
  intros Ht Hr Hj Hn [I1 I2 I3 I4]. constructor; rewrite ?Hr, ?Hj; [eauto| |done|].
  - intros c peer cert req (Hlt & Hc & Hp)%I2. split_and!; [lia|done|done].
  - intros c t Hl. exact (I4 _ _ (Ht _ _ Hl)).
Qed.

(** A task that is not serving yet may be put in place of another such task. *)
Lemma request_task s s' c t :
  match t with Serving _ _ _ _ => False | _ => True end -> requests s !! c = None ->
  tasks s' = <[c := t]> (tasks s) -> requests s' = requests s -> journal s' = journal s ->
  (next_conn (srv s) <= next_conn (srv s'))%nat -> request_inv s -> request_inv s'.
Proof.
  intros Ht Hc Hts Hr Hj Hn [I1 I2 I3 I4]. constructor; rewrite ?Hr, ?Hj, ?Hts; [| |done|].
  - intros c' peer cert req p [[<- ->]|[Hne Hl]]%lookup_insert_Some; [done|by apply I1].
  - intros c' peer cert req (Hlt & Hp & Hx)%I2. split_and!; [lia|done|done].
  - intros c' t' [[<- <-]|[Hne Hl]]%lookup_insert_Some; [by destruct t|by apply I4].
Qed.

Lemma end_connection_request s c : request_inv s -> request_inv (end_connection s c).
Proof.
  unfold end_connection. destruct (server_step _ _) as [v|] eqn:E; [|done].
  apply request_frame; try done; [|by apply server_next in E].
  simpl. by intros c' t [_ Hl]%lookup_delete_Some.
Qed.

Lemma reaches_snoc {A X} (p : prog A) t (o : op X) k x :
  reaches p t (Do o k) -> reaches p (t ++ [Event o x]) (k x).
Proof. intros Hr. eapply reaches_app; [done|]. do 2 constructor. Qed.

Lemma progress_request s c h : request_inv s -> request_inv (progress s c h).
Proof.
  intros I. unfold progress. destruct (tasks s !! c) as [[| |peer cert req [resp|X o k]]|] eqn:Et;
    try done.
  destruct (exec_op h o (shared s)) as [[x|] w] eqn:Ee.
  2: { apply end_connection_request. by apply (request_frame s). }
  destruct I as [I1 I2 I3 I4]. destruct (I1 _ _ _ _ _ Et) as [Hreq Htr].
  apply (reaches_snoc _ _ _ _ x) in Htr.
  constructor; simpl.
  - intros c' peer' cert' req' p'. rewrite trace_of_snoc.
    intros [[<- [= <- <- <- <-]]|[Hne Hl]]%lookup_insert_Some; [by rewrite decide_True|].
    rewrite decide_False by congruence. rewrite app_nil_r. by apply I1.
  - intros c' peer' cert' req' Hr. rewrite trace_of_snoc.
    destruct (I2 _ _ _ _ Hr) as (Hlt & Hp & p' & Hx). split_and!; [done|done|].
    destruct (decide (Handler c = Handler c')) as [[= <-]|].
    + exists (k x). rewrite Hreq in Hr. by injection Hr as <- <- <-.
    + exists p'. by rewrite app_nil_r.
  - intros c' Hn. rewrite trace_of_snoc, decide_False by congruence. rewrite app_nil_r.
    by apply I3.
  - intros c' t [[<- <-]|[Hne Hl]]%lookup_insert_Some; [done|]. exact (I4 _ _ Hl).
Qed.

Lemma journal_relay_request s s' c e :
  tasks s' = tasks s -> requests s' = requests s -> journal s' = journal s ++ [(Relay c, e)] ->
  srv s' = srv s -> request_inv s -> request_inv s'.
Proof.
  intros Ht Hr Hj Hv [I1 I2 I3 I4].
  assert (Htr : forall c', trace_of (Handler c') (journal s') = trace_of (Handler c') (journal s)).
  { intros c'. rewrite Hj, trace_of_snoc, decide_False by done. by rewrite app_nil_r. }
  constructor; rewrite ?Hr, ?Ht, ?Hv; [| | |exact I4].
  - intros c' peer cert req p. rewrite Htr. apply I1.
  - intros c' peer cert req. rewrite Htr. apply I2.
  - intros c'. rewrite Htr. apply I3.
Qed.

Lemma receive_request_inv s c req :
  conn_inv s -> request_inv s -> request_inv (receive_request state s c req).
Proof.
  intros C I. unfold receive_request. destruct (tasks s !! c) as [[|peer cert|]|] eqn:Et; try done.
  destruct I as [I1 I2 I3 I4]. pose proof (I4 _ _ Et) as Hn. simpl in Hn.
  constructor; simpl.
  - intros c' peer' cert' req' p [[<- [= <- <- <- <-]]|[Hne Hl]]%lookup_insert_Some.
    + rewrite lookup_insert_eq. split; [done|]. rewrite I3 by done. constructor.
    + rewrite lookup_insert_ne by done. by apply I1.
  - intros c' peer' cert' req' [[<- [= <- <- <-]]|[Hne Hl]]%lookup_insert_Some; [|by apply I2].
    destruct (inv_permit s C _ _ Et) as [g Hg]. split_and!; [by eapply inv_fresh| |].
    + apply (inv_identified s C _ _ Et).
    + exists (handle state req peer cert). rewrite I3 by done. constructor.
  - intros c' [Hc' Hne]%lookup_insert_None. by apply I3.
  - intros c' t [[<- <-]|[Hne Hl]]%lookup_insert_Some; [done|].
    specialize (I4 _ _ Hl). destruct t; [| |done]; by rewrite lookup_insert_ne.
Qed.

(** ** Connections are preserved *)

Lemma conn_frame s s' :
  tasks s' = tasks s -> srv s' = srv s -> conn_inv s -> conn_inv s'.
Proof. intros Ht Hv [I1 I2 I3 I4]. constructor; rewrite ?Ht, ?Hv; done. Qed.

(** Steps of the loop that leave the connections alone. *)
Lemma conn_server s v l a :
  tacit a -> server_step (srv s) a = Running v -> conn_inv s -> conn_inv (set_srv s v l).
Proof.
  intros Ha Hv [I1 I2 I3 I4]. destruct (tacit_step _ _ _ Ha Hv) as (Hc & Hn & _). constructor; simpl; rewrite ?Hc, ?Hn; [|done..].
  by eapply server_step_inv.
Qed.

(** A connection's task may be put in place of its task. *)
Lemma conn_task_update s s' c t t' :
  tasks s !! c = Some t -> (identified t -> identified t') ->
  tasks s' = <[c := t']> (tasks s) -> srv s' = srv s -> conn_inv s -> conn_inv s'.
Proof.
  intros Ht Hid Hts Hv [I1 I2 I3 I4]. constructor; rewrite ?Hts, ?Hv; try done.
  - intros c' t'' [[<- <-]|[Hne Hl]]%lookup_insert_Some; by eapply I2.
  - intros c' t'' [[<- <-]|[Hne Hl]]%lookup_insert_Some; [by eapply Hid, I4|by eapply I4].
Qed.

Lemma end_connection_conn s c : conn_inv s -> conn_inv (end_connection s c).
Proof.
  intros [I1 I2 I3 I4]. unfold end_connection.
  destruct (server_step (srv s) (Close c)) as [v|] eqn:E; [|done].
  pose proof (server_step_inv _ _ _ I1 E) as Hv. simpl in E. injection E as <-.
  constructor; simpl; [done| | |].
  - intros c' t [Hne Hl]%lookup_delete_Some. destruct (I2 _ _ Hl) as [g Hg].
    exists g. apply list_elem_of_filter. done.
  - intros g c' [_ Hg]%list_elem_of_filter. by eapply I3.
  - intros c' t [_ Hl]%lookup_delete_Some. by eapply I4.
Qed.

Lemma accept_connection_conn s peer : conn_inv s -> conn_inv (accept_connection s peer).
Proof.
  intros [I1 I2 I3 I4]. unfold accept_connection. destruct (listener s) as [l|]; [|done].
  destruct (bound (srv s) && _) eqn:Eb; [|done].
  destruct (server_step (srv s) Accept) as [v|] eqn:E; [|done].
  pose proof (server_step_inv _ _ _ I1 E) as Hv. simpl in E. rewrite Eb in E. injection E as <-.
  constructor; simpl; [done| | |].
  - intros c t [[<- <-]|[Hne Hl]]%lookup_insert_Some; [eexists; by left|].
    destruct (I2 _ _ Hl) as [g Hg]. exists g. by right.
  - intros g c [[= -> ->]|Hg]%elem_of_cons; [lia|]. apply I3 in Hg. lia.
  - intros c t [[<- <-]|[Hne Hl]]%lookup_insert_Some; [|by eapply I4].
    unfold accept_task, serve_plain. destruct (is_some _); [done|by left].
Qed.

Lemma tls_handshake_conn s c r : conn_inv s -> conn_inv (tls_handshake s c r).
Proof.
  intros I. unfold tls_handshake. destruct (tasks s !! c) as [[peer| |]|] eqn:Et; try done.
  destruct r as [[certs|e]|]; simpl; try by apply end_connection_conn.
  eapply conn_task_update; [done| |done|done|done]. intros _. right. by exists certs.
Qed.

Lemma receive_request_conn s c req : conn_inv s -> conn_inv (receive_request state s c req).
Proof.
  intros I. unfold receive_request. destruct (tasks s !! c) as [[|peer cert|]|] eqn:Et; try done.
  eapply conn_task_update; [done| |done|done|done]. done.
Qed.

Lemma progress_conn s c h : conn_inv s -> conn_inv (progress s c h).
Proof.
  intros I. unfold progress. destruct (tasks s !! c) as [[| |peer cert req [|X o k]]|] eqn:Et;
    try done.
  destruct (exec_op h o (shared s)) as [[x|] w].
  - eapply conn_task_update; [done| |done|done|done]. done.
  - apply end_connection_conn. by apply (conn_frame s).
Qed.

Lemma bind_listener_conn s env bind s' :
  bind_listener s env bind = Some s' -> conn_inv s -> conn_inv s'.
Proof.
  unfold bind_listener. destruct (at_loop (srv s)); try by intros [= <-]. cbv zeta.
  destruct (server_step _ _) as [v|] eqn:E; [|done]. intros [= <-] I.
  by eapply conn_server; [|exact E|exact I].
Qed.

Lemma loop_step_conn s a : tacit a -> conn_inv s -> conn_inv (loop_step s a).
Proof.
  intros Ha. unfold loop_step. destruct (server_step _ _) as [v|] eqn:E; [|done].
  intros I. by eapply conn_server; [|exact E|exact I].
Qed.

Lemma reload_config_conn s env : conn_inv s -> conn_inv (reload_config loaded_from s env).
Proof.
  intros I. unfold reload_config. destruct loaded_from as [path|]; [|done].
  destruct (load_from_path env path) as [cfg|e]; [|done].
  destruct (swapped (srv s)) eqn:Es; [done|]. cbn [server_step]. rewrite Es.
  destruct I as [I1 I2 I3 I4]. constructor; [|exact I2|exact I3|exact I4].
  eapply (server_step_inv (srv s) (Sighup (Ok cfg))); [done|]. cbn. by rewrite Es.
Qed.

Lemma relay_progress_conn s c h : conn_inv s -> conn_inv (relay_progress s c h).
Proof.
  intros I. unfold relay_progress. destruct (relays s !! c) as [[|X o k]|]; [by apply (conn_frame s)| |done].
  destruct (exec_op h o (shared s)) as [[x|] w]; by apply (conn_frame s).
Qed.

Lemma sys_step_conn s a s' :
  sys_step state loaded_from s a = Some s' -> conn_inv s -> conn_inv s'.
Proof.
  destruct a; simpl; try (intros [= <-]); intros I;
    eauto using bind_listener_conn, accept_connection_conn, tls_handshake_conn,
      receive_request_conn, progress_conn, end_connection_conn, relay_progress_conn,
      reload_config_conn; try (by apply loop_step_conn); by apply (conn_frame s).
Qed.

(** ** Requests are preserved, continued *)

Lemma accept_connection_request s peer : request_inv s -> request_inv (accept_connection s peer).
Proof.
  intros I. unfold accept_connection. destruct (listener s) as [l|]; [|done].
  destruct (bound (srv s) && _) eqn:Eb; [|done].
  destruct (server_step (srv s) Accept) as [v|] eqn:E; [|done].
  apply (request_task s _ (next_conn (srv s)) (accept_task l peer)); try done.
  - unfold accept_task, serve_plain. by destruct (is_some _).
  - destruct (requests s !! next_conn (srv s)) as [[[peer' cert] req]|] eqn:Er; [|done].
    destruct (inv_requested s I _ _ _ _ Er) as [Hlt _]. lia.
  - simpl. by apply server_next in E.
Qed.

Lemma tls_handshake_request s c r : request_inv s -> request_inv (tls_handshake s c r).
Proof.
  intros I. unfold tls_handshake. destruct (tasks s !! c) as [[peer| |]|] eqn:Et; try done.
  destruct r as [[certs|e]|]; simpl; try by apply end_connection_request.
  apply (request_task s _ c (Waiting peer (peer_identity certs))); try done.
  exact (inv_unasked s I _ _ Et).
Qed.

Lemma relay_progress_request s c h : request_inv s -> request_inv (relay_progress s c h).
Proof.
  intros I. unfold relay_progress. destruct (relays s !! c) as [[|X o k]|];
    [by apply (request_frame s)| |done].
  destruct (exec_op h o (shared s)) as [[x|] w]; [|by apply (request_frame s)].
  by apply (journal_relay_request s _ c (Event o x)).
Qed.

Lemma bind_listener_request s env bind s' :
  bind_listener s env bind = Some s' -> request_inv s -> request_inv s'.
Proof.
  unfold bind_listener. destruct (at_loop (srv s)); try by intros [= <-]. cbv zeta.
  destruct (server_step _ _) as [v|] eqn:E; [|done]. intros [= <-].
  apply request_frame; try done. by apply server_next in E.
Qed.

Lemma loop_step_request s a : request_inv s -> request_inv (loop_step s a).
Proof.
  unfold loop_step. destruct (server_step _ _) as [v|] eqn:E; [|done].
  apply request_frame; try done. by apply server_next in E.
Qed.

Lemma reload_config_request s env :
  request_inv s -> request_inv (reload_config loaded_from s env).
Proof.
  unfold reload_config. destruct loaded_from as [path|]; [|done].
  destruct (load_from_path env path) as [cfg|e]; [|done].
  destruct (swapped (srv s)); [done|]. destruct (server_step _ _) as [v|] eqn:E; [|done].
  apply request_frame; try done. by apply server_next in E.
Qed.

Lemma sys_step_request s a s' :
  sys_step state loaded_from s a = Some s' -> conn_inv s -> request_inv s -> request_inv s'.
Proof.
  destruct a; simpl; try (intros [= <-]); intros;
    eauto using bind_listener_request, accept_connection_request, tls_handshake_request,
      receive_request_inv, progress_request, end_connection_request, relay_progress_request,
      reload_config_request, loop_step_request; by apply (request_frame s).
Qed.

(** ** Configurations are preserved *)

Lemma finish_load_service env parsed cfg : finish_load env parsed = Ok cfg -> in_service cfg.
Proof. intros (Hw & Hs & Hr & _)%finish_load_Ok. done. Qed.

Lemma load_from_path_service env path cfg : load_from_path env path = Ok cfg -> in_service cfg.
Proof.
  intros (content & _ & Hl)%result_bind_Ok. apply result_bind_Ok in Hl as (parsed & _ & Hl).
  by eapply finish_load_service.
Qed.

Lemma known_mono cfgs cfgs' e : (forall c, c ∈ cfgs -> c ∈ cfgs') -> known cfgs e -> known cfgs' e.
Proof. destruct e as [X o x]. destruct o; simpl; auto. Qed.

Lemma config_frame s s' :
  current (srv s') = current (srv s) -> config_holder (shared s') = config_holder (shared s) ->
  configs s' = configs s -> journal s' = journal s -> config_inv s -> config_inv s'.
Proof. intros Hc Hh Hs Hj [I1 I2 I3 I4]. constructor; rewrite ?Hc, ?Hh, ?Hs, ?Hj; done. Qed.

Lemma config_record s s' X (o : op X) x w h who :
  exec_op h o (shared s) = (Done x, w) -> current (srv s') = current (srv s) -> shared s' = w ->
  configs s' = configs s -> journal s' = journal s ++ [(who, Event o x)] ->
  config_inv s -> config_inv s'.
Proof.
  intros He Hc Hw Hs Hj [I1 I2 I3 I4].
  pose proof (exec_config h X o (shared s)) as Hh. rewrite He in Hh. simpl in Hh.
  constructor; rewrite ?Hc, ?Hw, ?Hs, ?Hj, ?Hh; try done.
  apply Forall_app. split; [done|]. apply Forall_singleton. by eapply exec_known.
Qed.

Lemma exec_config_of {X} h (o : op X) w r w' :
  exec_op h o w = (r, w') -> config_holder w' = config_holder w.
Proof. intros E. pose proof (exec_config h X o w) as Hh. by rewrite E in Hh. Qed.

Lemma end_connection_config s c : config_inv s -> config_inv (end_connection s c).
Proof. unfold end_connection. simpl. by apply config_frame. Qed.

Lemma progress_config s c h : config_inv s -> config_inv (progress s c h).
Proof.
  intros I. unfold progress. destruct (tasks s !! c) as [[| |peer cert req [|X o k]]|]; try done.
  destruct (exec_op h o (shared s)) as [[x|] w] eqn:E; [by eapply config_record|].
  apply end_connection_config. apply (config_frame s); try done. by apply exec_config_of in E.
Qed.

Lemma relay_progress_config s c h : config_inv s -> config_inv (relay_progress s c h).
Proof.
  intros I. unfold relay_progress. destruct (relays s !! c) as [[|X o k]|]; [by apply (config_frame s)| |done].
  destruct (exec_op h o (shared s)) as [[x|] w] eqn:E; [by eapply config_record|].
  apply (config_frame s); try done. by apply exec_config_of in E.
Qed.

Lemma reload_config_config s env : config_inv s -> config_inv (reload_config loaded_from s env).
Proof.
  intros I. unfold reload_config. destruct loaded_from as [path|]; [|done].
  destruct (load_from_path env path) as [cfg|e] eqn:El; [|done].
  destruct (swapped (srv s)) eqn:Es; [done|]. cbn [server_step]. rewrite Es.
  destruct I as [I1 I2 I3 I4]. constructor; simpl; [done|set_solver| |].
  - apply Forall_app. split; [done|]. apply Forall_singleton. by eapply load_from_path_service.
  - eapply Forall_impl; [exact I4|]. intros we. apply known_mono. set_solver.
Qed.

Lemma loop_step_config s a : tacit a -> config_inv s -> config_inv (loop_step s a).
Proof.
  intros Ha. unfold loop_step. destruct (server_step _ _) as [v|] eqn:E; [|done].
  apply (config_frame s); try done. by apply (tacit_step _ _ _ Ha E).
Qed.

Lemma sys_step_config s a s' :
  sys_step state loaded_from s a = Some s' -> config_inv s -> config_inv s'.
Proof.
  destruct a; simpl; try (intros [= <-]); intros;
    eauto using progress_config, end_connection_config, relay_progress_config,
      reload_config_config; try by apply (config_frame s).
  - by apply loop_step_config.
  - unfold bind_listener in *. destruct (at_loop (srv s)); try by simplify_eq.
    destruct (server_step _ _) eqn:E; simplify_eq. apply (config_frame s); try done.
    by eapply server_current.
  - unfold accept_connection. repeat case_match; try done. apply (config_frame s); try done.
    by eapply server_current.
  - unfold tls_handshake. repeat case_match; try done; [by apply (config_frame s)|].
    by apply end_connection_config.
  - unfold receive_request. repeat case_match; try done. by apply (config_frame s).
  - by apply loop_step_config.
  - by apply loop_step_config.
Qed.

(** ** The shared state is preserved *)

Lemma shared_frame s s' :
  bounded (shared s') -> sent_upstream (shared s') = sent_upstream (shared s) ->
  metrics (shared s') = metrics (shared s) -> journal s' = journal s ->
  shared_inv s -> shared_inv s'.
Proof. intros Hb Hs Hm Hj [I1 I2 I3]. constructor; rewrite ?Hs, ?Hm, ?Hj; done. Qed.

Lemma shared_same s s' :
  shared s' = shared s -> journal s' = journal s -> shared_inv s -> shared_inv s'.
Proof. intros Hw Hj I. apply (shared_frame s); rewrite ?Hw; try done. apply I. Qed.

Lemma shared_record s s' X (o : op X) x w h who :
  exec_op h o (shared s) = (Done x, w) -> shared s' = w ->
  journal s' = journal s ++ [(who, Event o x)] -> shared_inv s -> shared_inv s'.
Proof.
  intros He Hw Hj [I1 I2 I3].
  pose proof (exec_bounded h X o _ I1) as Hb. pose proof (exec_sent h X o (shared s) x) as Hs.
  pose proof (exec_metrics h X o (shared s) x) as Hm. rewrite He in *. simpl in *.
  constructor; rewrite ?Hw, ?Hj; [done| |].
  - by rewrite sends_snoc, Hs, I2.
  - intros c. rewrite adds_snoc, fold_left_app, Hm.
    by destruct o; simpl; rewrite ?I3.
Qed.

Lemma shared_panic s s' X (o : op X) w h :
  exec_op h o (shared s) = (Panic, w) -> shared s' = w -> journal s' = journal s ->
  shared_inv s -> shared_inv s'.
Proof.
  intros He Hw Hj I. pose proof (exec_bounded h X o _ (inv_bounded s I)) as Hb.
  rewrite He in Hb. simpl in Hb. apply (shared_frame s); rewrite ?Hw; try done;
    clear Hw; destruct o; simpl in He; repeat case_match; by simplify_eq.
Qed.

Lemma end_connection_shared s c : shared_inv s -> shared_inv (end_connection s c).
Proof. unfold end_connection. simpl. by apply shared_same. Qed.

Lemma progress_shared s c h : shared_inv s -> shared_inv (progress s c h).
Proof.
  intros I. unfold progress. destruct (tasks s !! c) as [[| |peer cert req [|X o k]]|]; try done.
  destruct (exec_op h o (shared s)) as [[x|] w] eqn:E; [by eapply shared_record|].
  apply end_connection_shared. by eapply shared_panic.
Qed.

Lemma relay_progress_shared s c h : shared_inv s -> shared_inv (relay_progress s c h).
Proof.
  intros I. unfold relay_progress. destruct (relays s !! c) as [[|X o k]|]; [by apply (shared_same s)| |done].
  destruct (exec_op h o (shared s)) as [[x|] w] eqn:E; [by eapply shared_record|].
  by eapply shared_panic.
Qed.

Lemma writer_step_shared s a : shared_inv s -> shared_inv (writer_step s a).
Proof.
  intros I. destruct (inv_bounded s I) as [B1 B2 B3 B4]. apply (shared_frame s); try done.
  constructor; try done. unfold queue_of. simpl.
  apply (step_pending {| sink := audit (shared s); AuditLog.writer := writer s |} a), B3.
Qed.

Lemma clean_rates_shared s : shared_inv s -> shared_inv (clean_rates s).
Proof.
  intros I. destruct (inv_bounded s I) as [B1 B2 B3 B4]. apply (shared_frame s); try done.
  constructor; try done. by apply cleanup_capacity.
Qed.

Lemma clean_auth_shared s : shared_inv s -> shared_inv (clean_auth s).
Proof.
  intros I. destruct (inv_bounded s I) as [B1 B2 B3 B4]. apply (shared_frame s); try done.
  constructor; try done. unfold AuthLimiter.within_capacity in *. simpl.
  pose proof (cleanup_size (auth_limiter (shared s)) (now (shared s))). lia.
Qed.

Lemma elapse_shared s d : shared_inv s -> shared_inv (elapse s d).
Proof. intros I. apply (shared_frame s); try done. by destruct (inv_bounded s I). Qed.

Lemma sys_step_shared s a s' :
  sys_step state loaded_from s a = Some s' -> shared_inv s -> shared_inv s'.
Proof.
  destruct a; simpl; try (intros [= <-]); intros;
    eauto using progress_shared, end_connection_shared, relay_progress_shared,
      writer_step_shared, clean_rates_shared, clean_auth_shared, elapse_shared.
  - unfold loop_step. case_match; [|done]. by apply (shared_same s).
  - unfold bind_listener in *. repeat case_match; simplify_eq; try done; by apply (shared_same s).
  - unfold accept_connection. repeat case_match; try done. by apply (shared_same s).
  - unfold tls_handshake. repeat case_match; try done; [by apply (shared_same s)|].
    by apply end_connection_shared.
  - unfold receive_request. repeat case_match; try done. by apply (shared_same s).
  - unfold reload_config. repeat case_match; try done. apply (shared_frame s); try done.
    destruct (inv_bounded s ltac:(done)) as [B1 B2 B3 B4]. by constructor.
  - unfold loop_step. case_match; [|done]. by apply (shared_same s).
  - unfold loop_step. case_match; [|done]. by apply (shared_same s).
Qed.

(** ** Every reachable state *)

Record sys_inv (s : system) : Prop := {
  sys_shared : shared_inv s;
  sys_config : config_inv s;
  sys_conn : conn_inv s;
  sys_request : request_inv s
}.

Lemma sys_step_inv s a s' :
  sys_step state loaded_from s a = Some s' -> sys_inv s -> sys_inv s'.
Proof.
  intros Hs [I1 I2 I3 I4]. constructor; eauto using sys_step_shared, sys_step_config,
    sys_step_conn, sys_step_request.
Qed.

Lemma sys_run_app acts acts' s :
  sys_run state loaded_from s (acts ++ acts')
  = match sys_run state loaded_from s acts with
    | Some s' => sys_run state loaded_from s' acts'
    | None => None
    end.
Proof.
  revert s. induction acts as [|a acts IH]; intros s; simpl; [done|].
  by destruct (sys_step state loaded_from s a).
Qed.

Lemma sys_run_inv acts s s' :
  sys_run state loaded_from s acts = Some s' -> sys_inv s -> sys_inv s'.
Proof.
  revert s. induction acts as [|a acts IH]; intros s; simpl; [by intros [= <-]|].
  destruct (sys_step state loaded_from s a) as [s1|] eqn:E; [|done].
  intros Hr Hi. eapply IH; [done|]. by eapply sys_step_inv.
Qed.

(** A configuration a request has read was in force. *)
Lemma trace_known s who e :
  config_inv s -> e ∈ trace_of who (journal s) -> known (configs s) e.
Proof.
  intros I (we & Hin & He)%list_elem_of_omap. pose proof (inv_known s I) as Hall.
  rewrite Forall_forall in Hall. specialize (Hall _ Hin). case_decide; [|done].
  by injection He as <-.
Qed.

(** What [main] starts with has loaded, if only from the environment. *)
Lemma main_start_service `{!TracingApi} env args start :
  main_start env args = Start start -> in_service (start_config start).
Proof.
  unfold main_start. destruct (parse_args args false None) as [cc explicit| |]; try done.
  destruct (load_config_from_default_path _) as [[cfg from]|e] eqn:El; [|done].
  destruct cc; [done|]. destruct (init_tracing _ _ _); [|done].
  destruct (resolve_socket_path _ _); [|done]. intros [= <-]. simpl.
  unfold load_config_from_default_path in El. destruct (default_config_path _) as [path|].
  - apply result_bind_Ok in El as (c & Hc & [= <- <-]). by eapply load_from_path_service.
  - apply result_bind_Ok in El as (c & Hc & [= <- <-]).
    apply result_bind_Ok in Hc as (parsed & _ & Hc). by eapply finish_load_service.
Qed.

Lemma boot_inv start t0 : in_service (start_config start) -> sys_inv (boot start t0).
Proof.
  intros Hs. constructor; constructor; simpl; try done; try (by repeat constructor).
  - constructor; simpl; try done. unfold queue_of. simpl. destruct (is_some _); simpl; lia.
  - by apply Forall_singleton.
  - apply server_init_inv.
  - intros g c Hc. set_solver.
Qed.

End Journal.
