(* ===== verification/SystemRefine.v ===== *)
(** * The running proxy runs its components

    A run of the system, projected on what it does to one component, is a run of that component
    alone: the rate limiter, the lockout table, the audit log and the accept loop each see a
    sequence of their own steps, whatever the others do in between.  So the theorems about a
    component's runs hold inside the proxy.  The projections are functions of the run. *)

From S2P Require Import Prelude RustStr F64 Net External Json Config RateLimiter AuthLimiter.
From S2P Require Import Conditions Rules Metrics AuditLog Tls Upgrade Path Auth Effects World.
From S2P Require Import Evaluate Authenticate Handle Forward Server System.

Open Scope Z_scope.

(** ** Runs of the lockout table *)

Inductive lockout_call : Type :=
  | Failure (now : Instant) (key : string) (max : Z) (window lockout : Duration)
  | Success (key : string)
  | Sweep (now : Instant).

Definition lockout_step (al : AuthLimiter) (c : lockout_call) : AuthLimiter :=
  match c with
  | Failure now key max window lockout => snd (record_failure al now key max window lockout)
  | Success key => record_success al key
  | Sweep now => AuthLimiter.cleanup al now
  end.

Definition lockout_run (al : AuthLimiter) (cs : list lockout_call) : AuthLimiter :=
  fold_left lockout_step cs al.

Section Refine.
Context `{NumberApi} `{RegexApi} `{!JsonApi} `{IpNetApi} `{HttpApi} `{X509Api} `{!RustlsApi}.
Context `{EventApi}.
Context (state : ProxyState) (loaded_from : option string).

(** ** Projections *)

Inductive some_op : Type :=
  | SomeOp {X : Type} (o : op X).

(** The operation an action performs, if it performs one. *)
Definition next_op (s : system) (a : act) : option some_op :=
  match a with
  | Progress c _ =>
      match tasks s !! c with
      | Some (Serving _ _ _ (Do o _)) => Some (SomeOp o)
      | _ => None
      end
  | RelayProgress c _ =>
      match relays s !! c with
      | Some (Do o _) => Some (SomeOp o)
      | _ => None
      end
  | _ => None
  end.

Definition op_rate (t : Instant) (so : some_op) : list RateLimiter.call :=
  match so with
  | SomeOp o => match o with RateCheck key m p q => [RateLimiter.Check t key m p q] | _ => [] end
  end.

(** The instant an action's rate check would work with. *)
Definition act_instant (s : system) (a : act) : Instant :=
  match a with
  | Progress _ h | RelayProgress _ h => check_instant h (shared s)
  | _ => now (shared s)
  end.

Definition rate_calls (s : system) (a : act) : list RateLimiter.call :=
  match a with
  | CleanRates => [RateLimiter.Cleanup (now (shared s))]
  | _ => from_option (op_rate (act_instant s a)) [] (next_op s a)
  end.

Definition op_lockout (t : Instant) (so : some_op) : list lockout_call :=
  match so with
  | SomeOp o =>
      match o with
      | AuthRecordFailure key max window lockout => [Failure t key max window lockout]
      | AuthRecordSuccess key => [Success key]
      | _ => []
      end
  end.

Definition lockout_calls (s : system) (a : act) : list lockout_call :=
  match a with
  | CleanAuth => [Sweep (now (shared s))]
  | _ => from_option (op_lockout (now (shared s))) [] (next_op s a)
  end.

Definition op_audit (so : some_op) : list AuditLog.action :=
  match so with
  | SomeOp o => match o with AuditSend ev => [AuditLog.Send ev] | _ => [] end
  end.

Definition audit_actions (s : system) (a : act) : list AuditLog.action :=
  match a with
  | WriterOpen r => [AuditLog.Open r]
  | WriterReceive => [AuditLog.Receive]
  | WriterWrite r => [AuditLog.Write r]
  | _ => from_option op_audit [] (next_op s a)
  end.

Definition is_panic {X} (r : outcome X) : bool :=
  match r with
  | Done _ => false
  | Panic => true
  end.

(** What an action does to the accept loop: a task that is over gives its permit back. *)
Definition server_actions (s : system) (a : act) : list action :=
  match a with
  | EnterLoop => [Enter]
  | BindListener env bind =>
      match at_loop (srv s) with
      | Binding cfg => [Bind (is_ok (create_listener env bind cfg))]
      | _ => []
      end
  | AcceptConnection _ => match listener s with Some _ => [Accept] | None => [] end
  | TlsHandshake c r =>
      match tasks s !! c with
      | Some (Greeting peer) => if is_none (serve_tls peer r) then [Close c] else []
      | _ => []
      end
  | EndConnection c => [Close c]
  | Progress c h =>
      match tasks s !! c with
      | Some (Serving _ _ _ (Do o _)) =>
          if is_panic (fst (exec_op h o (shared s))) then [Close c] else []
      | _ => []
      end
  | ReloadConfig env =>
      match loaded_from with
      | Some path => [Sighup (load_from_path env path)]
      | None => []
      end
  | NotifyLoop => [Notify]
  | TakeNotification => [Wake]
  | _ => []
  end.

(** What a run amounts to for one component. *)
Fixpoint project {B} (f : system -> act -> list B) (s : system) (acts : list act) : list B :=
  match acts with
  | [] => []
  | a :: acts' =>
      f s a ++ match sys_step state loaded_from s a with
               | Some s' => project f s' acts'
               | None => []
               end
  end.

Lemma project_runs {O B} (obs : system -> O) (runs : O -> list B -> O -> Prop)
    (f : system -> act -> list B) acts s s' :
  (forall o, runs o [] o) ->
  (forall o l1 o1 l2 o2, runs o l1 o1 -> runs o1 l2 o2 -> runs o (l1 ++ l2) o2) ->
  (forall s a s', sys_step state loaded_from s a = Some s' -> runs (obs s) (f s a) (obs s')) ->
  sys_run state loaded_from s acts = Some s' -> runs (obs s) (project f s acts) (obs s').
Proof.
  intros Hnil Happ Hstep. revert s. induction acts as [|a acts IH]; intros s; simpl.
  - by intros [= <-].
  - destruct (sys_step state loaded_from s a) as [s1|] eqn:E; [|done]. intros Hr.
    eapply Happ; [by eapply Hstep|by apply IH].
Qed.

(** Components whose step is a function. *)
Lemma project_fold {O B} (obs : system -> O) (step : O -> B -> O) (f : system -> act -> list B)
    acts s s' :
  (forall s a s', sys_step state loaded_from s a = Some s' ->
     obs s' = fold_left step (f s a) (obs s)) ->
  sys_run state loaded_from s acts = Some s' ->
  obs s' = fold_left step (project f s acts) (obs s).
Proof.
  intros Hstep. apply (project_runs obs (fun o l o' => o' = fold_left step l o)); [done| |done].
  intros o l1 o1 l2 o2 -> ->. by rewrite fold_left_app.
Qed.

(** ** One operation *)

Lemma exec_rate h X (o : op X) w :
  rate_limiter (exec_op h o w).2
  = fold_left RateLimiter.step (op_rate (check_instant h w) (SomeOp o)) (rate_limiter w).
Proof. destruct o; simpl; try done; by case_match. Qed.

Lemma exec_lockout h X (o : op X) w :
  auth_limiter (exec_op h o w).2
  = fold_left lockout_step (op_lockout (now w) (SomeOp o)) (auth_limiter w).
Proof. destruct o; simpl; try done; by case_match. Qed.

Lemma exec_audit h X (o : op X) w task :
  {| sink := audit (exec_op h o w).2; AuditLog.writer := task |}
  = fold_left AuditLog.step (op_audit (SomeOp o)) {| sink := audit w; AuditLog.writer := task |}.
Proof. destruct o; simpl; try done; by case_match. Qed.

Definition log_of (s : system) : AuditLog.log :=
  {| sink := audit (shared s); AuditLog.writer := writer s |}.

Lemma log_eta (l : AuditLog.log) : {| sink := sink l; AuditLog.writer := AuditLog.writer l |} = l.
Proof. by destruct l. Qed.

(** A step that performs an operation changes the shared state as the operation does; the
    others that are not the components' own leave the limiters and the audit log alone. *)
Definition own_step (a : act) : bool :=
  match a with
  | CleanRates | CleanAuth | WriterOpen _ | WriterReceive | WriterWrite _ => true
  | _ => false
  end.

Lemma sys_step_op s a s' :
  sys_step state loaded_from s a = Some s' -> own_step a = false ->
  match next_op s a with
  | Some (SomeOp o) => exists h, shared s' = (exec_op h o (shared s)).2 /\ writer s' = writer s
                              /\ act_instant s a = check_instant h (shared s)
  | None => rate_limiter (shared s') = rate_limiter (shared s)
            /\ auth_limiter (shared s') = auth_limiter (shared s) /\ log_of s' = log_of s
  end.
Proof.
  destruct a; simpl; intros Hs Ho; try done; try injection Hs as <-; try done.
  - unfold loop_step. by case_match.
  - unfold bind_listener in Hs. repeat case_match; by simplify_eq.
  - unfold accept_connection. by repeat case_match.
  - unfold tls_handshake. by repeat case_match.
  - unfold receive_request. by repeat case_match.
  - unfold progress. destruct (tasks s !! c) as [[| |peer cert req [r|X o k]]|]; try done.
    exists h. by destruct (exec_op h o (shared s)) as [[x|] w].
  - unfold relay_progress. destruct (relays s !! c) as [[r|X o k]|]; try done.
    exists h. by destruct (exec_op h o (shared s)) as [[x|] w].
  - unfold reload_config. by repeat case_match.
  - unfold loop_step. by case_match.
Qed.

Lemma rate_refines s a s' :
  sys_step state loaded_from s a = Some s' ->
  rate_limiter (shared s') = fold_left RateLimiter.step (rate_calls s a) (rate_limiter (shared s)).
Proof.
  intros Hs. destruct (own_step a) eqn:Ho.
  - destruct a; try done; simpl in Hs; by injection Hs as <-.
  - pose proof (sys_step_op s a s' Hs Ho) as Hop. unfold rate_calls.
    destruct a; try done; destruct (next_op s _) as [[X o]|]; cbn [from_option];
      try (by destruct Hop); destruct Hop as (h' & -> & _ & ->); apply exec_rate.
Qed.

Lemma lockout_refines s a s' :
  sys_step state loaded_from s a = Some s' ->
  auth_limiter (shared s') = fold_left lockout_step (lockout_calls s a) (auth_limiter (shared s)).
Proof.
  intros Hs. destruct (own_step a) eqn:Ho.
  - destruct a; try done; simpl in Hs; by injection Hs as <-.
  - pose proof (sys_step_op s a s' Hs Ho) as Hop. unfold lockout_calls.
    destruct a; try done; destruct (next_op s _) as [[X o]|]; simpl; try (by destruct Hop as (?&?&?));
      destruct Hop as (h' & -> & _); apply exec_lockout.
Qed.

Lemma audit_refines s a s' :
  sys_step state loaded_from s a = Some s' ->
  log_of s' = fold_left AuditLog.step (audit_actions s a) (log_of s).
Proof.
  intros Hs. destruct (own_step a) eqn:Ho.
  - destruct a; try done; simpl in Hs; injection Hs as <-; try done;
      apply log_eta.
  - pose proof (sys_step_op s a s' Hs Ho) as Hop. unfold audit_actions.
    destruct a; try done; destruct (next_op s _) as [[X o]|]; simpl; try (by destruct Hop as (?&?&?));
      destruct Hop as (h' & Hw & Hr & _); unfold log_of; rewrite Hw, Hr; apply exec_audit.
Qed.

(** ** The accept loop *)

Lemma server_run_app v acts1 acts2 v1 :
  server_run v acts1 = Running v1 -> server_run v (acts1 ++ acts2) = server_run v1 acts2.
Proof.
  revert v. induction acts1 as [|a acts1 IH]; intros v; simpl; [by intros [= ->]|].
  destruct (server_step v a); [apply IH|done].
Qed.

Lemma server_refines s a s' :
  sys_step state loaded_from s a = Some s' ->
  server_run (srv s) (server_actions s a) = Running (srv s').
Proof.
  assert (Hone : forall v x v', server_step v x = Running v' -> server_run v [x] = Running v').
  { intros v x v' E. simpl. by rewrite E. }
  destruct a; simpl; intros Hs; try injection Hs as <-; try done.
  - unfold loop_step. simpl. by destruct (at_loop (srv s)).
  - unfold bind_listener in Hs. destruct (at_loop (srv s)); try by simplify_eq.
    cbv zeta in Hs. destruct (server_step _ _) eqn:E; simplify_eq. by apply Hone.
  - unfold accept_connection. destruct (listener s); [|done]. simpl.
    by destruct (bound (srv s) && _).
  - unfold tls_handshake. destruct (tasks s !! c) as [[peer| |]|]; try done.
    by destruct r as [[certs|e]|].
  - unfold receive_request. by destruct (tasks s !! c) as [[| |]|].
  - unfold progress. destruct (tasks s !! c) as [[| |peer cert req [resp|X o k]]|]; try done.
    by destruct (exec_op h o (shared s)) as [[x|] w].
  - unfold relay_progress. destruct (relays s !! c) as [[|X o k]|]; try done.
    by destruct (exec_op h o (shared s)) as [[x|] w].
  - unfold reload_config. destruct loaded_from as [path|]; [|done].
    destruct (load_from_path env path) as [cfg|e]; simpl; by destruct (swapped (srv s)) eqn:Es.
  - unfold loop_step. simpl. by destruct (bound (srv s) && notified (srv s)).
Qed.

(** ** Runs *)

Lemma rate_run acts s s' :
  sys_run state loaded_from s acts = Some s' ->
  rate_limiter (shared s')
  = RateLimiter.run (rate_limiter (shared s)) (project rate_calls s acts).
Proof. apply (project_fold (fun s => rate_limiter (shared s))), rate_refines. Qed.

Lemma lockout_runs acts s s' :
  sys_run state loaded_from s acts = Some s' ->
  auth_limiter (shared s') = lockout_run (auth_limiter (shared s)) (project lockout_calls s acts).
Proof. apply (project_fold (fun s => auth_limiter (shared s))), lockout_refines. Qed.

Lemma audit_run acts s s' :
  sys_run state loaded_from s acts = Some s' ->
  log_of s' = AuditLog.run (log_of s) (project audit_actions s acts).
Proof. apply (project_fold log_of), audit_refines. Qed.

Lemma server_runs acts s s' :
  sys_run state loaded_from s acts = Some s' ->
  server_run (srv s) (project server_actions s acts) = Running (srv s').
Proof.
  apply (project_runs srv (fun v l v' => server_run v l = Running v')); [done| |apply server_refines].
  intros v l1 v1 l2 v2 E. by rewrite (server_run_app _ _ _ _ E).
Qed.

End Refine.
