(* ===== verification/SystemLive.v ===== *)
(** * Requests are answered

    A connection task that keeps being scheduled answers its request: its program is of bounded
    length (Termination.v), the steps of the other tasks leave it where it is, and no operation
    panics while the clock has room for the penalties and the lockout. *)

From S2P Require Import Prelude RustStr F64 Net External Json Config RateLimiter AuthLimiter.
From S2P Require Import Conditions Rules Metrics AuditLog Tls Upgrade Path Auth Effects World.
From S2P Require Import Evaluate Authenticate Handle Forward Accounting Termination Server.
From S2P Require Import System SystemInv.

Open Scope Z_scope.

Section Live.
Context `{NumberApi} `{RegexApi} `{!JsonApi} `{IpNetApi} `{HttpApi} `{X509Api} `{!RustlsApi}.
Context `{EventApi}.

(** ** Panics *)

Lemma take_token_panic now max rate q b b' :
  take_token now max rate q b = (Panic, b') -> instant_add now (from_secs q) = None.
Proof. unfold take_token. repeat case_match; by intros [=]. Qed.

Lemma check_panic rl now key m p q rl' :
  RateLimiter.check rl now key m p q = (Panic, rl') -> instant_add now (from_secs q) = None.
Proof.
  unfold RateLimiter.check, check_bucket. destruct (m =? 0); [done|].
  destruct (is_none _ && _); [done|]. destruct (_ : outcome bool * RateBucket) as [r b] eqn:E.
  intros [= -> _]. repeat case_match; simplify_eq; by eapply take_token_panic.
Qed.

Lemma record_failure_panic al now key max window lockout al' :
  record_failure al now key max window lockout = (Panic, al') -> instant_add now lockout = None.
Proof.
  unfold record_failure, fail_entry. repeat case_match; intros; by simplify_eq.
Qed.

(** The clock has room for what the operation may add to it. *)
Definition has_time (t : Instant) {X} (o : op X) : Prop :=
  match o with
  | RateCheck _ _ _ q => is_Some (instant_add t (from_secs q))
  | AuthRecordFailure _ _ _ lockout => is_Some (instant_add t lockout)
  | _ => True
  end.

Lemma exec_done h X (o : op X) w :
  has_time (now w) o -> exists x, exec_op h o w = (Done x, (exec_op h o w).2).
Proof.
  destruct o; simpl; intros Ht; eauto.
  - destruct (record_failure _ _ _ _ _ _) as [[x|] al] eqn:E; [eauto|].
    apply record_failure_panic in E. rewrite E in Ht. by destruct Ht.
  - destruct (RateLimiter.check _ _ _ _ _ _) as [[x|] rl] eqn:E; [eauto|].
    apply check_panic in E. destruct (instant_add_earlier (check_instant h w) _ _
      (Z.le_min_r _ _) Ht) as [u Hu]. by rewrite E in Hu.
Qed.

Definition clock_room (t : Instant) (cfgs : list ProxyConfig) : Prop :=
  is_Some (instant_add t AUTH_FAIL_LOCKOUT)
  /\ forall config q, config ∈ cfgs -> q ∈ rule_penalties config ->
       is_Some (instant_add t (from_secs q)).

Lemma clock_room_earlier t t' cfgs cfgs' :
  t <= t' -> (forall c, c ∈ cfgs -> c ∈ cfgs') -> clock_room t' cfgs' -> clock_room t cfgs.
Proof. intros Ht Hc [Hl Hp]. split; eauto using instant_add_earlier. Qed.

(** What a handler does next fits the clock, whichever configuration it has read. *)
Lemma next_has_time {A X} (p : prog A) (o : op X) k t cfgs now :
  reads_once p -> reaches p t (Do o k) -> Forall (known cfgs) t -> clock_room now cfgs ->
  has_time now o.
Proof.
  intros Hp Hr Hk [Hl Hq]. destruct (reads_once_trace _ _ _ Hp Hr)
    as [[_ Hd]|(t1 & config & t2 & -> & _ & _ & Hd)].
  - destruct o; try done; by destruct Hd.
  - apply Forall_app in Hk as [_ Hk]. apply Forall_cons in Hk as [Hc _].
    destruct Hd as [Ho _]. destruct o; try done; simpl in *; [by subst|eauto].
Qed.

(** ** The steps of the other tasks *)

Context (state : ProxyState) (loaded_from : option string).

Lemma exec_now h X (o : op X) w : now w <= now (exec_op h o w).2.
Proof. destruct o; simpl; try lia; case_match; simpl; lia. Qed.

(** Time does not go back, and a configuration that was in force stays known. *)
Lemma sys_step_time s a s' :
  sys_step state loaded_from s a = Some s' ->
  now (shared s) <= now (shared s') /\ forall c, c ∈ configs s -> c ∈ configs s'.
Proof.
  assert (Hsame : forall v, now (shared v) = now (shared s) -> configs v = configs s ->
    now (shared s) <= now (shared v) /\ forall c, c ∈ configs s -> c ∈ configs v).
  { intros v -> ->. by split. }
  assert (Hexec : forall h X (o : op X) v, shared v = (exec_op h o (shared s)).2 ->
    configs v = configs s ->
    now (shared s) <= now (shared v) /\ forall c, c ∈ configs s -> c ∈ configs v).
  { intros h X o v -> ->. split; [apply exec_now|done]. }
  destruct a; simpl; intros Hs; try injection Hs as <-; try (by apply Hsame).
  - unfold loop_step. case_match; by apply Hsame.
  - unfold bind_listener in Hs. repeat case_match; simplify_eq; by apply Hsame.
  - unfold accept_connection. repeat case_match; by apply Hsame.
  - unfold tls_handshake. repeat case_match; by apply Hsame.
  - unfold receive_request. repeat case_match; by apply Hsame.
  - unfold progress. destruct (tasks s !! c) as [[| |peer cert req [r|X o k]]|];
      try by apply Hsame.
    apply (Hexec h X o); by destruct (exec_op h o (shared s)) as [[x|] w].
  - unfold relay_progress. destruct (relays s !! c) as [[r|X o k]|]; try by apply Hsame.
    apply (Hexec h X o); by destruct (exec_op h o (shared s)) as [[x|] w].
  - unfold reload_config. repeat case_match; try by apply Hsame. simpl. split; [lia|set_solver].
  - unfold loop_step. case_match; by apply Hsame.
  - simpl. split; [lia|done].
Qed.

Lemma sys_run_time acts s s' :
  sys_run state loaded_from s acts = Some s' ->
  now (shared s) <= now (shared s') /\ forall c, c ∈ configs s -> c ∈ configs s'.
Proof.
  revert s. induction acts as [|a acts IH]; intros s; simpl; [by intros [= <-]|].
  destruct (sys_step state loaded_from s a) as [s1|] eqn:E; [|done]. intros Hr.
  destruct (sys_step_time _ _ _ E) as [Ht Hc], (IH _ Hr) as [Ht' Hc']. split; [lia|eauto].
Qed.

Definition length_of (c : nat) (s : system) : Z :=
  Z.of_nat (length (trace_of (Handler c) (journal s))).

Definition moves (c : nat) (a : act) : bool :=
  match a with
  | Progress c' _ => bool_decide (c' = c)
  | _ => false
  end.

(** A task keeps its place while another runs. *)
Lemma sys_step_other s a s' c peer cert req p :
  sys_inv state s -> sys_step state loaded_from s a = Some s' ->
  (forall c', a = EndConnection c' -> c' <> c) -> moves c a = false ->
  tasks s !! c = Some (Serving peer cert req p) ->
  tasks s' !! c = Some (Serving peer cert req p) /\ length_of c s' = length_of c s.
Proof.
  intros I Hs He Hm Ht.
  assert (Hend : forall v c', c' <> c -> tasks v = tasks s -> journal v = journal s ->
    tasks (end_connection v c') !! c = Some (Serving peer cert req p)
    /\ length_of c (end_connection v c') = length_of c s).
  { intros v c' Hc Hv Hj. unfold length_of. simpl. rewrite Hv, Hj. by rewrite lookup_delete_ne. }
  destruct a; simpl in Hs, Hm; try injection Hs as <-; try done.
  - unfold loop_step. by case_match.
  - unfold bind_listener in Hs. repeat case_match; by simplify_eq.
  - assert (next_conn (srv s) <> c).
    { destruct (inv_serving _ _ (sys_request _ _ I) _ _ _ _ _ Ht) as [Hr _].
      destruct (inv_requested _ _ (sys_request _ _ I) _ _ _ _ Hr) as [Hlt _]. lia. }
    unfold accept_connection. repeat case_match; try done. simpl. by rewrite lookup_insert_ne.
  - unfold tls_handshake. destruct (decide (c0 = c)) as [->|Hne]; [by rewrite Ht|].
    repeat case_match; try done; [|by apply Hend]. simpl. by rewrite lookup_insert_ne.
  - unfold receive_request. destruct (decide (c0 = c)) as [->|Hne]; [by rewrite Ht|].
    repeat case_match; try done. simpl. by rewrite lookup_insert_ne.
  - apply bool_decide_eq_false in Hm. unfold progress.
    destruct (tasks s !! c0) as [[| |peer' cert' req' [r|X o k]]|]; try done.
    destruct (exec_op h o (shared s)) as [[x|] w]; [|by apply Hend].
    unfold length_of. simpl. rewrite lookup_insert_ne, trace_of_snoc, decide_False by congruence.
    by rewrite app_nil_r.
  - apply Hend; [by apply He|done|done].
  - unfold relay_progress. destruct (relays s !! c0) as [[r|X o k]|]; try done.
    destruct (exec_op h o (shared s)) as [[x|] w]; [|done].
    unfold length_of. simpl. rewrite trace_of_snoc, decide_False by congruence.
    by rewrite app_nil_r.
  - unfold reload_config. by repeat case_match.
  - unfold loop_step. by case_match.
Qed.

(** Its own step performs its next operation. *)
Lemma progress_serving s c h peer cert req p :
  sys_inv state s -> clock_room (now (shared s)) (configs s) ->
  tasks s !! c = Some (Serving peer cert req p) ->
  match p with
  | Ret _ => progress s c h = s
  | Do _ _ =>
      exists p', tasks (progress s c h) !! c = Some (Serving peer cert req p')
      /\ length_of c (progress s c h) = length_of c s + 1
  end.
Proof.
  intros I Hroom Ht. unfold progress. rewrite Ht. destruct p as [r|X o k]; [done|].
  destruct (inv_serving _ _ (sys_request _ _ I) _ _ _ _ _ Ht) as [_ Hr].
  assert (Hk : Forall (known (configs s)) (trace_of (Handler c) (journal s))).
  { apply Forall_forall. intros e He. by eapply trace_known, He; apply I. }
  destruct (exec_done h X o (shared s)) as [x Hx].
  { by eapply next_has_time; [apply handle_reads_once|exact Hr|exact Hk|]. }
  rewrite Hx. exists (k x). simpl. rewrite lookup_insert_eq. split; [done|].
  unfold length_of. simpl. rewrite trace_of_snoc, decide_True by done. rewrite length_app. simpl. lia.
Qed.

Definition steps_of (c : nat) (acts : list act) : Z :=
  Z.of_nat (length (List.filter (moves c) acts)).

Definition is_ret {A} (p : prog A) : bool :=
  match p with
  | Ret _ => true
  | _ => false
  end.

Lemma sys_run_room a acts s s1 s' :
  sys_step state loaded_from s a = Some s1 -> sys_run state loaded_from s1 acts = Some s' ->
  clock_room (now (shared s')) (configs s') -> clock_room (now (shared s)) (configs s).
Proof.
  intros E Hr. destruct (sys_run_time (a :: acts) s s') as [Ht Hc]; [simpl; by rewrite E|].
  by apply clock_room_earlier.
Qed.

Lemma serving_step a s s' c peer cert req p :
  sys_inv state s -> sys_step state loaded_from s a = Some s' ->
  clock_room (now (shared s)) (configs s) -> EndConnection c <> a ->
  tasks s !! c = Some (Serving peer cert req p) ->
  exists p', tasks s' !! c = Some (Serving peer cert req p')
  /\ (if is_ret p then is_ret p' = true
      else length_of c s' = length_of c s + if moves c a then 1 else 0).
Proof.
  intros I E Hroom He Ht. destruct (moves c a) eqn:Em.
  - destruct a; try done. simpl in Em, E. apply bool_decide_eq_true in Em as ->. injection E as <-.
    pose proof (progress_serving s c h peer cert req p I Hroom Ht) as Hp.
    destruct p as [r|X o k]; [|done]. rewrite Hp. by exists (Ret r).
  - destruct (sys_step_other s a s' c peer cert req p I E) as [Ht' Hl]; [|done|done|].
    { intros c' -> ->. done. }
    exists p. split; [done|]. destruct (is_ret p) eqn:Er; [done|]. lia.
Qed.

Lemma serving_run acts s s' c peer cert req p :
  sys_inv state s -> sys_run state loaded_from s acts = Some s' ->
  clock_room (now (shared s')) (configs s') -> EndConnection c ∉ acts ->
  tasks s !! c = Some (Serving peer cert req p) ->
  exists p', tasks s' !! c = Some (Serving peer cert req p')
  /\ (is_ret p' = true \/ is_ret p = false /\ length_of c s' = length_of c s + steps_of c acts).
Proof.
  revert s p. induction acts as [|a acts IH]; intros s p I; simpl.
  { intros [= <-] _ _ Ht. exists p. split; [done|]. unfold steps_of. simpl.
    destruct (is_ret p); [by left|right]. lia. }
  destruct (sys_step state loaded_from s a) as [s1|] eqn:E; [|done]. intros Hr Hroom He Ht.
  destruct (serving_step a s s1 c peer cert req p I E) as (p1 & Ht1 & Hp1);
    [by eapply sys_run_room|set_solver|done|].
  destruct (IH s1 p1 ltac:(by eapply sys_step_inv) Hr Hroom ltac:(set_solver) Ht1)
    as (p' & Ht' & Hp').
  exists p'. split; [done|]. unfold steps_of in *. simpl.
  destruct Hp' as [Hp'|[Hn Hp']]; [by left|]. destruct (is_ret p); [congruence|]. right.
  split; [done|]. destruct (moves c a); simpl; lia.
Qed.

(** Its program is over once it has been given as many steps as the handler may take. *)
Lemma task_answers s c peer cert req p n :
  sys_inv state s -> tasks s !! c = Some (Serving peer cert req p) -> 0 <= n ->
  (forall config, config ∈ configs s -> Z.of_nat (length (rules_of config)) <= n) ->
  HANDLER_BOUND + n <= length_of c s -> exists resp, p = Ret resp.
Proof.
  intros I Ht Hn Hrules Hlen. destruct (inv_serving _ _ (sys_request _ _ I) _ _ _ _ _ Ht) as [_ Hr].
  pose proof (within_reaches _ _ _ _ (handle_within state req peer cert) Hr) as Hw.
  assert (Htotal : total_read (trace_of (Handler c) (journal s)) <= n).
  { eapply reads_once_total; [apply handle_reads_once|exact Hr|done|].
    intros [X o x] He. pose proof (trace_known s _ _ (sys_config _ _ I) He) as Hk.
    destruct o; try done. by apply Hrules. }
  unfold length_of in Hlen. destruct p as [resp|X o k]; [by exists resp|].
  destruct Hw as [Hw _]. lia.
Qed.

End Live.
