(* ===== verification/SystemBooks.v ===== *)
(** * The books of the running proxy

    The journal of a run is the interleaving of the traces of its requests and of the relays of
    upgraded connections, so what the journal added to the counters and sent to the audit log is
    the sum of what the requests did.  Relays only report upstream errors. *)

From S2P Require Import Prelude RustStr F64 Net External Json Config RateLimiter AuthLimiter.
From S2P Require Import Conditions Rules Metrics AuditLog Tls Upgrade Path Auth Effects World.
From S2P Require Import Evaluate Authenticate Handle Forward Accounting Server System SystemInv.

Open Scope Z_scope.

Section Books.
Context `{NumberApi} `{RegexApi} `{!JsonApi} `{IpNetApi} `{HttpApi} `{X509Api} `{!RustlsApi}.
Context `{EventApi}.
Context (state : ProxyState) (loaded_from : option string).

(** ** Relays *)

Definition relay_op (X : Type) (o : op X) : Prop :=
  match o with
  | FetchAdd c => c = upstream_errors_total \/ c = upstream_timeouts_total
  | AbortConnection | ClientUpgraded | DockerUpgraded | CopyBothWays => True
  | _ => False
  end.

Lemma await_upgrade_relays side : relay_op _ side -> only relay_op (await_upgrade side).
Proof.
  intros Hs. split; [done|]. intros r. cbn [bind perform].
  destruct r as [[]|]; repeat split; first [by left|by right].
Qed.

Lemma upgrade_task_relays : only relay_op upgrade_task.
Proof.
  unfold upgrade_task. apply only_bind; [by apply await_upgrade_relays|]. intros []; [|done].
  apply only_bind; [by apply await_upgrade_relays|]. by intros [].
Qed.

Record relay_inv (s : system) : Prop := {
  inv_relays : forall c p, relays s !! c = Some p -> only relay_op p;
  inv_relayed : forall c e, (Relay c, e) ∈ journal s -> allowed relay_op e
}.

Lemma relay_frame s s' :
  relays s' = relays s -> journal s' = journal s -> relay_inv s -> relay_inv s'.
Proof. intros Hr Hj [I1 I2]. constructor; rewrite ?Hr, ?Hj; done. Qed.

Lemma spawned_relays X (o : op X) c rs :
  (forall c' p, rs !! c' = Some p -> only relay_op p) ->
  forall c' p, spawned o c rs !! c' = Some p -> only relay_op p.
Proof.
  intros Hrs. destruct o; try exact Hrs. simpl.
  intros c' p [[<- <-]|[Hne Hl]]%lookup_insert_Some; [apply upgrade_task_relays|by eapply Hrs].
Qed.

Lemma progress_relay s c h : relay_inv s -> relay_inv (progress s c h).
Proof.
  intros I. unfold progress. destruct (tasks s !! c) as [[| |peer cert req [r|X o k]]|]; try done.
  destruct (exec_op h o (shared s)) as [[x|] w]; [|by apply (relay_frame s)].
  destruct I as [I1 I2]. constructor; simpl.
  - by apply spawned_relays.
  - intros c' e [Hin|Hin]%elem_of_app; [by eapply I2|]. by apply list_elem_of_singleton in Hin.
Qed.

Lemma relay_progress_relay s c h : relay_inv s -> relay_inv (relay_progress s c h).
Proof.
  intros I. pose proof I as [I1 I2]. unfold relay_progress.
  destruct (relays s !! c) as [[r|X o k]|] eqn:Er; [|destruct (I1 _ _ Er) as [Ho Hk]|done].
  - constructor; simpl; [|done]. intros c' p [_ Hl]%lookup_delete_Some. by eapply I1.
  - destruct (exec_op h o (shared s)) as [[x|] w]; constructor; simpl; try done.
    + intros c' p [[<- <-]|[Hne Hl]]%lookup_insert_Some; [apply Hk|by eapply I1].
    + intros c' e [Hin|Hin]%elem_of_app; [by eapply I2|].
      apply list_elem_of_singleton in Hin. by injection Hin as _ ->.
    + intros c' p [_ Hl]%lookup_delete_Some. by eapply I1.
Qed.

Lemma sys_step_relay s a s' :
  sys_step state loaded_from s a = Some s' -> relay_inv s -> relay_inv s'.
Proof.
  destruct a; simpl; try (intros [= <-]); intros;
    eauto using progress_relay, relay_progress_relay; try by apply (relay_frame s).
  - unfold loop_step. case_match; [|done]. by apply (relay_frame s).
  - unfold bind_listener in *. repeat case_match; simplify_eq; try done; by apply (relay_frame s).
  - unfold accept_connection. repeat case_match; try done; by apply (relay_frame s).
  - unfold tls_handshake. repeat case_match; try done; by apply (relay_frame s).
  - unfold receive_request. repeat case_match; try done; by apply (relay_frame s).
  - unfold reload_config. repeat case_match; try done; by apply (relay_frame s).
  - unfold loop_step. case_match; [|done]. by apply (relay_frame s).
Qed.

Lemma sys_run_relay acts s s' :
  sys_run state loaded_from s acts = Some s' -> relay_inv s -> relay_inv s'.
Proof.
  revert s. induction acts as [|a acts IH]; intros s; simpl; [by intros [= <-]|].
  destruct (sys_step state loaded_from s a) as [s1|] eqn:E; [|done]. eauto using sys_step_relay.
Qed.

Lemma boot_relay start t0 : relay_inv (boot start t0).
Proof. constructor; simpl; [done|]. intros c e Hin. set_solver. Qed.

(** ** Who did it *)

Lemma trace_of_in who j e : (who, e) ∈ j -> e ∈ trace_of who j.
Proof.
  intros Hin. apply list_elem_of_omap. exists (who, e). split; [done|]. simpl. by rewrite decide_True.
Qed.

Lemma in_trace_of who j e : e ∈ trace_of who j -> (who, e) ∈ j.
Proof.
  intros ([who' e'] & Hin & He)%list_elem_of_omap. simpl in He. case_decide; [|done].
  simplify_eq. done.
Qed.

Lemma handler_asked s c e :
  request_inv state s -> (Handler c, e) ∈ journal s -> is_Some (requests s !! c).
Proof.
  intros I Hin. destruct (requests s !! c) eqn:Ec; [eauto|].
  apply (inv_silent _ _ I) in Ec. apply trace_of_in in Hin. rewrite Ec in Hin. set_solver.
Qed.

(** What the Docker socket was sent, a request of some connection sent. *)
Lemma sent_by_handler s r :
  request_inv state s -> relay_inv s -> r ∈ sends (journal s) ->
  exists c peer cert req before answer after p,
    requests s !! c = Some (peer, cert, req) /\ presented cert
    /\ trace_of (Handler c) (journal s) = before ++ Event (SendRequest r) answer :: after
    /\ reaches (handle state req peer cert) (trace_of (Handler c) (journal s)) p.
Proof.
  intros I R Hin. unfold sends in Hin. apply list_elem_of_In, List.in_concat in Hin as (l & Hl%list_elem_of_In & Hr%list_elem_of_In).
  apply list_elem_of_fmap in Hl as ([who e] & -> & Hin). simpl in Hr.
  destruct e as [X o x]. destruct o; simpl in Hr; try set_solver.
  apply list_elem_of_singleton in Hr as <-. destruct who as [c|c].
  - destruct (handler_asked _ _ _ I Hin) as [[[peer cert] req'] Hc].
    destruct (inv_requested _ _ I _ _ _ _ Hc) as (_ & Hcert & p & Hp).
    apply trace_of_in, list_elem_of_split in Hin as (before & after & E).
    by exists c, peer, cert, req', before, x, after, p.
  - by apply (inv_relayed _ R) in Hin.
Qed.

(** ** The journal is the sum of its traces *)

Definition sum_over (f : nat -> Z) (cs : list nat) : Z := foldr Z.add 0 (map f cs).

Lemma sum_over_add f g cs : sum_over (fun c => f c + g c) cs = sum_over f cs + sum_over g cs.
Proof. unfold sum_over. induction cs as [|c cs IH]; simpl; lia. Qed.

Lemma sum_over_one (v : Z) c cs :
  NoDup cs -> c ∈ cs -> sum_over (fun c' => if decide (c' = c) then v else 0) cs = v.
Proof.
  unfold sum_over. induction 1 as [|c' cs Hc _ IH]; [set_solver|]. simpl.
  intros [->|Hin]%elem_of_cons.
  - rewrite decide_True by done.
    assert (Hz : forall l, c' ∉ l ->
      foldr Z.add 0 (map (fun c0 => if decide (c0 = c') then v else 0) l) = 0).
    { induction l as [|x l IHl]; [done|]. intros Hx. simpl. rewrite decide_False by set_solver.
      rewrite IHl; [lia|set_solver]. }
    rewrite Hz by done. lia.
  - rewrite IH by done. rewrite decide_False; [lia|]. by intros ->.
Qed.

Lemma sum_over_const (v : Z) f cs :
  (forall c, c ∈ cs -> f c = v) -> sum_over f cs = v * Z.of_nat (length cs).
Proof.
  unfold sum_over. induction cs as [|c cs IH]; intros Hf; simpl; [lia|].
  rewrite Hf by set_solver. rewrite IH by set_solver. lia.
Qed.

Lemma journal_tally w (j : list (owner * event)) cs :
  NoDup cs -> (forall c e, (Handler c, e) ∈ j -> c ∈ cs) ->
  (forall c e, (Relay c, e) ∈ j -> event_weight w e = 0) ->
  tally w (map snd j) = sum_over (fun c => tally w (trace_of (Handler c) j)) cs.
Proof.
  intros Hnd. induction j as [|[[c|c] e] j IH]; intros Hc Hr.
  - by rewrite (sum_over_const 0).
  - cbn [map snd]. change (tally w (e :: ?l)) with (event_weight w e + tally w l).
    rewrite IH by set_solver.
    rewrite <- (sum_over_one (event_weight w e) c cs) at 1 by set_solver.
    rewrite <- sum_over_add. unfold sum_over. f_equal. apply map_ext. intros c'.
    unfold trace_of. cbn [omap list_omap fst snd]. destruct (decide (Handler c = Handler c')) as [E|E].
    + injection E as ->. rewrite decide_True by done. done.
    + rewrite decide_False by congruence. lia.
  - cbn [map snd]. change (tally w (e :: ?l)) with (event_weight w e + tally w l).
    rewrite (Hr c e) by set_solver. rewrite IH by set_solver. unfold sum_over. f_equal.
Qed.

(** ** The requests of a system *)

Definition asked (s : system) : list nat := map fst (map_to_list (requests s)).

Lemma asked_NoDup s : NoDup (asked s).
Proof. apply NoDup_fst_map_to_list. Qed.

Lemma asked_length s : length (asked s) = size (requests s).
Proof. unfold asked. by rewrite length_map, length_map_to_list. Qed.

Lemma asked_lookup s c : c ∈ asked s <-> is_Some (requests s !! c).
Proof.
  unfold asked. rewrite list_elem_of_fmap. split.
  - intros ([c' r] & -> & Hin%elem_of_map_to_list). eauto.
  - intros [r Hr]. exists (c, r). split; [done|]. by apply elem_of_map_to_list.
Qed.

(** Every request has been answered. *)
Definition settled (s : system) : Prop :=
  forall c peer cert req, requests s !! c = Some (peer, cert, req) ->
    exists resp, reaches (handle state req peer cert) (trace_of (Handler c) (journal s)) (Ret resp).

Definition has_answered (s : system) (c : nat) : bool :=
  match tasks s !! c with
  | Some (Serving _ _ _ (Ret _)) => true
  | _ => false
  end.

Lemma answered_settled s :
  request_inv state s -> forallb (has_answered s) (asked s) = true -> settled s.
Proof.
  intros I Ha c peer cert req Hc. rewrite forallb_forall in Ha.
  assert (Hin : In c (asked s)) by (apply list_elem_of_In, asked_lookup; eauto).
  apply Ha in Hin. unfold has_answered in Hin.
  destruct (tasks s !! c) as [[| |peer' cert' req' [resp|]]|] eqn:Et; try done.
  destruct (inv_serving _ _ I _ _ _ _ _ Et) as [Hr Hx]. exists resp. by simplify_eq.
Qed.

Lemma settled_tally w s (v : Z) :
  request_inv state s -> relay_inv s -> settled s ->
  (forall X (o : op X), relay_op X o -> w X o = 0) ->
  (forall req peer cert, shifts w (handle state req peer cert) (fun _ d => d = v)) ->
  tally w (map snd (journal s)) = v * Z.of_nat (size (requests s)).
Proof.
  intros I R Hq Hw Hv. rewrite (journal_tally w _ (asked s)).
  - rewrite <- asked_length. apply sum_over_const. intros c [[[peer cert] req] Hc]%asked_lookup.
    destruct (Hq _ _ _ _ Hc) as [resp Hr]. exact (shifts_trace _ _ _ _ _ (Hv _ _ _) Hr).
  - apply asked_NoDup.
  - intros c e Hin. apply asked_lookup. by eapply handler_asked.
  - intros c e Hin. pose proof (inv_relayed _ R _ _ Hin) as Ha. destruct e as [X o x]. by apply Hw.
Qed.

(** ** Counters and audit events *)

Definition denial_sent_weight : weight := fun X o =>
  match o with
  | AuditSend ev => if denial_name ev then 1 else 0
  | _ => 0
  end.

(** The denials handed to the audit log. *)
Definition denials_sent (j : list (owner * event)) : Z := tally denial_sent_weight (map snd j).

Lemma adds_tally c j : count_adds c (adds j) = tally (adds_weight c) (map snd j).
Proof.
  induction j as [|[who [X o x]] j IH]; [done|].
  change (adds ((who, Event o x) :: j)) with (added_by (Event o x) ++ adds j).
  change (tally ?w (map snd ((who, Event o x) :: j))) with (w X o + tally w (map snd j)).
  rewrite <- IH. unfold count_adds. rewrite filter_app, length_app.
  destruct o as [| | | |c'| | | | | | | | | | | | | | | | | | | |]; simpl; try lia.
  rewrite filter_cons. destruct (decide (c' = c)); simpl; lia.
Qed.

(** A counter is what the journal added to it, modulo its width. *)
Lemma counter_tally s c :
  shared_inv s ->
  counters (metrics (shared s)) c
  = tally (adds_weight c) (map snd (journal s)) mod (U64_MAX + 1).
Proof.
  intros [_ _ I]. rewrite I, fetch_add_all by done. by rewrite adds_tally.
Qed.

Lemma denial_tally t :
  tally denial_weight t = tally (adds_weight requests_denied) t - tally denial_sent_weight t.
Proof.
  unfold tally. induction t as [|[X o x] t IH]; [done|]. cbn [map foldr event_weight].
  rewrite IH. destruct o as [| | | |[]| | | | |ev| | | | | | | | | | | | | | |]; simpl; try lia.
  destruct (denial_name ev); lia.
Qed.

End Books.
