(* ===== verification/SystemAudit.v ===== *)
(** * The audit file of the running proxy

    The audit log of the system, traced back to the handlers: the events sent to it are those of
    the journal, in order, and the file is their lines as long as it opens, no write fails and
    the queue has room ([src/audit.rs] inside [src/main.rs]). *)

From S2P Require Import Prelude RustStr F64 Net External Json Config RateLimiter AuthLimiter.
From S2P Require Import Conditions Rules Metrics AuditLog Tls Upgrade Path Auth Effects World.
From S2P Require Import Evaluate Authenticate Handle Forward Accounting Server System SystemInv.
From S2P Require Import SystemRefine SystemBooks.

Open Scope Z_scope.

Section Audit.
Context `{NumberApi} `{RegexApi} `{!JsonApi} `{IpNetApi} `{HttpApi} `{X509Api} `{!RustlsApi}.
Context `{EventApi}.
Context (state : ProxyState) (loaded_from : option string).

(** ** The events of the journal *)

Definition sent_event (e : event) : option AuditEvent :=
  match e with
  | Event o _ => match o with AuditSend ev => Some ev | _ => None end
  end.

(** What the handlers have handed to the audit log, in the order of the operations. *)
Definition audited (j : list (owner * event)) : list AuditEvent :=
  omap (fun we => sent_event we.2) j.

Lemma audited_snoc j who e :
  audited (j ++ [(who, e)]) = audited j ++ match sent_event e with Some ev => [ev] | None => [] end.
Proof. unfold audited. rewrite omap_app. cbn [omap list_omap snd]. by destruct (sent_event e). Qed.

Lemma exec_done_sends h X (o : op X) w x w' :
  exec_op h o w = (Done x, w') ->
  match sent_event (Event o x) with Some ev => [ev] | None => [] end
  = sent (op_audit (SomeOp o)).
Proof. by destruct o. Qed.

Lemma exec_panic_sends_nothing h X (o : op X) w w' :
  exec_op h o w = (Panic, w') -> sent (op_audit (SomeOp o)) = [].
Proof. by destruct o. Qed.

Lemma sys_step_audited s a s' :
  sys_step state loaded_from s a = Some s' ->
  audited (journal s') = audited (journal s) ++ sent (audit_actions s a).
Proof.
  destruct a; simpl; intros Hs; try injection Hs as <-; try (by rewrite app_nil_r).
  - unfold loop_step. rewrite app_nil_r. by case_match.
  - unfold bind_listener in Hs. rewrite app_nil_r. repeat case_match; by simplify_eq.
  - unfold accept_connection. rewrite app_nil_r. by repeat case_match.
  - unfold tls_handshake, end_connection. rewrite app_nil_r. by repeat case_match.
  - unfold receive_request. rewrite app_nil_r. by repeat case_match.
  - unfold progress, audit_actions. cbn [next_op].
    destruct (tasks s !! c) as [[| |peer cert req [r|X o k]]|]; try (by rewrite app_nil_r).
    cbn [from_option]. destruct (exec_op h o (shared s)) as [[x|] w] eqn:E.
    + cbn [record journal set_relays set_tasks set_shared]. rewrite audited_snoc. f_equal.
      exact (exec_done_sends _ _ _ _ _ _ E).
    + rewrite (exec_panic_sends_nothing _ _ _ _ _ E), app_nil_r. unfold end_connection.
      by case_match.
  - unfold relay_progress, audit_actions. cbn [next_op].
    destruct (relays s !! c) as [[r|X o k]|]; try (by rewrite app_nil_r).
    cbn [from_option]. destruct (exec_op h o (shared s)) as [[x|] w] eqn:E.
    + cbn [record journal set_relays set_shared]. rewrite audited_snoc. f_equal.
      exact (exec_done_sends _ _ _ _ _ _ E).
    + by rewrite (exec_panic_sends_nothing _ _ _ _ _ E), app_nil_r.
  - unfold reload_config. rewrite app_nil_r. by repeat case_match.
  - unfold loop_step. rewrite app_nil_r. by case_match.
Qed.

Lemma audited_run acts s s' :
  sys_run state loaded_from s acts = Some s' ->
  audited (journal s')
  = audited (journal s) ++ sent (project state loaded_from audit_actions s acts).
Proof.
  apply (project_runs state loaded_from (fun s => audited (journal s))
           (fun j l j' => j' = j ++ sent l)).
  - intros j. by rewrite app_nil_r.
  - intros j l1 j1 l2 j2 -> ->. unfold sent. by rewrite omap_app, app_assoc.
  - apply sys_step_audited.
Qed.

(** ** A file that opens and can be written, a queue with room *)

(** The file is opened on [contents], and no write fails. *)
Definition disk_works (contents : string) (a : act) : Prop :=
  match a with
  | WriterOpen (Ok c) => c = contents
  | WriterOpen (Err _) | WriterWrite (Failed _) => False
  | _ => True
  end.

(** Whenever an event may be sent, the queue has room for it. *)
Definition queue_has_room (s : system) (acts : list act) : Prop :=
  forall pre post s', acts = pre ++ post -> sys_run state loaded_from s pre = Some s' ->
    (length (queue_of (shared s')) < CHANNEL_CAPACITY)%nat.

(** [queue_has_room] can be evaluated. *)
Fixpoint room_checked (s : system) (acts : list act) : bool :=
  (length (queue_of (shared s)) <? CHANNEL_CAPACITY)%nat
  && match acts with
     | [] => true
     | a :: acts' =>
         match sys_step state loaded_from s a with
         | Some s' => room_checked s' acts'
         | None => true
         end
     end.

Lemma room_checked_ok s acts : room_checked s acts = true -> queue_has_room s acts.
Proof.
  intros Hc pre. revert s acts Hc. induction pre as [|a pre IH]; intros s acts Hc post s' -> Hr.
  - injection Hr as <-. destruct post; apply andb_true_iff in Hc as [Hq _]; by apply Nat.ltb_lt.
  - cbn [app room_checked sys_run] in *. apply andb_true_iff in Hc as [_ Hc].
    destruct (sys_step state loaded_from s a) as [s1|]; [|done]. by apply (IH s1 (pre ++ post) Hc post).
Qed.

Lemma next_op_opens contents s a :
  Forall (opens contents) (from_option op_audit [] (next_op s a)).
Proof. destruct (next_op s a) as [[X o]|]; [|constructor]. destruct o; repeat constructor. Qed.

Lemma audit_actions_open contents s a :
  disk_works contents a -> Forall (opens contents) (audit_actions s a).
Proof.
  intros Hd. destruct a; try exact (next_op_opens contents s _); apply Forall_singleton; try done;
    by destruct r.
Qed.

Lemma project_opens contents acts s :
  Forall (disk_works contents) acts ->
  Forall (opens contents) (project state loaded_from audit_actions s acts).
Proof.
  intros Hd. revert s. induction Hd as [|a acts Ha _ IH]; intros s; simpl; [constructor|].
  apply Forall_app. split; [by apply audit_actions_open|].
  destruct (sys_step state loaded_from s a); [apply IH|constructor].
Qed.

Lemma roomy_app l acts1 acts2 :
  roomy l acts1 -> roomy (AuditLog.run l acts1) acts2 -> roomy l (acts1 ++ acts2).
Proof.
  revert l. induction acts1 as [|a acts1 IH]; intros l; [done|]. cbn [app roomy].
  intros [Ha Hr] Hrest. split; [done|]. by apply IH.
Qed.

Lemma audit_actions_roomy s a :
  (length (queue_of (shared s)) < CHANNEL_CAPACITY)%nat -> roomy (log_of s) (audit_actions s a).
Proof.
  intros Hq. assert (Hop : forall so, roomy (log_of s) (op_audit so)).
  { intros [X o]. destruct o; repeat split. exact Hq. }
  assert (Hnext : roomy (log_of s) (from_option op_audit [] (next_op s a)))
    by (destruct (next_op s a); [apply Hop|done]).
  destruct a; first [exact Hnext|by split].
Qed.

Lemma project_roomy acts s s' :
  sys_run state loaded_from s acts = Some s' -> queue_has_room s acts ->
  roomy (log_of s) (project state loaded_from audit_actions s acts).
Proof.
  revert s. induction acts as [|a acts IH]; intros s Hr Hq; [done|]. cbn [project sys_run] in *.
  destruct (sys_step state loaded_from s a) as [s1|] eqn:E; [|done].
  apply roomy_app; [by apply audit_actions_roomy, (Hq [] (a :: acts) s)|].
  unfold AuditLog.run. rewrite <- (audit_refines state loaded_from s a s1 E).
  apply IH; [done|]. intros pre post s2 -> Hpre. apply (Hq (a :: pre) post s2); [done|].
  simpl. by rewrite E.
Qed.

(** ** The file *)

Lemma file_intact contents acts s s' :
  sys_run state loaded_from s acts = Some s' -> intact contents [] (log_of s) ->
  audited (journal s) = [] -> Forall (disk_works contents) acts -> queue_has_room s acts ->
  intact contents (audited (journal s')) (log_of s').
Proof.
  intros Hr Hi Hj Hd Hq. rewrite (audited_run acts s s' Hr), Hj.
  rewrite (audit_run state loaded_from acts s s' Hr).
  apply run_intact; [done|by apply project_opens|by eapply project_roomy].
Qed.

(** The denials among some events. *)
Definition denials (evs : list AuditEvent) : list AuditEvent := List.filter denial_name evs.

Lemma denials_audited j : denials_sent j = Z.of_nat (length (denials (audited j))).
Proof.
  unfold denials_sent, denials, audited. induction j as [|[who [X o x]] j IH]; [done|].
  cbn [map snd]. unfold tally in *. cbn [map foldr event_weight]. rewrite IH.
  cbn [omap list_omap snd sent_event]. destruct o; simpl; try lia.
  destruct (denial_name ev); simpl; lia.
Qed.

End Audit.
