(* ===== verification/SystemLockout.v ===== *)
(** * A lockout holds while other requests run

    Once an address is locked out and none of its requests is past its lockout test, it stays
    locked until the lock expires, whatever the other tasks do: its failures, the clean-ups and
    the other addresses leave the lock alone, and only a request that found the address free
    clears it. *)

From S2P Require Import Prelude RustStr F64 Net External Json Config RateLimiter AuthLimiter.
From S2P Require Import Conditions Rules Metrics AuditLog Tls Upgrade Path Auth Effects World.
From S2P Require Import Evaluate Authenticate Handle Forward Gate Termination Server.
From S2P Require Import System SystemInv SystemRefine SystemLive SystemBooks.

Open Scope Z_scope.

Section Lockout.
Context `{NumberApi} `{RegexApi} `{!JsonApi} `{IpNetApi} `{HttpApi} `{X509Api} `{!RustlsApi}.
Context `{EventApi}.
Context (state : ProxyState) (loaded_from : option string) (key : string).

(** The address was found free. *)
Definition admits (e : event) : Prop :=
  match e with
  | Event o x =>
      match o in op X return X -> Prop with
      | AuthIsBlocked k => fun blocked => k = key /\ blocked = false
      | _ => fun _ => False
      end x
  end.

Definition in_progress (s : system) (c : nat) : Prop :=
  match tasks s !! c with
  | Some (Serving _ _ _ (Do _ _)) => True
  | _ => False
  end.

(** The requests of the address are held out when they have not found it free; the [old] ones
    may also be over. *)
Definition held_out (old : nat -> Prop) (s : system) : Prop :=
  forall c peer cert req, requests s !! c = Some (peer, cert, req) ->
    peer_key peer = key ->
    Forall (fun e => ~ admits e) (trace_of (Handler c) (journal s)) \/ (old c /\ ~ in_progress s c).

Definition resting (s : system) (c : nat) : bool :=
  match tasks s !! c with
  | Some (Serving _ _ _ (Do _ _)) => false
  | _ => true
  end.

Lemma resting_held_out s :
  forallb (resting s) (asked s) = true -> held_out (fun _ => True) s.
Proof.
  intros Ha c peer cert req Hr _. right. split; [done|]. rewrite forallb_forall in Ha.
  assert (Hin : In c (asked s)) by (apply list_elem_of_In, asked_lookup; eauto).
  apply Ha in Hin. unfold resting in Hin. unfold in_progress.
  intros Hp. by destruct (tasks s !! c) as [[| |p1 c1 q1 []]|].
Qed.

(** ** What a step does to a request *)

Definition moved (s s' : system) (a : act) (c : nat) : Prop :=
  exists h peer cert req X (o : op X) k x,
    a = Progress c h /\ tasks s !! c = Some (Serving peer cert req (Do o k))
    /\ exec_op h o (shared s) = (Done x, shared s')
    /\ trace_of (Handler c) (journal s') = trace_of (Handler c) (journal s) ++ [Event o x].

Lemma progress_trace s c0 h c :
  (trace_of (Handler c) (journal (progress s c0 h)) = trace_of (Handler c) (journal s)
   /\ (in_progress (progress s c0 h) c -> in_progress s c))
  \/ moved s (progress s c0 h) (Progress c0 h) c.
Proof.
  unfold progress, in_progress, moved.
  destruct (tasks s !! c0) as [[| |peer cert req [r|X o k]]|] eqn:Et; try by left.
  destruct (exec_op h o (shared s)) as [[x|] w] eqn:Ee; simpl.
  - rewrite trace_of_snoc. destruct (decide (Handler c0 = Handler c)) as [[= ->]|Hne].
    + right. by exists h, peer, cert, req, X, o, k, x.
    + left. rewrite app_nil_r. split; [done|]. by rewrite lookup_insert_ne by congruence.
  - left. split; [done|]. destruct (decide (c0 = c)) as [->|]; [by rewrite lookup_delete_eq|].
    by rewrite lookup_delete_ne.
Qed.

Lemma sys_step_request_trace s a s' c :
  sys_inv state s -> sys_step state loaded_from s a = Some s' -> is_Some (requests s !! c) ->
  (trace_of (Handler c) (journal s') = trace_of (Handler c) (journal s)
   /\ (in_progress s' c -> in_progress s c))
  \/ moved s s' a c.
Proof.
  intros I Hs [[[peer cert] req] Hreq].
  destruct (inv_requested _ _ (sys_request _ _ I) _ _ _ _ Hreq) as (Hlt & _).
  pose proof (inv_unasked _ _ (sys_request _ _ I) c) as Hun.
  assert (Hend : forall v c', tasks v = tasks s -> journal v = journal s ->
    trace_of (Handler c) (journal (end_connection v c')) = trace_of (Handler c) (journal s)
    /\ (in_progress (end_connection v c') c -> in_progress s c)).
  { intros v c' Hv Hj. unfold in_progress. simpl. rewrite Hv, Hj. split; [done|].
    destruct (decide (c' = c)) as [->|]; [by rewrite lookup_delete_eq|].
    by rewrite lookup_delete_ne. }
  destruct a; simpl in Hs; try injection Hs as <-; try (by left); try (by left; apply Hend).
  - left. unfold loop_step. by case_match.
  - left. unfold bind_listener in Hs. repeat case_match; by simplify_eq.
  - left. unfold accept_connection. repeat case_match; try done. unfold in_progress. simpl.
    split; [done|]. by rewrite lookup_insert_ne by lia.
  - left. unfold tls_handshake. destruct (tasks s !! c0) as [[p| |]|] eqn:Et; try done.
    destruct (serve_tls p r) as [t|] eqn:Er; [|by apply Hend].
    unfold in_progress. simpl. split; [done|].
    destruct (decide (c0 = c)) as [->|]; [|by rewrite lookup_insert_ne].
    specialize (Hun _ Et). simpl in Hun. congruence.
  - left. unfold receive_request. destruct (tasks s !! c0) as [[|p ce|]|] eqn:Et; try done.
    unfold in_progress. simpl. split; [done|].
    destruct (decide (c0 = c)) as [->|]; [|by rewrite lookup_insert_ne].
    specialize (Hun _ Et). simpl in Hun. congruence.
  - by apply progress_trace.
  - left. unfold relay_progress. destruct (relays s !! c0) as [[r|X o k]|]; try done.
    destruct (exec_op h o (shared s)) as [[x|] w]; [|done]. unfold in_progress. simpl.
    by rewrite trace_of_snoc, decide_False, app_nil_r by done.
  - left. unfold reload_config. by repeat case_match.
  - left. unfold loop_step. by case_match.
Qed.

(** ** The lock holds *)

(** The gate of Gate.v, at the operation a request performs next. *)
Lemma next_gated s c peer cert req X (o : op X) k :
  sys_inv state s -> tasks s !! c = Some (Serving peer cert req (Do o k)) ->
  gate state req peer cert (trace_of (Handler c) (journal s)) X o.
Proof.
  intros I Ht. destruct (inv_serving _ _ (sys_request _ _ I) _ _ _ _ _ Ht) as [_ Hr].
  by destruct (wp_reaches _ _ _ _ _ _ Hr (handle_wp state req peer cert [])) as [[Hg _] _].
Qed.

Lemma admits_in t : Event (AuthIsBlocked key) false ∈ t -> ~ Forall (fun e => ~ admits e) t.
Proof. intros Hin Hall. rewrite Forall_forall in Hall. by apply (Hall _ Hin). Qed.

(** Nobody clears the lock. *)
Definition clears (X : Type) (o : op X) : Prop :=
  match o with
  | AuthRecordSuccess k => k = key
  | _ => False
  end.

Lemma held_out_clears old s c peer cert req X (o : op X) k :
  sys_inv state s -> held_out old s ->
  tasks s !! c = Some (Serving peer cert req (Do o k)) -> ~ clears _ o.
Proof.
  intros I Hh Ht Hc. pose proof (next_gated _ _ _ _ _ _ _ _ I Ht) as Hg.
  destruct o; try done. simpl in Hc, Hg. subst. destruct Hg as [Hk Hin].
  destruct (inv_serving _ _ (sys_request _ _ I) _ _ _ _ _ Ht) as [Hr _].
  destruct (Hh _ _ _ _ Hr (eq_sym Hk)) as [Hf|[_ Hp]].
  - rewrite <- Hk in Hin. by eapply admits_in.
  - apply Hp. unfold in_progress. by rewrite Ht.
Qed.

Lemma op_lock_holds t X (o : op X) al u :
  ~ clears _ o -> locked al key u -> t < u ->
  locked (fold_left lockout_step (op_lockout t (SomeOp o)) al) key u.
Proof.
  intros Hc Hl Ht. destruct o; try done; simpl; [by apply locked_failure|].
  apply locked_success; [|done]. intros ->. by apply Hc.
Qed.

Lemma lock_holds old s a s' u :
  sys_inv state s -> relay_inv s -> held_out old s -> locked (auth_limiter (shared s)) key u ->
  sys_step state loaded_from s a = Some s' -> now (shared s) < u ->
  locked (auth_limiter (shared s')) key u.
Proof.
  intros I R Hh Hl Hs Hu. rewrite (lockout_refines _ _ _ _ _ Hs). unfold lockout_calls.
  destruct a; try done; simpl.
  - destruct (tasks s !! c) as [[| |peer cert req [r|X o k]]|] eqn:Et; try done.
    apply op_lock_holds; [by eapply held_out_clears|done|done].
  - destruct (relays s !! c) as [[r|X o k]|] eqn:Er; try done.
    apply op_lock_holds; [|done|done]. destruct (inv_relays _ R _ _ Er) as [Ho _].
    intros Hc. by destruct o.
  - by apply locked_cleanup.
Qed.

(** ** The address stays out *)

Lemma sys_step_requests s a s' :
  sys_inv state s -> sys_step state loaded_from s a = Some s' ->
  requests s' = requests s
  \/ exists c r, requests s' = <[c := r]> (requests s) /\ requests s !! c = None
                 /\ journal s' = journal s.
Proof.
  intros I Hs. destruct a; simpl in Hs; try injection Hs as <-; try by left.
  - left. unfold loop_step. by case_match.
  - left. unfold bind_listener in Hs. repeat case_match; by simplify_eq.
  - left. unfold accept_connection. by repeat case_match.
  - left. unfold tls_handshake. by repeat case_match.
  - unfold receive_request. destruct (tasks s !! c) as [[|p ce|]|] eqn:Et; try by left.
    right. exists c, (p, ce, req). split_and!; [done| |done].
    apply (inv_unasked _ _ (sys_request _ _ I) c _ Et).
  - left. unfold progress. by repeat case_match.
  - left. unfold relay_progress. by repeat case_match.
  - left. unfold reload_config. by repeat case_match.
  - left. unfold loop_step. by case_match.
Qed.

(** What a request of the address does in a step does not admit it. *)
Lemma moved_not_admits s s' a c peer cert req u :
  sys_inv state s -> locked (auth_limiter (shared s)) key u -> now (shared s) < u ->
  requests s !! c = Some (peer, cert, req) -> peer_key peer = key -> moved s s' a c ->
  Forall (fun e => ~ admits e) (trace_of (Handler c) (journal s)) ->
  Forall (fun e => ~ admits e) (trace_of (Handler c) (journal s')).
Proof.
  intros I Hl Hu Hr Hk (h & p' & ce' & rq' & X & o & k & x & -> & Ht & He & ->) Hf.
  apply Forall_app. split; [done|]. apply Forall_singleton. intros Ha.
  destruct o; try done. destruct Ha as [-> ->]. simpl in He. injection He as He _.
  by rewrite (locked_blocks _ _ _ _ Hl Hu) in He.
Qed.

Lemma held_out_step old s a s' u :
  sys_inv state s -> held_out old s -> locked (auth_limiter (shared s)) key u ->
  sys_step state loaded_from s a = Some s' -> now (shared s) < u -> held_out old s'.
Proof.
  intros I Hh Hl Hs Hu c peer cert req Hr Hk.
  destruct (sys_step_requests s a s' I Hs) as [E|(c0 & r & E & Hn & Hj)]; rewrite E in Hr.
  2: destruct (decide (c0 = c)) as [->|Hne]; [|rewrite lookup_insert_ne in Hr by done].
  2: { left. rewrite Hj, (inv_silent _ _ (sys_request _ _ I)) by done. done. }
  all: destruct (sys_step_request_trace s a s' c I Hs ltac:(by eexists)) as [[-> Hp]|Hm];
    destruct (Hh _ _ _ _ Hr Hk) as [Hf|[Ho Hi]]; try by left.
  all: try (left; by eapply moved_not_admits).
  all: try (right; split; by auto).
  all: exfalso; apply Hi; destruct Hm as (? & ? & ? & ? & ? & ? & ? & ? & _ & Ht & _);
    unfold in_progress; by rewrite Ht.
Qed.

Lemma lockout_run_holds old acts s s' u :
  sys_inv state s -> relay_inv s -> held_out old s -> locked (auth_limiter (shared s)) key u ->
  sys_run state loaded_from s acts = Some s' -> now (shared s') < u ->
  locked (auth_limiter (shared s')) key u /\ held_out old s'.
Proof.
  revert s. induction acts as [|a acts IH]; intros s I R Hh Hl; simpl; [by intros [= <-]|].
  destruct (sys_step state loaded_from s a) as [s1|] eqn:E; [|done]. intros Hr Hu.
  destruct (sys_run_time state loaded_from (a :: acts) s s') as [Ht _]; [simpl; by rewrite E|].
  apply (IH s1); [by eapply sys_step_inv|by eapply sys_step_relay| | |done|done].
  - eapply held_out_step; [exact I|done|done|exact E|lia].
  - eapply lock_holds; [exact I|done|done|done|exact E|lia].
Qed.

End Lockout.
