(* ===== verification/SystemTally.v ===== *)
(** * The failures of concurrent requests add up

    From the first failure of an address on, every failure that any of its requests records
    within the window counts, in whatever order the requests run; the tenth sets the lock. *)

From S2P Require Import Prelude RustStr F64 Net External Json Config RateLimiter AuthLimiter.
From S2P Require Import Conditions Rules Metrics AuditLog Tls Upgrade Path Auth Effects World.
From S2P Require Import Evaluate Authenticate Handle Forward Gate Termination Server.
From S2P Require Import System SystemInv SystemRefine SystemLive SystemBooks SystemLockout.

Open Scope Z_scope.

(** ** On the table *)

(** The address has failed [n] times, no earlier than [since], and is not locked; when it has not
    failed, the table has room for [room] addresses more. *)
Definition counting (key : string) (since : Instant) (room n : Z) (al : AuthLimiter) : Prop :=
  match al !! key with
  | Some e => lock_until e = None /\ failures e = n /\ since <= first_failure e
  | None => n = 0 /\ Z.of_nat (size al) + room <= MAX_AUTH_LIMITER_KEYS
  end.

(** What [n] failures since [since] have come to: a lock, until [from] at least, once there are
    [AUTH_FAIL_MAX] of them. *)
Definition tallied (key : string) (since from : Instant) (room n : Z) (al : AuthLimiter) : Prop :=
  if AUTH_FAIL_MAX <=? n then exists u, from <= u /\ locked al key u
  else counting key since room n al.

Lemma tallied_locked key since from room n al u :
  AUTH_FAIL_MAX <= n -> from <= u -> locked al key u -> tallied key since from room n al.
Proof. intros Hn Hu Hl. unfold tallied. apply Z.leb_le in Hn as ->. eauto. Qed.

(** A table that lost room, or gained an address that is not this one. *)
Lemma tallied_resize key since from room room' n al al' :
  al' !! key = al !! key -> Z.of_nat (size al') + room' <= Z.of_nat (size al) + room ->
  tallied key since from room n al -> tallied key since from room' n al'.
Proof.
  intros E Hs. unfold tallied, counting, locked. rewrite E. destruct (_ <=? _); [done|].
  destruct (al !! key); [done|]. lia.
Qed.

Lemma record_failure_size al t key max window lockout :
  (size (record_failure al t key max window lockout).2 <= S (size al))%nat.
Proof.
  unfold record_failure. destruct (_ && _); [cbn; lia|].
  destruct (fail_entry _ _ _ _ _) as [r e]. cbn [snd].
  rewrite map_size_insert. destruct (al !! key); cbn; lia.
Qed.

Lemma record_success_size al key : (size (record_success al key) <= size al)%nat.
Proof. unfold record_success. rewrite map_size_delete. destruct (al !! key); cbn; lia. Qed.

Section Table.
Context (key : string) (since t0 t : Instant).
Context (Hsince : since <= t0 <= t) (Hwindow : t <= since + AUTH_FAIL_WINDOW).

Abbreviation from := (t0 + AUTH_FAIL_LOCKOUT).
Abbreviation record al :=
  (record_failure al t key AUTH_FAIL_MAX AUTH_FAIL_WINDOW AUTH_FAIL_LOCKOUT).2.

(** The entry a failure finds, or makes. *)
Lemma counting_entry room n al :
  1 <= room -> counting key since room n al ->
  (MAX_AUTH_LIMITER_KEYS <=? Z.of_nat (size al)) && is_none (al !! key) = false
  /\ exists e, unwrap_or (al !! key) (new_entry t) = e
       /\ lock_until e = None /\ failures e = n /\ since <= first_failure e.
Proof.
  intros Hr. unfold counting. destruct (al !! key) as [e|].
  - intros He. split; [apply andb_false_r|]. by exists e.
  - intros [-> Hs]. split; [apply andb_false_iff; left; apply Z.leb_gt; lia|].
    eexists. split; [done|]. cbn. split_and!; [done|done|lia].
Qed.

Lemma counting_failure room n al :
  1 <= room -> 0 <= n < AUTH_FAIL_MAX -> is_Some (instant_add t AUTH_FAIL_LOCKOUT) ->
  counting key since room n al -> tallied key since from (room - 1) (n + 1) (record al).
Proof.
  intros Hroom Hn [u Hu] Hc. unfold record_failure.
  destruct (counting_entry _ _ _ Hroom Hc) as (-> & e & -> & Hl & Hf & Hs).
  unfold fail_entry, expire_lock. rewrite Hl. unfold expire_window.
  assert (Hd : (AUTH_FAIL_WINDOW <? duration_since t (first_failure e)) = false).
  { apply Z.ltb_ge. unfold duration_since, AUTH_FAIL_WINDOW, from_secs, NANOS_PER_SEC in *. lia. }
  assert (Hk : failures (count_failure e) = n + 1).
  { cbn. rewrite Hf. unfold saturating_add_u32, AUTH_FAIL_MAX, U32_MAX in *. lia. }
  rewrite Hd, Hk. cbn [count_failure lock_until]. rewrite Hl, andb_true_r. unfold tallied.
  destruct (AUTH_FAIL_MAX <=? n + 1) eqn:Em.
  - rewrite Hu. exists u. apply instant_add_Some in Hu as ->. split; [lia|].
    eexists. cbn [snd]. by rewrite lookup_insert_eq.
  - unfold counting. cbn [snd]. rewrite lookup_insert_eq. by split_and!.
Qed.

Lemma tallied_failure room n al :
  1 <= room -> 0 <= n -> is_Some (instant_add t AUTH_FAIL_LOCKOUT) ->
  tallied key since from room n al -> tallied key since from (room - 1) (n + 1) (record al).
Proof.
  intros Hroom Hn Hr. unfold tallied at 1. destruct (Z.leb_spec AUTH_FAIL_MAX n) as [Hm|Hm].
  - intros (u & Hu & Hl). apply (tallied_locked _ _ _ _ _ _ u); [lia|done|].
    apply locked_failure; [done|].
    unfold AUTH_FAIL_WINDOW, AUTH_FAIL_LOCKOUT, from_secs, NANOS_PER_SEC in *. lia.
  - by apply counting_failure.
Qed.

Lemma tallied_cleanup room n al :
  tallied key since from room n al ->
  tallied key since from (room - 1) n (AuthLimiter.cleanup al t).
Proof.
  unfold tallied. destruct (_ <=? _).
  - intros (u & Hu & Hl). exists u. split; [done|]. apply locked_cleanup; [done|].
    unfold AUTH_FAIL_WINDOW, AUTH_FAIL_LOCKOUT, from_secs, NANOS_PER_SEC in *. lia.
  - unfold counting. rewrite cleanup_lookup. pose proof (cleanup_size al t).
    destruct (al !! key) as [e|]; [|intros [-> Hs]; split; [done|lia]].
    intros (Hl & Hf & Hs). unfold keep_entry. rewrite Hl.
    unfold duration_since, AUTH_FAIL_WINDOW, from_secs, NANOS_PER_SEC in *.
    destruct (Z.ltb_spec (Z.max 0 (t - first_failure e)) (600 * 1000000000)); [done|lia].
Qed.

End Table.

(** ** In the proxy *)

Section Tally.
Context `{NumberApi} `{RegexApi} `{!JsonApi} `{IpNetApi} `{HttpApi} `{X509Api} `{!RustlsApi}.
Context `{EventApi}.
Context (state : ProxyState) (loaded_from : option string) (key : string).

(** A failure, and a success, recorded for the address. *)
Definition op_failure {X} (o : op X) : bool :=
  match o with
  | AuthRecordFailure k _ _ _ => String.eqb k key
  | _ => false
  end.

Definition op_success {X} (o : op X) : bool :=
  match o with
  | AuthRecordSuccess k => String.eqb k key
  | _ => false
  end.

Definition is_failure (we : owner * event) : bool :=
  match we.2 with Event o _ => op_failure o end.

Definition is_success (we : owner * event) : bool :=
  match we.2 with Event o _ => op_success o end.

Definition failures_in (j : list (owner * event)) : Z :=
  Z.of_nat (length (List.filter is_failure j)).

Lemma failures_in_app j1 j2 : failures_in (j1 ++ j2) = failures_in j1 + failures_in j2.
Proof. unfold failures_in. rewrite List.filter_app, length_app. lia. Qed.

(** A failure is recorded with the constants of [authenticate]. *)
Definition by_limits (peer : string) {X} (o : op X) : Prop :=
  match o with
  | AuthRecordFailure k max window lockout => auth_limits peer k max window lockout
  | _ => True
  end.

(** One operation of a handler. *)
Lemma op_tallied since t0 t room n al X (o : op X) c x peer :
  1 <= room -> since <= t0 <= t -> t <= since + AUTH_FAIL_WINDOW -> 0 <= n ->
  is_Some (instant_add t AUTH_FAIL_LOCKOUT) ->
  tallied key since (t0 + AUTH_FAIL_LOCKOUT) room n al ->
  by_limits peer o -> is_success (c, Event o x) = false ->
  tallied key since (t0 + AUTH_FAIL_LOCKOUT) (room - 1) (n + failures_in [(c, Event o x)])
    (fold_left lockout_step (op_lockout t (SomeOp o)) al).
Proof.
  intros Hk Ht Hw Hn Hr Ha Hg Hs. unfold failures_in, is_failure, is_success in *.
  destruct o; cbn in *; rewrite ?Z.add_0_r;
    try (by eapply tallied_resize; [done| |exact Ha]; lia).
  - destruct Hg as (_ & -> & -> & ->). destruct (String.eqb_spec key0 key) as [->|Hne]; cbn.
    + by apply tallied_failure.
    + rewrite Z.add_0_r. eapply tallied_resize; [by apply record_failure_other| |exact Ha].
      pose proof (record_failure_size al t key0 AUTH_FAIL_MAX AUTH_FAIL_WINDOW AUTH_FAIL_LOCKOUT).
      lia.
  - apply String.eqb_neq in Hs. eapply tallied_resize; [by apply lookup_delete_ne| |exact Ha].
    pose proof (record_success_size al key0). lia.
Qed.

(** A handler's operation that panics is not one of the lockout table's, while the clock has
    room for a lockout. *)
Lemma record_failure_done al t k :
  is_Some (instant_add t AUTH_FAIL_LOCKOUT) ->
  exists b, (record_failure al t k AUTH_FAIL_MAX AUTH_FAIL_WINDOW AUTH_FAIL_LOCKOUT).1 = Done b.
Proof.
  intros [u Hu]. unfold record_failure, fail_entry. rewrite Hu.
  destruct (_ && _); cbn; [eauto|]. destruct (_ && _); cbn; eauto.
Qed.

Lemma exec_panic_lockout h X (o : op X) w w' peer :
  exec_op h o w = (Panic, w') -> is_Some (instant_add (now w) AUTH_FAIL_LOCKOUT) ->
  by_limits peer o -> op_lockout (now w) (SomeOp o) = [].
Proof.
  intros He Hr Hl. destruct o; try done. cbn in *. destruct Hl as (_ & -> & -> & ->).
  destruct (record_failure_done (auth_limiter w) (now w) key0 Hr) as [b Hb].
  destruct (record_failure _ _ _ _ _ _) as [r al]. cbn in Hb. by subst r.
Qed.

Lemma serving_limits s c peer cert req X (o : op X) k :
  sys_inv state s -> tasks s !! c = Some (Serving peer cert req (Do o k)) ->
  by_limits (peer_key peer) o.
Proof.
  intros I Ht. eapply next_gated in Ht; [|exact I]. by destruct o.
Qed.

(** The journal only grows. *)
Lemma sys_step_journal s a s' :
  sys_step state loaded_from s a = Some s' -> exists j, journal s' = journal s ++ j.
Proof.
  intros Hs. assert (Hsame : journal s' = journal s -> exists j, journal s' = journal s ++ j)
    by (intros ->; exists []; by rewrite app_nil_r).
  destruct a; simpl in Hs; try injection Hs as <-; try (by apply Hsame).
  - apply Hsame. unfold loop_step. by case_match.
  - apply Hsame. unfold bind_listener in Hs. repeat case_match; by simplify_eq.
  - apply Hsame. unfold accept_connection. by repeat case_match.
  - apply Hsame. unfold tls_handshake. by repeat case_match.
  - apply Hsame. unfold receive_request. by repeat case_match.
  - unfold progress in *. repeat case_match; try (by apply Hsame). by eexists.
  - unfold relay_progress in *. repeat case_match; try (by apply Hsame). by eexists.
  - apply Hsame. unfold reload_config. by repeat case_match.
  - apply Hsame. unfold loop_step. by case_match.
Qed.

Lemma sys_run_journal acts s s' :
  sys_run state loaded_from s acts = Some s' -> exists j, journal s' = journal s ++ j.
Proof.
  revert s. induction acts as [|a acts IH]; intros s; simpl.
  { intros [= <-]. exists []. by rewrite app_nil_r. }
  destruct (sys_step state loaded_from s a) as [s1|] eqn:E; [|done].
  intros (j2 & Hj2)%IH. destruct (sys_step_journal _ _ _ E) as [j1 Hj1].
  exists (j1 ++ j2). by rewrite Hj2, Hj1, app_assoc.
Qed.

Section Steps.
Context (since t0 : Instant).

(** What a stretch of the run has come to. *)
Definition tally_step (room n : Z) (s s' : system) : Prop :=
  exists j, journal s' = journal s ++ j
    /\ (forallb (fun we => negb (is_success we)) j = true ->
        tallied key since (t0 + AUTH_FAIL_LOCKOUT) room (n + failures_in j) (auth_limiter (shared s'))).

Lemma tally_still room n s s' :
  journal s' = journal s -> auth_limiter (shared s') = auth_limiter (shared s) ->
  tallied key since (t0 + AUTH_FAIL_LOCKOUT) room n (auth_limiter (shared s)) ->
  tally_step (room - 1) n s s'.
Proof.
  intros Hj Ha Ht. exists []. rewrite app_nil_r, Ha. split; [done|]. intros _.
  rewrite Z.add_0_r. eapply tallied_resize; [done| |exact Ht]. lia.
Qed.

Lemma tally_progress room n s c h :
  1 <= room -> sys_inv state s -> since <= t0 <= now (shared s) -> now (shared s) <= since + AUTH_FAIL_WINDOW ->
  0 <= n -> is_Some (instant_add (now (shared s)) AUTH_FAIL_LOCKOUT) ->
  tallied key since (t0 + AUTH_FAIL_LOCKOUT) room n (auth_limiter (shared s)) ->
  tally_step (room - 1) n s (progress s c h).
Proof.
  intros Hk I Ht Hw Hn Hr Hl.
  pose proof (lockout_refines state loaded_from s (Progress c h) _ eq_refl) as Ha.
  unfold lockout_calls in Ha. cbn [next_op sys_step] in Ha. unfold progress in *.
  destruct (tasks s !! c) as [[| |peer cert req [r|X o k]]|] eqn:Et; try by apply tally_still.
  pose proof (serving_limits _ _ _ _ _ _ _ _ I Et) as Hg. cbn [from_option] in Ha.
  destruct (exec_op h o (shared s)) as [[x|] w] eqn:Ee.
  - exists [(Handler c, Event o x)]. split; [done|]. rewrite Ha. cbn [forallb].
    rewrite andb_true_r. intros Hs%negb_true_iff. by eapply op_tallied.
  - rewrite (exec_panic_lockout _ _ _ _ _ _ Ee Hr Hg) in Ha. by apply tally_still.
Qed.

Lemma tally_relay room n s c h :
  relay_inv s -> tallied key since (t0 + AUTH_FAIL_LOCKOUT) room n (auth_limiter (shared s)) ->
  tally_step (room - 1) n s (relay_progress s c h).
Proof.
  intros R Hl.
  pose proof (lockout_refines state loaded_from s (RelayProgress c h) _ eq_refl) as Ha.
  unfold lockout_calls in Ha. cbn [next_op sys_step] in Ha. unfold relay_progress in *.
  destruct (relays s !! c) as [[r|X o k]|] eqn:Er; try by apply tally_still.
  destruct (inv_relays _ R _ _ Er) as [Ho _]. cbn [from_option] in Ha.
  assert (Hq : op_lockout (now (shared s)) (SomeOp o) = [] /\ op_failure o = false)
    by by destruct o.
  destruct Hq as [Hq Hf]. rewrite Hq in Ha.
  destruct (exec_op h o (shared s)) as [[x|] w]; [|by apply tally_still].
  exists [(Relay c, Event o x)]. split; [done|]. intros _. rewrite Ha.
  unfold failures_in, is_failure. cbn. rewrite Hf. cbn. rewrite Z.add_0_r.
  eapply tallied_resize; [done| |exact Hl]. lia.
Qed.

Lemma step_tallied room n s a s' :
  1 <= room -> sys_inv state s -> relay_inv s -> sys_step state loaded_from s a = Some s' ->
  since <= t0 <= now (shared s) -> now (shared s) <= since + AUTH_FAIL_WINDOW ->
  0 <= n -> is_Some (instant_add (now (shared s)) AUTH_FAIL_LOCKOUT) ->
  tallied key since (t0 + AUTH_FAIL_LOCKOUT) room n (auth_limiter (shared s)) ->
  tally_step (room - 1) n s s'.
Proof.
  intros Hk I R Hs Ht Hw Hn Hr Hl. pose proof (lockout_refines _ _ _ _ _ Hs) as Ha.
  destruct a; simpl in Hs; try injection Hs as <-; try (by apply tally_still).
  - apply tally_still; [|done|done]. unfold loop_step. by case_match.
  - unfold bind_listener in Hs. apply tally_still; [|done|done]. repeat case_match; by simplify_eq.
  - apply tally_still; [|done|done]. unfold accept_connection. by repeat case_match.
  - apply tally_still; [|done|done]. unfold tls_handshake. by repeat case_match.
  - apply tally_still; [|done|done]. unfold receive_request. by repeat case_match.
  - by apply tally_progress.
  - by apply tally_relay.
  - apply tally_still; [|done|done]. unfold reload_config. by repeat case_match.
  - apply tally_still; [|done|done]. unfold loop_step. by case_match.
  - exists []. split; [by rewrite app_nil_r|]. intros _. rewrite Ha, Z.add_0_r.
    by apply tallied_cleanup.
Qed.

Lemma run_tallied acts room n s s' :
  Z.of_nat (length acts) <= room -> sys_inv state s -> relay_inv s -> sys_run state loaded_from s acts = Some s' ->
  since <= t0 <= now (shared s) -> now (shared s') <= since + AUTH_FAIL_WINDOW ->
  0 <= n -> is_Some (instant_add (now (shared s')) AUTH_FAIL_LOCKOUT) ->
  tallied key since (t0 + AUTH_FAIL_LOCKOUT) room n (auth_limiter (shared s)) ->
  tally_step (room - Z.of_nat (length acts)) n s s'.
Proof.
  revert room n s. induction acts as [|a acts IH]; intros room n s Hk I R; cbn [sys_run length].
  { intros [= <-] _ _ _ _ Hl. exists []. rewrite app_nil_r, Z.add_0_r, Z.sub_0_r. done. }
  destruct (sys_step state loaded_from s a) as [s1|] eqn:E; [|done]. intros Hr Ht Hw Hn Hc Hl.
  rewrite length_cons in Hk. destruct (sys_run_time _ _ _ _ _ Hr) as [Ht1 _].
  destruct (sys_step_time _ _ _ _ _ E) as [Ht2 _].
  destruct (step_tallied room n s a s1 ltac:(lia) I R E Ht) as (j & Hj & Hstep);
    [lia|done|by eapply instant_add_earlier; [|exact Hc]; lia|done|].
  destruct (forallb (fun we => negb (is_success we)) j) eqn:Ej.
  2: { exists (drop (length (journal s)) (journal s')).
       destruct (sys_run_journal _ _ _ Hr) as [j2 Hj2].
       rewrite Hj2, Hj, <- app_assoc, drop_app_length. split; [done|].
       by rewrite forallb_app, Ej. }
  destruct (IH (room - 1) (n + failures_in j) s1) as (j2 & Hj2 & Hrun);
    [lia|by eapply sys_step_inv|by eapply sys_step_relay|done|lia|done|unfold failures_in; lia|done
    |by apply Hstep|].
  exists (j ++ j2). rewrite Hj2, Hj, app_assoc. split; [done|].
  rewrite forallb_app, Ej, failures_in_app, Z.add_assoc. intros Hn2.
  eapply tallied_resize; [done| |exact (Hrun Hn2)]. cbn [length]. lia.
Qed.

End Steps.

End Tally.
