(* ===== verification/Setup.v ===== *)
(** * The interactive configuration builder ([src/setup.rs])

    The prompts are a script of answers, read from left to right; a script that does not fit
    the prompts is an [unwrap] that panics.  The wizard turns the answers into a configuration;
    [templates] are its ready-made rules. *)

From S2P Require Import Prelude RustStr External Json Config Metrics.

Open Scope Z_scope.

(** ** Dialogs *)

Inductive answer : Type :=
  | AText (s : string)
  | AIndex (i : nat)
  | AIndices (l : list nat)
  | AFlag (b : bool)
  | ANumber (z : Z).

Definition dialog (A : Type) : Type := list answer -> option (A * list answer).

Definition dret {A} (a : A) : dialog A := fun s => Some (a, s).

Definition dbind {A B} (d : dialog A) (k : A -> dialog B) : dialog B :=
  fun s => match d s with
           | Some (a, s') => k a s'
           | None => None
           end.

Declare Scope dialog_scope.
Delimit Scope dialog_scope with dialog.
Notation "x <-- d ; k" := (dbind d (fun x => k))
  (at level 100, d at level 99, right associativity) : dialog_scope.
Open Scope dialog_scope.

(** [Input::<String>] where an empty text is allowed, and where it is not ([Password], or an
    input with no default or one that is not empty); [Input::<u16>] and [Input::<u64>];
    [Confirm]; [Select] and [MultiSelect], whose answers index the items. *)
Definition ask_text : dialog string :=
  fun s => match s with AText t :: s' => Some (t, s') | _ => None end.

Definition ask_nonempty : dialog string :=
  fun s => match s with
           | AText t :: s' => if is_empty t then None else Some (t, s')
           | _ => None
           end.

Definition ask_number (max : Z) : dialog Z :=
  fun s => match s with
           | ANumber z :: s' => if (0 <=? z) && (z <=? max) then Some (z, s') else None
           | _ => None
           end.

Definition ask_flag : dialog bool :=
  fun s => match s with AFlag b :: s' => Some (b, s') | _ => None end.

Definition ask_index (items : nat) : dialog nat :=
  fun s => match s with
           | AIndex i :: s' => if (i <? items)%nat then Some (i, s') else None
           | _ => None
           end.

Definition ask_indices (items : nat) : dialog (list nat) :=
  fun s => match s with
           | AIndices l :: s' =>
               if forallb (fun i => (i <? items)%nat) l then Some (l, s') else None
           | _ => None
           end.

(** [loop { item; if !Confirm { break } }]: at most one round per answer left. *)
Fixpoint one_or_more {A} (fuel : nat) (item : dialog A) : dialog (list A) :=
  match fuel with
  | O => fun _ => None
  | S fuel' =>
      x <-- item;
      again <-- ask_flag;
      if again : bool then (xs <-- one_or_more fuel' item; dret (x :: xs)) else dret [x]
  end.

Definition repeat_confirmed {A} (item : dialog A) : dialog (list A) :=
  fun s => one_or_more (S (length s)) item s.

Section Setup.
Context `{NumberApi} `{RegexApi}.

(** ** Ready-made rules *)

Definition leaf (field operator : string) (v : option YamlValue) : ConditionNode :=
  Leaf {| field := field; operator := operator; value := v; compiled_regex := None |}.

Definition string_leaf (field operator v : string) : ConditionNode :=
  leaf field operator (Some (YString v)).

(** [Rule { name, description, action, conditions, message, status, ..Rule::default() }] *)
Definition make_rule (name : string) (description : option string) (action : string)
    (conditions : list ConditionNode) (message : option string) (status : option Z) : Rule :=
  {| rule_name := name; rule_description := description; rule_action := action;
     rule_priority := None; rule_conditions := conditions; rule_message := message;
     rule_role := None; rule_response_filter := None; rule_status := status;
     rule_methods := None; rule_rate_limit := None; rule_dry_run := None |}.

Definition with_role (r : Rule) (role : string) : Rule :=
  {| rule_name := rule_name r; rule_description := rule_description r;
     rule_action := rule_action r; rule_priority := rule_priority r;
     rule_conditions := rule_conditions r; rule_message := rule_message r;
     rule_role := Some role; rule_response_filter := rule_response_filter r;
     rule_status := rule_status r; rule_methods := rule_methods r;
     rule_rate_limit := rule_rate_limit r; rule_dry_run := rule_dry_run r |}.

Definition with_filters (r : Rule) (fs : list ResponseFilterEntry) : Rule :=
  {| rule_name := rule_name r; rule_description := rule_description r;
     rule_action := rule_action r; rule_priority := rule_priority r;
     rule_conditions := rule_conditions r; rule_message := rule_message r;
     rule_role := rule_role r; rule_response_filter := Some fs;
     rule_status := rule_status r; rule_methods := rule_methods r;
     rule_rate_limit := rule_rate_limit r; rule_dry_run := rule_dry_run r |}.

Definition with_rate (r : Rule) (rc : RateLimitConfig) (status : option Z) : Rule :=
  {| rule_name := rule_name r; rule_description := rule_description r;
     rule_action := rule_action r; rule_priority := rule_priority r;
     rule_conditions := rule_conditions r; rule_message := rule_message r;
     rule_role := rule_role r; rule_response_filter := rule_response_filter r;
     rule_status := status; rule_methods := rule_methods r;
     rule_rate_limit := Some rc; rule_dry_run := rule_dry_run r |}.

Definition with_status (r : Rule) (status : Z) : Rule :=
  {| rule_name := rule_name r; rule_description := rule_description r;
     rule_action := rule_action r; rule_priority := rule_priority r;
     rule_conditions := rule_conditions r; rule_message := rule_message r;
     rule_role := rule_role r; rule_response_filter := rule_response_filter r;
     rule_status := Some status; rule_methods := rule_methods r;
     rule_rate_limit := rule_rate_limit r; rule_dry_run := rule_dry_run r |}.

Definition build_simple_deny (name description field operator v message : string) : Rule :=
  make_rule name (Some description) "deny" [string_leaf field operator v] (Some message)
    (Some 403).

Fixpoint trim_start_slash (s : string) : string :=
  match s with
  | String a s' => if Ascii.eqb a "/"%char then trim_start_slash s' else s
  | EmptyString => EmptyString
  end.

Definition build_readonly (name prefix : string) : Rule :=
  let resource := trim_start_slash prefix in
  make_rule name (Some ("Only GET is allowed on " +:+ resource)) "deny"
    [string_leaf "path" "starts_with" prefix; string_leaf "method" "not_equals" "GET"]
    (Some (resource +:+ " mutations are forbidden")) (Some 403).

Definition block_exec : list Rule :=
  [make_rule "block-exec-operations" (Some "Prevent creating or starting exec sessions") "deny"
     [Or [string_leaf "path" "matches" "^/containers/[^/]+/exec$";
          string_leaf "path" "matches" "^/exec/[^/]+/start$"]]
     (Some "Exec operations are not permitted") (Some 403);
   build_simple_deny "block-docker-build" "Prevent image builds via the API" "path"
     "starts_with" "/build" "Image building is not permitted via this proxy"].

Definition block_secrets : list Rule :=
  [build_simple_deny "block-secrets" "Block access to secrets" "path" "starts_with" "/secrets"
     "Secrets are not accessible";
   build_simple_deny "block-configs" "Block access to configs" "path" "starts_with" "/configs"
     "Configs are not accessible"].

Definition on_create (name description message : string) (conditions : list ConditionNode)
    : Rule :=
  make_rule name (Some description) "deny"
    (string_leaf "path" "equals" "/containers/create" :: conditions) (Some message) (Some 403).

Definition block_privileged : Rule :=
  on_create "block-privileged-containers" "Prevent creating containers with --privileged"
    "Privileged containers are not allowed"
    [leaf "body.HostConfig.Privileged" "equals" (Some (YBool true))].

Definition bind_mount_regex : string :=
  quote +:+ "Type" +:+ quote +:+ "\s*:\s*" +:+ quote +:+ "bind" +:+ quote.

Definition block_bind_mounts : Rule :=
  on_create "block-bind-mounts" "Prevent containers from bind mounting"
    "Bind mounts are not allowed"
    [Or [leaf "body.HostConfig.Binds" "exists" None;
         string_leaf "body.HostConfig.Mounts" "matches" bind_mount_regex]].

Definition block_host_network : Rule :=
  on_create "block-host-network" "Prevent containers from using host networking"
    "Host network mode is not allowed"
    [string_leaf "body.HostConfig.NetworkMode" "equals" "host"].

Definition lifecycle_regex : string :=
  "^/containers/[^/]+/(start|stop|restart|kill|pause|unpause|rename|update)$".

Definition admin_lifecycle : Rule :=
  with_role (make_rule "admin-only-container-lifecycle"
    (Some "Only admins can start/stop/restart/kill containers") "require_role"
    [string_leaf "path" "matches" lifecycle_regex]
    (Some "Admin role required for container lifecycle operations") (Some 403)) "admin".

Definition admin_create : Rule :=
  with_role (make_rule "admin-only-create" (Some "Only admins can create containers")
    "require_role" [string_leaf "path" "equals" "/containers/create"]
    (Some "Admin role required to create containers") (Some 403)) "admin".

Definition admin_delete : Rule :=
  with_role (make_rule "admin-only-delete" (Some "Only admins can delete resources")
    "require_role" [string_leaf "method" "equals" "DELETE"]
    (Some "Admin role required for delete operations") (Some 403)) "admin".

Definition internal_only : Rule :=
  make_rule "internal-network-only"
    (Some "Restrict access to private network ranges and localhost") "deny"
    [leaf "client_ip" "not_in" (Some (YSequence (map YString
       ["10.0.0.0/8"; "172.16.0.0/12"; "192.168.0.0/16"; "127.0.0.0/8"])))]
    (Some "Access restricted to internal network") (Some 403).

Definition redact_field (f : string) : ResponseFilterEntry :=
  {| filter_field := f; filter_action := "redact"; replacement := None |}.

Definition redact_environment : Rule :=
  with_filters (make_rule "redact-container-environment"
    (Some "Redact environment variables and commands from container inspect") "response_filter"
    [string_leaf "path" "matches" "^/containers/[^/]+/json$"] None None)
    [redact_field "Config.Env"; redact_field "Config.Cmd"].

Definition rate_limit_all : Rule :=
  with_rate (make_rule "rate-limit-all"
    (Some "Limit requests to 50 per 30 seconds, 30s penalty on exceed") "rate_limit"
    [string_leaf "path" "matches" "^/"]
    (Some "Rate limit exceeded. You are blocked for 30 seconds.") (Some 429))
    {| requests := 50; period := 30; penalty := 30 |} (Some 429).

(** The fourteen ready-made choices of the menu, in its order. *)
Definition templates : list (list Rule) :=
  [block_exec; [build_readonly "readonly-volumes" "/volumes"];
   [build_readonly "readonly-networks" "/networks"]; [build_readonly "readonly-images" "/images"];
   block_secrets; [block_privileged]; [block_bind_mounts]; [block_host_network];
   [admin_lifecycle]; [admin_create]; [admin_delete]; [internal_only]; [redact_environment];
   [rate_limit_all]].

(** ** The custom rule *)

Definition condition_fields : list string :=
  ["path"; "method"; "client_ip"; "header.<name>"; "body.<path>"].

Definition condition_operators : list string :=
  ["equals"; "not_equals"; "contains"; "not_contains"; "starts_with"; "ends_with"; "matches";
   "not_matches"; "in"; "not_in"; "exists"; "not_exists"].

Definition roles : list string := ["admin"; "readonly"; "user"].

Definition rule_actions : list string :=
  ["deny"; "allow"; "require_role"; "response_filter"; "rate_limit"].

Definition ask_field : dialog string :=
  i <-- ask_index (length condition_fields);
  if (i =? 3)%nat then (hdr <-- ask_nonempty; dret ("header." +:+ hdr))
  else if (i =? 4)%nat then (path <-- ask_nonempty; dret ("body." +:+ path))
  else dret (nth i condition_fields "").

Definition ask_value (operator : string) : dialog (option YamlValue) :=
  if String.eqb operator "exists" || String.eqb operator "not_exists" then dret None
  else (v <-- ask_text; dret (if is_empty v then None else Some (YString v))).

Definition ask_condition : dialog ConditionNode :=
  field <-- ask_field;
  op <-- ask_index (length condition_operators);
  let operator := nth op condition_operators "" in
  v <-- ask_value operator;
  dret (leaf field operator v).

Definition filter_action_of (i : nat) : string :=
  match i with
  | 0%nat => "redact"
  | 1%nat => "remove"
  | 2%nat => "replace"
  | _ => "redact"
  end.

Definition ask_filter : dialog ResponseFilterEntry :=
  fpath <-- ask_nonempty;
  i <-- ask_index 3;
  let fa := filter_action_of i in
  rep <-- (if String.eqb fa "replace" then (t <-- ask_text; dret (Some t)) else dret None);
  dret {| filter_field := fpath; filter_action := fa; replacement := rep |}.

Definition finish_rule (action : string) (rule : Rule) : dialog Rule :=
  if String.eqb action "require_role" then
    i <-- ask_index (length roles); dret (with_role rule (nth i roles ""))
  else if String.eqb action "response_filter" then
    fs <-- repeat_confirmed ask_filter; dret (with_filters rule fs)
  else if String.eqb action "rate_limit" then
    requests <-- ask_number U64_MAX;
    period <-- ask_number U64_MAX;
    penalty <-- ask_number U64_MAX;
    dret (with_rate rule {| requests := requests; period := period; penalty := penalty |}
                    (Some 429))
  else if String.eqb action "deny" || String.eqb action "allow" then
    status <-- ask_number U16_MAX; dret (with_status rule status)
  else dret rule.

Definition build_custom_rule : dialog (option Rule) :=
  name <-- ask_nonempty;
  i <-- ask_index (length rule_actions);
  match rule_actions !! i with
  | None => dret None
  | Some action =>
      message <-- ask_nonempty;
      conditions <-- repeat_confirmed ask_condition;
      let rule := make_rule name None action conditions (Some message)
                    (Some (if String.eqb action "rate_limit" then 429 else 403)) in
      rule <-- finish_rule action rule;
      dret (Some rule)
  end.

(** ** The wizard *)

Definition ask_token : dialog TokenEntry :=
  tok <-- ask_nonempty;
  i <-- ask_index (length roles);
  dret {| token := tok; token_role := Some (nth i roles "") |}.

Definition ask_auth : dialog (option AuthConfig) :=
  choice <-- ask_index 3;
  match choice with
  | 0%nat => dret None
  | 1%nat =>
      secret <-- ask_nonempty;
      dret (Some {| auth_type := Some "bearer"; auth_secret := Some secret; auth_tokens := None;
                    auth_mtls := None |})
  | 2%nat =>
      secret <-- ask_text;
      tokens <-- repeat_confirmed ask_token;
      dret (Some {| auth_type := Some "bearer";
                    auth_secret := if is_empty secret then None else Some secret;
                    auth_tokens := if (length tokens =? 0)%nat then None else Some tokens;
                    auth_mtls := None |})
  | _ => dret None
  end.

(** The [for &idx in &chosen] loop. *)
Fixpoint ask_chosen (chosen : list nat) : dialog (list Rule) :=
  match chosen with
  | [] => dret []
  | idx :: rest =>
      now <-- (if (idx =? 14)%nat
               then (r <-- build_custom_rule; dret (option_list r))
               else dret (default [] (templates !! idx)));
      later <-- ask_chosen rest;
      dret (now ++ later)
  end.

Definition ask_round : dialog (list Rule) :=
  chosen <-- ask_indices 15; ask_chosen chosen.

Definition ask_rules : dialog (list Rule) :=
  add <-- ask_flag;
  if add : bool then (rounds <-- repeat_confirmed ask_round; dret (concat rounds)) else dret [].

Definition setup : dialog ProxyConfig :=
  port <-- ask_number U16_MAX;
  socket <-- ask_text;
  auth <-- ask_auth;
  rules <-- ask_rules;
  dret {| config_global := Some
            (set_global_socket (set_global_port GlobalConfig_default (Some port))
               (if is_empty socket then None else Some socket));
          config_auth := auth;
          config_rules := if (length rules =? 0)%nat then None else Some rules |}.

End Setup.

(** ** What a dialog yields *)

Definition yields {A} (d : dialog A) (P : A -> Prop) : Prop :=
  forall s a s', d s = Some (a, s') -> P a.

Lemma yields_ret {A} (a : A) (P : A -> Prop) : P a -> yields (dret a) P.
Proof. by intros HP s b s' [= <- _]. Qed.

Lemma yields_bind {A B} (d : dialog A) (k : A -> dialog B) (Q : A -> Prop) (P : B -> Prop) :
  yields d Q -> (forall a, Q a -> yields (k a) P) -> yields (dbind d k) P.
Proof.
  intros Hd Hk s b s'. unfold dbind. destruct (d s) as [[a s1]|] eqn:E; [|done].
  apply Hk. by eapply Hd.
Qed.

Lemma yields_any {A} (d : dialog A) : yields d (fun _ => True).
Proof. done. Qed.

Lemma yields_mono {A} (d : dialog A) (P Q : A -> Prop) :
  (forall a, P a -> Q a) -> yields d P -> yields d Q.
Proof. intros HPQ Hd s a s' E. eauto. Qed.

Lemma yields_nonempty : yields ask_nonempty (fun t => t <> "").
Proof.
  intros [|[t|i|l|b|z] r] a s'; simpl; try done. destruct (is_empty t) eqn:E; [done|].
  intros [= <- _]. by apply is_empty_false.
Qed.

Lemma yields_index n : yields (ask_index n) (fun i => (i < n)%nat).
Proof.
  intros [|[t|i|l|b|z] r] a s'; simpl; try done. destruct (Nat.ltb_spec i n); [|done].
  by intros [= <- _].
Qed.

Lemma yields_indices n : yields (ask_indices n) (Forall (fun i => (i < n)%nat)).
Proof.
  intros [|[t|i|l|b|z] r] a s'; simpl; try done. destruct (forallb _ l) eqn:E; [|done].
  intros [= <- _]. apply Forall_forall. intros i Hi. rewrite forallb_In in E.
  by apply Nat.ltb_lt, E.
Qed.

Lemma yields_one_or_more {A} fuel (item : dialog A) P :
  yields item P -> yields (one_or_more fuel item) (fun l => l <> [] /\ Forall P l).
Proof.
  intros Hi. induction fuel as [|fuel IH]; [done|]. simpl.
  eapply yields_bind; [exact Hi|]. intros x Hx. eapply yields_bind; [apply yields_any|].
  intros [|] _.
  - eapply yields_bind; [exact IH|]. intros xs [_ Hxs]. apply yields_ret. by split; [|constructor].
  - apply yields_ret. split; [done|]. by constructor.
Qed.

Lemma yields_confirmed {A} (item : dialog A) P :
  yields item P -> yields (repeat_confirmed item) (fun l => l <> [] /\ Forall P l).
Proof. intros Hi s a s'. by apply yields_one_or_more. Qed.

(** ** What the wizard writes *)

Section SetupFacts.
Context `{NumberApi} `{RegexApi}.

Lemma make_rule_wf name description action conditions message status :
  name <> "" -> (action = "deny" \/ action = "allow") -> conditions <> [] ->
  rule_wf (make_rule name description action conditions message status).
Proof. intros Hn Ha Hc. unfold rule_wf. simpl. destruct Ha as [->| ->]; split_and!; done. Qed.

Lemma templates_wf i : Forall rule_wf (default [] (templates !! i)).
Proof.
  do 14 (destruct i as [|i]; [repeat constructor; simpl; eauto; done|]). constructor.
Qed.

Lemma finish_rule_wf name action conditions message status :
  name <> "" -> action ∈ rule_actions -> conditions <> [] ->
  yields (finish_rule action (make_rule name None action conditions message status)) rule_wf.
Proof.
  intros Hn Ha Hc. unfold rule_actions in Ha. rewrite !elem_of_cons in Ha.
  assert (Hy : forall r : Rule, rule_wf r -> yields (dret r) rule_wf) by (intros; by apply yields_ret).
  destruct Ha as [->|[->|[->|[->|[->|[]%not_elem_of_nil]]]]]; unfold finish_rule; eval_strings;
    simpl; repeat (eapply yields_bind; [apply yields_any|]; intros ? _); apply Hy;
    unfold rule_wf; simpl; split_and!; try done; eauto.
Qed.

Lemma build_custom_rule_wf : yields build_custom_rule (fun o => Forall rule_wf (option_list o)).
Proof.
  unfold build_custom_rule. eapply yields_bind; [apply yields_nonempty|]. intros name Hn.
  eapply yields_bind; [apply yields_any|]. intros i _.
  destruct (rule_actions !! i) as [action|] eqn:Ea; [|by apply yields_ret].
  eapply yields_bind; [apply yields_any|]. intros message _.
  eapply yields_bind; [apply (yields_confirmed _ _ (yields_any _))|]. intros conditions [Hc _].
  eapply yields_bind; [apply finish_rule_wf; [done|by eapply list_elem_of_lookup_2|done]|].
  intros rule Hr. apply yields_ret. by constructor.
Qed.

Lemma ask_chosen_wf chosen : yields (ask_chosen chosen) (Forall rule_wf).
Proof.
  induction chosen as [|idx rest IH]; simpl; [by apply yields_ret|].
  eapply (yields_bind _ _ (Forall rule_wf)).
  - destruct (idx =? 14)%nat; [|apply yields_ret, templates_wf].
    eapply yields_bind; [apply build_custom_rule_wf|]. intros o Ho. by apply yields_ret.
  - intros now Hnow. eapply yields_bind; [exact IH|]. intros later Hl.
    apply yields_ret. by apply Forall_app.
Qed.

Lemma ask_rules_wf : yields ask_rules (Forall rule_wf).
Proof.
  unfold ask_rules. eapply yields_bind; [apply yields_any|]. intros [|] _; [|by apply yields_ret].
  eapply (yields_bind _ _ (fun rounds => rounds <> [] /\ Forall (Forall rule_wf) rounds)).
  - apply yields_confirmed. unfold ask_round. eapply yields_bind; [apply yields_any|].
    intros chosen _. apply ask_chosen_wf.
  - intros rounds [_ Hr]. apply yields_ret. by apply Forall_concat.
Qed.

(** The authentication section: either left out, or one that carries a credential. *)
Definition carries_credential (o : option AuthConfig) : Prop :=
  forall a, o = Some a ->
    auth_type a = Some "bearer" /\
    ((exists s, auth_secret a = Some s /\ s <> "")
     \/ exists t ts, auth_tokens a = Some (t :: ts) /\ token t <> "").

Lemma ask_auth_credential : yields ask_auth carries_credential.
Proof.
  unfold ask_auth. eapply yields_bind; [apply yields_any|]. intros [|[|[|i]]] _;
    try (by apply yields_ret).
  - eapply yields_bind; [apply yields_nonempty|]. intros secret Hs. apply yields_ret.
    intros a [= <-]. split; [done|]. left. eauto.
  - eapply yields_bind; [apply yields_any|]. intros secret _.
    eapply (yields_bind _ _ (fun ts => ts <> [] /\ Forall (fun t => token t <> "") ts)).
    + apply yields_confirmed. unfold ask_token. eapply yields_bind; [apply yields_nonempty|].
      intros tok Ht. eapply yields_bind; [apply yields_any|]. intros j _. by apply yields_ret.
    + intros ts [Hne Hts]. apply yields_ret. intros a [= <-]. split; [done|]. right.
      destruct ts as [|t ts]; [done|]. apply Forall_cons in Hts as [Ht _]. simpl. eauto.
Qed.

End SetupFacts.

(** ** The fuel of the repeated questions *)

(** A dialog never gives answers back. *)
Definition consumes {A} (d : dialog A) : Prop :=
  forall s a s', d s = Some (a, s') -> (length s' <= length s)%nat.

Lemma consumes_ret {A} (a : A) : consumes (dret a).
Proof. by intros s b s' [= _ <-]. Qed.

Lemma consumes_bind {A B} (d : dialog A) (k : A -> dialog B) :
  consumes d -> (forall a, consumes (k a)) -> consumes (dbind d k).
Proof.
  intros Hd Hk s b s'. unfold dbind. destruct (d s) as [[a s1]|] eqn:E; [|done].
  intros E'. apply Hd in E. apply Hk in E'. lia.
Qed.

Lemma flag_consumes s b s' : ask_flag s = Some (b, s') -> length s = S (length s').
Proof. destruct s as [|[] r]; simpl; try done. by intros [= _ <-]. Qed.

Lemma consumes_flag : consumes ask_flag.
Proof. intros s b s' E. apply flag_consumes in E. lia. Qed.

(** Every round ends with an answer to [Confirm], so more fuel than there are answers changes
    nothing: [repeat_confirmed] is the loop of the source, and never stops for want of fuel. *)
Lemma one_or_more_fuel {A} (item : dialog A) (Hi : consumes item) fuel fuel' s :
  (length s < fuel)%nat -> (length s < fuel')%nat ->
  one_or_more fuel item s = one_or_more fuel' item s.
Proof.
  revert fuel' s. induction fuel as [|fuel IH]; intros [|fuel'] s; try lia. simpl. unfold dbind.
  intros Hf Hf'. destruct (item s) as [[x s1]|] eqn:E1; [|done].
  destruct (ask_flag s1) as [[[] s2]|] eqn:E2; [|done|done].
  apply Hi in E1. apply flag_consumes in E2. by rewrite (IH fuel' s2) by lia.
Qed.

Lemma repeat_confirmed_unfold {A} (item : dialog A) (Hi : consumes item) s :
  repeat_confirmed item s =
  (x <-- item; again <-- ask_flag;
   if again : bool then (xs <-- repeat_confirmed item; dret (x :: xs)) else dret [x]) s.
Proof.
  unfold repeat_confirmed at 1. cbn [one_or_more]. unfold dbind.
  destruct (item s) as [[x s1]|] eqn:E1; [|done].
  destruct (ask_flag s1) as [[[] s2]|] eqn:E2; [|done|done].
  apply Hi in E1. apply flag_consumes in E2. unfold repeat_confirmed.
  by rewrite (one_or_more_fuel item Hi (length s) (S (length s2)) s2) by lia.
Qed.

Lemma consumes_one_or_more {A} (item : dialog A) fuel :
  consumes item -> consumes (one_or_more fuel item).
Proof.
  intros Hi. induction fuel as [|fuel IH]; [done|]. simpl.
  apply consumes_bind; [done|]. intros x. apply consumes_bind; [apply consumes_flag|].
  intros []; [|apply consumes_ret]. apply consumes_bind; [done|]. intros; apply consumes_ret.
Qed.

Lemma consumes_repeat {A} (item : dialog A) : consumes item -> consumes (repeat_confirmed item).
Proof. intros Hi s a s'. by apply consumes_one_or_more. Qed.

Create HintDb dialogs.
#[export] Hint Resolve consumes_ret consumes_bind consumes_flag consumes_repeat : dialogs.

Lemma consumes_text : consumes ask_text.
Proof. intros [|[] r] a s'; simpl; try done. intros [= _ <-]. lia. Qed.

Lemma consumes_nonempty : consumes ask_nonempty.
Proof. intros [|[] r] a s'; simpl; try done. case_match; [done|]. intros [= _ <-]. lia. Qed.

Lemma consumes_number m : consumes (ask_number m).
Proof. intros [|[] r] a s'; simpl; try done. case_match; [|done]. intros [= _ <-]. lia. Qed.

Lemma consumes_index n : consumes (ask_index n).
Proof. intros [|[] r] a s'; simpl; try done. case_match; [|done]. intros [= _ <-]. lia. Qed.

Lemma consumes_indices n : consumes (ask_indices n).
Proof. intros [|[] r] a s'; simpl; try done. case_match; [|done]. intros [= _ <-]. lia. Qed.

#[export] Hint Resolve consumes_text consumes_nonempty consumes_number consumes_index
  consumes_indices : dialogs.

Ltac consume :=
  repeat first [ solve [auto 2 with dialogs] | apply consumes_bind; [|intros] | case_match ].

Section Fuel.
Context `{NumberApi} `{RegexApi}.

Lemma consumes_token : consumes ask_token.
Proof. unfold ask_token. consume. Qed.

Lemma consumes_condition : consumes ask_condition.
Proof. unfold ask_condition, ask_field, ask_value. consume. Qed.

Lemma consumes_filter : consumes ask_filter.
Proof. unfold ask_filter. consume. Qed.

#[local] Hint Resolve consumes_condition consumes_filter : dialogs.

Lemma consumes_custom_rule : consumes build_custom_rule.
Proof. unfold build_custom_rule, finish_rule. consume. Qed.

#[local] Hint Resolve consumes_custom_rule : dialogs.

(** The repeated questions of the builder (tokens, conditions, filters, rounds of rules) all
    meet the condition of [repeat_confirmed_unfold]. *)
Lemma consumes_round : consumes ask_round.
Proof.
  unfold ask_round. apply consumes_bind; [auto with dialogs|]. intros chosen.
  induction chosen as [|idx rest IH]; simpl; consume.
Qed.

End Fuel.
