(* ===== verification/Serde.v ===== *)
(** * The YAML form of a configuration (the derived [Serialize] and [Deserialize] of
    [src/config.rs])

    What the field declarations and the [#[serde]] attributes of the configuration types derive:
    a writer into [serde_yaml]'s values, and a reader of the nodes of a parsed text.  A reader
    is a partial function; the text of its error is the crate's. *)

From S2P Require Import Prelude RustStr External Json Config.

Open Scope Z_scope.

(** ** Readers of a struct *)

(** The values under a name, in the order of the text. *)
Definition field_values {V} (name : string) (fs : list (string * V)) : list V :=
  omap (fun kv => if String.eqb kv.1 name then Some kv.2 else None) fs.

(** A field of a derived reader: [missing] is what its absence gives, and a name that comes
    twice is an error. *)
Definition field_or {V A} (missing : option A) (de : V -> option A) (name : string)
    (fs : list (string * V)) : option A :=
  match field_values name fs with
  | [] => missing
  | [v] => de v
  | _ => None
  end.

(** A field without attribute, and one that is [#[serde(default)]]. *)
Definition required {V A} (de : V -> option A) := field_or (@None A) de.
Definition defaulted {V A} (d : A) (de : V -> option A) := field_or (V := V) (Some d) de.

Section Serde.
Context `{YamlApi} `{RegexApi}.

(** ** Reading a text *)

(** The entries of a mapping, under the text of their keys. *)
Definition node_fields (n : Node) : option (list (string * Node)) :=
  es ← node_map n; mapM (fun e => k ← node_str e.1; Some (k, e.2)) es.

Definition node_option {A} (de : Node -> option A) (n : Node) : option (option A) :=
  if node_null n then Some None else a ← de n; Some (Some a).

Definition node_list {A} (de : Node -> option A) (n : Node) : option (list A) :=
  ns ← node_seq n; mapM de ns.

(** An unsigned integer of a narrower type. *)
Definition node_uint (max : Z) (n : Node) : option Z :=
  z ← node_u64 n; if z <=? max then Some z else None.

(** [#[serde(default)] field: Option<T>]. *)
Definition optional {A} (de : Node -> option A) :=
  defaulted (V := Node) (@None A) (node_option de).

(** *** Conditions

    [ConditionNode] is untagged: its node is buffered as a value, and each variant is tried on
    the buffer in turn.  A buffer is typed, so a field of type [String] needs a string. *)

Definition buffer_str (v : YamlValue) : option string :=
  match v with
  | YString s => Some s
  | _ => None
  end.

Definition buffer_option {A} (de : YamlValue -> option A) (v : YamlValue) : option (option A) :=
  match v with
  | YNull => Some None
  | _ => a ← de v; Some (Some a)
  end.

(** A field may be named, or numbered in the order of the declaration; a key that is neither
    text nor an unsigned number is an error. *)
Definition buffer_key (names : list string) (k : YamlValue) : option (option string) :=
  match k with
  | YString s => Some (Some s)
  | YNumber x => i ← yaml_as_u64 x; Some (names !! Z.to_nat i)
  | _ => None
  end.

Definition buffer_fields {V} (names : list string) (m : list (YamlValue * V))
    : option (list (string * V)) :=
  ks ← mapM (fun e => buffer_key names e.1) m;
  Some (omap (fun kv => k ← kv.1; Some (k, kv.2)) (zip ks (map snd m))).

Definition condition_names : list string := ["field"; "operator"; "value"].

(** A struct buffered as a sequence gives its fields in order. *)
Definition Condition_of_sequence (l : list YamlValue) : option Condition :=
  match l with
  | f :: rest =>
      field ← buffer_str f;
      match rest with
      | [] => Some {| field := field; operator := ""; value := None; compiled_regex := None |}
      | o :: rest' =>
          operator ← buffer_str o;
          match rest' with
          | [] => Some {| field := field; operator := operator; value := None;
                          compiled_regex := None |}
          | [v] => value ← buffer_option value_of_buffer v;
                   Some {| field := field; operator := operator; value := value;
                           compiled_regex := None |}
          | _ => None
          end
      end
  | [] => None
  end.

Definition Condition_deserialize (v : YamlValue) : option Condition :=
  match v with
  | YMapping m =>
      fs ← buffer_fields condition_names m;
      field ← required buffer_str "field" fs;
      operator ← defaulted "" buffer_str "operator" fs;
      value ← defaulted None (buffer_option value_of_buffer) "value" fs;
      Some {| field := field; operator := operator; value := value; compiled_regex := None |}
  | YSequence l => Condition_of_sequence l
  | _ => None
  end.

(** The lists of nodes under [name] in a buffered mapping. *)
Definition variant (name : string) (m : list (YamlValue * option (list ConditionNode)))
    : option (list ConditionNode) :=
  fs ← buffer_fields [name] m; required id name fs.

Fixpoint ConditionNode_deserialize (v : YamlValue) : option ConditionNode :=
  match Condition_deserialize v with
  | Some c => Some (Leaf c)
  | None =>
      match v with
      | YMapping m =>
          let read x := match x with
                        | YSequence l => mapM ConditionNode_deserialize l
                        | _ => None
                        end in
          let m := map (fun e => (e.1, read e.2)) m in
          match variant "and" m with
          | Some l => Some (And l)
          | None => l ← variant "or" m; Some (Or l)
          end
      | _ => None
      end
  end.

Definition node_condition (n : Node) : option ConditionNode :=
  v ← node_any n; ConditionNode_deserialize v.

(** *** The other types *)

Definition TlsConfig_deserialize (n : Node) : option TlsConfig :=
  fs ← node_fields n;
  cert ← required node_str "cert" fs;
  key ← required node_str "key" fs;
  client_ca ← optional node_str "client_ca" fs;
  require_client_cert ← optional node_bool "require_client_cert" fs;
  Some {| tls_cert := cert; tls_key := key; tls_client_ca := client_ca;
          tls_require_client_cert := require_client_cert |}.

Definition MetricsConfig_deserialize (n : Node) : option MetricsConfig :=
  fs ← node_fields n;
  enabled ← optional node_bool "enabled" fs;
  path ← optional node_str "path" fs;
  Some {| metrics_enabled := enabled; metrics_path := path |}.

Definition GlobalConfig_deserialize (n : Node) : option GlobalConfig :=
  fs ← node_fields n;
  port ← optional (node_uint U16_MAX) "port" fs;
  socket ← optional node_str "socket" fs;
  log_level ← optional node_str "log_level" fs;
  log_format ← optional node_str "log_format" fs;
  audit_log ← optional node_str "audit_log" fs;
  bind ← optional node_str "bind" fs;
  tls ← optional TlsConfig_deserialize "tls" fs;
  metrics ← optional MetricsConfig_deserialize "metrics" fs;
  trusted_proxies ← optional (node_list node_str) "trusted_proxies" fs;
  Some {| global_port := port; global_socket := socket; global_log_level := log_level;
          global_log_format := log_format; global_audit_log := audit_log; global_bind := bind;
          global_tls := tls; global_metrics := metrics;
          global_trusted_proxies := trusted_proxies |}.

Definition CertRoleMapping_deserialize (n : Node) : option CertRoleMapping :=
  fs ← node_fields n;
  cn ← required node_str "cn" fs;
  role ← required node_str "role" fs;
  Some {| mapping_cn := cn; mapping_role := role |}.

Definition MtlsConfig_deserialize (n : Node) : option MtlsConfig :=
  fs ← node_fields n;
  cert_role_map ← optional (node_list CertRoleMapping_deserialize) "cert_role_map" fs;
  default_role ← optional node_str "default_role" fs;
  Some {| cert_role_map := cert_role_map; default_role := default_role |}.

(** [impl Deserialize for SecretToken]: [visit_str] on the text of a scalar. *)
Definition SecretToken_deserialize (n : Node) : option string := node_str n.

Definition TokenEntry_deserialize (n : Node) : option TokenEntry :=
  fs ← node_fields n;
  token ← required SecretToken_deserialize "token" fs;
  role ← optional node_str "role" fs;
  Some {| token := token; token_role := role |}.

Definition AuthConfig_deserialize (n : Node) : option AuthConfig :=
  fs ← node_fields n;
  auth_type ← optional node_str "type" fs;
  secret ← optional SecretToken_deserialize "secret" fs;
  tokens ← optional (node_list TokenEntry_deserialize) "tokens" fs;
  mtls ← optional MtlsConfig_deserialize "mtls" fs;
  Some {| auth_type := auth_type; auth_secret := secret; auth_tokens := tokens;
          auth_mtls := mtls |}.

Definition ResponseFilterEntry_deserialize (n : Node) : option ResponseFilterEntry :=
  fs ← node_fields n;
  field ← required node_str "field" fs;
  action ← required node_str "action" fs;
  replacement ← optional node_str "replacement" fs;
  Some {| filter_field := field; filter_action := action; replacement := replacement |}.

Definition RateLimitConfig_deserialize (n : Node) : option RateLimitConfig :=
  fs ← node_fields n;
  requests ← defaulted default_rate_requests node_u64 "requests" fs;
  period ← defaulted default_rate_period node_u64 "period" fs;
  penalty ← defaulted default_rate_penalty node_u64 "penalty" fs;
  Some {| requests := requests; period := period; penalty := penalty |}.

Definition Rule_deserialize (n : Node) : option Rule :=
  fs ← node_fields n;
  name ← required node_str "name" fs;
  description ← optional node_str "description" fs;
  action ← defaulted "" node_str "action" fs;
  priority ← optional (node_uint U32_MAX) "priority" fs;
  conditions ← defaulted [] (node_list node_condition) "conditions" fs;
  message ← optional node_str "message" fs;
  role ← optional node_str "role" fs;
  response_filter ← optional (node_list ResponseFilterEntry_deserialize) "response_filter" fs;
  status ← optional (node_uint U16_MAX) "status" fs;
  methods ← optional (node_list node_str) "methods" fs;
  rate_limit ← optional RateLimitConfig_deserialize "rate_limit" fs;
  dry_run ← optional node_bool "dry_run" fs;
  Some {| rule_name := name; rule_description := description; rule_action := action;
          rule_priority := priority; rule_conditions := conditions; rule_message := message;
          rule_role := role; rule_response_filter := response_filter; rule_status := status;
          rule_methods := methods; rule_rate_limit := rate_limit; rule_dry_run := dry_run |}.

Definition ProxyConfig_deserialize (n : Node) : option ProxyConfig :=
  fs ← node_fields n;
  global ← optional GlobalConfig_deserialize "global" fs;
  auth ← optional AuthConfig_deserialize "auth" fs;
  rules ← optional (node_list Rule_deserialize) "rules" fs;
  Some {| config_global := global; config_auth := auth; config_rules := rules |}.

(** [serde_yaml::from_str::<ProxyConfig>]. *)
Definition ProxyConfig_from_str (s : string) : result ProxyConfig string :=
  match yaml_document s ≫= ProxyConfig_deserialize with
  | Some cfg => Ok cfg
  | None => Err (yaml_error s)
  end.

(** ** Writing *)

Definition write_option {A} (ser : A -> YamlValue) (o : option A) : YamlValue :=
  match o with
  | None => YNull
  | Some a => ser a
  end.

Definition write_list {A} (ser : A -> YamlValue) (l : list A) : YamlValue :=
  YSequence (map ser l).

Definition write_uint (z : Z) : YamlValue := YNumber (yaml_of_u64 z).

Definition write_struct (fs : list (string * YamlValue)) : YamlValue :=
  YMapping (map (fun kv => (YString kv.1, kv.2)) fs).

Definition Condition_serialize (c : Condition) : YamlValue :=
  write_struct [("field", YString (field c)); ("operator", YString (operator c));
                ("value", write_option id (value c))].

Fixpoint ConditionNode_serialize (n : ConditionNode) : YamlValue :=
  match n with
  | Leaf c => Condition_serialize c
  | And l => write_struct [("and", YSequence (map ConditionNode_serialize l))]
  | Or l => write_struct [("or", YSequence (map ConditionNode_serialize l))]
  end.

Definition TlsConfig_serialize (t : TlsConfig) : YamlValue :=
  write_struct [("cert", YString (tls_cert t)); ("key", YString (tls_key t));
                ("client_ca", write_option YString (tls_client_ca t));
                ("require_client_cert", write_option YBool (tls_require_client_cert t))].

Definition MetricsConfig_serialize (m : MetricsConfig) : YamlValue :=
  write_struct [("enabled", write_option YBool (metrics_enabled m));
                ("path", write_option YString (metrics_path m))].

Definition GlobalConfig_serialize (g : GlobalConfig) : YamlValue :=
  write_struct
    [("port", write_option write_uint (global_port g));
     ("socket", write_option YString (global_socket g));
     ("log_level", write_option YString (global_log_level g));
     ("log_format", write_option YString (global_log_format g));
     ("audit_log", write_option YString (global_audit_log g));
     ("bind", write_option YString (global_bind g));
     ("tls", write_option TlsConfig_serialize (global_tls g));
     ("metrics", write_option MetricsConfig_serialize (global_metrics g));
     ("trusted_proxies", write_option (write_list YString) (global_trusted_proxies g))].

Definition CertRoleMapping_serialize (c : CertRoleMapping) : YamlValue :=
  write_struct [("cn", YString (mapping_cn c)); ("role", YString (mapping_role c))].

Definition MtlsConfig_serialize (m : MtlsConfig) : YamlValue :=
  write_struct
    [("cert_role_map", write_option (write_list CertRoleMapping_serialize) (cert_role_map m));
     ("default_role", write_option YString (default_role m))].

(** [impl Serialize for SecretToken]: the exposed secret. *)
Definition SecretToken_serialize (s : string) : YamlValue := YString s.

Definition TokenEntry_serialize (t : TokenEntry) : YamlValue :=
  write_struct [("token", SecretToken_serialize (token t));
                ("role", write_option YString (token_role t))].

Definition AuthConfig_serialize (a : AuthConfig) : YamlValue :=
  write_struct
    [("type", write_option YString (auth_type a));
     ("secret", write_option SecretToken_serialize (auth_secret a));
     ("tokens", write_option (write_list TokenEntry_serialize) (auth_tokens a));
     ("mtls", write_option MtlsConfig_serialize (auth_mtls a))].

Definition ResponseFilterEntry_serialize (f : ResponseFilterEntry) : YamlValue :=
  write_struct [("field", YString (filter_field f)); ("action", YString (filter_action f));
                ("replacement", write_option YString (replacement f))].

Definition RateLimitConfig_serialize (r : RateLimitConfig) : YamlValue :=
  write_struct [("requests", write_uint (requests r)); ("period", write_uint (period r));
                ("penalty", write_uint (penalty r))].

Definition Rule_serialize (r : Rule) : YamlValue :=
  write_struct
    [("name", YString (rule_name r));
     ("description", write_option YString (rule_description r));
     ("action", YString (rule_action r));
     ("priority", write_option write_uint (rule_priority r));
     ("conditions", write_list ConditionNode_serialize (rule_conditions r));
     ("message", write_option YString (rule_message r));
     ("role", write_option YString (rule_role r));
     ("response_filter",
      write_option (write_list ResponseFilterEntry_serialize) (rule_response_filter r));
     ("status", write_option write_uint (rule_status r));
     ("methods", write_option (write_list YString) (rule_methods r));
     ("rate_limit", write_option RateLimitConfig_serialize (rule_rate_limit r));
     ("dry_run", write_option YBool (rule_dry_run r))].

Definition ProxyConfig_serialize (cfg : ProxyConfig) : YamlValue :=
  write_struct
    [("global", write_option GlobalConfig_serialize (config_global cfg));
     ("auth", write_option AuthConfig_serialize (config_auth cfg));
     ("rules", write_option (write_list Rule_serialize) (config_rules cfg))].

(** [serde_yaml::to_string(&config)]. *)
Definition ProxyConfig_to_string (cfg : ProxyConfig) : result string string :=
  yaml_to_string (ProxyConfig_serialize cfg).

End Serde.
