(* ===== verification/SerdeFacts.v ===== *)
(** * A configuration reads back as it was written

    [reads_back ser de good]: the reader [de] gives back every value satisfying [good] from a
    node that reads as what [ser] wrote.  One lemma for each combinator and each type, up to
    the whole configuration. *)

From S2P Require Import Prelude RustStr External Json Config Serde.

Open Scope Z_scope.

(** ** Struct fields *)

Lemma field_one {V A} (missing : option A) (de : V -> option A) name fs v :
  field_values name fs = [v] -> field_or missing de name fs = de v.
Proof. intros E. unfold field_or. by rewrite E. Qed.

Definition on_some {A} (good : A -> Prop) (o : option A) : Prop :=
  match o with
  | Some a => good a
  | None => True
  end.

(** [read_fields]: read the fields of a struct one after the other, from literal names. *)
Ltac read_field :=
  cbv beta delta [required optional defaulted];
  erewrite field_one by reflexivity; cbn [snd];
  try reflexivity; eauto 6 with serde.

Ltac read_fields :=
  repeat match goal with
  | |- (?m ≫= ?k) = Some _ => eapply bind_eq; [solve [read_field]|]; cbv beta
  end.

Create HintDb serde.

Section Readers.
Context `{YamlLaws} `{RegexApi}.

Abbreviation reads_back ser de good := (forall a n, good a -> reads n (ser a) -> de n = Some a).

Lemma reads_not_null n v : reads n v -> v <> YNull -> node_null n = false.
Proof. by destruct 1. Qed.

Lemma reads_fields n fs :
  reads n (write_struct fs) ->
  exists ns, node_fields n = Some (zip (map fst fs) ns) /\ Forall2 reads ns (map snd fs).
Proof.
  intros Hr. inversion Hr as [| | | | |n' es m Hn Hm Hk Hv _|]; subst. exists (map snd es).
  rewrite map_map in Hk, Hv. cbn [fst snd] in Hk, Hv.
  split; [|done]. unfold node_fields. rewrite Hm. cbn [option_bind mbind].
  clear Hr Hm Hn. revert fs Hk Hv. induction es as [|e es IH]; intros [|f fs] Hk Hv;
    inversion Hk as [|? ? ? ? Hk1 Hk2]; inversion Hv; subst; [done|].
  inversion Hk1 as [| | |n' s _ Hs _| | |]; subst. cbn. rewrite Hs. cbn.
  specialize (IH fs Hk2 ltac:(done)). by rewrite IH.
Qed.

Lemma reads_str s n : reads n (YString s) -> node_str n = Some s.
Proof. by inversion 1. Qed.

Lemma reads_bool b n : reads n (YBool b) -> node_bool n = Some b.
Proof. by inversion 1. Qed.

Lemma reads_u64 z n : 0 <= z <= U64_MAX -> reads n (write_uint z) -> node_u64 n = Some z.
Proof. intros Hz. inversion 1; subst. by rewrite <- yaml_u64. Qed.

Lemma reads_uint max z n :
  max <= U64_MAX -> 0 <= z <= max -> reads n (write_uint z) -> node_uint max n = Some z.
Proof.
  intros Hm Hz Hr. unfold node_uint. rewrite (reads_u64 z) by (done || lia). cbn.
  destruct (Z.leb_spec z max); [done|lia].
Qed.

Lemma reads_option {A} (ser : A -> YamlValue) de good :
  (forall a, ser a <> YNull) -> reads_back ser de good ->
  reads_back (write_option ser) (node_option de) (on_some good).
Proof.
  intros Hn Hr [a|] n Hg Hd; unfold node_option; simpl in *.
  - rewrite (reads_not_null _ _ Hd) by done. by rewrite (Hr a n).
  - inversion Hd as [m Hm Ha| | | | | |]. by rewrite Hm.
Qed.

Lemma reads_list {A} (ser : A -> YamlValue) de good :
  reads_back ser de good -> reads_back (write_list ser) (node_list de) (Forall good).
Proof.
  intros Hr l n Hg Hd. inversion Hd as [| | | |n' ns l' _ Hs Hl _| |]; subst.
  unfold node_list. rewrite Hs. cbn. clear Hd Hs. revert ns Hl.
  induction Hg as [|a l Ha _ IH]; intros ns Hl; inversion Hl as [|m ? ns' ? Hm Hns]; subst; [done|].
  cbn. rewrite (Hr a m) by done. cbn. by rewrite IH.
Qed.

#[local] Hint Resolve reads_str reads_bool reads_u64 : serde.
#[local] Hint Extern 1 (node_uint _ _ = Some _) => eapply reads_uint : serde.

(** ** Conditions *)

Lemma mapless_untagged v : mapless v = true -> untagged v = true.
Proof.
  revert v. fix IH 1. intros [| | | |l|m|t v]; try done. simpl.
  induction l as [|v l IHl]; [done|]. cbn. intros [Hv Hl]%andb_true_iff.
  apply andb_true_iff. split; [by apply IH|by apply IHl].
Qed.

(** What the YAML form keeps of a condition: not the compiled regex, no mapping or tag as its
    value; and a value that is [null] reads back as none. *)
Definition condition_writable (c : Condition) : Prop :=
  compiled_regex c = None /\ value c <> Some YNull /\ on_some (fun v => mapless v = true) (value c).

Lemma condition_untagged c :
  condition_writable c -> untagged (Condition_serialize c) = true.
Proof.
  intros (_ & _ & Hv). simpl. destruct (value c) as [v|]; simpl in *; [|done].
  by rewrite mapless_untagged.
Qed.

Lemma condition_reads_back c :
  condition_writable c -> Condition_deserialize (Condition_serialize c) = Some c.
Proof.
  destruct c as [f o v r]. intros (Hr & Hn & Hv). cbn in *. subst r.
  unfold Condition_deserialize. cbn -[required defaulted]. read_fields. eapply bind_eq; [|done]. unfold defaulted. erewrite field_one by reflexivity.
  destruct v as [v|]; [|done]. cbn [snd write_option id on_some] in *.
  unfold buffer_option. rewrite yaml_buffer by done. by destruct v.
Qed.

Definition node_writable (n : ConditionNode) : Prop := Forall condition_writable (leaves n).

Lemma forall_leaves (P : Condition -> Prop) l :
  Forall P (concat (map leaves l)) -> Forall (fun n => Forall P (leaves n)) l.
Proof.
  induction l as [|n l IH]; cbn; [done|]. intros [Hn Hl]%Forall_app. constructor; [done|by apply IH].
Qed.

Lemma node_untagged n : node_writable n -> untagged (ConditionNode_serialize n) = true.
Proof.
  induction n as [c|l IH|l IH] using ConditionNode_ind'; unfold node_writable; cbn [leaves].
  { intros [Hc _]%Forall_cons. exact (condition_untagged c Hc). }
  all: intros Hl%forall_leaves; cbn; rewrite !andb_true_r, forallb_forall.
  all: intros v (n & <- & Hn%list_elem_of_In)%in_map_iff; rewrite Forall_forall in IH, Hl.
  all: apply IH; [done|by apply Hl].
Qed.

Lemma mapM_reads l :
  Forall (fun n => node_writable n -> ConditionNode_deserialize (ConditionNode_serialize n) = Some n) l ->
  Forall node_writable l ->
  mapM ConditionNode_deserialize (map ConditionNode_serialize l) = Some l.
Proof.
  induction 1 as [|n l Hn _ IH]; [done|]. intros [Hw Hl]%Forall_cons.
  cbn [map mapM]. rewrite Hn by done. cbn. by rewrite IH.
Qed.

Lemma node_reads_back n :
  node_writable n -> ConditionNode_deserialize (ConditionNode_serialize n) = Some n.
Proof.
  induction n as [c|l IH|l IH] using ConditionNode_ind'; unfold node_writable; cbn [leaves].
  - intros [Hc _]%Forall_cons.
    change (ConditionNode_serialize (Leaf c)) with (Condition_serialize c).
    pose proof (condition_reads_back c Hc) as E. unfold Condition_serialize, write_struct in *.
    cbn [ConditionNode_deserialize]. by rewrite E.
  - intros Hl%forall_leaves. cbn. by rewrite mapM_reads.
  - intros Hl%forall_leaves. cbn. by rewrite mapM_reads.
Qed.

Lemma reads_any v n : untagged v = true -> reads n v -> node_any n = Some v.
Proof. intros Hv. destruct 1; auto. done. Qed.

Lemma reads_condition c n :
  node_writable c -> reads n (ConditionNode_serialize c) -> node_condition n = Some c.
Proof.
  intros Hw Hr. unfold node_condition. rewrite (reads_any (ConditionNode_serialize c)) by
    (try apply node_untagged; done).
  cbn. by apply node_reads_back.
Qed.

(** ** Types *)

(** The integers of a configuration fit their fields. *)
Definition u16 (z : Z) : Prop := 0 <= z <= U16_MAX.
Definition u32 (z : Z) : Prop := 0 <= z <= U32_MAX.
Definition u64 (z : Z) : Prop := 0 <= z <= U64_MAX.

Definition limit_fits (r : RateLimitConfig) : Prop :=
  u64 (requests r) /\ u64 (period r) /\ u64 (penalty r).

Definition rule_fits (r : Rule) : Prop :=
  on_some u32 (rule_priority r) /\ on_some u16 (rule_status r)
  /\ on_some limit_fits (rule_rate_limit r).

Definition global_fits (g : GlobalConfig) : Prop := on_some u16 (global_port g).

Definition config_fits (cfg : ProxyConfig) : Prop :=
  on_some global_fits (config_global cfg) /\ Forall rule_fits (rules_of cfg).

(** A configuration the text keeps. *)
Definition rule_writable (r : Rule) : Prop :=
  rule_fits r /\ Forall node_writable (rule_conditions r).

Definition writable (cfg : ProxyConfig) : Prop :=
  on_some global_fits (config_global cfg) /\ Forall rule_writable (rules_of cfg).

Lemma on_some_trivial {A} (o : option A) : on_some (fun _ => True) o.
Proof. by destruct o. Qed.

Lemma forall_trivial {A} (l : list A) : Forall (fun _ => True) l.
Proof. by induction l; constructor. Qed.

(** A field that has no condition on its value. *)
Lemma reads_free {A} (ser : A -> YamlValue) de o n :
  reads n (write_option ser o) -> (forall a, ser a <> YNull) ->
  (forall a n, reads n (ser a) -> de n = Some a) -> node_option de n = Some o.
Proof.
  intros Ho Hn Hr. apply (reads_option ser de (fun _ => True)); [done|by auto| |done].
  apply on_some_trivial.
Qed.

Lemma reads_free_list {A} (ser : A -> YamlValue) de l n :
  reads n (write_list ser l) ->
  (forall a n, reads n (ser a) -> de n = Some a) -> node_list de n = Some l.
Proof.
  intros Hl Hr. apply (reads_list ser de (fun _ => True)); [by auto| |done]. apply forall_trivial.
Qed.

Lemma reads_some {A} (ser : A -> YamlValue) de good o n :
  reads n (write_option ser o) -> on_some good o -> (forall a, ser a <> YNull) ->
  (forall a n, good a -> reads n (ser a) -> de n = Some a) -> node_option de n = Some o.
Proof. intros Ho Hg Hn Hr. by apply (reads_option ser de good). Qed.

Lemma reads_all {A} (ser : A -> YamlValue) de good l n :
  reads n (write_list ser l) -> Forall good l ->
  (forall a n, good a -> reads n (ser a) -> de n = Some a) -> node_list de n = Some l.
Proof. intros Hl Hg Hr. by apply (reads_list ser de good). Qed.

#[local] Hint Resolve reads_condition : serde.
#[local] Hint Extern 1 (node_option _ _ = Some _) =>
  first [eapply reads_some; [eassumption|eassumption|done|intros]
        |eapply reads_free; [eassumption|done|intros]] : serde.
#[local] Hint Extern 1 (node_list _ _ = Some _) =>
  first [eapply reads_all; [eassumption|eassumption|intros]
        |eapply reads_free_list; [eassumption|intros]] : serde.

(** [read_struct]: a node that reads as a struct is read field by field. *)
Ltac read_struct :=
  let Hr := fresh in
  intros Hr; apply reads_fields in Hr as (? & ? & ?); cbn [map fst snd] in *;
  repeat match goal with
  | H : Forall2 reads _ (_ :: _) |- _ => apply Forall2_cons_inv_r in H as (? & ? & ? & ? & ->)
  | H : Forall2 reads _ [] |- _ => apply Forall2_nil_inv_r in H as ->
  end;
  match goal with
  | E : node_fields _ = _ |- ?l = ?r =>
      let l' := eval red in l in change (l' = r); rewrite E
  end;
  cbn [zip_with mbind option_bind]; read_fields.

Lemma reads_tls t n : reads n (TlsConfig_serialize t) -> TlsConfig_deserialize n = Some t.
Proof. read_struct. by destruct t. Qed.

Lemma reads_metrics m n :
  reads n (MetricsConfig_serialize m) -> MetricsConfig_deserialize n = Some m.
Proof. read_struct. by destruct m. Qed.

Lemma reads_mapping_entry c n :
  reads n (CertRoleMapping_serialize c) -> CertRoleMapping_deserialize n = Some c.
Proof. read_struct. by destruct c. Qed.

Lemma reads_filter f n :
  reads n (ResponseFilterEntry_serialize f) -> ResponseFilterEntry_deserialize n = Some f.
Proof. read_struct. by destruct f. Qed.

Lemma reads_token t n : reads n (TokenEntry_serialize t) -> TokenEntry_deserialize n = Some t.
Proof. read_struct. by destruct t. Qed.

#[local] Hint Resolve reads_tls reads_metrics reads_mapping_entry reads_filter reads_token : serde.

Lemma reads_mtls m n : reads n (MtlsConfig_serialize m) -> MtlsConfig_deserialize n = Some m.
Proof. read_struct. by destruct m. Qed.

#[local] Hint Resolve reads_mtls : serde.

Lemma reads_auth a n : reads n (AuthConfig_serialize a) -> AuthConfig_deserialize n = Some a.
Proof. read_struct. by destruct a. Qed.

Lemma reads_limit r n :
  limit_fits r -> reads n (RateLimitConfig_serialize r) -> RateLimitConfig_deserialize n = Some r.
Proof. intros (H1' & H2' & H3'). read_struct. by destruct r. Qed.

Lemma reads_u16 z n : u16 z -> reads n (write_uint z) -> node_uint U16_MAX n = Some z.
Proof. intros Hz. by apply reads_uint. Qed.

Lemma reads_u32 z n : u32 z -> reads n (write_uint z) -> node_uint U32_MAX n = Some z.
Proof. intros Hz. by apply reads_uint. Qed.

#[local] Hint Resolve reads_auth reads_limit reads_u16 reads_u32 : serde.

Lemma reads_global g n :
  global_fits g -> reads n (GlobalConfig_serialize g) -> GlobalConfig_deserialize n = Some g.
Proof. unfold global_fits. intros Hp. read_struct. by destruct g. Qed.

Lemma reads_rule r n :
  rule_writable r -> reads n (Rule_serialize r) -> Rule_deserialize n = Some r.
Proof. intros ((Hp & Hs & Hl) & Hc). read_struct. by destruct r. Qed.

#[local] Hint Resolve reads_global reads_rule : serde.

Lemma reads_config cfg n :
  writable cfg -> reads n (ProxyConfig_serialize cfg) -> ProxyConfig_deserialize n = Some cfg.
Proof.
  intros [Hg Hr']. assert (Hr : on_some (Forall rule_writable) (config_rules cfg))
    by (unfold rules_of in Hr'; by destruct (config_rules cfg)).
  clear Hr'. revert Hr. intros Hrs. read_struct. by destruct cfg.
Qed.

(** What is written reads back. *)
Lemma config_text cfg s :
  writable cfg -> ProxyConfig_to_string cfg = Ok s -> ProxyConfig_from_str s = Ok cfg.
Proof.
  intros Hw Hs. apply yaml_written in Hs as (n & Hd & Hn). unfold ProxyConfig_from_str.
  rewrite Hd. cbn [mbind option_bind]. by rewrite (reads_config cfg).
Qed.

(** ** What is read fits *)

Lemma defaulted_Some {V A} (P : A -> Prop) d (de : V -> option A) name fs a :
  P d -> (forall v a, de v = Some a -> P a) -> defaulted d de name fs = Some a -> P a.
Proof.
  intros Hd Hv. unfold defaulted, field_or. destruct (field_values name fs) as [|v [|]]; try done.
  - by intros [= <-].
  - apply Hv.
Qed.

Lemma optional_Some {A} (P : A -> Prop) (de : Node -> option A) name fs o :
  (forall n a, de n = Some a -> P a) -> optional de name fs = Some o -> on_some P o.
Proof.
  intros Hde. apply defaulted_Some; [done|]. intros n [a|]; [|done]. unfold node_option.
  destruct (node_null n); [done|]. intros (a' & Ha & [= ->])%bind_Some. by eapply Hde.
Qed.

Lemma node_uint_fits max n z : node_uint max n = Some z -> 0 <= z <= max.
Proof.
  intros (z' & Hz & E)%bind_Some. apply node_u64_range in Hz.
  destruct (Z.leb_spec z' max); [|done]. injection E as ->. lia.
Qed.

Lemma node_list_fits {A} (P : A -> Prop) (de : Node -> option A) n l :
  (forall n a, de n = Some a -> P a) -> node_list de n = Some l -> Forall P l.
Proof.
  intros Hde (ns & _ & Hm)%bind_Some. apply mapM_Some_1 in Hm.
  induction Hm; constructor; eauto.
Qed.

(** [split_reader]: the fields a reader has read. *)
Ltac split_reader :=
  repeat match goal with
  | H : _ ≫= _ = Some _ |- _ => apply bind_Some in H as (? & ? & H)
  end.

Lemma limit_read_fits n r : RateLimitConfig_deserialize n = Some r -> limit_fits r.
Proof.
  intros E. unfold RateLimitConfig_deserialize in E. split_reader. injection E as <-.
  split_and!; cbn; (eapply (defaulted_Some u64); [|apply node_u64_range|eassumption]; done).
Qed.

Lemma rule_read_fits n r : Rule_deserialize n = Some r -> rule_fits r.
Proof.
  intros E. unfold Rule_deserialize in E. split_reader. injection E as <-.
  split_and!; cbn; (eapply optional_Some; [|eassumption]); eauto using limit_read_fits.
  all: intros; by eapply node_uint_fits.
Qed.

Lemma global_read_fits n g : GlobalConfig_deserialize n = Some g -> global_fits g.
Proof.
  intros E. unfold GlobalConfig_deserialize in E. split_reader. injection E as <-.
  eapply optional_Some; [|eassumption]. intros. by eapply node_uint_fits.
Qed.

Lemma config_read_fits s cfg : ProxyConfig_from_str s = Ok cfg -> config_fits cfg.
Proof.
  unfold ProxyConfig_from_str. destruct (_ ≫= _) as [c|] eqn:E; [|done]. intros [= <-].
  apply bind_Some in E as (n & _ & E). unfold ProxyConfig_deserialize in E. split_reader.
  injection E as <-. split; cbn.
  - eapply optional_Some; [exact global_read_fits|eassumption].
  - unfold rules_of. cbn. assert (Hr : on_some (Forall rule_fits) x2).
    { eapply optional_Some; [|eassumption]. intros m l. apply node_list_fits, rule_read_fits. }
    by destruct x2.
Qed.

End Readers.
