(* ===== verification/BuilderFile.v ===== *)
(** * From the builder to the proxy

    The file the builder of Setup.v writes, and what the loader of Config.v makes of it: the
    text reads back as the configuration that was built, which only a credential naming an
    unset variable or a pattern that does not compile can keep from loading. *)

From S2P Require Import Prelude RustStr External Json Config Loading Auth Setup Serde SerdeFacts.

Open Scope Z_scope.

(** ** The file *)

Section File.
Context `{YamlApi} `{RegexApi}.

(** The end of [main]: a configuration that does not serialise is a panic, and so is a file
    that cannot be written; [Some] is the path and the content written. *)
Definition setup_main : dialog (string * string) :=
  config <-- setup;
  match ProxyConfig_to_string config with
  | Ok yaml => dret ("config.yaml", yaml)
  | Err _ => fun _ => None
  end.

End File.

(** ** The configurations built can be written *)

Section Writable.
Context `{YamlApi} `{RegexApi}.

Lemma yields_number max : yields (ask_number max) (fun z => 0 <= z <= max).
Proof.
  intros [|[t|i|l|b|z] r] a s'; cbn; try done. destruct (_ && _) eqn:E; [|done].
  intros [= <- _]. by b2p.
Qed.

Lemma leaf_writable f op v :
  v <> Some YNull -> on_some (fun v => mapless v = true) v -> node_writable (leaf f op v).
Proof. intros Hn Hv. by repeat constructor. Qed.

Lemma string_leaf_writable f op s : node_writable (string_leaf f op s).
Proof. by apply leaf_writable. Qed.

Lemma yields_condition : yields ask_condition node_writable.
Proof.
  unfold ask_condition. eapply yields_bind; [apply yields_any|]. intros f _.
  eapply yields_bind; [apply yields_any|]. intros i _.
  eapply (yields_bind _ _ (fun v => v <> Some YNull /\ on_some (fun v => mapless v = true) v)).
  - unfold ask_value. destruct (_ || _); [by apply yields_ret|].
    eapply yields_bind; [apply yields_any|]. intros v _. apply yields_ret. by destruct (is_empty v).
  - intros v [Hn Hv]. by apply yields_ret, leaf_writable.
Qed.

Lemma make_rule_writable name description action conditions message status :
  Forall node_writable conditions -> on_some u16 status ->
  rule_writable (make_rule name description action conditions message status).
Proof. intros Hc Hs. by repeat split. Qed.

Lemma finish_rule_writable action r :
  rule_writable r -> yields (finish_rule action r) rule_writable.
Proof.
  intros [(Hp & Hs & Hl) Hc]. unfold finish_rule. repeat case_bool.
  - eapply yields_bind; [apply yields_any|]. intros i _. by apply yields_ret.
  - eapply yields_bind; [apply yields_any|]. intros fs _. by apply yields_ret.
  - eapply yields_bind; [apply yields_number|]. intros n Hn.
    eapply yields_bind; [apply yields_number|]. intros p Hp'.
    eapply yields_bind; [apply yields_number|]. intros q Hq. apply yields_ret.
    split; [split_and!|]; try done.
  - eapply yields_bind; [apply yields_number|]. intros s Hs'. by apply yields_ret.
  - by apply yields_ret.
Qed.

Lemma custom_rule_writable :
  yields build_custom_rule (fun o => Forall rule_writable (option_list o)).
Proof.
  unfold build_custom_rule. eapply yields_bind; [apply yields_any|]. intros name _.
  eapply yields_bind; [apply yields_any|]. intros i _.
  destruct (rule_actions !! i) as [action|]; [|by apply yields_ret].
  eapply yields_bind; [apply yields_any|]. intros message _.
  eapply yields_bind; [apply (yields_confirmed _ _ yields_condition)|]. intros cs [_ Hc].
  eapply yields_bind.
  - apply finish_rule_writable, make_rule_writable; [done|]. by case_bool.
  - intros r Hr. apply yields_ret. by constructor.
Qed.

Lemma templates_writable i : Forall rule_writable (default [] (templates !! i)).
Proof.
  do 14 (destruct i as [|i]; [by repeat constructor|]). constructor.
Qed.

Lemma ask_chosen_writable chosen : yields (ask_chosen chosen) (Forall rule_writable).
Proof.
  induction chosen as [|i rest IH]; cbn [ask_chosen]; [by apply yields_ret|].
  eapply (yields_bind _ _ (Forall rule_writable)).
  - destruct (i =? 14)%nat; [|apply yields_ret, templates_writable].
    eapply yields_bind; [apply custom_rule_writable|]. intros o Ho. by apply yields_ret.
  - intros now Hnow. eapply yields_bind; [exact IH|]. intros later Hl.
    apply yields_ret. by apply Forall_app.
Qed.

Lemma ask_rules_writable : yields ask_rules (Forall rule_writable).
Proof.
  unfold ask_rules. eapply yields_bind; [apply yields_any|]. intros [|] _; [|by apply yields_ret].
  eapply (yields_bind _ _ (fun rounds => rounds <> [] /\ Forall (Forall rule_writable) rounds)).
  - apply yields_confirmed. unfold ask_round. eapply yields_bind; [apply yields_any|].
    intros chosen _. apply ask_chosen_writable.
  - intros rounds [_ Hr]. apply yields_ret. by apply Forall_concat.
Qed.

Lemma setup_writable : yields setup writable.
Proof.
  unfold setup. eapply yields_bind; [apply yields_number|]. intros port Hp.
  eapply yields_bind; [apply yields_any|]. intros socket _.
  eapply yields_bind; [apply yields_any|]. intros auth _.
  eapply yields_bind; [apply ask_rules_writable|]. intros rules Hr. apply yields_ret.
  split; [exact Hp|]. unfold rules_of. cbn [config_rules]. by destruct rules.
Qed.

(** *** And are well formed *)

Lemma setup_valid :
  yields setup (fun cfg => config_wf cfg /\ carries_credential (config_auth cfg)).
Proof.
  unfold setup. eapply yields_bind; [apply yields_any|]. intros port _.
  eapply yields_bind; [apply yields_any|]. intros socket _.
  eapply yields_bind; [apply ask_auth_credential|]. intros auth Ha.
  eapply yields_bind; [apply ask_rules_wf|]. intros rules Hr. apply yields_ret.
  split; [|done]. split_and!.
  - intros a t Hat. destruct (Ha a Hat) as [Ht _]. simpl in Hat. intros Ht'. right. left.
    congruence.
  - unfold rules_of. cbn [config_rules]. by destruct rules.
  - intros g m [= <-]. done.
Qed.

Lemma setup_main_inv answers rest path text :
  setup_main answers = Some ((path, text), rest) ->
  exists cfg, setup answers = Some (cfg, rest) /\ ProxyConfig_to_string cfg = Ok text.
Proof.
  unfold setup_main, dbind. destruct (setup answers) as [[cfg s]|]; [|done].
  destruct (ProxyConfig_to_string cfg) as [t|] eqn:E; [|done]. intros [= <- <- <-]. eauto.
Qed.

End Writable.

(** ** Loading keeps a configuration well formed *)

Section Kept.
Context `{NumberApi} `{RegexApi}.

(** What [rule_wf] looks at. *)
Definition same_shape (r r' : Rule) : Prop :=
  same_identity r r' /\ length (rule_conditions r') = length (rule_conditions r).

Lemma rule_wf_shape r r' : same_shape r r' -> rule_wf r -> rule_wf r'.
Proof.
  unfold rule_wf. intros [(En & Ea & _ & Er & Ef & _ & El & _) Hl] (Hn & Ha & Hc & Hw).
  rewrite En, Ea, Er, Ef, El. split; [done|]. split; [done|]. split; [|exact Hw].
  by destruct (rule_conditions r), (rule_conditions r').
Qed.

Lemma rules_wf_shape rules rules' :
  Forall2 same_shape rules rules' -> Forall rule_wf rules -> Forall rule_wf rules'.
Proof.
  induction 1 as [|r r' l l' Hr _ IH]; [done|]. intros [Hw Hl]%Forall_cons.
  constructor; [by eapply rule_wf_shape|by apply IH].
Qed.

Lemma resolve_rule_shape env r r' : resolve_rule env r = Ok r' -> same_shape r r'.
Proof.
  unfold resolve_rule. intros (m & _ & Hr)%result_bind_Ok.
  apply result_bind_Ok in Hr as (cs & Hcs & Hr). apply result_bind_Ok in Hr as (ms & _ & [= <-]).
  split; [by repeat split|]. cbn. by eapply traverse_length.
Qed.

Lemma compile_rule_shape r r' :
  (let? cs := traverse compile_regexes_in_node (rule_conditions r) in
   Ok (set_rule_conditions r cs)) = Ok r' -> same_shape r r'.
Proof.
  intros (cs & Hcs & [= <-])%result_bind_Ok.
  split; [by repeat split|]. cbn. by eapply traverse_length.
Qed.

(** Rules rewritten one by one. *)
Lemma traverse_rules_shape (f : Rule -> result Rule string) o o' :
  (forall r r', f r = Ok r' -> same_shape r r') ->
  opt_traverse (traverse f) o = Ok o' -> Forall2 same_shape (unwrap_or o []) (unwrap_or o' []).
Proof.
  intros Hf [[-> ->]|(l & l' & -> & -> & Hl)]%opt_traverse_Ok; [constructor|].
  apply traverse_Ok in Hl. cbn. eapply Forall2_impl; [exact Hl|]. auto.
Qed.

Lemma resolve_wf env cfg cfg' :
  resolve_env_vars env cfg = Ok cfg' -> config_wf cfg -> config_wf cfg'.
Proof.
  unfold resolve_env_vars. intros (a & Ha & Hr)%result_bind_Ok (Wa & Wr & Wm).
  apply result_bind_Ok in Hr as (o & Ho & [= <-]). split_and!; [|cbn|exact Wm].
  - intros a' t E Ht. cbn in E. subst a.
    apply opt_traverse_Ok in Ha as [[_ ?]|(a & b & E & [= <-] & Hb)]; [done|].
    unfold resolve_auth in Hb. apply result_bind_Ok in Hb as (s & _ & Hb).
    apply result_bind_Ok in Hb as (ts & _ & [= <-]). by apply (Wa a).
  - apply (rules_wf_shape (rules_of cfg)); [|done].
    eapply traverse_rules_shape; [apply resolve_rule_shape|exact Ho].
Qed.

Lemma overrides_wf env cfg : config_wf cfg -> config_wf (apply_env_overrides env cfg).
Proof.
  assert (Hp : forall c, config_wf c -> config_wf (override_port env c)).
  { intros c (Wa & Wr & Wm). unfold override_port. repeat case_match; try done.
    split_and!; try done. intros g m [= <-] Hm. unfold get_or_default in Hm. cbn in Hm.
    destruct (config_global c) as [g|] eqn:E; [by apply (Wm g)|done]. }
  assert (Hs : forall c, config_wf c -> config_wf (override_socket env c)).
  { intros c (Wa & Wr & Wm). unfold override_socket. repeat case_match; try done.
    split_and!; try done. intros g m [= <-] Hm. unfold get_or_default in Hm. cbn in Hm.
    destruct (config_global c) as [g|] eqn:E; [by apply (Wm g)|done]. }
  intros Hw. apply Hp, Hs in Hw. unfold apply_env_overrides.
  destruct Hw as (Wa & Wr & Wm). unfold override_secret. repeat case_match; try done.
  split_and!; try done. intros a t [= <-]. cbn. destruct (config_auth _) as [a|] eqn:E; cbn.
  - destruct (auth_type a) as [t'|] eqn:Et; cbn; [|intros [= <-]; auto].
    intros [= <-]. by apply (Wa a).
  - intros [= <-]. auto.
Qed.

Lemma compile_wf cfg cfg' : compile_regexes cfg = Ok cfg' -> config_wf cfg -> config_wf cfg'.
Proof.
  unfold compile_regexes. intros (o & Ho & [= <-])%result_bind_Ok (Wa & Wr & Wm).
  split_and!; [done| |done]. apply (rules_wf_shape (rules_of cfg)); [|done].
  eapply traverse_rules_shape; [apply compile_rule_shape|exact Ho].
Qed.

(** Validation never refuses a file that was well formed before it was expanded. *)
Lemma finish_load_wf env cfg :
  config_wf cfg ->
  finish_load env cfg =
  (let? resolved := resolve_env_vars env cfg in
   let? compiled := compile_regexes (apply_env_overrides env resolved) in
   Ok (sort_rules_by_priority compiled)).
Proof.
  intros Hw. unfold finish_load. destruct (resolve_env_vars env cfg) as [c1|e] eqn:E1; [|done].
  cbn [result_bind]. destruct (compile_regexes _) as [c2|e] eqn:E2; [|done]. cbn [result_bind].
  assert (Hv : validate c2 = Ok tt).
  { apply validate_spec. eapply compile_wf; [exact E2|]. apply overrides_wf.
    by eapply resolve_wf. }
  by rewrite Hv.
Qed.

Lemma finish_load_is_ok env cfg :
  config_wf cfg ->
  is_ok (finish_load env cfg) = true
  <-> (forall s, credential cfg s -> variables_set env s)
      /\ (forall resolved, resolve_env_vars env cfg = Ok resolved -> patterns_compile resolved).
Proof.
  intros Hw. rewrite finish_load_wf, <- resolve_env_is_ok by done. unfold patterns_compile.
  destruct (resolve_env_vars env cfg) as [c1|e]; cbn [result_bind is_ok]; [|by split; [|intros []]].
  rewrite bind_total_is_ok, compile_regexes_is_ok. unfold patterns_compile, rules_of.
  rewrite apply_env_overrides_rules. split; [|intros [_ Hp]; by apply Hp].
  intros Hp. split; [done|]. by intros ? [= <-].
Qed.

(** ** The credential of a loaded file *)

Lemma has_token_In (ts : list TokenEntry) :
  existsb (fun x => negb (is_empty (token x))) ts = true
  <-> exists t, t ∈ ts /\ token t <> "".
Proof. rewrite existsb_In. setoid_rewrite negb_true_iff. by setoid_rewrite is_empty_false. Qed.

(** Some secret of the section is not empty. *)
Definition usable (a : AuthConfig) : Prop := exists s, secret_text a s /\ s <> "".

Lemma bearer_configured cfg a env_secret :
  config_auth cfg = Some a -> auth_type a = Some "bearer" ->
  is_auth_strictly_configured cfg env_secret = true <-> usable a.
Proof.
  intros Ha Ht. unfold is_auth_strictly_configured, usable, secret_text. rewrite Ha, Ht.
  rewrite !bool_decide_eq_false_2 by done. rewrite orb_true_iff, !is_some_and_true.
  setoid_rewrite has_token_In. setoid_rewrite negb_true_iff. setoid_rewrite is_empty_false.
  naive_solver.
Qed.

Lemma expanded_usable env a a' :
  expanded_auth env a a' ->
  usable a' <-> exists s s', secret_text a s /\ expanded env s s' /\ s' <> "".
Proof.
  intros (_ & _ & Hs & Ht). unfold usable, secret_text. split.
  - intros (s' & [E|(ts' & t' & E & Hin & <-)] & Hne).
    + rewrite E in Hs. inversion Hs as [s ? Hx Ex|]; subst. exists s, s'. eauto.
    + rewrite E in Ht. inversion Ht as [ts ? Hl El|]; subst.
      apply list_elem_of_lookup in Hin as [i Hi].
      destruct (Forall2_lookup_r _ _ _ _ _ Hl Hi) as (t & Hti & Hx & _).
      exists (token t), (token t'). split_and!; [|done|done]. right. exists ts, t.
      split_and!; [done| |done]. by eapply list_elem_of_lookup_2.
  - intros (s & s' & [E|(ts & t & E & Hin & <-)] & Hx & Hne).
    + rewrite E in Hs. inversion Hs as [? s2 Hx2 Ex|]; subst. exists s2.
      rewrite (expanded_fun env _ _ _ Hx2 Hx). auto.
    + rewrite E in Ht. inversion Ht as [? ts' Hl El|]; subst.
      apply list_elem_of_lookup in Hin as [i Hi].
      destruct (Forall2_lookup_l _ _ _ _ _ Hl Hi) as (t' & Hti & Hx2 & _).
      exists s'. split; [|done]. right. exists ts', t'. split_and!; [done| |].
      * by eapply list_elem_of_lookup_2.
      * by apply (expanded_fun env (token t)).
Qed.

(** A file of the builder, once loaded, has a credential exactly when the environment gives one
    or one of its own is not empty once expanded. *)
Lemma loaded_credential env cfg loaded :
  carries_credential (config_auth cfg) -> finish_load env cfg = Ok loaded ->
  is_auth_strictly_configured loaded (environment_secret env) = true
  <-> environment_secret env <> ""
      \/ exists s s', credential cfg s /\ expanded env s s' /\ s' <> "".
Proof.
  intros Hc (resolved & Hr & Ha)%finish_load_auth. apply resolve_env_auth in Hr.
  rewrite overrides_auth in Ha. unfold credential.
  destruct (is_empty (environment_secret env)) eqn:Ee.
  - apply is_empty_spec in Ee. rewrite Ee. destruct Hr as [a a' Hx|].
    + destruct (Hc a eq_refl) as [Ht _]. pose proof Hx as (Ht' & _).
      rewrite (bearer_configured _ a') by (done || congruence).
      rewrite (expanded_usable env a a' Hx). naive_solver.
    + unfold is_auth_strictly_configured. rewrite Ha. naive_solver.
  - apply is_empty_false in Ee. split; [by left|]. intros _.
    rewrite (bearer_configured _ _ _ Ha).
    + exists (environment_secret env). split; [by left|done].
    + cbn [auth_type]. destruct Hr as [a a' (Ht' & _)|]; [|done].
      destruct (Hc a eq_refl) as [Ht _]. cbn. by rewrite Ht', Ht.
Qed.

End Kept.
