(* ===== verification/Reference.v ===== *)
(** * Concrete instances of the third-party interfaces

    Small executable stand-ins for the crates, each obeying the laws of its interface, on which
    the theorems are instantiated at concrete inputs: integers as numbers, characters and
    [[^/]+] with optional anchors as regexes, compact JSON, IPv4 networks, header maps as lists. *)

From S2P Require Import Prelude RustStr F64 Net External Config Tls AuditLog AuditText Server.

Open Scope Z_scope.

(** ** Numbers *)

Definition in_i64 (z : Z) : option Z :=
  if (- I64_MAX - 1 <=? z) && (z <=? I64_MAX) then Some z else None.
Definition in_u64 (z : Z) : option Z := if (0 <=? z) && (z <=? U64_MAX) then Some z else None.

#[export] Instance ref_numbers : NumberApi := {|
  JsonNumber := Z;
  json_as_i64 := in_i64;
  json_as_u64 := in_u64;
  json_as_f64 := fun z => Some (f64_of_Z z);
  YamlNumber := Z;
  yaml_as_i64 := in_i64;
  yaml_as_u64 := in_u64;
  yaml_as_f64 := fun z => Some (f64_of_Z z);
  yaml_number_to_string := show
|}.

(** ** Regexes *)

(** A pattern is a sequence of characters and of [[^/]+], with optional anchors. *)
Inductive atom : Type :=
  | Char (a : ascii)
  | NoSlashes.

Record pattern : Type := {
  at_start : bool;
  atoms : list atom;
  at_end : bool
}.

Fixpoint atoms_of (fuel : nat) (p : string) : list atom :=
  match fuel, p with
  | O, _ | _, EmptyString => []
  | S fuel', String a p' =>
      match strip_prefix "[^/]+" p with
      | Some p'' => NoSlashes :: atoms_of fuel' p''
      | None => Char a :: atoms_of fuel' p'
      end
  end.

Definition pattern_new (p : string) : result pattern string :=
  let '(s, p) := match strip_prefix "^" p with
                 | Some p => (true, p)
                 | None => (false, p)
                 end in
  let '(e, p) := match strip_suffix "$" p with
                 | Some p => (true, p)
                 | None => (false, p)
                 end in
  if has_char "("%char p then Err "unsupported"
  else Ok {| at_start := s; atoms := atoms_of (String.length p) p; at_end := e |}.

Fixpoint match_here (e : bool) (l : list atom) (s : string) : bool :=
  match l with
  | [] => negb e || is_empty s
  | Char a :: l' =>
      match s with
      | String b s' => Ascii.eqb a b && match_here e l' s'
      | EmptyString => false
      end
  | NoSlashes :: l' =>
      (fix more s := match s with
                     | String b s' =>
                         negb (Ascii.eqb b "/"%char) && (match_here e l' s' || more s')
                     | EmptyString => false
                     end) s
  end.

Fixpoint match_anywhere (e : bool) (l : list atom) (s : string) : bool :=
  match_here e l s || match s with
                      | String _ s' => match_anywhere e l s'
                      | EmptyString => false
                      end.

Definition pattern_match (r : pattern) (s : string) : bool :=
  if at_start r then match_here (at_end r) (atoms r) s
  else match_anywhere (at_end r) (atoms r) s.

Definition is_word (a : ascii) : bool :=
  is_ascii_digit a || in_range 65 90 (code a) || in_range 97 122 (code a) || (code a =? 95).

(** [\w+\}] at the head of a string. *)
Fixpoint read_name (s : string) : option (string * string) :=
  match s with
  | EmptyString => None
  | String a s' =>
      if is_word a then
        match read_name s' with
        | Some (name, rest) => Some (String a name, rest)
        | None => None
        end
      else if Ascii.eqb a "}"%char then Some ("", s') else None
  end.

Definition capture (s : string) : option (string * string) :=
  match strip_prefix "${" s with
  | Some s' =>
      match read_name s' with
      | Some (name, rest) => if is_empty name then None else Some (name, rest)
      | None => None
      end
  | None => None
  end.

Definition push_text (a : ascii) (ps : list piece) : list piece :=
  match ps with
  | Text t :: ps' => Text (String a t) :: ps'
  | _ => Text (String a "") :: ps
  end.

Fixpoint pieces_of (fuel : nat) (s : string) : list piece :=
  match fuel, s with
  | O, _ | _, EmptyString => [Text s]
  | S fuel', String a s' =>
      match capture s with
      | Some (name, rest) => Capture name :: pieces_of fuel' rest
      | None => push_text a (pieces_of fuel' s')
      end
  end.

#[export] Instance ref_regex : RegexApi := {|
  Regex := pattern;
  Regex_new := pattern_new;
  is_match := pattern_match;
  env_pieces := fun s => pieces_of (String.length s) s
|}.

Lemma read_name_spec s name rest : read_name s = Some (name, rest) -> s = name +:+ "}" +:+ rest.
Proof.
  revert name rest. induction s as [|a s IH]; [done|]. intros name rest. cbn [read_name].
  destruct (is_word a).
  - destruct (read_name s) as [[n r]|]; [|done]. intros [= <- <-]. by rewrite (IH n r eq_refl).
  - destruct (Ascii.eqb_spec a "}"%char) as [->|]; [|done]. by intros [= <- <-].
Qed.

Lemma capture_spec s name rest :
  capture s = Some (name, rest) -> s = piece_source (Capture name) +:+ rest.
Proof.
  unfold capture. destruct (strip_prefix "${" s) as [s'|] eqn:E; [|done].
  apply strip_prefix_spec in E as ->. destruct (read_name s') as [[n r]|] eqn:En; [|done].
  destruct (is_empty n); [done|]. intros [= <- <-]. apply read_name_spec in En as ->.
  cbn [piece_source]. by rewrite !append_assoc.
Qed.

Lemma join_nil_cons s l : join "" (s :: l) = s +:+ join "" l.
Proof.
  destruct l as [|t l]; [|by rewrite join_cons by done]. simpl. by rewrite append_nil_r.
Qed.

Lemma push_text_source a ps :
  join "" (map piece_source (push_text a ps)) = String a (join "" (map piece_source ps)).
Proof.
  destruct ps as [|[t|n] ps]; cbn [push_text map piece_source]; rewrite ?join_nil_cons; done.
Qed.

#[export] Instance ref_regex_laws : RegexLaws.
Proof.
  constructor. intros s. cbn [env_pieces ref_regex]. generalize (String.length s) as fuel.
  intros fuel. revert s. induction fuel as [|fuel IH]; intros [|a s]; try done.
  cbn [pieces_of]. destruct (capture (String a s)) as [[name rest]|] eqn:E.
  - apply capture_spec in E. cbn [map]. rewrite join_nil_cons, IH. by rewrite <- E.
  - rewrite push_text_source. by rewrite IH.
Qed.

(** ** JSON *)

Definition quoted (s : string) : string := String (char_of 34) (s +:+ String (char_of 34) "").

Fixpoint print_json (v : JsonValue) : string :=
  match v with
  | JNull => "null"
  | JBool b => if b then "true" else "false"
  | JNumber z => show z
  | JString s => quoted s
  | JArray a => "[" +:+ join "," (map print_json a) +:+ "]"
  | JObject m => "{" +:+ join "," (map (fun kv => quoted kv.1 +:+ ":" +:+ print_json kv.2) m) +:+ "}"
  end.

Definition is_mark (c : ascii) (s : string) : option string :=
  match s with
  | String a s' => if Ascii.eqb a c then Some s' else None
  | EmptyString => None
  end.

Definition read_quoted (s : string) : option (string * string) :=
  match is_mark (char_of 34) s with
  | Some s' => split_once (char_of 34) s'
  | None => None
  end.

Fixpoint read_digit_run (s : string) : string * string :=
  match s with
  | String a s' =>
      if is_ascii_digit a then let '(d, r) := read_digit_run s' in (String a d, r) else ("", s)
  | EmptyString => ("", "")
  end.

Section Parse.
Variable parse : string -> option (JsonValue * string).

(** The items of an array up to its bracket, and of an object up to its brace. *)
Fixpoint parse_items (fuel : nat) (s : string) : option (list JsonValue * string) :=
  match fuel with
  | O => None
  | S fuel' =>
      match parse s with
      | None => None
      | Some (v, s1) =>
          match is_mark ","%char s1, is_mark "]"%char s1 with
          | Some s2, _ => match parse_items fuel' s2 with
                          | Some (vs, s3) => Some (v :: vs, s3)
                          | None => None
                          end
          | None, Some s2 => Some ([v], s2)
          | None, None => None
          end
      end
  end.

Fixpoint parse_fields (fuel : nat) (s : string) : option (list (string * JsonValue) * string) :=
  match fuel with
  | O => None
  | S fuel' =>
      match read_quoted s with
      | None => None
      | Some (k, s0) =>
          match is_mark ":"%char s0 with
          | None => None
          | Some s0' =>
              match parse s0' with
              | None => None
              | Some (v, s1) =>
                  match is_mark ","%char s1, is_mark "}"%char s1 with
                  | Some s2, _ => match parse_fields fuel' s2 with
                                  | Some (kvs, s3) => Some ((k, v) :: kvs, s3)
                                  | None => None
                                  end
                  | None, Some s2 => Some ([(k, v)], s2)
                  | None, None => None
                  end
              end
          end
      end
  end.
End Parse.

Fixpoint parse_json (fuel : nat) (s : string) : option (JsonValue * string) :=
  match fuel with
  | O => None
  | S fuel' =>
      match strip_prefix "null" s, strip_prefix "true" s, strip_prefix "false" s,
            read_quoted s, is_mark "["%char s, is_mark "{"%char s with
      | Some r, _, _, _, _, _ => Some (JNull, r)
      | _, Some r, _, _, _, _ => Some (JBool true, r)
      | _, _, Some r, _, _, _ => Some (JBool false, r)
      | _, _, _, Some (t, r), _, _ => Some (JString t, r)
      | _, _, _, _, Some r, _ =>
          match is_mark "]"%char r with
          | Some r' => Some (JArray [], r')
          | None => option_map (fun p => (JArray p.1, p.2)) (parse_items (parse_json fuel') fuel r)
          end
      | _, _, _, _, _, Some r =>
          match is_mark "}"%char r with
          | Some r' => Some (JObject [], r')
          | None => option_map (fun p => (JObject p.1, p.2)) (parse_fields (parse_json fuel') fuel r)
          end
      | _, _, _, _, _, _ =>
          let '(d, r) := read_digit_run s in
          option_map (fun z => (JNumber z, r)) (parse_unsigned U64_MAX d)
      end
  end.

Definition from_slice (l : list Z) : result JsonValue string :=
  let s := of_bytes l in
  match parse_json (S (String.length s)) s with
  | Some (v, EmptyString) => Ok v
  | _ => Err "expected value at line 1 column 1"
  end.

Fixpoint json_eqb (v w : JsonValue) : bool :=
  match v, w with
  | JNull, JNull => true
  | JBool a, JBool b => Bool.eqb a b
  | JNumber a, JNumber b => Z.eqb a b
  | JString a, JString b => String.eqb a b
  | JArray a, JArray b =>
      (fix go l k := match l, k with
                     | [], [] => true
                     | x :: l, y :: k => json_eqb x y && go l k
                     | _, _ => false
                     end) a b
  | JObject a, JObject b =>
      (fix go l k := match l, k with
                     | [], [] => true
                     | (x, v) :: l, (y, w) :: k => String.eqb x y && json_eqb v w && go l k
                     | _, _ => false
                     end) a b
  | _, _ => false
  end.

Fixpoint json_eqb_eq (v w : JsonValue) {struct v} : json_eqb v w = true -> v = w.
Proof.
  destruct v as [|a|a|a|a|a], w as [|b|b|b|b|b]; simpl; try done.
  - by intros ->%Bool.eqb_prop.
  - by intros ->%Z.eqb_eq.
  - by intros ->%String.eqb_eq.
  - intros E. f_equal. revert b E. induction a as [|x a IH]; intros [|y b]; try done.
    intros [Hx Hl]%andb_true_iff. f_equal; [by apply json_eqb_eq|by apply IH].
  - intros E. f_equal. revert b E. induction a as [|[k x] a IH]; intros [|[k' y] b]; try done.
    intros [[Hk Hx]%andb_true_iff Hl]%andb_true_iff. apply String.eqb_eq in Hk as ->.
    f_equal; [f_equal; by apply json_eqb_eq|by apply IH].
Qed.

#[export] Instance ref_json : JsonApi := {|
  json_to_string := print_json;
  json_from_slice := from_slice;
  json_to_vec v := Some (as_bytes (print_json v))
|}.

(** ** YAML

    A document is written as compact JSON, which is YAML; a node is its value. *)

Fixpoint yaml_of_json (j : JsonValue) : YamlValue :=
  match j with
  | JNull => YNull
  | JBool b => YBool b
  | JNumber z => YNumber z
  | JString s => YString s
  | JArray a => YSequence (map yaml_of_json a)
  | JObject m => YMapping (map (fun kv => (YString kv.1, yaml_of_json kv.2)) m)
  end.

Fixpoint json_of_yaml (v : YamlValue) : option JsonValue :=
  match v with
  | YNull => Some JNull
  | YBool b => Some (JBool b)
  | YNumber z => Some (JNumber z)
  | YString s => Some (JString s)
  | YSequence l => a ← mapM json_of_yaml l; Some (JArray a)
  | YMapping m =>
      es ← mapM (fun kv => match kv.1 with
                           | YString k => j ← json_of_yaml kv.2; Some (k, j)
                           | _ => None
                           end) m;
      Some (JObject es)
  | YTagged _ _ => None
  end.

Definition yaml_text (v : YamlValue) : result string string :=
  match json_of_yaml v with
  | None => Err "unsupported"
  | Some j =>
      match from_slice (as_bytes (print_json j)) with
      | Ok w => if json_eqb w j then Ok (print_json j) else Err "unsupported"
      | Err e => Err e
      end
  end.

Definition yaml_parse (s : string) : option YamlValue :=
  option_map yaml_of_json (result_ok (from_slice (as_bytes s))).

#[export] Instance ref_yaml : YamlApi := {|
  Node := YamlValue;
  yaml_document := yaml_parse;
  yaml_error := fun s => "invalid document: " +:+ s;
  node_null := fun v => match v with YNull => true | _ => false end;
  node_bool := fun v => match v with YBool b => Some b | _ => None end;
  node_u64 := fun v => match v with YNumber z => in_u64 z | _ => None end;
  node_str := fun v => match v with
                       | YString s => Some s
                       | YNumber z => Some (show z)
                       | YBool b => Some (if b then "true" else "false")
                       | YNull => Some "null"
                       | _ => None
                       end;
  node_seq := fun v => match v with YSequence l => Some l | _ => None end;
  node_map := fun v => match v with YMapping m => Some m | _ => None end;
  node_any := fun v => if untagged v then Some v else None;
  value_of_buffer := Some;
  yaml_of_u64 := id;
  yaml_to_string := yaml_text
|}.

Lemma json_of_yaml_inv v j : json_of_yaml v = Some j -> yaml_of_json j = v.
Proof.
  revert v j. fix IH 1. intros [|b|z|s|l|m|t v] j; cbn; try (intros [= <-]; done); try done.
  - intros (a & Ha & [= <-])%bind_Some. cbn. f_equal. revert a Ha.
    induction l as [|v l IHl]; intros a; cbn; [by intros [= <-]|].
    intros (x & Hx & (xs & Hxs & [= <-])%bind_Some)%bind_Some. cbn.
    by rewrite (IH _ _ Hx), (IHl _ Hxs).
  - intros (es & He & [= <-])%bind_Some. cbn. f_equal. revert es He.
    induction m as [|[k v] m IHm]; intros es; cbn; [by intros [= <-]|].
    intros (x & Hx & (xs & Hxs & [= <-])%bind_Some)%bind_Some. cbn. rewrite (IHm _ Hxs).
    destruct k; try done. apply bind_Some in Hx as (j & Hj & [= <-]). cbn.
    by rewrite (IH _ _ Hj).
Qed.

Lemma value_reads (v : YamlValue) : reads (v : Node) v.
Proof.
  revert v. fix IH 1. intros [|b|z|s|l|m|t v]; try (by constructor).
  - eapply reads_sequence; [done|done| |]; [|by intros Hu; cbn in *; rewrite Hu].
    induction l as [|v l IHl]; constructor; [apply IH|apply IHl].
  - eapply reads_mapping; [done|done| | |]; [| |by intros Hu; cbn in *; rewrite Hu].
    + induction m as [|[k v] m IHm]; constructor; [apply IH|apply IHm].
    + induction m as [|[k v] m IHm]; constructor; [apply IH|apply IHm].
Qed.

#[export] Instance ref_yaml_laws : YamlLaws.
Proof.
  constructor.
  - intros v s. cbn. unfold yaml_text, yaml_parse. destruct (json_of_yaml v) as [j|] eqn:Ej; [|done].
    destruct (from_slice _) as [w|] eqn:Ew; [|done]. destruct (json_eqb w j) eqn:Eq; [|done].
    intros [= <-]. rewrite Ew. cbn. exists (yaml_of_json w). split; [done|].
    apply json_eqb_eq in Eq as ->. apply json_of_yaml_inv in Ej as ->. apply value_reads.
  - done.
  - intros z Hz. cbn. unfold in_u64. by rewrite (proj2 (Z.leb_le 0 z)), (proj2 (Z.leb_le _ _)) by lia.
  - intros n z. cbn. destruct n as [| |x| | | |]; try done. unfold in_u64.
    destruct (_ && _) eqn:E; [|done]. intros [= <-]. by b2p.
Qed.

(** ** Networks *)

Definition v4_number (a b c d : Z) : Z := ((a * 256 + b) * 256 + c) * 256 + d.

Definition net_parse (s : string) : option (Z * Z) :=
  match split_once "/"%char s with
  | Some (ip, len) =>
      match IpAddr_parse ip, parse_unsigned 32 len with
      | Some (V4 a b c d), Some n => Some (v4_number a b c d, n)
      | _, _ => None
      end
  | None => None
  end.

#[export] Instance ref_ipnet : IpNetApi := {|
  IpNet := Z * Z;
  IpNet_parse := net_parse;
  net_contains := fun net ip =>
    match ip with
    | V4 a b c d => Z.shiftr (v4_number a b c d) (32 - net.2) =? Z.shiftr net.1 (32 - net.2)
    | V6 _ => false
    end
|}.

(** ** HTTP *)

Definition visible (a : ascii) : bool := (code a =? 9) || in_range 32 126 (code a).

#[export] Instance ref_http : HttpApi := {|
  HeaderValue := string;
  to_str := fun v => if str_all visible v then Some v else None;
  value_bytes := as_bytes;
  HeaderMap := list (string * string);
  header_iter := fun h => map (fun kv => (to_lower kv.1, kv.2)) h;
  header_get_all := fun h name =>
    map snd (filter (fun kv => kv.1 = name) (map (fun kv => (to_lower kv.1, kv.2)) h));
  header_get := fun h name =>
    head (map snd (filter (fun kv => kv.1 = name) (map (fun kv => (to_lower kv.1, kv.2)) h)));
  HeaderValue_from_str := fun v => if str_all visible v then Some v else None;
  uri_valid := fun s => starts_with s "/" && negb (has_char " "%char s);
  StatusCode_from_u16 := fun z => if (100 <=? z) && (z <=? 999) then Some z else None
|}.

Lemma to_lower_idem s : to_lower (to_lower s) = to_lower s.
Proof.
  induction s as [|a s IH]; simpl; [done|]. f_equal; [|done]. unfold lower.
  destruct (in_range 65 90 (code a)) eqn:E; [|by rewrite E].
  unfold in_range in E. apply andb_true_iff in E as [E1 E2]. apply Z.leb_le in E1, E2.
  assert (code (char_of (code a + 32)) = code a + 32) as Hc.
  { unfold code, char_of in *. rewrite Ascii.N_ascii_embedding; lia. }
  rewrite Hc. unfold in_range. destruct (Z.leb_spec (code a + 32) 90); [lia|].
  by rewrite andb_false_r.
Qed.

Lemma str_all_has_char f s a : str_all f s = true -> has_char a s = true -> f a = true.
Proof.
  induction s as [|b s IH]; simpl; [done|]. intros [Hb Hs]%andb_true_iff [E|E]%orb_true_iff.
  - apply Ascii.eqb_eq in E. by subst.
  - by apply IH.
Qed.

#[export] Instance ref_http_laws : HttpLaws.
Proof.
  constructor.
  - done.
  - done.
  - intros h name v Hin. cbn [header_iter ref_http] in Hin.
    apply list_elem_of_fmap in Hin as ([k w] & [= -> ->] & _). apply to_lower_idem.
  - intros v s a. cbn [to_str ref_http]. destruct (str_all visible v) eqn:E; [|done].
    intros [= <-] Ha. pose proof (str_all_has_char _ _ _ E Ha) as Hv. unfold visible, in_range in Hv.
    apply orb_true_iff in Hv as [Hv|Hv]; [left; by apply Z.eqb_eq|right].
    apply andb_true_iff in Hv as [H1 H2]. apply Z.leb_le in H1, H2. lia.
  - intros z c. cbn [StatusCode_from_u16 ref_http]. destruct (_ && _); congruence.
Qed.

(** ** Audit events and TLS *)

(** Text is written when it is one line that reads back as the value. *)
Definition write_line (v : JsonValue) : result string string :=
  let s := print_json v in
  if has_char (char_of 10) s then Err "unsupported"
  else match from_slice (as_bytes s) with
       | Ok w => if json_eqb w v then Ok s else Err "unsupported"
       | Err e => Err e
       end.

#[export] Instance ref_json_text : JsonTextApi := {|
  json_of_u64 := id;
  json_write := write_line
|}.

#[export] Instance ref_json_text_laws : JsonTextLaws.
Proof.
  constructor.
  - intros z Hz. cbn. unfold in_u64.
    by rewrite (proj2 (Z.leb_le 0 z)), (proj2 (Z.leb_le _ _)) by lia.
  - intros v s. cbn. unfold write_line. destruct (has_char _ _) eqn:E; [done|].
    destruct (from_slice _) as [w|]; [|done]. destruct (json_eqb w v); [|done]. by intros [= <-].
  - intros m s. cbn. unfold write_line. destruct (has_char _ _); [done|].
    destruct (from_slice _) as [w|] eqn:Ew; [|done]. destruct (json_eqb w _) eqn:E; [|done].
    intros [= <-] _ _. apply json_eqb_eq in E as ->. eauto.
Qed.

(** A certificate and a key are their file's text. *)
#[export] Instance ref_rustls : RustlsApi := {|
  Cert := string;
  PrivateKey := string;
  open_file := fun path => if starts_with path "/" then Ok ("pem:" +:+ path) else Err "not found";
  pem_certs := fun content => [Ok content];
  pem_private_key := fun content => Ok (Some content);
  roots_add := fun _ => Ok tt;
  verifier_build := fun _ _ => Ok tt;
  single_cert := fun _ _ => Ok tt
|}.

(** A certificate is its common name. *)
#[export] Instance ref_x509 : X509Api := {|
  Certificate := string;
  from_der := fun der =>
    Some (String.string_of_list_ascii (map (fun z => Ascii.ascii_of_nat (Z.to_nat z)) der));
  iter_common_name := fun cert => [Some cert];
  subject_alternative_name := fun _ => None
|}.

(** A directive is a level for a target. *)
#[export] Instance ref_tracing : TracingApi := {|
  Directive := string;
  parse_directive := fun s =>
    if existsb (String.eqb s) (map (fun level => "docker_proxy=" +:+ level)
                     ["trace"; "debug"; "info"; "warn"; "error"; "off"])
    then Ok s else Err "invalid filter directive";
  directives_from_env := fun env => option_list (env_var env "RUST_LOG")
|}.
