(* ===== verification/Samples.v ===== *)
(** * Sample data

    Concrete rules, requests and tables, over the reference instances, on which the theorems of
    the library are instantiated. *)

From S2P Require Import Prelude RustStr F64 Net External Json Config RateLimiter AuthLimiter.
From S2P Require Import Conditions Rules Metrics AuditLog Tls Path Auth Effects World Evaluate.
From S2P Require Import Authenticate Handle Forward Server System Reference.

Open Scope Z_scope.

(** ** Rules *)

Definition cond (field operator : string) (v : option YamlValue) : ConditionNode :=
  Leaf {| field := field; operator := operator; value := v; compiled_regex := None |}.

Definition rule (name action : string) (conditions : list ConditionNode) : Rule :=
  {| rule_name := name; rule_description := None; rule_action := action; rule_priority := None;
     rule_conditions := conditions; rule_message := Some "no"; rule_role := None;
     rule_response_filter := None; rule_status := Some 403; rule_methods := None;
     rule_rate_limit := None; rule_dry_run := None |}.

Definition dry (r : Rule) : Rule :=
  {| rule_name := rule_name r; rule_description := None; rule_action := rule_action r;
     rule_priority := Some 5; rule_conditions := rule_conditions r;
     rule_message := rule_message r; rule_role := None; rule_response_filter := None;
     rule_status := rule_status r; rule_methods := None; rule_rate_limit := None;
     rule_dry_run := Some true |}.

Definition on_exec : ConditionNode := cond "path" "contains" (Some (YString "/exec")).
Definition no_exec : Rule := rule "no-exec" "deny" [on_exec].
Definition audit_exec : Rule := dry no_exec.

Definition redact_env : ResponseFilterEntry :=
  {| filter_field := "Config.Env"; filter_action := "redact"; replacement := None |}.

Definition redact_rule : Rule :=
  {| rule_name := "redact"; rule_description := None; rule_action := "response_filter";
     rule_priority := None; rule_conditions := [cond "method" "equals" (Some (YString "GET"))];
     rule_message := None; rule_role := None; rule_response_filter := Some [redact_env];
     rule_status := None; rule_methods := None; rule_rate_limit := None; rule_dry_run := None |}.

(** ** Contexts and bodies *)

Definition ctx (path client_ip : string) (role : option string) : EvaluationContext :=
  {| ctx_path := path; ctx_method := "GET"; ctx_headers := []; ctx_client_ip := client_ip;
     ctx_body_json := None; ctx_user_role := role |}.

Definition exec_ctx : EvaluationContext := ctx "/containers/a/exec" "10.0.0.1" (Some "user").

Definition inspect : JsonValue :=
  JObject [("Config", JObject [("Env", JArray [JString "TOKEN=abc"]); ("Image", JString "x")])].

Definition inspect_bytes : list Z := as_bytes (print_json inspect).

(** ** Configurations and requests *)

Definition token_auth : AuthConfig :=
  {| auth_type := Some "bearer"; auth_secret := None;
     auth_tokens := Some [{| token := "s3cret"; token_role := Some "user" |}];
     auth_mtls := None |}.

Definition config (rules : list Rule) : ProxyConfig :=
  {| config_global := None; config_auth := Some token_auth; config_rules := Some rules |}.

(** A system whose configuration file parses to [parsed]. *)
Definition file_env (parsed : ProxyConfig) : Env :=
  {| env_var := fun _ => None; path_exists := fun _ => true;
     read_to_string := fun _ => Ok "rules: ..."; yaml_from_str := fun _ => Ok parsed |}.

Definition local : IpAddr := V4 127 0 0 1.
Definition peer : SocketAddr := {| peer_ip := local; peer_port := 40000 |}.

Definition hv (s : string) : HeaderValue := s.
Definition hm (l : list (string * string)) : HeaderMap := l.
Definition net (a b c d len : Z) : IpNet := (v4_number a b c d, len).

Definition bearer (tok : string) : HeaderMap := [("Authorization", "Bearer " +:+ tok)].

Definition request (path tok : string) : Request :=
  {| req_method := "GET"; uri_path := path; uri_query := None; req_headers := bearer tok |}.

Definition inspect_request : Request := request "/v1.41/containers/a/json" "s3cret".

Definition state : ProxyState :=
  {| socket_path := "/var/run/docker.sock"; env_secret := ""; audit_enabled := true;
     metrics_endpoint := Some "/metrics" |}.

Definition world (cfg : ProxyConfig) : World :=
  {| auth_limiter := ∅; rate_limiter := ∅; metrics := Metrics_new; audit := AuditSink_spawn;
     config_holder := cfg; now := 0; log_lines := []; sent_upstream := [] |}.

(** A Docker daemon that answers every request with the inspection of a container. *)
Definition docker : Host :=
  {| host_body := InTime (Ok []);
     host_connect := InTime (InTime (Ok tt));
     host_handshake := Ok tt;
     host_send := fun _ => InTime (Ok {| res_status := 200;
                                         res_headers := [("Content-Type", "application/json")] |});
     host_response := InTime (Ok inspect_bytes);
     host_latency := from_secs 1;
     host_checked := from_secs (2 ^ 60);
     host_utc := "2024-01-01T00:00:00Z";
     host_local := "01/01/2024 00:00:00";
     host_client_upgraded := InTime (Ok tt);
     host_docker_upgraded := InTime (Ok tt) |}.

(** ** A run of the proxy *)

Definition sample_env : Env := file_env (config [redact_rule]).
Definition bind_ok (addr : string) : result unit string := Ok tt.

Definition sample_startup : startup :=
  {| start_config := config [redact_rule]; start_loaded_from := Some "config.yaml";
     start_state := {| socket_path := "/var/run/docker.sock"; env_secret := "";
                       audit_enabled := false; metrics_endpoint := None |};
     start_audit_path := None |}.

Definition arrival : list act :=
  [EnterLoop; BindListener sample_env bind_ok; AcceptConnection peer;
   ReceiveRequest 0 inspect_request].

(** A request with a wrong token on a connection of its own, to its 401. *)
Definition guess (c : nat) : list act :=
  [AcceptConnection peer; ReceiveRequest c (request "/containers/json" "guess")]
  ++ replicate 20 (Progress c docker).

Definition listening : list act := [EnterLoop; BindListener sample_env bind_ok].

Definition ten_guesses (from : nat) : list act := concat (map guess (seq from 10)).

(** The handler's bound, one step for the rule, and a reload in the middle. *)
Definition service : list act :=
  replicate 5 (Progress 0 docker) ++ [ReloadConfig sample_env; NotifyLoop; CleanRates]
  ++ replicate 55 (Progress 0 docker).
