(* ===== verification/EngineSpec.v ===== *)
(** * Properties of the rule engine

    What a list of rules decides, what a condition means, and what a response filter leaves of
    a response ([src/rules.rs]), each with an instance on concrete rules. *)

From S2P Require Import Prelude RustStr F64 Net External Json Config RateLimiter Conditions.
From S2P Require Import Rules Handle Reference Samples.

Open Scope Z_scope.

Section Engine.
Context `{NumberApi} `{RegexApi} `{!JsonApi} `{IpNetApi} `{HttpApi}.

(** ** Decisions *)

(** C3: a rule that matches and denies (an enforced [deny], or a [require_role] the caller does
    not meet) is final once every rule before it has been stepped over: the request is denied
    with the rule's status, whatever follows, whatever the rate limiter holds, and the limiter
    is left as it was. *)
Theorem enforced_deny_blocks (before after : list Rule) (rule : Rule) (ctx : EvaluationContext)
    (rl : RateLimiter) (now : nat -> Instant)
    (Hbefore : forallb (fun r => passes r ctx) before = true)
    (Hrule : denies rule ctx = true) :
  exists message,
    evaluate_request_detailed (before ++ rule :: after) ctx rl now
    = (Done {| decision_result := Deny (denied_status rule) message;
               decision_rule_name := Some (rule_name rule);
               decision_action := Some (rule_action rule);
               decision_dry_run := false |}, rl).
Proof.
  destruct (denies_return rule ctx rl (now (length before)) Hrule) as (action & m & Hr & ->).
  exists m. unfold evaluate_request_detailed. rewrite evaluate_from_app by done.
  cbn [evaluate_from Nat.add]. by rewrite Hr.
Qed.

(** C4: nothing but a rule denies a request. A denial names a configured rule that matches and
    is not a dry run, and the rules before it, evaluated alone, end with the default decision.
    The rule is a [deny], a [require_role] whose role the caller lacks, or a [rate_limit] whose
    check of this client's own key, made in the limiter state the rules before it left and at
    the instant at which the loop reached it, was refused. *)
Theorem denials_are_justified (rules : list Rule) (ctx : EvaluationContext)
    (rl rl' : RateLimiter) (now : nat -> Instant) (d : RuleDecision) (s : Z) (m : string)
    (Hd : evaluate_request_detailed rules ctx rl now = (Done d, rl'))
    (Hdeny : decision_result d = Deny s m) :
  exists before rule after rl1,
    rules = before ++ rule :: after
    /\ evaluate_request_detailed before ctx rl now = (Done RuleDecision_allow, rl1)
    /\ rule_matches rule ctx = true /\ unwrap_or (rule_dry_run rule) false = false
    /\ justified rule ctx rl1 (now (length before)) rl' d
    /\ decision_rule_name d = Some (rule_name rule).
Proof.
  destruct (evaluate_from_deny _ _ _ _ _ _ _ _ _ Hd Hdeny)
    as (before & rule & after & rl1 & Hr & Hb & Hm & Hdry & Hj).
  exists before, rule, after, rl1. split_and!; try done. by destruct Hj.
Qed.

(** C5: a configuration whose rules are all dry runs denies nothing, never panics and takes no
    token from any bucket. *)
Theorem dry_runs_never_block (rules : list Rule) (ctx : EvaluationContext) (rl : RateLimiter)
    (now : nat -> Instant)
    (Hdry : forallb (fun r => unwrap_or (rule_dry_run r) false) rules = true) :
  exists d, evaluate_request_detailed rules ctx rl now = (Done d, rl)
            /\ decision_result d = Allow.
Proof. by apply evaluate_from_dry. Qed.

(** C12: the requests of one IPv4 client cannot change what another is answered: whatever rules
    were evaluated for the first, the other's evaluation under any rules (its decision, or the
    panic of an overflowing penalty) is the one it would have got before. Either the other has
    a bucket under each of its rules already, or the table has a place left for each rule of
    both evaluations; once the table is full, a client without a bucket is refused. *)
Theorem clients_are_isolated (rules rules2 : list Rule) (ctx ctx2 : EvaluationContext)
    (rl : RateLimiter) (now now2 : nat -> Instant)
    (Hctx : has_char ":"%char (ctx_client_ip ctx) = false)
    (Hctx2 : has_char ":"%char (ctx_client_ip ctx2) = false)
    (Hne : ctx_client_ip ctx2 <> ctx_client_ip ctx)
    (Hroom : (forall r, r ∈ rules2 ->
                is_Some (rl !! rate_key (rule_name r) (ctx_client_ip ctx2)))
             \/ Z.of_nat (size rl + length rules + length rules2) <= MAX_RATE_LIMIT_BUCKETS) :
  fst (evaluate_request_detailed rules2 ctx2
         (snd (evaluate_request_detailed rules ctx rl now)) now2)
  = fst (evaluate_request_detailed rules2 ctx2 rl now2).
Proof.
  apply (evaluate_from_same _ _ (map rule_name rules2)).
  { intros r Hr. apply list_elem_of_fmap. by exists r. }
  assert (Hkey : forall name,
    snd (evaluate_from 0 rules ctx rl now) !! rate_key name (ctx_client_ip ctx2)
    = rl !! rate_key name (ctx_client_ip ctx2)).
  { intros name. apply evaluate_from_other. intros name' E. by apply rate_key_inj in E as [_ ?]. }
  split; [done|]. destruct Hroom as [Hk|Hsize]; [left|right].
  - intros name (r & -> & Hr)%list_elem_of_fmap. unfold evaluate_request_detailed.
    rewrite Hkey. by apply Hk.
  - pose proof (evaluate_from_size 0 rules ctx rl now). unfold evaluate_request_detailed. lia.
Qed.

(** The filters applied to a response are exactly those of the rules that match the
    request; whatever a response filter list is, a body that is not JSON, and any body under
    no filter, is passed on byte for byte. *)
Lemma filters_come_from_matching_rules (rules : list Rule) (ctx : EvaluationContext) :
  (forall f, f ∈ collect_response_filters rules ctx <->
     exists rule filters, rule ∈ rules /\ rule_matches rule ctx = true
       /\ rule_response_filter rule = Some filters /\ f ∈ filters)
  /\ (forall filters body, filters = [] \/ is_ok (json_from_slice body) = false ->
        apply_response_filters filters body = body).
Proof.
  split; [intros f; apply collect_response_filters_spec|]. intros [|f fs] body; [done|].
  intros [|Hb]; [done|]. unfold apply_response_filters. by destruct (json_from_slice body).
Qed.

(** ** Conditions *)

(** C23: the documented operator pairs are negations of each other: on the path except
    [exists], on the header except [matches], on a body field that is present except
    [matches], and [equals] and [in] on the method and the client address. *)
Theorem operators_are_negations (c : Condition) (op nop : string) (Hn : negated op nop) :
  (op <> "exists" -> forall path,
     match_path_condition (with_operator c nop) path
     = negb (match_path_condition (with_operator c op) path))
  /\ (op <> "matches" -> forall headers name,
     match_header_condition (with_operator c nop) headers name
     = negb (match_header_condition (with_operator c op) headers name))
  /\ (op <> "matches" -> forall body path, is_Some (json_get body path) ->
     match_body_condition (with_operator c nop) (Some body) path
     = negb (match_body_condition (with_operator c op) (Some body) path))
  /\ (op = "equals" \/ op = "in" -> forall method ip,
     match_method_condition (with_operator c nop) method
     = negb (match_method_condition (with_operator c op) method)
     /\ match_ip_condition (with_operator c nop) ip
        = negb (match_ip_condition (with_operator c op) ip)).
Proof.
  split_and!; intros.
  - by apply path_negation.
  - by apply header_negation.
  - by apply body_negation.
  - split; [by apply method_negation|by apply ip_negation].
Qed.

(** A rule matches exactly when it has conditions and every one of them holds as a formula
    over its leaves: [and] is all, [or] is some. *)
Lemma rules_are_formulas (rule : Rule) (ctx : EvaluationContext) :
  rule_matches rule ctx = true
  <-> rule_conditions rule <> [] /\ Forall (node_holds ctx) (rule_conditions rule).
Proof.
  unfold rule_matches. rewrite andb_true_iff, forallb_In, Forall_forall.
  setoid_rewrite evaluate_node_holds.
  destruct (rule_conditions rule); simpl; split; intros [Hn Hall]; done.
Qed.

(** *** Headers *)

Definition values_of (name : string) (l : list (string * HeaderValue)) : list string :=
  omap to_str (map snd (filter (fun kv => kv.1 = name) l)).

Lemma header_map_fold l (m : gmap string string) name :
  fold_left (fun m kv =>
    match to_str kv.2 with
    | Some v => match m !! kv.1 with Some _ => m | None => <[kv.1 := v]> m end
    | None => m
    end) l m !! name
  = match m !! name with
    | Some v => Some v
    | None => head (values_of name l)
    end.
Proof.
  revert m. induction l as [|[k w] l IH]; intros m; cbn [fold_left].
  { by destruct (m !! name). }
  rewrite IH. unfold values_of. rewrite filter_cons. cbn [fst snd].
  destruct (decide (k = name)) as [->|Hne]; cbn [map omap list_omap snd].
  - destruct (to_str w) as [v|]; [|done]. destruct (m !! name) eqn:E; [by rewrite E|].
    by rewrite lookup_insert_eq.
  - destruct (to_str w) as [v|]; [|done]. destruct (m !! k); [done|].
    by rewrite lookup_insert_ne.
Qed.

Lemma header_map_lookup `{!HttpLaws} headers name :
  header_map headers !! name = head (omap to_str (header_get_all headers name)).
Proof. unfold header_map. rewrite header_map_fold, header_get_all_iter. done. Qed.

Lemma header_map_lower `{!HttpLaws} headers k v :
  header_map headers !! k = Some v -> to_lower k = k.
Proof.
  rewrite header_map_lookup, header_get_all_iter. intros Hv.
  assert (Hin : exists w, (k, w) ∈ header_iter headers).
  { induction (header_iter headers) as [|[k' w] l IH]; [done|]. rewrite filter_cons in Hv. cbn [fst] in Hv.
    destruct (decide (k' = k)) as [->|]; [exists w; set_solver|].
    destruct (IH Hv) as [w' Hw]. exists w'. set_solver. }
  destruct Hin as [w Hw]. by eapply header_name_lower.
Qed.

Lemma match_header_value c entries entries' name :
  find_header entries name = find_header entries' name ->
  match_header_condition c entries name = match_header_condition c entries' name.
Proof. intros E. unfold match_header_condition. by rewrite E. Qed.

Lemma find_header_one name o :
  find_header (match o with Some v => [(name, v)] | None => [] end) name = o.
Proof.
  destruct o as [v|]; [|done]. unfold find_header, eq_ignore_ascii_case. cbn [List.find fst].
  by rewrite String.eqb_refl.
Qed.

(** C39: a header condition, under whatever operator, is judged on one value: the first of the
    named header that is visible ASCII, whatever the case of the name in the rule, however many
    values the request carries, and whatever the order in which the hash map the handler
    builds of the headers is iterated. *)
Theorem header_conditions_read_one_value `{!HttpLaws} (headers : HeaderMap) (name : string)
    (entries : list (string * string))
    (Hperm : entries ≡ₚ map_to_list (header_map headers)) :
  let first := head (omap to_str (header_get_all headers (to_lower name))) in
  find_header entries name = first
  /\ forall c, match_header_condition c entries name
              = match_header_condition c match first with
                                         | Some v => [(name, v)]
                                         | None => []
                                         end name.
Proof.
  intros first. assert (Hfind : find_header entries name = first).
  { assert (Hl : lower_keys entries).
    { split; [rewrite Hperm; apply NoDup_fst_map_to_list|]. intros k v. rewrite Hperm.
      intros Hin%elem_of_map_to_list. by eapply header_map_lower. }
    unfold first. rewrite <- header_map_lookup.
    destruct (find_header entries name) as [v|] eqn:E.
    - apply find_header_In in E as (k & Hin & He). rewrite Hperm in Hin.
      apply elem_of_map_to_list in Hin. apply String.eqb_eq in He.
      rewrite (header_map_lower _ _ _ Hin) in He. by rewrite <- He.
    - destruct (header_map headers !! to_lower name) as [v|] eqn:Em; [|done]. exfalso.
      pose proof (header_map_lower _ _ _ Em) as Hlow.
      apply elem_of_map_to_list in Em. rewrite <- Hperm in Em.
      pose proof (find_header_None _ _ E _ _ Em) as Hf. unfold eq_ignore_ascii_case in Hf.
      rewrite Hlow, String.eqb_refl in Hf. done. }
  split; [done|]. intros c. apply match_header_value. by rewrite Hfind, find_header_one.
Qed.

(** ** Response filters *)

(** C14: a JSON body under filters is replaced by the text [serde_json] writes of a value in
    which every field that a [redact] or [replace] filter names is absent or one of the texts
    the filters write, in whatever order the filters ran and whatever the others did; nothing
    of the original value is left there. *)
Theorem filtered_fields_are_hidden (filters : list ResponseFilterEntry)
    (f : ResponseFilterEntry) (body bytes : list Z) (v : JsonValue)
    (Hf : f ∈ filters)
    (Ha : filter_action f = "redact" \/ filter_action f = "replace")
    (Hbody : json_from_slice body = Ok v)
    (Hbytes : json_to_vec (apply_filters filters v) = Some bytes) :
  apply_response_filters filters body = bytes
  /\ exists json, json_to_vec json = Some (apply_response_filters filters body)
     /\ match json_get json (filter_field f) with
        | None => True
        | Some (JString s) => s = REDACTED \/ exists g, g ∈ filters /\ s = unwrap_or (replacement g) ""
        | Some _ => False
        end.
Proof.
  assert (Heq : apply_response_filters filters body = bytes).
  { unfold apply_response_filters. rewrite Hbody, Hbytes. by destruct filters; [set_solver|]. }
  rewrite Heq. split; [done|]. exists (apply_filters filters v).
  split; [done|]. by apply apply_filters_hides.
Qed.

End Engine.

(** ** On concrete rules *)

Lemma enforced_deny_blocks_witness :
  forallb (fun r => passes r exec_ctx) [redact_rule] = true /\ denies no_exec exec_ctx = true /\
  exists message,
    evaluate_request_detailed ([redact_rule] ++ no_exec :: [audit_exec]) exec_ctx ∅ (fun _ => 0)
    = (Done {| decision_result := Deny 403 message; decision_rule_name := Some "no-exec";
               decision_action := Some "deny"; decision_dry_run := false |}, ∅).
Proof.
  split; [reflexivity|]. split; [reflexivity|].
  exact (enforced_deny_blocks [redact_rule] [audit_exec] no_exec exec_ctx ∅ (fun _ => 0)
           eq_refl eq_refl).
Defined.

Lemma dry_runs_never_block_witness :
  exists d, evaluate_request_detailed [audit_exec] exec_ctx ∅ (fun _ => 0) = (Done d, ∅)
            /\ decision_result d = Allow.
Proof. apply (dry_runs_never_block [audit_exec] exec_ctx ∅ (fun _ => 0)). reflexivity. Defined.

Definition limit_rule (name : string) (n : Z) : Rule :=
  {| rule_name := name; rule_description := None; rule_action := "rate_limit";
     rule_priority := None; rule_conditions := [cond "path" "starts_with" (Some (YString "/"))];
     rule_message := None; rule_role := None; rule_response_filter := None; rule_status := None;
     rule_methods := None; rule_rate_limit := Some {| requests := n; period := 1; penalty := 9 |};
     rule_dry_run := None |}.

Definition limit_one : Rule := limit_rule "one" 1.

Definition limit_none : Rule := limit_rule "none" 0.

(** What the first rule leaves of its bucket. *)
Definition spent_bucket : RateBucket :=
  {| last_check := 0; tokens := f64_of_Z 0; max_tokens := f64_of_Z 1; blocked_until := None |}.

Lemma denials_are_justified_witness :
  exists before rule after rl1,
    [limit_one; limit_none] = before ++ rule :: after
    /\ evaluate_request_detailed before exec_ctx ∅ (fun _ => 0) = (Done RuleDecision_allow, rl1)
    /\ rule_matches rule exec_ctx = true /\ unwrap_or (rule_dry_run rule) false = false
    /\ justified rule exec_ctx rl1 0
         {[ "one:10.0.0.1" := spent_bucket ]}
         (deny_decision limit_none "rate_limit" false 429 "Rate limit exceeded")
    /\ decision_rule_name (deny_decision limit_none "rate_limit" false 429 "Rate limit exceeded")
       = Some (rule_name rule).
Proof.
  apply (denials_are_justified [limit_one; limit_none] exec_ctx ∅ _ (fun _ => 0)
           (deny_decision limit_none "rate_limit" false 429 "Rate limit exceeded") 429
           "Rate limit exceeded"); reflexivity.
Defined.

(** Another client of the same daemon. *)
Definition other_ctx : EvaluationContext := ctx "/containers/a/exec" "10.0.0.2" (Some "user").

Lemma clients_are_isolated_witness :
  fst (evaluate_request_detailed [limit_one; limit_none] other_ctx
         (snd (evaluate_request_detailed [limit_one] exec_ctx ∅ (fun _ => 0))) (fun _ => 1))
  = fst (evaluate_request_detailed [limit_one; limit_none] other_ctx ∅ (fun _ => 1)).
Proof.
  apply (clients_are_isolated [limit_one] [limit_one; limit_none] exec_ctx other_ctx ∅
           (fun _ => 0) (fun _ => 1)); [reflexivity|reflexivity|discriminate|].
  right. vm_compute. discriminate.
Defined.

Definition shell_paths : Condition :=
  {| field := "path"; operator := "in"; value := Some (YSequence [YString "/a"; YString "/b"]);
     compiled_regex := None |}.

Lemma operators_are_negations_witness :
  match_path_condition (with_operator shell_paths "not_in") "/b"
  = negb (match_path_condition (with_operator shell_paths "in") "/b").
Proof.
  apply (proj1 (operators_are_negations shell_paths "in" "not_in" neg_in)). discriminate.
Defined.

Definition two_headers : HeaderMap :=
  [("X-Team", "blue"); ("Accept", "text/plain"); ("x-team", "red")].

Definition team_is (v : string) : Condition :=
  {| field := "header.X-TEAM"; operator := "equals"; value := Some (YString v);
     compiled_regex := None |}.

Lemma header_conditions_read_one_value_witness :
  find_header [("accept", "text/plain"); ("x-team", "blue")] "X-TEAM" = Some "blue"
  /\ match_header_condition (team_is "blue") [("accept", "text/plain"); ("x-team", "blue")] "X-TEAM"
     = true
  /\ match_header_condition (team_is "red") [("accept", "text/plain"); ("x-team", "blue")] "X-TEAM"
     = false.
Proof.
  assert (Hp : [("accept", "text/plain"); ("x-team", "blue")]
               ≡ₚ map_to_list (header_map two_headers)).
  { assert (E : map_to_list (header_map two_headers)
      = [("accept", "text/plain"); ("x-team", "blue")]
      \/ map_to_list (header_map two_headers)
      = [("x-team", "blue"); ("accept", "text/plain")])
      by (first [left; vm_compute; reflexivity | right; vm_compute; reflexivity]).
    destruct E as [->| ->]; [done|apply perm_swap]. }
  destruct (header_conditions_read_one_value two_headers "X-TEAM" _ Hp) as [Hf Hc].
  split; [exact Hf|]. split; [exact (Hc (team_is "blue"))|exact (Hc (team_is "red"))].
Defined.

Lemma filtered_fields_are_hidden_witness :
  exists bytes, apply_response_filters [redact_env] inspect_bytes = bytes
  /\ exists json, json_to_vec json = Some (apply_response_filters [redact_env] inspect_bytes)
     /\ match json_get json "Config.Env" with
        | None => True
        | Some (JString s) => s = REDACTED \/ exists g, g ∈ [redact_env] /\ s = unwrap_or (replacement g) ""
        | Some _ => False
        end.
Proof.
  exists (as_bytes (print_json (apply_filters [redact_env] inspect))).
  assert (Hb : json_from_slice inspect_bytes = Ok inspect) by reflexivity.
  assert (Hv : json_to_vec (apply_filters [redact_env] inspect)
               = Some (as_bytes (print_json (apply_filters [redact_env] inspect))))
    by reflexivity.
  refine (filtered_fields_are_hidden [redact_env] redact_env inspect_bytes _ inspect _ _ Hb Hv).
  - left.
  - left. reflexivity.
Defined.
