(* ===== verification/LimitsSpec.v ===== *)
(** * Properties of the rate limiter and of the lockout table

    Budgets, penalties and the bound on the table for [RateLimiter]; the abstract lockout
    automaton that [AuthLimiter] implements ([src/rules.rs]). *)

From S2P Require Import Prelude RustStr F64.
From S2P Require RateLimiter AuthLimiter.

Open Scope Z_scope.

(** ** The rate limiter *)

Section Rate.
Import RateLimiter.

(** C10: a key without a bucket, for which the table has a place, gets exactly its [requests] at
    one instant: of its checks at that instant the first [n] succeed and all others fail,
    however they are interleaved with the checks of other keys, made at any time and with any
    settings, and with clean-ups at any time. The conditions are [1 <= n <= 1024] (the budgets
    for which the comparison of [cleanup] with a thousandth of a token was evaluated), a period
    below [2^53] seconds, so that the arithmetic is exact, and a penalty that is positive (with
    none the bucket is full again at once) and ends within the clock. *)
Theorem budget_is_exact (rl : RateLimiter) (now : Instant) (key : string) (n p q : Z)
    (cs : list call)
    (Hs : exact_settings now n p q) (Hsmall : n <= 1024) (Hpenalty : 0 < q)
    (Hnew : rl !! key = None) (Hroom : Z.of_nat (size rl) < MAX_RATE_LIMIT_BUCKETS)
    (Hcs : Forall (around now key n p q) cs) :
  let checks := length (List.filter (asks key) (Check now key n p q :: cs)) in
  answers key rl (Check now key n p q :: cs)
  = replicate (checks `min` Z.to_nat n) (Done true)
    ++ replicate (checks - Z.to_nat n) (Done false).
Proof.
  intros checks. unfold checks. cbn [answers List.filter asks step].
  rewrite decide_True, bool_decide_eq_true_2 by done. pose proof Hs as (Hn & _).
  rewrite check_fresh by (lia || done).
  pose proof (partly_own now key n p q Hs n (<[key := fresh_bucket now (f64_of_Z n)]> rl)
    ltac:(lia) ltac:(right; eexists; split; [apply lookup_insert_eq|apply fresh_holds])) as Ho.
  destruct (check _ now key n p q) as [r rl']. rewrite (proj2 (Z.leb_le 1 n)) in Ho by lia.
  destruct Ho as [-> Ho]. cbn [fst snd app length].
  rewrite (answers_partly now key n p q Hs Hsmall Hpenalty cs rl' (n - 1)) by (done || lia).
  unfold own_checks. by replace (Z.to_nat n) with (S (Z.to_nat (n - 1))) by lia.
Qed.

(** C11: the penalty is a wall: until the instant it ends every check of the key fails and
    leaves the table as it is, for any settings; from that instant on the key has its whole
    budget again, as if it had just been seen. *)
Theorem penalty_is_exact (rl : RateLimiter) (t u : Instant) (key : string) (n p q : Z)
    (b : RateBucket) (Hn : n <> 0) (Hl : rl !! key = Some b) (Hb : blocked_until b = Some u) :
  check rl t key n p q
  = if t <? u then (Done false, rl)
    else check (<[key := fresh_bucket t (f64_of_Z n)]> rl) t key n p q.
Proof.
  destruct (Z.ltb_spec t u); [by eapply check_while_blocked|].
  unfold check. rewrite Hl, lookup_insert_eq. simpl. apply Z.eqb_neq in Hn. rewrite Hn.
  rewrite (check_bucket_expired t (f64_of_Z n) _ q b u Hb) by lia.
  destruct (check_bucket _ _ _ _ _). by rewrite insert_insert_eq.
Qed.

(** Whatever sequence of checks and cleanups runs, the table never holds more than
    [MAX_RATE_LIMIT_BUCKETS] keys, and a table that is full refuses a new key without storing
    it. *)
Lemma table_is_bounded (calls : list call) (now : Instant) (key : string) (n p q : Z) :
  let rl := run RateLimiter_new calls in
  Z.of_nat (size rl) <= MAX_RATE_LIMIT_BUCKETS
  /\ (rl !! key = None -> Z.of_nat (size rl) = MAX_RATE_LIMIT_BUCKETS ->
      check rl now key n p q = (Done false, rl)).
Proof.
  intros rl. split; [apply run_capacity; unfold within_capacity; vm_compute; discriminate|].
  intros Hl Hfull. unfold check. rewrite Hl, Hfull. by destruct (n =? 0).
Qed.

(** A bucket that has given a token away stays in the table through every cleanup, for every
    budget up to 1024: [cleanup] looks at [tokens] without refilling them. *)
Lemma used_buckets_stay rl now key n p q (later : list Instant) :
  1 <= n <= 1024 -> 0 <= p < 2 ^ 53 -> is_Some (instant_add now (from_secs q)) ->
  rl !! key = None -> Z.of_nat (size rl) < MAX_RATE_LIMIT_BUCKETS ->
  is_Some (run (snd (check rl now key n p q)) (map Cleanup later) !! key).
Proof.
  intros Hn Hp Hq Hl Hroom. rewrite check_fresh by (lia || done).
  rewrite (check_holding _ now key n p q n (fresh_bucket now (f64_of_Z n)));
    [|split; [lia|by split]|lia|apply lookup_insert_eq|apply fresh_holds].
  destruct (Z.leb_spec 1 n); [|lia]. simpl. set (b := {| last_check := now |}).
  assert (Hst : sticky b) by (by apply (sticky_after_small n)).
  generalize (lookup_insert_eq (<[key := fresh_bucket now (f64_of_Z n)]> rl) key b).
  generalize (<[key := b]> (<[key := fresh_bucket now (f64_of_Z n)]> rl)).
  intros rl'. unfold run. revert rl'. induction later as [|t later IH]; intros rl' Hl'; simpl;
    [by exists b|]. apply IH. by apply cleanup_sticky.
Qed.

End Rate.

(** ** The lockout table *)

Section Lockout.
Import AuthLimiter.

(** C9: seen from one address, the table is the lockout automaton: [is_blocked] answers whether
    the automaton is locked, a failure is one step of it (and leaves every other address
    alone), a success clears it, and [cleanup] cannot be observed. The one exception is a full
    table: there the failure of an address without an entry is not counted at all. The settings
    are a maximum that fits a [u32], a window below the ten minutes [cleanup] keeps an entry
    and a positive lockout whose end the clock can represent; the crate's ten failures, one
    minute and five minutes are such. *)
Theorem lockout_table_refines_automaton (al : AuthLimiter) (now : Instant) (key : string)
    (max : Z) (window lockout : Duration)
    (Hmax : 1 <= max <= U32_MAX) (Hwindow : 0 <= window < from_secs 600) (Hlockout : 0 < lockout)
    (Hwf : table_wf max al) (Hclock : is_Some (instant_add now lockout)) :
  let phase al t := phase_of t window (al !! key) in
  is_blocked al now key = spec_blocked (phase al now)
  /\ (let '(r, al') := record_failure al now key max window lockout in
      table_wf max al' /\ (forall other, other <> key -> al' !! other = al !! other)
      /\ if is_none (al !! key) && (MAX_AUTH_LIMITER_KEYS <=? Z.of_nat (size al))
         then r = Done false /\ al' = al
         else let '(b, p) := spec_failure now max lockout (phase al now) in
              r = Done b /\ phase al' now = p)
  /\ phase (record_success al key) now = Clear
  /\ (forall t, now <= t -> phase (cleanup al now) t = phase al t).
Proof.
  intros phase. split_and!.
  - apply is_blocked_refines.
  - pose proof (record_failure_wf al now key max window lockout (proj1 Hmax) Hwf Hclock) as Hw.
    pose proof (fun other Hne => record_failure_other al now key other max window lockout Hne) as Ho.
    destruct (is_none (al !! key) && _) eqn:Eroom.
    + apply andb_true_iff in Eroom as [Hn Hs%Z.leb_le].
      assert (Hnone : al !! key = None) by (by destruct (al !! key)).
      rewrite (record_failure_full al now key max window lockout Hnone Hs) in *. done.
    + pose proof (record_failure_refines al now key max window lockout Hmax (proj1 Hwindow)
                    Hlockout Hwf (room_guard al key Eroom) Hclock) as Hr.
      destruct (record_failure _ _ _ _ _ _) as [r al']. unfold phase.
      destruct (spec_failure _ _ _ _) as [b p]. split; [done|]. split; [|done].
      intros other Hne. by apply Ho.
  - unfold phase, record_success. by rewrite lookup_delete_eq.
  - intros t Ht. by apply cleanup_phase.
Qed.

End Lockout.

(** ** On concrete tables *)

Section Witnesses.
Import RateLimiter.

Definition two_a_minute : call := Check 0 "r:10.0.0.1" 2 30 30.
Definition others : list call :=
  [Cleanup 5; two_a_minute; Check 7 "r:10.0.0.2" 1 1 1; two_a_minute; Cleanup 9].

Lemma budget_is_exact_witness :
  answers "r:10.0.0.1" ∅ (two_a_minute :: others) = [Done true; Done true; Done false].
Proof.
  refine (budget_is_exact ∅ 0 "r:10.0.0.1" 2 30 30 others _ _ _ eq_refl _ _);
    [|discriminate|reflexivity|reflexivity|].
  - split; [split; reflexivity|]. split; [split; [discriminate|reflexivity]|].
    exists (from_secs 30). reflexivity.
  - repeat (apply Forall_cons; split); simpl; try (exact I); try discriminate;
      try (intros _; repeat split). apply Forall_nil. exact I.
Defined.

Definition blocked_bucket : RateBucket :=
  {| last_check := 0; tokens := f64_of_Z 0; max_tokens := f64_of_Z 2;
     blocked_until := Some (from_secs 30) |}.

Lemma penalty_is_exact_witness :
  check {[ "k" := blocked_bucket ]} (from_secs 29) "k" 2 30 30
  = if from_secs 29 <? from_secs 30 then (Done false, {[ "k" := blocked_bucket ]})
    else check (<["k" := fresh_bucket (from_secs 29) (f64_of_Z 2)]> {[ "k" := blocked_bucket ]})
           (from_secs 29) "k" 2 30 30.
Proof.
  refine (penalty_is_exact _ (from_secs 29) (from_secs 30) "k" 2 30 30 blocked_bucket _ _ eq_refl);
    [discriminate|reflexivity].
Defined.

End Witnesses.

Lemma lockout_table_refines_automaton_witness :
  let phase al t := AuthLimiter.phase_of t (from_secs 60) (al !! "10.0.0.9") in
  AuthLimiter.is_blocked ∅ 0 "10.0.0.9" = AuthLimiter.spec_blocked (phase ∅ 0)
  /\ (let '(r, al') := AuthLimiter.record_failure ∅ 0 "10.0.0.9" 10 (from_secs 60) (from_secs 300) in
      AuthLimiter.table_wf 10 al'
      /\ (forall other, other <> "10.0.0.9" ->
             al' !! other = (∅ : AuthLimiter.AuthLimiter) !! other)
      /\ let '(b, p) := AuthLimiter.spec_failure 0 10 (from_secs 300) (phase ∅ 0) in
         r = Done b /\ phase al' 0 = p)
  /\ phase (AuthLimiter.record_success ∅ "10.0.0.9") 0 = AuthLimiter.Clear
  /\ (forall t, 0 <= t -> phase (AuthLimiter.cleanup ∅ 0) t = phase ∅ t).
Proof.
  refine (lockout_table_refines_automaton ∅ 0 "10.0.0.9" 10 (from_secs 60) (from_secs 300)
            _ _ _ _ _).
  - split; discriminate.
  - split; [discriminate|reflexivity].
  - reflexivity.
  - intros k e. rewrite lookup_empty. discriminate.
  - exists (from_secs 300). reflexivity.
Defined.
