(* ===== verification/ConfigSpec.v ===== *)
(** * Properties of the configuration

    What loading, validation, sorting and environment expansion establish ([src/config.rs]),
    what TLS and client certificates grant ([src/tls.rs]), and what the interactive builder
    writes ([src/setup.rs]). *)

From S2P Require Import Prelude RustStr External Json Config Loading Tls Auth Authenticate Setup.
From S2P Require Import Serde SerdeFacts BuilderFile Reference Samples.

Open Scope Z_scope.

Section Loading.
Context `{NumberApi} `{RegexApi}.

(** C19: a configuration that loads is valid, its rules are sorted by falling priority, every
    pattern a condition will be matched with has been compiled, and it has the rules of the
    file and no others, each with the name, action, priority, role, filters, status, limit and
    dry-run flag it has there. *)
Theorem loading_establishes_invariants (env : Env) (path : string) (cfg : ProxyConfig)
    (Hload : load_from_path env path = Ok cfg) :
  exists content parsed,
    read_to_string env path = Ok content /\ yaml_from_str env content = Ok parsed /\
    config_wf cfg /\ StronglySorted by_priority (rules_of cfg) /\
    Forall (fun r => Forall regex_ready (rule_leaves r)) (rules_of cfg) /\
    exists rules, rules_of cfg ≡ₚ rules /\ Forall2 same_identity (rules_of parsed) rules.
Proof.
  unfold load_from_path in Hload. apply result_bind_Ok in Hload as (content & Hc & Hload).
  apply result_bind_Ok in Hload as (parsed & Hp & Hload).
  destruct (read_to_string env path) as [c|] eqn:Er; [|done]. injection Hc as ->.
  destruct (yaml_from_str env content) as [p|] eqn:Ey; [|done]. injection Hp as ->.
  exists content, parsed. split_and!; try done; by destruct (finish_load_Ok _ _ _ Hload) as (?&?&?&?).
Qed.

(** C20: validation accepts exactly the configurations in which the authentication type, when
    there is one, is [none], [bearer] or [mtls]; every rule has a name, an action (any text but
    the empty one), at least one condition and the part its action needs (a role for
    [require_role], a limit for [rate_limit], a filter list for [response_filter]); and an
    enabled metrics path is not empty, is not the root and does not start with [/v], versioned
    API path or not. *)
Theorem validation_is_exact (cfg : ProxyConfig) :
  validate cfg = Ok tt <->
  (forall a t, config_auth cfg = Some a -> auth_type a = Some t ->
     t = "none" \/ t = "bearer" \/ t = "mtls")
  /\ (forall r, r ∈ rules_of cfg ->
        rule_name r <> "" /\ rule_action r <> "" /\ rule_conditions r <> []
        /\ (rule_action r = "require_role" -> is_Some (rule_role r))
        /\ (rule_action r = "rate_limit" -> is_Some (rule_rate_limit r))
        /\ (rule_action r = "response_filter" -> is_Some (rule_response_filter r)))
  /\ (forall g m, config_global cfg = Some g -> global_metrics g = Some m ->
        metrics_enabled m = Some true ->
        let path := unwrap_or (metrics_path m) "/metrics" in
        path <> "/" /\ path <> "" /\ starts_with path "/v" = false).
Proof. rewrite validate_spec. unfold config_wf. by rewrite Forall_forall. Qed.

(** C21: the priority sort is a stable sort: a permutation of the rules, in falling priority,
    that keeps the file's order among the rules of each priority. *)
Theorem priority_sort_is_stable (rules : list Rule) :
  let sorted := sort_by_priority rules in
  sorted ≡ₚ rules
  /\ StronglySorted (fun a b => priority_of b <= priority_of a) sorted
  /\ forall p, List.filter (with_priority p) sorted = List.filter (with_priority p) rules.
Proof.
  intros sorted. split_and!; [apply sort_perm|apply sort_sorted|intros p; apply sort_stable].
Qed.

(** *** Environment variables *)



End Loading.

(** ** Client certificates *)

(** C27: the role of a client certificate is one the configuration grants to a name the
    certificate carries (its own name or a one-label wildcard), or the default role when no
    entry matches; a certificate that no entry matches has no role without a default. *)
Theorem certificate_roles_are_granted (id : CertIdentity) (mtls : option MtlsConfig) :
  (forall role, resolve_mtls_role id mtls = Some role -> granted id mtls role)
  /\ (resolve_mtls_role id mtls = None <->
      (forall e c, e ∈ role_map mtls -> c ∈ candidates id -> ~ names_host (mapping_cn e) c)
      /\ (forall cfg, mtls = Some cfg -> default_role cfg = None)).
Proof.
  split; [intros role; apply resolve_mtls_role_granted|]. rewrite resolve_mtls_role_map.
  assert (Hiff : first_candidate (role_map mtls) (candidates id) = None <->
    (forall e c, e ∈ role_map mtls -> c ∈ candidates id -> ~ names_host (mapping_cn e) c)).
  { rewrite first_candidate_None. setoid_rewrite <- cn_match_spec.
    setoid_rewrite not_true_iff_false. done. }
  rewrite <- Hiff. destruct (first_candidate _ _); simpl; [naive_solver|].
  destruct mtls as [cfg|]; naive_solver.
Qed.

(** C28: a TLS configuration that builds serves the certificates of its file, of which there is
    at least one, and asks a client for a certificate exactly when a client CA is given: from
    the roots of that file, compulsory when [require_client_cert] is set and optional when it
    is not. Without a client CA there is no client authentication, [require_client_cert] or
    not: the flag is then ignored. *)
Theorem client_ca_is_enforced `{RustlsApi} (tls : TlsConfig) (sc : ServerConfig)
    (Hbuild : build_server_config tls = Ok sc) :
  load_certs (tls_cert tls) = Ok (server_certs sc) /\ server_certs sc <> []
  /\ match tls_client_ca tls with
     | None => server_client_auth sc = NoClientAuth
     | Some ca =>
         exists roots, load_certs ca = Ok roots /\ roots <> []
         /\ server_client_auth sc
            = VerifyClient roots (unwrap_or (tls_require_client_cert tls) false)
     end.
Proof.
  assert (Hne : forall path l, load_certs path = Ok l -> l <> []).
  { intros path l. unfold load_certs. intros (f & _ & Hl)%result_bind_Ok.
    apply result_bind_Ok in Hl as ([|c cs] & _ & Hl); [done|]. injection Hl as <-. discriminate. }
  unfold build_server_config in Hbuild.
  apply result_bind_Ok in Hbuild as (certs & Hc & Hbuild).
  apply result_bind_Ok in Hbuild as (key & _ & Hbuild).
  destruct (tls_client_ca tls) as [ca|].
  - apply result_bind_Ok in Hbuild as (cas & Hcas & Hbuild).
    apply result_bind_Ok in Hbuild as (? & _ & Hbuild).
    apply result_bind_Ok in Hbuild as (? & _ & Hbuild).
    apply result_bind_Ok in Hbuild as (? & _ & [= <-]). simpl.
    split_and!; eauto.
  - apply result_bind_Ok in Hbuild as (? & _ & [= <-]). simpl. split_and!; eauto.
Qed.

(** ** The interactive builder *)


(** ** The text of a configuration *)

(** C34: what a configuration file says survives being written: every configuration whose
    integers fit their fields, and whose conditions hold no compiled pattern, mapping or
    explicit null, reads back from its text unchanged; and every configuration that is read
    has integers that fit. *)
Theorem config_text_roundtrip `{YamlLaws} `{RegexApi} (cfg : ProxyConfig) (text : string)
    (Hwritable : writable cfg) (Htext : ProxyConfig_to_string cfg = Ok text) :
  ProxyConfig_from_str text = Ok cfg
  /\ forall text' cfg', ProxyConfig_from_str text' = Ok cfg' -> config_fits cfg'.
Proof. split; [by apply config_text|apply config_read_fits]. Qed.

(** Choosing [none -- no authentication] writes no authentication section. *)
Lemma no_authentication_choice `{NumberApi} `{RegexApi} :
  exists cfg, setup [ANumber 2376; AText "/var/run/docker.sock"; AIndex 0; AFlag false]
              = Some (cfg, []) /\ is_auth_strictly_configured cfg "" = false.
Proof. eexists. split; reflexivity. Qed.

(** ** On concrete configurations *)

Definition two_rules : ProxyConfig := config [no_exec; audit_exec].
Definition two_rules_sorted : ProxyConfig := config [audit_exec; no_exec].

Lemma loading_establishes_invariants_witness :
  exists content parsed,
    read_to_string (file_env two_rules) "config.yaml" = Ok content
    /\ yaml_from_str (file_env two_rules) content = Ok parsed
    /\ config_wf two_rules_sorted /\ StronglySorted by_priority (rules_of two_rules_sorted)
    /\ Forall (fun r => Forall regex_ready (rule_leaves r)) (rules_of two_rules_sorted)
    /\ exists rules, rules_of two_rules_sorted ≡ₚ rules
       /\ Forall2 same_identity (rules_of parsed) rules.
Proof.
  apply (loading_establishes_invariants (file_env two_rules) "config.yaml" two_rules_sorted).
  reflexivity.
Defined.





Definition tls_files : TlsConfig :=
  {| tls_cert := "/cert.pem"; tls_key := "/key.pem"; tls_client_ca := Some "/ca.pem";
     tls_require_client_cert := Some true |}.

Definition tls_built : ServerConfig :=
  {| server_certs := ["pem:/cert.pem" : Cert]; server_key := ("pem:/key.pem" : PrivateKey);
     server_client_auth := VerifyClient ["pem:/ca.pem" : Cert] true |}.

Lemma client_ca_is_enforced_witness :
  load_certs (tls_cert tls_files) = Ok (server_certs tls_built) /\ server_certs tls_built <> []
  /\ exists roots, load_certs "/ca.pem" = Ok roots /\ roots <> []
     /\ server_client_auth tls_built = VerifyClient roots true.
Proof. apply (client_ca_is_enforced tls_files tls_built). reflexivity. Defined.

Definition wizard_answers : list answer :=
  [ANumber 2376; AText ""; AIndex 2; AText ""; AText "s3cret"; AIndex 1; AFlag false;
   AFlag true; AIndices [0; 4; 13]; AFlag false]%nat.

Definition wizard_config : option (ProxyConfig * list answer) := setup wizard_answers.



Lemma config_text_roundtrip_witness :
  exists text, ProxyConfig_from_str text = Ok (config [redact_rule]).
Proof.
  destruct (ProxyConfig_to_string (config [redact_rule])) as [text|] eqn:E; [|by vm_compute in E].
  exists text. refine (proj1 (config_text_roundtrip (config [redact_rule]) text _ E)).
  by repeat constructor.
Defined.
