(* ===== verification/RequestSpec.v ===== *)
(** * Properties of the request handler

    Who may speak to the Docker socket and what reaches it, the lockout as a client sees it,
    request paths, tokens and client addresses, and what a request leaves in the metrics and
    the audit log ([src/main.rs]). *)

From S2P Require Import Prelude RustStr F64 Net NetText External Json Config RateLimiter.
From S2P Require Import AuthLimiter Conditions Rules Metrics AuditLog Tls Upgrade Path Auth Effects World.
From S2P Require Import Evaluate Authenticate Handle Forward Gate Accounting Termination Reference Samples.

Open Scope Z_scope.

Section Requests.
Context `{NumberApi} `{RegexApi} `{!JsonApi} `{IpNetApi} `{HttpApi}.

(** ** The gate *)

(** The client's headers that must not reach Docker: its credentials, what says where it comes
    from, and the hop-by-hop headers. *)
Definition withheld : list string :=
  ["authorization"; "proxy-authorization"; "host";
   "forwarded"; "via"; "x-real-ip"; "x-forwarded-for"; "x-forwarded-host"; "x-forwarded-proto";
   "x-forwarded-port";
   "connection"; "keep-alive"; "proxy-authenticate"; "te"; "trailer"; "transfer-encoding";
   "content-length"; "upgrade"].

Lemma str_in_ext s l l' : (forall x, x ∈ l <-> x ∈ l') -> str_in s l = str_in s l'.
Proof.
  intros Hl. apply eq_true_iff_eq. unfold str_in. rewrite !existsb_In.
  split; intros (x & Hx & Hs); exists x; (split; [by apply Hl|done]).
Qed.

Lemma forwardable_withheld name : forwardable name = negb (str_in name withheld).
Proof.
  transitivity (negb (str_in name (HOP_BY_HOP_HEADERS ++ CLIENT_FORWARD_DROP_HEADERS ++ ["upgrade"]))).
  - unfold forwardable, str_in. rewrite !existsb_app. cbn [existsb].
    by rewrite orb_false_r, orb_assoc, !negb_orb.
  - f_equal. apply str_in_ext. unfold HOP_BY_HOP_HEADERS, CLIENT_FORWARD_DROP_HEADERS, withheld.
    set_solver.
Qed.

(** C2: the headers of a request sent to the Docker socket are, in order, [host: docker.proxy],
    the proxy's own [connection] ([upgrade] for an upgrade request, [close] for any other), for
    an upgrade the client's [upgrade] value when it is a string, and then exactly the client's
    headers whose name is not on the list [withheld]: no [authorization], no forwarding header
    and no hop-by-hop header of the client gets through, with whatever value. *)
Theorem credentials_are_not_forwarded (state : ProxyState) (req : Request) (peer : SocketAddr)
    (cert : option CertIdentity) (before after : list event) (r : UpstreamRequest)
    (answer : timed (result UpstreamResponse string)) (q : prog HttpResponse)
    (Hrun : reaches (handle state req peer cert)
              (before ++ Event (SendRequest r) answer :: after) q) :
  exists host conn own,
    up_headers r
    = (("host", host) :: ("connection", conn) :: own)
      ++ List.filter (fun kv => negb (str_in kv.1 withheld)) (header_iter (req_headers req))
    /\ HeaderValue_from_str "docker.proxy" = Some host
    /\ HeaderValue_from_str (if is_upgrade_request (req_headers req) then "upgrade" else "close")
       = Some conn
    /\ match header_str (req_headers req) "upgrade" with
       | Some u =>
           if is_upgrade_request (req_headers req)
           then exists v, HeaderValue_from_str u = Some v /\ own = [("upgrade", v)]
           else own = []
       | None => own = []
       end.
Proof.
  destruct (wp_reaches _ _ _ _ _ _ Hrun (handle_wp state req peer cert [])) as [_ Hg].
  specialize (Hg before after _ (SendRequest r) answer eq_refl).
  destruct Hg as (path & _ & _ & _ & own & (host & conn & rest & -> & Hh & Hc & Hr) & Hup).
  exists host, conn, rest. split_and!; try done. rewrite Hup. f_equal. unfold forward_headers.
  apply List.filter_ext. intros kv. apply forwardable_withheld.
Qed.

(** ** Authentication *)

(** C6: authentication admits only requests entitled to what they get: the peer was not locked
    out and the request carries the credential the configuration gives that role to (none, a
    granted certificate, or one bearer token that a configured token or secret equals); every
    other outcome is a 401 or a 429. *)
Theorem authentication_is_sound (env_secret : string) (config : ProxyConfig)
    (headers : HeaderMap) (ip : IpAddr) (cert : option CertIdentity) (t : list event)
    (o : AuthOutcome) (Hshort : short_secrets config env_secret)
    (Hrun : reaches (authenticate env_secret config headers ip cert) t (Ret o)) :
  match o with
  | Allowed role identity =>
      Event (AuthIsBlocked (IpAddr_to_string ip)) false ∈ t
      /\ entitled config env_secret headers cert role identity
  | Denied s _ => s = 401 \/ s = 429
  end.
Proof.
  destruct (wp_reaches _ _ _ _ _ _ Hrun (authenticate_wp env_secret config headers ip cert []))
    as [[_ Ho] _]. destruct o as [role identity|s m]; [|done].
  destruct Ho as [Hb He]. split; [done|]. by apply He.
Qed.

Lemma accepts_configured config env_secret tok role :
  tok <> "" -> accepts config env_secret tok role ->
  auth_type_of config <> Some "none" -> auth_type_of config <> Some "mtls" ->
  is_auth_strictly_configured config env_secret = true.
Proof.
  intros Hne Ha Hn Hm. unfold auth_type_of, is_auth_strictly_configured in *.
  destruct Ha as [a ts role Hc Hts (b & t & af & -> & Ht & _)|a Hc _ Hs _|Hc -> _];
    rewrite Hc in *.
  - rewrite !bool_decide_eq_false_2 by done. rewrite Hts. simpl.
    assert (Hex : existsb (fun x => negb (is_empty (token x))) (b ++ t :: af) = true).
    { apply existsb_In. exists t. split; [set_solver|]. rewrite Ht.
      apply is_empty_false in Hne. by rewrite Hne. }
    by rewrite Hex.
  - rewrite !bool_decide_eq_false_2 by done. rewrite Hs. simpl.
    apply is_empty_false in Hne. rewrite Hne. apply orb_true_r.
  - apply is_empty_false in Hne. by rewrite Hne.
Qed.

(** C7: when the configured type is neither [none] nor [mtls] and the peer is not locked out, a
    request whose only [authorization] header is [Bearer] with a non-empty token of at most
    4096 bytes that the configuration accepts is admitted with that token's role, and its
    peer's record of failures is cleared. (A locked-out peer is answered 429, see C8; the
    configured secrets are taken to be shorter than 2^32 bytes.) *)
Theorem accepted_tokens_are_admitted (h : Host) (w : World) (env_secret : string)
    (config : ProxyConfig) (headers : HeaderMap) (ip : IpAddr) (cert : option CertIdentity)
    (tok role : string) (v : HeaderValue)
    (Hshort : short_secrets config env_secret)
    (Hnone : auth_type_of config <> Some "none") (Hmtls : auth_type_of config <> Some "mtls")
    (Hheader : header_get_all headers "authorization" = [v])
    (Hv : to_str v = Some ("Bearer " +:+ tok))
    (Hne : tok <> "") (Hlen : Z.of_nat (String.length tok) <= MAX_TOKEN_LEN)
    (Haccepts : accepts config env_secret tok role)
    (Hfree : AuthLimiter.is_blocked (auth_limiter w) (now w) (IpAddr_to_string ip) = false) :
  run h (authenticate env_secret config headers ip cert) w
  = (Done (Allowed (Some role) None),
     set_auth w (delete (IpAddr_to_string ip) (auth_limiter w))).
Proof.
  unfold authenticate. cbn [perform bind run exec_op]. rewrite Hfree.
  rewrite !bool_decide_eq_false_2 by done.
  rewrite (accepts_configured config env_secret tok role) by done. cbn [negb].
  unfold extract_bearer_token. rewrite Hheader, Hv, strip_prefix_append.
  apply is_empty_false in Hne. rewrite Hne. apply Z.leb_le in Hlen as Hl. rewrite Hl. simpl.
  rewrite (proj2 (resolve_token_role_spec config env_secret tok role Hshort
                    ltac:(unfold short, U32_MAX, MAX_TOKEN_LEN in *; lia)) Haccepts).
  done.
Qed.

(** *** Lockout *)
















(** ** Client addresses *)

(** C26: forwarding headers are believed only from a trusted proxy, and [x-forwarded-for] is
    read from the right: whatever a client puts before the last untrusted address of the
    header changes nothing. *)
Theorem client_address_cannot_be_forged (peer : IpAddr) (headers : HeaderMap)
    (nets : list IpNet) :
  (trusted nets peer = false -> compute_client_ip peer headers nets = peer)
  /\ (forall forged right ip,
        trusted nets peer = true ->
        header_ip headers "x-real-ip" real_ip = None ->
        header_str headers "x-forwarded-for" = Some (forged +:+ "," +:+ right) ->
        forwarded_for nets right = Some ip ->
        compute_client_ip peer headers nets = ip /\ trusted nets ip = false).
Proof.
  unfold compute_client_ip. split; [by intros ->|].
  intros forged right ip -> -> Hx Hr. simpl. unfold header_ip. rewrite Hx, forwarded_for_app, Hr.
  split; [done|]. by eapply forwarded_for_untrusted.
Qed.

(** ** Accounting *)

(** C31: a request that is not an upgrade and that runs to its response is counted once: exactly
    one of the outcome counters (allowed, denied, bad request, body too large, body timeout,
    upstream error, upstream timeout) is incremented, or the metrics are rendered; the one
    exception is a request whose upstream form cannot be built. So [requests_allowed] counts
    the requests whose response was read from Docker: one that is past the rules but whose
    upstream fails counts as an upstream error or timeout and not as allowed, although the
    README describes the counter as requests past the rule engine. *)
Theorem requests_are_counted_once (state : ProxyState) (req : Request) (peer : SocketAddr)
    (cert : option CertIdentity) (t : list event) (resp : HttpResponse)
    (Hplain : is_upgrade_request (req_headers req) = false)
    (Hrun : reaches (handle state req peer cert) t (Ret resp)) :
  tally outcome_weight t = 1
  \/ (tally outcome_weight t = 0 /\ resp = make_response 502 "failed to build upstream request").
Proof. apply (shifts_trace _ _ _ _ _ (handle_outcome state req peer cert Hplain) Hrun). Qed.

(** C32: with the audit log on, every request that runs to its response leaves as many denial
    events ([deny] or [auth_denied]) in the audit channel as it adds to [requests_denied]:
    no denial goes unaudited and none is invented, upgrades included. *)
Theorem denials_are_audited (state : ProxyState) (req : Request) (peer : SocketAddr)
    (cert : option CertIdentity) (t : list event) (resp : HttpResponse)
    (Haudit : audit_enabled state = true)
    (Hrun : reaches (handle state req peer cert) t (Ret resp)) :
  tally (fun X o => match o with FetchAdd requests_denied => 1 | _ => 0 end) t
  = tally (fun X o => match o with
                      | AuditSend ev => if denial_name ev then 1 else 0
                      | _ => 0
                      end) t.
Proof.
  pose proof (shifts_trace _ _ _ _ _ (handle_denials state req peer cert Haudit) Hrun) as Hz.
  unfold zero in Hz. revert Hz. generalize t as l. intros l.
  assert (Hsplit : tally denial_weight l
    = tally (fun X o => match o with FetchAdd requests_denied => 1 | _ => 0 end) l
      - tally (fun X o => match o with
                          | AuditSend ev => if denial_name ev then 1 else 0
                          | _ => 0
                          end) l).
  { unfold tally. induction l as [|[X o x] l IH]; [done|]. cbn [map foldr event_weight].
    rewrite IH. destruct o as [| | | |[]| | | | |ev| | | | | | | | | | | | | | |]; simpl; try lia.
    destruct (denial_name ev); lia. }
  lia.
Qed.

(** ** Termination *)

(** C35: every request is over after a bounded number of operations, whatever each of them
    answers: at most [HANDLER_BOUND], and one more for each rule of the configuration it was
    given; the task of an upgraded connection performs at most ten before the bytes flow. *)
Theorem handlers_terminate (state : ProxyState) (req : Request) (peer : SocketAddr)
    (cert : option CertIdentity) (t : list event) (q : prog HttpResponse) (n : Z) (Hn : 0 <= n)
    (Hrun : reaches (handle state req peer cert) t q)
    (Hrules : forall config, Event CurrentConfig config ∈ t ->
                Z.of_nat (length (rules_of config)) <= n) :
  Z.of_nat (length t) <= HANDLER_BOUND + n
  /\ (Z.of_nat (length t) = HANDLER_BOUND + n -> exists resp, q = Ret resp)
  /\ forall t' q', reaches upgrade_task t' q' -> Z.of_nat (length t') <= 10.
Proof.
  assert (Hread : total_read t <= n).
  { eapply reads_once_total; [apply handle_reads_once|exact Hrun|done|].
    intros [X o x] He. destruct o; try done. by apply Hrules. }
  pose proof (within_reaches _ _ _ _ (handle_within state req peer cert) Hrun) as Hw.
  split_and!.
  - apply within_nonneg in Hw. lia.
  - intros Hl. destruct q as [resp|X o k]; [by exists resp|]. destruct Hw as [Hw _]. lia.
  - intros t' q' Hr. pose proof (within_reaches _ _ _ _ upgrade_task_within Hr) as Hu.
    apply within_nonneg in Hu.
    destruct (only_reaches _ _ _ _ upgrade_task_no_config Hr) as [Ho _].
    rewrite (silent_read _ _ (fun f => f) Ho) in Hu. lia.
Qed.

End Requests.

(** ** Paths *)

(** C15: the path the rules see is canonical: it is a slash followed by segments none of which
    is empty, a dot segment or holds a slash, it has no control byte, and it is no longer than
    the raw path, which is at most [MAX_PATH_LEN] bytes. *)
Theorem canonical_paths_are_normal (raw path : string) (Hc : canonicalize_path raw = Some path) :
  (exists segments trailing_slash, path = render_path segments trailing_slash
     /\ forall s, s ∈ segments ->
          s <> "" /\ s <> "." /\ s <> ".." /\ has_char slash s = false)
  /\ (forall a, In a (String.list_ascii_of_string path) ->
        code a <> 0 /\ 32 <= code a /\ code a <> 127)
  /\ (String.length path <= String.length raw)%nat
  /\ Z.of_nat (String.length raw) <= MAX_PATH_LEN.
Proof.
  destruct (canonicalize_Some raw path Hc) as [[(segs & tr & Hp & Hs) Hclean _] Hlen].
  split_and!.
  - exists segs, tr. split; [done|]. by apply Forall_forall.
  - intros a Ha. unfold all_chars in Hclean. rewrite Forall_forall in Hclean.
    specialize (Hclean a (proj2 (list_elem_of_In _ _) Ha)). unfold control_byte in Hclean.
    apply orb_false_iff in Hclean as [[H1 H2]%orb_false_iff H3]. b2p. lia.
  - done.
  - unfold canonicalize_path in Hc. destruct (_ || _); [done|].
    destruct (Z.ltb_spec MAX_PATH_LEN (Z.of_nat (String.length raw))); [done|lia].
Qed.

(** A canonical path without a percent sign and without a version prefix is left alone
    when it is canonicalised again: on such paths canonicalisation is idempotent. *)
Lemma canonical_paths_are_fixed (raw path : string)
    (Hc : canonicalize_path raw = Some path)
    (Hpercent : has_char "%"%char path = false)
    (Hutf8 : utf8_valid (as_bytes path) = true)
    (Hversion : strip_api_version_prefix path = path) :
  canonicalize_path path = Some path.
Proof. apply canonical_fixed; try done. by apply (canonicalize_Some raw path). Qed.

(** Decoding undoes percent-encoding byte for byte, leaves a string without a percent sign
    alone, and never lengthens what it decodes. *)
Lemma percent_decoding_roundtrip (l : list Z) :
  (Forall is_byte l -> percent_decode (percent_encode l) = Some l)
  /\ (Forall (fun b => b <> 37) l -> percent_decode l = Some l)
  /\ (forall d, Forall is_byte l -> percent_decode l = Some d ->
        (length d <= length l)%nat /\ Forall is_byte d).
Proof.
  split_and!; [apply percent_decode_encode|apply percent_decode_plain|].
  intros d Hl Hd. by apply (percent_decode_props (length l)).
Qed.

(** C18: the comparison of secrets, which looks at every byte of the longer one, is equality. *)
Theorem token_comparison_is_equality (a b : list Z)
    (Ha : Z.of_nat (length a) <= U32_MAX) (Hb : Z.of_nat (length b) <= U32_MAX) :
  constant_time_eq a b = true <-> a = b.
Proof. by apply constant_time_eq_spec. Qed.

(** The text the proxy prints an address as, and reads it from. *)
Definition canonical_text (s : string) (ip : IpAddr) : Prop :=
  IpAddr_parse s = Some ip /\ IpAddr_to_string ip = s.

Lemma canonical_text_iff ip s :
  wf_ip ip -> (String.eqb (IpAddr_to_string ip) s = true <-> canonical_text s ip).
Proof.
  intros Hw. rewrite String.eqb_eq. split; [|by intros [_ ->]].
  intros <-. split; [by apply IpAddr_parse_show|done].
Qed.

(** C40: a [client_ip] condition that names addresses compares texts. The text of an address, v4
    or v6 with its zeros compressed, reads back as that address; [equals] holds exactly of a
    value that is this text, and [in] without networks of a list that has it; the negated
    operators are the complements. So canonical texts are compared as the addresses they denote,
    and another spelling of the client's address ([2001:DB8::1], [0:0:0:0:0:0:0:1]) never
    matches. Two addresses never share a bucket of a rule. *)
Theorem addresses_are_compared_as_texts (ip : IpAddr) (c : Condition) (Hwf : wf_ip ip) :
  let matches := match_ip_condition c (IpAddr_to_string ip) in
  IpAddr_parse (IpAddr_to_string ip) = Some ip
  /\ (operator c = "equals" ->
      matches = true <-> exists v, value_string c = Some v /\ canonical_text v ip)
  /\ (operator c = "not_equals" ->
      matches = false <-> exists v, value_string c = Some v /\ canonical_text v ip)
  /\ (operator c = "in" -> condition_nets c = [] ->
      matches = true <-> exists v, v ∈ condition_cidrs c /\ canonical_text v ip)
  /\ (operator c = "not_in" -> condition_nets c = [] ->
      matches = false <-> exists v, v ∈ condition_cidrs c /\ canonical_text v ip)
  /\ (forall v other, wf_ip other -> canonical_text v ip -> canonical_text v other -> ip = other)
  /\ (forall name other, wf_ip other ->
      rate_key name (IpAddr_to_string ip) = rate_key name (IpAddr_to_string other) -> ip = other).
Proof.
  intros matches. unfold matches. pose proof (IpAddr_parse_show ip Hwf) as Hp.
  pose proof (fun s => canonical_text_iff ip s Hwf) as Ht. split_and!; [done| | | | | |].
  - intros Ho. unfold match_ip_condition. rewrite Ho, Hp. eval_strings. simpl.
    destruct (value_string c) as [v|]; simpl; [rewrite Ht|]; naive_solver.
  - intros Ho. unfold match_ip_condition. rewrite Ho, Hp. eval_strings. simpl.
    destruct (value_string c) as [v|]; simpl; [rewrite negb_false_iff, Ht|]; naive_solver.
  - intros Ho Hn. unfold match_ip_condition. rewrite Ho, Hn, Hp. eval_strings. simpl.
    rewrite existsb_In. setoid_rewrite String.eqb_sym. by setoid_rewrite Ht.
  - intros Ho Hn. unfold match_ip_condition. rewrite Ho, Hn, Hp. eval_strings. simpl.
    rewrite (forallb_negb_existsb (fun s => String.eqb s (IpAddr_to_string ip))).
    rewrite negb_false_iff, existsb_In.
    setoid_rewrite String.eqb_sym. by setoid_rewrite Ht.
  - intros v other _ [H1 _] [H2 _]. congruence.
  - intros name other Hother E%rate_key_inj_ip. by apply IpAddr_to_string_inj.
Qed.

(** ** On concrete requests *)

(** The trace of a run, answered by [docker]. *)
Fixpoint trace (h : Host) {A} (p : prog A) (w : World) : list event * option A :=
  match p with
  | Ret a => ([], Some a)
  | Do o k =>
      match exec_op h o w with
      | (Done x, w') => let '(t, a) := trace h (k x) w' in (Event o x :: t, a)
      | (Panic, _) => ([], None)
      end
  end.

Lemma trace_reaches h {A} (p : prog A) w t a : trace h p w = (t, Some a) -> reaches p t (Ret a).
Proof.
  revert w t. induction p as [b|X o k IH]; intros w t; simpl; [intros [= <- ->]; constructor|].
  destruct (exec_op h o w) as [[x|] w']; [|done]. destruct (trace h (k x) w') as [t' a'] eqn:E.
  intros [= <- ->]. constructor. by eapply IH.
Qed.

Definition inspect_run : list event * option HttpResponse :=
  trace docker (handle state inspect_request peer None) (world (config [redact_rule])).

Fixpoint split_at_send (t : list event)
    : option (list event * (UpstreamRequest * timed (result UpstreamResponse string)) * list event) :=
  match t with
  | [] => None
  | e :: t' =>
      match e with
      | Event o x =>
          match o in op X return X -> _ with
          | SendRequest r => fun x => Some ([], (r, x), t')
          | _ => fun _ =>
              match split_at_send t' with
              | Some (before, m, after) => Some (e :: before, m, after)
              | None => None
              end
          end x
      end
  end.

Lemma split_at_send_eq t before r x after :
  split_at_send t = Some (before, (r, x), after) -> t = before ++ Event (SendRequest r) x :: after.
Proof.
  revert before. induction t as [|[X o y] t IH]; intros before; simpl; [done|].
  destruct o; try (destruct (split_at_send t) as [[[b m] a]|] eqn:E; [|done];
    intros [= <- -> ->]; simpl; f_equal; by apply IH). by intros [= <- -> -> ->].
Qed.

Definition own_headers : list (string * HeaderValue) :=
  [("host", "docker.proxy"); ("connection", "close")].

Lemma inspect_sends :
  exists before r x after resp,
    reaches (handle state inspect_request peer None)
      (before ++ Event (SendRequest r) x :: after) (Ret resp)
    /\ up_headers r = own_headers.
Proof.
  assert (Hok : match inspect_run with
                | (t, Some _) => match split_at_send t with
                                 | Some (_, (r, _), _) => up_headers r = own_headers
                                 | None => False
                                 end
                | _ => False
                end) by reflexivity.
  destruct inspect_run as [t [resp|]] eqn:Erun; [|done].
  destruct (split_at_send t) as [[[before [r x]] after]|] eqn:Es; [|done].
  exists before, r, x, after, resp. split; [|done].
  rewrite <- (split_at_send_eq _ _ _ _ _ Es). by apply (trace_reaches docker _ _ _ _ Erun).
Qed.

Lemma credentials_are_not_forwarded_witness :
  exists r : UpstreamRequest, up_headers r = own_headers
  /\ exists host conn own,
    up_headers r
    = (("host", host) :: ("connection", conn) :: own)
      ++ List.filter (fun kv => negb (str_in kv.1 withheld))
           (header_iter (req_headers inspect_request))
    /\ HeaderValue_from_str "docker.proxy" = Some host
    /\ HeaderValue_from_str "close" = Some conn
    /\ own = [].
Proof.
  destruct inspect_sends as (before & r & x & after & resp & Hrun & Hh). exists r.
  split; [exact Hh|].
  exact (credentials_are_not_forwarded state inspect_request peer None before after r x _ Hrun).
Defined.

Lemma short_secrets_sample rules : short_secrets (config rules) "".
Proof.
  split; [unfold short; simpl; unfold U32_MAX; lia|]. intros a [= <-]. split; [done|].
  intros ts t [= <-] Hin. apply list_elem_of_singleton in Hin as ->. unfold short, U32_MAX.
  simpl. lia.
Qed.

Lemma authentication_is_sound_witness :
  exists t o, reaches (authenticate "" (config []) (bearer "s3cret") local None) t (Ret o)
  /\ match o with
     | Allowed role identity =>
         Event (AuthIsBlocked (IpAddr_to_string local)) false ∈ t
         /\ entitled (config []) "" (bearer "s3cret") None role identity
     | Denied s _ => s = 401 \/ s = 429
     end.
Proof.
  assert (Hr : exists t o, reaches (authenticate "" (config []) (bearer "s3cret") local None) t (Ret o)).
  { eexists _, _. apply (trace_reaches docker _ (world (config []))). reflexivity. }
  destruct Hr as (t & o & Hr). exists t, o. split; [exact Hr|].
  exact (authentication_is_sound "" (config []) (bearer "s3cret") local None t o
           (short_secrets_sample []) Hr).
Defined.

Lemma accepted_tokens_are_admitted_witness :
  run docker (authenticate "" (config []) (bearer "s3cret") local None) (world (config []))
  = (Done (Allowed (Some "user") None),
     set_auth (world (config []))
       (delete (IpAddr_to_string local) (auth_limiter (world (config []))))).
Proof.
  refine (accepted_tokens_are_admitted docker (world (config [])) "" (config []) (bearer "s3cret")
            local None "s3cret" "user" (hv "Bearer s3cret")
            (short_secrets_sample []) _ _ eq_refl eq_refl _ _ _ eq_refl); try discriminate.
  apply (accepts_token _ _ _ token_auth [{| token := "s3cret"; token_role := Some "user" |}] "user");
    [reflexivity|reflexivity|].
  exists [], {| token := "s3cret"; token_role := Some "user" |}, []. split_and!; try reflexivity.
  intros t' Hin. set_solver.
Defined.






Lemma client_address_cannot_be_forged_witness :
  let headers := hm [("x-forwarded-for", "1.2.3.4,10.1.1.1")] in
  compute_client_ip local headers [net 127 0 0 0 8] = V4 10 1 1 1
  /\ trusted [net 127 0 0 0 8] (V4 10 1 1 1) = false.
Proof.
  intros headers.
  apply (proj2 (client_address_cannot_be_forged local headers [net 127 0 0 0 8])
           "1.2.3.4" "10.1.1.1" (V4 10 1 1 1)); reflexivity.
Defined.

Lemma inspect_completes :
  exists t resp, reaches (handle state inspect_request peer None) t (Ret resp).
Proof. destruct inspect_sends as (? & ? & ? & ? & ? & Hrun & _). eauto. Qed.

Lemma handlers_terminate_witness :
  exists t resp, reaches (handle state inspect_request peer None) t (Ret resp)
  /\ Z.of_nat (length t) <= HANDLER_BOUND + total_read t.
Proof.
  destruct inspect_completes as (t & resp & Hrun). exists t, resp. split; [exact Hrun|].
  apply (handlers_terminate state inspect_request peer None t (Ret resp) (total_read t));
    [apply total_read_nonneg|exact Hrun|].
  intros cfg Hin. exact (total_read_in _ _ Hin).
Defined.

Lemma requests_are_counted_once_witness :
  exists t resp, tally outcome_weight t = 1
  \/ (tally outcome_weight t = 0 /\ resp = make_response 502 "failed to build upstream request").
Proof.
  destruct inspect_completes as (t & resp & Hrun). exists t, resp.
  exact (requests_are_counted_once state inspect_request peer None t resp eq_refl Hrun).
Defined.

Lemma denials_are_audited_witness :
  exists t : list event,
    tally (fun X o => match o with FetchAdd requests_denied => 1 | _ => 0 end) t
    = tally (fun X o => match o with
                        | AuditSend ev => if denial_name ev then 1 else 0
                        | _ => 0
                        end) t.
Proof.
  destruct inspect_completes as (t & resp & Hrun). exists t.
  exact (denials_are_audited state inspect_request peer None t resp eq_refl Hrun).
Defined.

Lemma canonical_paths_are_normal_witness :
  (exists segments trailing_slash, "/containers/json" = render_path segments trailing_slash
     /\ forall s, s ∈ segments ->
          s <> "" /\ s <> "." /\ s <> ".." /\ has_char slash s = false)
  /\ (forall a, In a (String.list_ascii_of_string "/containers/json") ->
        code a <> 0 /\ 32 <= code a /\ code a <> 127)
  /\ (String.length "/containers/json" <= String.length "/v1.41//images/../containers/%6Ason")%nat
  /\ Z.of_nat (String.length "/v1.41//images/../containers/%6Ason") <= MAX_PATH_LEN.
Proof.
  apply (canonical_paths_are_normal "/v1.41//images/../containers/%6Ason" "/containers/json").
  reflexivity.
Defined.

Lemma token_comparison_is_equality_witness :
  constant_time_eq [1; 2] [1; 2] = true <-> [1; 2] = [1; 2].
Proof. apply (token_comparison_is_equality [1; 2] [1; 2]); discriminate. Defined.

Definition loopback : IpAddr := V6 [0; 0; 0; 0; 0; 0; 0; 1].

Definition mapped : IpAddr := V6 [0; 0; 0; 0; 0; 65535; 2560; 1].

Definition ip_condition (op : string) (v : YamlValue) : Condition :=
  {| field := "client_ip"; operator := op; value := Some v; compiled_regex := None |}.

Lemma addresses_are_compared_as_texts_witness :
  IpAddr_to_string mapped = "::ffff:10.0.0.1"
  /\ match_ip_condition (ip_condition "equals" (YString "::1")) (IpAddr_to_string loopback) = true
  /\ match_ip_condition (ip_condition "not_equals" (YString "0:0:0:0:0:0:0:1"))
       (IpAddr_to_string loopback) <> false
  /\ match_ip_condition (ip_condition "in" (YSequence [YString "::1"; YString "::ffff:10.0.0.1"]))
       (IpAddr_to_string mapped) = true.
Proof.
  assert (Hl : wf_ip loopback) by (split; [done|]; repeat constructor; discriminate).
  assert (Hm : wf_ip mapped) by (split; [done|]; repeat constructor; discriminate).
  split; [done|]. split_and!.
  - pose proof (addresses_are_compared_as_texts loopback
      (ip_condition "equals" (YString "::1")) Hl) as (_ & Heq & _).
    apply (Heq eq_refl). exists "::1". done.
  - pose proof (addresses_are_compared_as_texts loopback
      (ip_condition "not_equals" (YString "0:0:0:0:0:0:0:1")) Hl) as (_ & _ & Hne & _).
    intros E. apply (Hne eq_refl) in E as (v & [= <-] & [_ E]). discriminate E.
  - pose proof (addresses_are_compared_as_texts mapped
      (ip_condition "in" (YSequence [YString "::1"; YString "::ffff:10.0.0.1"])) Hm)
      as (_ & _ & _ & Hin & _).
    apply (Hin eq_refl eq_refl). exists "::ffff:10.0.0.1". split; [|done]. right. left.
Defined.

(** *** What the canonical path does not catch *)

(** The version prefix is stripped before dot segments and empty segments are resolved, and only
    once; a decoded question mark ends the path upstream. *)
Lemma version_prefix_survives :
  map canonicalize_path ["/./v1.41/containers/create"; "//v1.41/containers/create";
                         "/x/../v1.41/containers/create"; "/v1.41/v1.41/containers/create"]
  = replicate 4 (Some "/v1.41/containers/create").
Proof. reflexivity. Qed.

Lemma decoded_question_mark :
  canonicalize_path "/containers/create%3Fx" = Some "/containers/create?x".
Proof. reflexivity. Qed.
