(* ===== verification/SystemSpec.v ===== *)
(** * Properties of the audit log, the metrics and the server loop

    The writer task of [src/audit.rs], the histogram and the labels of [src/metrics.rs], the
    accept loop, the reload and the copy loops of [src/main.rs]. *)

From S2P Require Import Prelude RustStr F64 Net External Config Metrics Auth Server AuditText.
From S2P Require Import Reference Samples.
From S2P Require AuditLog Relay.

Open Scope Z_scope.

(** ** The audit log *)

Section AuditLog.
Import AuditLog.
Context `{JsonTextLaws}.

Lemma lines_of_events (evs : list AuditEvent) :
  split (char_of 10) (join "" (map event_line evs))
  = omap (fun ev => result_ok (event_to_string ev)) evs ++ [""].
Proof.
  induction evs as [|ev evs IH]; [done|]. cbn [map]. rewrite join_nil_cons.
  cbn [omap list_omap]. unfold event_line at 1.
  destruct (event_to_string ev) as [line|e] eqn:E; cbn [result_ok]; [|exact IH].
  unfold newline. rewrite append_assoc.
  change (String (char_of 10) "" +:+ ?t) with (String (char_of 10) t).
  rewrite split_app, IH. rewrite split_no_char by (by apply (event_one_line ev)). done.
Qed.

(** C29: while no write fails and the queue has room for what is sent, the audit file is what it
    held when it was opened, followed by exactly the events sent, in order, less the one being
    written and those still in the queue; each takes one line, which reads back as the event with
    every field it had. *)
Theorem audit_log_is_complete (contents : string) (acts : list action)
    (Hopens : Forall (opens contents) acts) (Hroom : roomy spawn acts)
    (Hstatus : Forall (fun ev => 0 <= ev_status ev <= U16_MAX) (sent acts)) :
  let l := run spawn acts in
  match writer l with
  | Opening => pending l = sent acts
  | Waiting file | Writing file _ =>
      exists written, sent acts = written ++ in_hand l ++ pending l
      /\ file = contents +:+ join "" (map event_line written)
      /\ split (char_of 10) (join "" (map event_line written))
         = omap (fun ev => result_ok (event_to_string ev)) written ++ [""]
      /\ forall ev line, ev ∈ written -> event_to_string ev = Ok line ->
           exists j, json_from_slice (as_bytes line) = Ok j /\ event_of_json j = Some ev
  | Returned => False
  end.
Proof.
  intros l. pose proof (run_intact contents acts spawn [] eq_refl Hopens Hroom) as Hi.
  fold l in Hi. unfold intact, pending in *. simpl in Hi.
  assert (Hwritten : forall written evs, sent acts = written ++ evs ->
    forall ev line, ev ∈ written -> event_to_string ev = Ok line ->
    exists j, json_from_slice (as_bytes line) = Ok j /\ event_of_json j = Some ev).
  { intros written evs Hs ev line Hin. apply event_reads_back. rewrite Hs in Hstatus.
    apply Forall_app in Hstatus as [Ht _]. rewrite Forall_forall in Ht. specialize (Ht _ Hin).
    unfold U16_MAX, U64_MAX in *. lia. }
  destruct (writer l) as [|file|file held|]; [by rewrite Hi| | |done];
    destruct Hi as (taken & q & Hs & Hq & Hf); exists taken; rewrite Hq;
    (split_and!; [done|done|apply lines_of_events|by eapply Hwritten]).
Qed.

(** The queue never holds more than [CHANNEL_CAPACITY] events whatever is sent, written or
    fails; a send to a full queue changes nothing, so a slow disk costs audit events and never
    blocks a request. *)
Lemma audit_queue_is_bounded (acts : list action) (ev : AuditEvent) :
  let l := run spawn acts in
  (length (pending l) <= CHANNEL_CAPACITY)%nat
  /\ (length (pending l) = CHANNEL_CAPACITY -> step l (Send ev) = l).
Proof.
  intros l. split; [apply run_pending; simpl; unfold CHANNEL_CAPACITY; lia|].
  unfold pending. destruct l as [[[ch|]] w]; simpl; [|by unfold CHANNEL_CAPACITY].
  intros Hfull. f_equal. unfold send. simpl. rewrite Hfull, Nat.ltb_irrefl.
  by destruct (receiver_open ch).
Qed.

End AuditLog.

(** ** Metrics *)

(** C33: the histogram a scrape reports is exact: after any sequence of at most 2^64 - 1
    latencies, in whatever order the increments of concurrent observations were performed, each
    cumulative count is the number of latencies at most its bound, the [+Inf] count is their
    number, and the sum is theirs modulo 2^64. *)
Theorem histogram_is_exact (l : list Z) (incs : list increment)
    (Hincs : incs ≡ₚ concat (map increments l)) (Hl : Z.of_nat (length l) <= U64_MAX) :
  let h := fold_left increment_by incs LatencyHistogram_new in
  cumulative_counts h
  = map (fun bound => at_most bound l) LATENCY_BUCKETS_MS ++ [Z.of_nat (length l)]
  /\ hist_count h = Z.of_nat (length l)
  /\ sum_ms h = foldr Z.add 0 l mod (U64_MAX + 1).
Proof.
  intros h. pose proof (observed_all l Hl) as Ho.
  rewrite observe_increments, <- (increments_permutation _ _ _ Hincs) in Ho. fold h in Ho.
  rewrite (observed_cumulative l h Ho Hl). by destruct Ho.
Qed.

(** A rule name cannot break out of its label or off its line in the exposition: the
    escaped name has no newline and reads back as the name, so distinct rules have distinct
    labels. *)
Theorem labels_are_escaped (name name' : string) :
  unescape_label (escape_label name) = name
  /\ has_char (char_of 10) (escape_label name) = false
  /\ (escape_label name = escape_label name' -> name = name').
Proof.
  split_and!; [apply unescape_escape|apply escape_no_newline|].
  intros E. by rewrite <- (unescape_escape name), E, unescape_escape.
Qed.

(** ** The server loop *)

Section ServerLoop.
Context `{NumberApi} `{RegexApi}.

(** No listener ever serves more than [MAX_CONCURRENT_CONNS] connections at once: when its
    permits are used up, an accepted connection is dropped. *)
Lemma connections_are_bounded (config : ProxyConfig) (acts : list action) (s : server)
    (g : nat) (Hrun : server_run (server_init config) acts = Running s) :
  (conns_of g s <= MAX_CONCURRENT_CONNS)%nat
  /\ (conns_of (generation s) s = MAX_CONCURRENT_CONNS -> server_step s Accept = Running s).
Proof.
  destruct (server_run_inv _ _ _ (server_init_inv config) Hrun) as [_ Hl]. split; [apply Hl|].
  unfold conns_of, server_step, permits_used. intros ->. rewrite Nat.ltb_irrefl. by rewrite andb_false_r.
Qed.

(** C36: no reload is lost: the configuration in force is always the last one that was swapped in
    (a file that fails to load changes nothing), and from wherever the loop and the reload task
    stand, though the loop may be binding a listener on a configuration already replaced, a pass
    through the loop, or two, ends with a listener on the configuration in force and every
    connection kept, those in flight included (the README says that they are dropped during the
    restart window; the code drops only the listener); and once the proxy has served it never
    stops: only a bind that fails before any reload ends it. *)
Theorem reloads_take_effect (config : ProxyConfig) (acts acts' : list action) (s : server)
    (ok : bool) (Hrun : server_run (server_init config) acts = Running s) :
  current s = last_loaded config false acts
  /\ (ok = true \/ first_bind s = false ->
      exists s', server_run s (catch_up ok) = Running s' /\ at_loop s' = Listening (current s)
        /\ current s' = current s /\ conns s' = conns s)
  /\ (first_bind s = false -> server_run s acts' <> Stopped).
Proof.
  split_and!; [by apply (server_run_current _ _ _ Hrun)| |apply server_never_stops].
  apply follows_catches_up. by eapply server_run_follows; [|exact Hrun].
Qed.

End ServerLoop.

(** ** Upgraded connections *)

(** C38: an upgraded connection delivers, in each direction, the bytes its sender wrote,
    unchanged and in order, less at most one buffer still to be written; whatever the other
    direction does, a direction does what its own reads and writes make it do, so it goes on
    after the other side has closed (the README says that bytes are copied until either side
    closes; the code waits for both directions); and one that is over has delivered everything
    it read, unless a write failed. *)
Theorem relay_is_faithful (evs : list (Relay.direction * Relay.io)) (d : Relay.direction) :
  let c := Relay.half (Relay.run Relay.relay_new evs) d in
  Relay.received c = Relay.delivered c ++ Relay.in_flight c
  /\ Z.of_nat (length (Relay.in_flight c)) <= Relay.UPGRADE_COPY_BUF_BYTES
  /\ c = Relay.copy_run Relay.copier_new (Relay.events_of d evs)
  /\ (forallb (fun e => negb (Relay.write_error e)) (Relay.events_of d evs) = true ->
      Relay.is_finished c = true -> Relay.delivered c = Relay.received c).
Proof.
  intros c. assert (Hc : c = Relay.copy_run Relay.copier_new (Relay.events_of d evs)).
  { unfold c. rewrite Relay.run_half. by destruct d. }
  destruct (Relay.copy_run_inv (Relay.events_of d evs) _ Relay.copier_new_inv) as [Hr Hb].
  rewrite <- Hc in *. split_and!; [done|done|done|]. intros He Hf.
  pose proof (Relay.copy_run_lost _ Relay.copier_new He eq_refl) as Hl. rewrite <- Hc in Hl.
  rewrite Hr. destruct c as [[|rest|l|l] rcv dlv]; try done. change (l = []) in Hl. subst l.
  unfold Relay.in_flight. simpl. by rewrite app_nil_r.
Qed.

(** ** On concrete runs *)

Definition denied_event : AuditLog.AuditEvent :=
  AuditLog.AuditEvent_new "2024-01-01T00:00:00Z" "deny" local "GET" "/secrets" "curl".

Definition audit_acts : list AuditLog.action :=
  [AuditLog.Send denied_event; AuditLog.Open (Ok "old"); AuditLog.Receive;
   AuditLog.Write AuditLog.Written; AuditLog.Send denied_event].

Lemma audit_log_is_complete_witness :
  exists line j, AuditLog.event_to_string denied_event = Ok line
  /\ json_from_slice (as_bytes line) = Ok j /\ event_of_json j = Some denied_event.
Proof.
  assert (Hopens : Forall (AuditLog.opens "old") audit_acts) by repeat constructor.
  assert (Hroom : AuditLog.roomy AuditLog.spawn audit_acts)
    by (repeat split; apply Nat.ltb_lt; reflexivity).
  assert (Hstatus : Forall (fun ev => 0 <= AuditLog.ev_status ev <= U16_MAX)
                      (AuditLog.sent audit_acts)) by (repeat constructor; discriminate).
  pose proof (audit_log_is_complete "old" audit_acts Hopens Hroom Hstatus) as Hlog. cbv zeta in Hlog.
  destruct (AuditLog.writer (AuditLog.run AuditLog.spawn audit_acts)) as [|file|file held|] eqn:E;
    [by vm_compute in E| |by vm_compute in E|done].
  destruct Hlog as (written & Hs & _ & _ & Hread).
  assert (Hin : denied_event ∈ written).
  { change (AuditLog.sent audit_acts) with [denied_event; denied_event] in Hs.
    change (AuditLog.in_hand _ ++ AuditLog.pending _) with [denied_event] in Hs.
    destruct written as [|ev written]; [done|]. injection Hs as <- _. by left. }
  destruct (AuditLog.event_to_string denied_event) as [line|] eqn:El; [|by vm_compute in El].
  exists line. destruct (Hread denied_event line Hin El) as (j & Hj & Hev). by exists j.
Defined.

(** Two observations that take turns. *)
Definition two_at_once : list increment :=
  [AddSum 15; AddSum 700; AddCount; AddBucket 7; AddCount; AddBucket 2].

Lemma histogram_is_exact_witness :
  let h := fold_left increment_by two_at_once LatencyHistogram_new in
  cumulative_counts h = map (fun bound => at_most bound [15; 700]) LATENCY_BUCKETS_MS ++ [2]
  /\ hist_count h = 2 /\ sum_ms h = 715.
Proof.
  assert (Hincs : two_at_once ≡ₚ concat (map increments [15; 700])) by (vm_compute; solve_Permutation).
  apply (histogram_is_exact [15; 700] two_at_once Hincs). discriminate.
Defined.

(** A reload that comes while the listener of the old configuration is being bound. *)
Definition late_reload : list action := [Enter; Sighup (Ok (config [no_exec])); Bind true; Accept].

Definition late_state : server :=
  {| current := config [no_exec]; at_loop := Listening (config []); first_bind := true;
     generation := 1; conns := [(1, 0)]%nat; next_conn := 1; swapped := true; notified := false |}.

Lemma reloads_take_effect_witness :
  exists s', server_run late_state (catch_up true) = Running s'
  /\ at_loop s' = Listening (config [no_exec]) /\ conns s' = [(1, 0)]%nat.
Proof.
  assert (Hrun : server_run (server_init (config [])) late_reload = Running late_state)
    by reflexivity.
  destruct (reloads_take_effect (config []) late_reload [] late_state true Hrun)
    as (_ & Hcatch & _).
  destruct (Hcatch (or_introl eq_refl)) as (s' & Hs & Hl & _ & Hc). by exists s'.
Defined.

(** A reload starts a listener with a fresh semaphore, so the connections of all listeners
    together can pass the limit. *)
Lemma reload_exceeds_the_limit :
  match server_run (server_init (config []))
          ([Enter; Bind true] ++ replicate 1024 Accept
           ++ [Sighup (Ok (config [])); Notify; Wake; Enter; Bind true; Accept])
  with
  | Running s => length (conns s)
  | Stopped => 0%nat
  end = 1025%nat.
Proof. vm_compute. reflexivity. Qed.
