(* ===== verification/RunSpec.v ===== *)
(** * Properties of the running proxy

    What holds of every state the whole program reaches from its start-up ([main] of
    [src/main.rs]): whatever requests are in flight, however their operations interleave with
    each other, with reloads, clean-ups and the audit writer, and whatever the clients, the
    Docker socket and the clock do. *)

From S2P Require Import Prelude RustStr F64 Net External Json Config RateLimiter AuthLimiter.
From S2P Require Import Conditions Rules Metrics AuditLog AuditText Tls Upgrade Path Auth Effects.
From S2P Require Import World Evaluate Authenticate Handle Forward Gate Accounting Termination Server.
From S2P Require Import System SystemInv SystemRefine SystemLive SystemBooks SystemAudit.
From S2P Require Import SystemLockout SystemTally.
From S2P Require Import Reference Samples.

Open Scope Z_scope.

Section Run.
Context `{NumberApi} `{RegexApi} `{!JsonApi} `{IpNetApi} `{HttpApi} `{X509Api} `{!RustlsApi}.
Context `{EventApi} `{!TracingApi}.

Context (env : Env) (args : list string).
Context (start : startup) (t0 : Instant).
Hypothesis Hstart : main_start env args = Start start.

Lemma main_run_inv acts s : main_run start t0 acts = Some s -> sys_inv (start_state start) s.
Proof. intros Hr. eapply sys_run_inv; [exact Hr|]. by eapply boot_inv, main_start_service. Qed.

Lemma main_run_relay acts s : main_run start t0 acts = Some s -> relay_inv s.
Proof. intros Hr. eapply sys_run_relay; [exact Hr|]. apply boot_relay. Qed.

(** ** The gate *)

(** C1: nothing reaches the Docker socket unjudged.  Every request the running proxy has sent
    there comes from a connection [c] that sent a request of its own, with the certificate its
    TLS handshake presented; before it was sent, the task of [c] had found its peer not locked
    out, the client entitled to a role under a configuration that was in force, and the rules
    of that configuration (valid, sorted, compiled) to allow it, judging the canonical path,
    that role and the JSON of the very body that is sent: every rate limit they met granted it,
    and a rule that denies it comes only after one that permits it.  It is sent with the
    client's method to that canonical path. *)
Theorem nothing_reaches_docker_unjudged (acts : list act) (s : system) (r : UpstreamRequest)
    (Hrun : main_run start t0 acts = Some s)
    (Hsent : r ∈ sent_upstream (shared s)) :
  exists c peer cert req before answer after path config role identity d h1 checks h2,
    let secret := env_secret (start_state start) in
    let ctx := eval_ctx config (with_path (raw_info req peer) path) req
                        (seen_body (up_body r)) role in
    requests s !! c = Some (peer, cert, req) /\ presented cert
    /\ trace_of (Handler c) (journal s) = before ++ Event (SendRequest r) answer :: after
    /\ config ∈ configs s /\ in_service config
    /\ canonicalize_path (uri_path req) = Some path
    /\ up_method r = req_method req /\ up_uri r = path_and_query path (uri_query req)
    /\ Event CurrentConfig config ∈ before
    /\ Event (AuthIsBlocked (IpAddr_to_string (peer_ip peer))) false ∈ before
    /\ (short_secrets config secret ->
        entitled config secret (req_headers req) cert role identity)
    /\ before = h1 ++ checks ++ h2
    /\ reaches (evaluate_rules (rules_of config) ctx) checks (Ret d)
    /\ decision_result d = Rules.Allow /\ Forall granted checks
    /\ forall pre rule post, rules_of config = pre ++ rule :: post -> denies rule ctx = true ->
         exists rule', rule' ∈ pre /\ permits rule' ctx.
Proof.
  pose proof (main_run_inv _ _ Hrun) as I. pose proof (main_run_relay _ _ Hrun) as R.
  rewrite (inv_sent s (sys_shared _ _ I)) in Hsent.
  destruct (sent_by_handler _ s r (sys_request _ _ I) R Hsent)
    as (c & peer & cert & req & before & answer & after & p & Hreq & Hcert & Htr & Hr).
  rewrite Htr in Hr.
  destruct (handler_sends_judged _ _ _ _ _ _ _ _ _ Hr)
    as (path & config & role & identity & d & h1 & checks & h2 & Hpath & Hm & Hu & Hc & Hrest).
  assert (Hk : config ∈ configs s).
  { apply (trace_known s (Handler c) (Event CurrentConfig config) (sys_config _ _ I)).
    rewrite Htr. apply elem_of_app. by left. }
  assert (Hs : in_service config).
  { pose proof (inv_service s (sys_config _ _ I)) as Hall. rewrite Forall_forall in Hall. auto. }
  by exists c, peer, cert, req, before, answer, after, path, config, role, identity, d, h1, checks, h2.
Qed.

(** ** Requests are answered *)

(** C13: every request is answered: once the task of connection [c] serves a request, the proxy
    may do anything else in any order, but as soon as that task has been given [HANDLER_BOUND]
    steps and one for each rule of the longest configuration in force, it holds the response,
    provided the connection has not been dropped and the clock has room for the penalties and
    the lockout. *)
Theorem requests_are_answered (acts acts' : list act) (s s' : system) (c : nat) (n : Z)
    (peer : SocketAddr) (cert : option CertIdentity) (req : Request) (p : prog HttpResponse)
    (Hrun : main_run start t0 acts = Some s)
    (Hserving : tasks s !! c = Some (Serving peer cert req p))
    (Hrun' : sys_run (start_state start) (start_loaded_from start) s acts' = Some s')
    (Hkept : EndConnection c ∉ acts') (Hroom : clock_room (now (shared s')) (configs s'))
    (Hrules : forall config, config ∈ configs s' -> Z.of_nat (length (rules_of config)) <= n)
    (Hsteps : HANDLER_BOUND + n <= steps_of c acts') (Hn : 0 <= n) :
  exists resp, tasks s' !! c = Some (Serving peer cert req (Ret resp)).
Proof.
  pose proof (main_run_inv _ _ Hrun) as I.
  destruct (serving_run _ _ acts' s s' c peer cert req p I Hrun' Hroom Hkept Hserving)
    as (p' & Ht & Hp).
  assert (I' : sys_inv (start_state start) s') by (by eapply sys_run_inv).
  destruct Hp as [Hp|[_ Hl]]; [destruct p' as [resp|]; [by exists resp|done]|].
  destruct (task_answers _ s' c peer cert req p' n I' Ht Hn Hrules) as [resp ->]; [|by exists resp].
  unfold length_of in *. lia.
Qed.

(** ** Lockout *)

(** C24: a lockout holds under concurrency: once an address is locked until [u] and its requests
    in flight have not passed their lockout test, then until [u], however other requests, its
    own failures, clean-ups and reloads interleave, the address stays locked and no request it
    sends meanwhile gets anything to the Docker socket, whatever credential it carries. *)
Theorem lockouts_hold (acts acts' : list act) (s s' : system) (key : string) (u : Instant)
    (Hrun : main_run start t0 acts = Some s)
    (Hlocked : locked (auth_limiter (shared s)) key u)
    (Hheld : held_out key (fun _ => True) s)
    (Hrun' : sys_run (start_state start) (start_loaded_from start) s acts' = Some s')
    (Hearlier : now (shared s') < u) :
  locked (auth_limiter (shared s')) key u
  /\ forall c peer cert req r answer,
       requests s' !! c = Some (peer, cert, req) -> requests s !! c = None ->
       IpAddr_to_string (peer_ip peer) = key ->
       Event (SendRequest r) answer ∉ trace_of (Handler c) (journal s').
Proof.
  pose proof (main_run_inv _ _ Hrun) as I. pose proof (main_run_relay _ _ Hrun) as R.
  assert (Hold : held_out key (fun c => is_Some (requests s !! c)) s).
  { intros c peer cert req Hr Hk. destruct (Hheld c peer cert req Hr Hk) as [Hf|[_ Hp]];
      [by left|right]. by rewrite Hr. }
  destruct (lockout_run_holds _ _ _ _ _ s s' u I R Hold Hlocked Hrun' Hearlier) as [Hl Hh].
  split; [done|]. intros c peer cert req r answer Hr Hnew Hk Hin.
  destruct (Hh c peer cert req Hr Hk) as [Hf|[[? Ho] _]]; [|by rewrite Hnew in Ho].
  assert (I' : sys_inv (start_state start) s') by (by eapply sys_run_inv).
  destruct (inv_requested _ _ (sys_request _ _ I') _ _ _ _ Hr) as (_ & _ & p & Hp).
  apply list_elem_of_split in Hin as (before & after & E). rewrite E in *.
  destruct (handler_sends_judged _ _ _ _ _ _ _ _ _ Hp)
    as (path & config & role & identity & d & h1 & checks & h2 & _ & _ & _ & _ & Hb & _).
  apply Forall_app in Hf as [Hf _]. rewrite Hk in Hb. by eapply admits_in.
Qed.

(** C17: the failures of concurrent requests add up: from [n] failures since an instant, or from
    none, every failure any request of the address records within the minute counts, in whatever
    order the requests, the clean-ups and the reloads run, provided none of them authenticates
    and the table has room when the address is not in it; as long as they are fewer than ten the
    table has exactly their number, and with the tenth the address is locked, for at least five
    minutes from where this began. *)
Theorem failures_add_up (acts acts' : list act) (s s' : system) (key : string)
    (since : Instant) (n : Z)
    (Hrun : main_run start t0 acts = Some s)
    (Hcount : counting key since (Z.of_nat (length acts')) n (auth_limiter (shared s)))
    (Hn : 0 <= n < AUTH_FAIL_MAX)
    (Hsince : since <= now (shared s))
    (Hrun' : sys_run (start_state start) (start_loaded_from start) s acts' = Some s')
    (Hminute : now (shared s') <= since + AUTH_FAIL_WINDOW)
    (Hroom : is_Some (instant_add (now (shared s')) AUTH_FAIL_LOCKOUT)) :
  exists j, journal s' = journal s ++ j
    /\ (forallb (fun we => negb (is_success key we)) j = true ->
        let m := n + failures_in key j in
        if AUTH_FAIL_MAX <=? m
        then exists u, now (shared s) + AUTH_FAIL_LOCKOUT <= u
                       /\ locked (auth_limiter (shared s')) key u
        else counting key since 0 m (auth_limiter (shared s'))).
Proof.
  pose proof (main_run_inv _ _ Hrun) as I. pose proof (main_run_relay _ _ Hrun) as R.
  destruct (run_tallied _ _ key since (now (shared s)) acts' (Z.of_nat (length acts')) n s s'
    (Z.le_refl _) I R Hrun') as (j & Hj & Ht); [lia|done|lia|done| |].
  - unfold tallied. destruct (Z.leb_spec AUTH_FAIL_MAX n); [lia|done].
  - rewrite Z.sub_diag in Ht. by exists j.
Qed.

(** ** Resources *)

(** C25: whatever clients do, what the proxy holds for them is bounded: the two limiter tables,
    the audit queue, and for each listener the connections it is serving, every one of which
    holds a permit; a request in flight belongs to such a connection. *)
Theorem resources_are_bounded (acts : list act) (s : system)
    (Hrun : main_run start t0 acts = Some s) :
  Z.of_nat (size (rate_limiter (shared s))) <= MAX_RATE_LIMIT_BUCKETS
  /\ Z.of_nat (size (auth_limiter (shared s))) <= MAX_AUTH_LIMITER_KEYS
  /\ (length (queue_of (shared s)) <= CHANNEL_CAPACITY)%nat
  /\ (forall g, (conns_of g (srv s) <= MAX_CONCURRENT_CONNS)%nat)
  /\ (forall c t, tasks s !! c = Some t -> exists g, (g, c) ∈ conns (srv s))
  /\ (forall c, 0 <= counters (metrics (shared s)) c <= U64_MAX).
Proof.
  pose proof (main_run_inv _ _ Hrun) as I. destruct (inv_bounded s (sys_shared _ _ I)).
  pose proof (sys_conn _ _ I) as C. split_and!; try done; [|apply (inv_permit s C)].
  apply (inv_limit (srv s)), (inv_server s C).
Qed.

(** ** Books *)

Lemma denied_books acts s :
  main_run start t0 acts = Some s -> settled (start_state start) s ->
  audit_enabled (start_state start) = true ->
  counters (metrics (shared s)) requests_denied = denials_sent (journal s) mod (U64_MAX + 1).
Proof.
  intros Hrun Hsettled Ha. pose proof (main_run_inv _ _ Hrun) as I.
  pose proof (main_run_relay _ _ Hrun) as R. rewrite counter_tally by apply I.
  pose proof (denial_tally (map snd (journal s))) as Hd.
  rewrite (settled_tally (start_state start) denial_weight s 0) in Hd;
    [unfold denials_sent; f_equal; lia|apply I|done|done| |].
  - intros X o. by destruct o; try done; intros [->| ->].
  - intros req peer cert. by apply handle_denials.
Qed.

(** C30: the books balance: once every request has been answered, [requests_total] is the number
    of requests and, with the audit log on, [requests_denied] the number of denials handed to
    it, both modulo 2^64, however the requests ran together and whatever else ran. *)
Theorem books_balance (acts : list act) (s : system)
    (Hrun : main_run start t0 acts = Some s) (Hsettled : settled (start_state start) s) :
  counters (metrics (shared s)) requests_total
  = Z.of_nat (size (requests s)) mod (U64_MAX + 1)
  /\ (audit_enabled (start_state start) = true ->
      counters (metrics (shared s)) requests_denied
      = denials_sent (journal s) mod (U64_MAX + 1)).
Proof.
  pose proof (main_run_inv _ _ Hrun) as I. pose proof (main_run_relay _ _ Hrun) as R.
  split; [|by apply (denied_books acts)]. rewrite counter_tally by apply I.
  rewrite (settled_tally (start_state start) _ s 1); [by rewrite Z.mul_1_l|apply I|done|done| |].
  - intros X o. by destruct o; try done; intros [->| ->].
  - intros req peer cert. apply handle_total.
Qed.

(** ** The audit file *)

Lemma audit_boot contents :
  is_some (start_audit_path start) = true -> intact contents [] (log_of (boot start t0)).
Proof. intros Ha. unfold intact, log_of, boot, boot_world. simpl. by rewrite Ha. Qed.

Lemma audit_path_enables : audit_enabled (start_state start) = is_some (start_audit_path start).
Proof.
  revert Hstart. unfold main_start. repeat case_match; try done; by intros [= <-].
Qed.

(** C16: what the handlers audit reaches the disk. In every run with an audit path whose file
    opens, with no failed write and a queue that always has room, the file is what it held when
    it was opened followed by the lines of the events the handlers have sent, in the order in
    which they sent them across all connections, less the one being written and those still
    queued. So once every request has been answered and the writer has caught up, the events
    written hold one denial for each unit of [requests_denied], which counts modulo 2^64. *)
Theorem denials_reach_the_audit_file (acts : list act) (s : system) (contents : string)
    (Hrun : main_run start t0 acts = Some s)
    (Haudit : is_some (start_audit_path start) = true)
    (Hdisk : Forall (disk_works contents) acts)
    (Hroom : queue_has_room (start_state start) (start_loaded_from start) (boot start t0) acts) :
  match writer s with
  | Opening => queue_of (shared s) = audited (journal s)
  | AuditLog.Waiting file =>
      exists written, audited (journal s) = written ++ queue_of (shared s)
      /\ file = contents +:+ join "" (map event_line written)
      /\ (settled (start_state start) s -> queue_of (shared s) = [] ->
          counters (metrics (shared s)) requests_denied
          = Z.of_nat (length (denials written)) mod (U64_MAX + 1))
  | Writing file ev =>
      exists written, audited (journal s) = written ++ ev :: queue_of (shared s)
      /\ file = contents +:+ join "" (map event_line written)
  | Returned => False
  end.
Proof.
  pose proof (file_intact _ _ contents acts _ s Hrun (audit_boot contents Haudit) eq_refl Hdisk
                Hroom) as Hi.
  unfold intact, in_hand, log_of in Hi. cbn [AuditLog.writer sink] in Hi. unfold queue_of.
  destruct (writer s) as [|file|file ev|]; [by rewrite Hi| | |done];
    destruct Hi as (written & q & Hj & -> & Hf); exists written; [|done].
  split_and!; [done|done|]. cbn [queue]. intros Hsettled ->. rewrite app_nil_r in Hj.
  simpl in Hj. rewrite <- Hj, <- denials_audited. apply (denied_books acts); [done|done|].
  by rewrite audit_path_enables.
Qed.

End Run.

(** ** On a concrete run *)

Lemma sample_starts : main_start sample_env [] = Start sample_startup.
Proof. reflexivity. Qed.

(** A state of a run that can be looked into. *)
Lemma run_state {A} (o : option A) (P : A -> Prop) :
  match o with Some s => P s | None => False end -> exists s, o = Some s /\ P s.
Proof. destruct o as [s|]; [|done]. intros HP. by exists s. Qed.

Definition served_uri (s : system) : option string :=
  option_map up_uri (head (sent_upstream (shared s))).

Lemma sample_serves :
  exists s, main_run sample_startup 0 (arrival ++ service) = Some s
            /\ served_uri s = Some "/containers/a/json".
Proof. apply run_state. vm_compute. reflexivity. Qed.

Lemma sample_arrives :
  exists s, main_run sample_startup 0 arrival = Some s
  /\ exists p, tasks s !! 0%nat = Some (Serving Samples.peer None inspect_request p).
Proof. apply run_state. eexists. reflexivity. Qed.

Lemma nothing_reaches_docker_unjudged_witness :
  exists s r c peer cert req path, main_run sample_startup 0 (arrival ++ service) = Some s
  /\ r ∈ sent_upstream (shared s) /\ requests s !! c = Some (peer, cert, req)
  /\ canonicalize_path (uri_path req) = Some path
  /\ up_uri r = path_and_query path (uri_query req).
Proof.
  destruct sample_serves as (s & Hrun & Hs). unfold served_uri in Hs.
  destruct (sent_upstream (shared s)) as [|r l] eqn:Es; [discriminate|].
  assert (Hin : r ∈ sent_upstream (shared s)) by (rewrite Es; left).
  destruct (nothing_reaches_docker_unjudged sample_env [] sample_startup 0 sample_starts
              (arrival ++ service) s r Hrun Hin)
    as (c & peer & cert & req & _ & _ & _ & path & _ & _ & _ & _ & _ & _ & _ & Hreq & _ & _ & _ & _
        & Hpath & _ & Hu & _).
  exists s, r, c, peer, cert, req, path. repeat split; assumption.
Defined.

Definition waited : list act := service ++ replicate 10 (Progress 0 docker).

Definition keeps_connections (a : act) : bool :=
  match a with
  | EndConnection _ => false
  | _ => true
  end.

(** One rule, and no penalty. *)
Definition plain_config (cfg : ProxyConfig) : bool :=
  (length (rules_of cfg) =? 1)%nat && (length (rule_penalties cfg) =? 0)%nat.

Lemma requests_are_answered_witness :
  exists s s' resp, main_run sample_startup 0 arrival = Some s
  /\ sys_run (start_state sample_startup) (start_loaded_from sample_startup) s waited = Some s'
  /\ tasks s' !! 0%nat = Some (Serving Samples.peer None inspect_request (Ret resp)).
Proof.
  destruct sample_arrives as (s & Hrun & p & Hp).
  assert (Hrun2 : exists s', main_run sample_startup 0 (arrival ++ waited) = Some s'
    /\ now (shared s') = from_secs 1 /\ forallb plain_config (configs s') = true).
  { apply run_state. vm_compute. split; reflexivity. }
  destruct Hrun2 as (s' & Hrun2 & Ht & Hc). unfold main_run in Hrun2.
  rewrite sys_run_app in Hrun2.
  unfold main_run in Hrun. rewrite Hrun in Hrun2.
  assert (Hplain : forall cfg, cfg ∈ configs s' ->
    length (rules_of cfg) = 1%nat /\ rule_penalties cfg = []).
  { intros cfg Hin%list_elem_of_In. pose proof (proj1 (forallb_forall _ _) Hc cfg Hin) as Hb.
    unfold plain_config in Hb. apply andb_true_iff in Hb as [Hl%Nat.eqb_eq Hp0%Nat.eqb_eq].
    split; [exact Hl|]. by apply nil_length_inv. }
  destruct (requests_are_answered sample_env [] sample_startup 0 sample_starts arrival
              waited s s' 0%nat 1 Samples.peer None inspect_request p Hrun Hp Hrun2)
    as [resp Hresp].
  - intros Hin%list_elem_of_In. by apply (proj1 (forallb_forall keeps_connections waited) eq_refl) in Hin.
  - split; [rewrite Ht; eexists; reflexivity|]. intros cfg q Hin Hq.
    apply Hplain in Hin as [_ Hp0]. rewrite Hp0 in Hq. by apply list_elem_of_In in Hq.
  - intros cfg Hin. apply Hplain in Hin as [Hl _]. rewrite Hl. discriminate.
  - discriminate.
  - discriminate.
  - by exists s, s', resp.
Defined.

Lemma resources_are_bounded_witness :
  exists s, main_run sample_startup 0 (arrival ++ service) = Some s
  /\ (conns_of 1 (srv s) <= MAX_CONCURRENT_CONNS)%nat.
Proof.
  destruct sample_serves as (s & Hrun & _). exists s. split; [exact Hrun|].
  apply (resources_are_bounded sample_env [] sample_startup 0 sample_starts
           (arrival ++ service) s Hrun).
Defined.

(** The same proxy with an audit log, and one wrong token. *)
Definition audited_config : ProxyConfig :=
  {| config_global := Some {| global_port := None; global_socket := None;
       global_log_level := None; global_log_format := None; global_audit_log := Some "audit.log";
       global_bind := None; global_tls := None; global_metrics := None;
       global_trusted_proxies := None |};
     config_auth := Some token_auth; config_rules := Some [redact_rule] |}.

Definition audited_startup : startup :=
  {| start_config := audited_config; start_loaded_from := Some "config.yaml";
     start_state := {| socket_path := "/var/run/docker.sock"; env_secret := "";
                       audit_enabled := true; metrics_endpoint := None |};
     start_audit_path := Some "audit.log" |}.

Definition refused_and_written : list act :=
  [EnterLoop; BindListener (file_env audited_config) bind_ok; WriterOpen (Ok "")] ++ guess 0
  ++ [WriterReceive; WriterWrite Written].

Definition caught_up (s : system) : bool :=
  match writer s with
  | AuditLog.Waiting _ => forallb (has_answered s) (asked s) && (length (queue_of (shared s)) =? 0)%nat
  | _ => false
  end.

Lemma denials_reach_the_audit_file_witness :
  exists s file written, main_run audited_startup 0 refused_and_written = Some s
  /\ writer s = AuditLog.Waiting file /\ file = "" +:+ join "" (map event_line written)
  /\ counters (metrics (shared s)) requests_denied
     = Z.of_nat (length (denials written)) mod (U64_MAX + 1).
Proof.
  assert (Hstarts : main_start (file_env audited_config) [] = Start audited_startup)
    by reflexivity.
  assert (Hrun : exists s, main_run audited_startup 0 refused_and_written = Some s
    /\ caught_up s = true).
  { apply run_state. vm_compute. reflexivity. }
  destruct Hrun as (s & Hrun & Hc).
  assert (Hdisk : Forall (disk_works "") refused_and_written)
    by (repeat (apply Forall_cons; split; [exact I||reflexivity|]); apply Forall_nil; exact I).
  assert (Hroom : queue_has_room (start_state audited_startup) (start_loaded_from audited_startup)
                    (boot audited_startup 0) refused_and_written)
    by (apply room_checked_ok; vm_compute; reflexivity).
  pose proof (denials_reach_the_audit_file (file_env audited_config) [] audited_startup 0 Hstarts
                refused_and_written s "" Hrun eq_refl Hdisk Hroom) as Hfile.
  unfold caught_up in Hc. destruct (writer s) as [|file|file ev|] eqn:Ew; try discriminate.
  apply andb_true_iff in Hc as [Ha Hq%Nat.eqb_eq]. apply nil_length_inv in Hq.
  destruct Hfile as (written & _ & Hf & Hd). exists s, file, written.
  split; [exact Hrun|]. split; [exact Ew|]. split; [exact Hf|]. apply Hd; [|exact Hq].
  apply answered_settled; [|exact Ha].
  apply (main_run_inv (file_env audited_config) [] audited_startup 0 Hstarts _ s Hrun).
Defined.

Lemma books_balance_witness :
  exists s, main_run sample_startup 0 (arrival ++ waited) = Some s
  /\ counters (metrics (shared s)) requests_total
     = Z.of_nat (size (requests s)) mod (U64_MAX + 1).
Proof.
  assert (Hrun : exists s, main_run sample_startup 0 (arrival ++ waited) = Some s
    /\ forallb (has_answered s) (asked s) = true).
  { apply run_state. vm_compute. reflexivity. }
  destruct Hrun as (s & Hrun & Ha). exists s. split; [exact Hrun|].
  apply (books_balance sample_env [] sample_startup 0 sample_starts
           (arrival ++ waited) s Hrun).
  apply answered_settled; [|exact Ha].
  apply (main_run_inv sample_env [] sample_startup 0 sample_starts _ s Hrun).
Defined.

Definition lock_end (s : system) : option Instant :=
  match auth_limiter (shared s) !! IpAddr_to_string local with
  | Some e => lock_until e
  | None => None
  end.

Lemma lock_end_locked s u :
  lock_end s = Some u -> locked (auth_limiter (shared s)) (IpAddr_to_string local) u.
Proof.
  unfold lock_end, locked. destruct (auth_limiter (shared s) !! IpAddr_to_string local) as [e|];
    [|discriminate]. intros He. by exists e.
Qed.

Definition locked_out : list act := listening ++ ten_guesses 0.

(** The right token, a little later. *)
Definition try_again : list act :=
  [Elapse (from_secs 100); AcceptConnection Samples.peer; ReceiveRequest 10 inspect_request]
  ++ replicate 20 (Progress 10 docker).

Lemma lockouts_hold_witness :
  exists s s', main_run sample_startup 0 locked_out = Some s
  /\ sys_run (start_state sample_startup) (start_loaded_from sample_startup) s try_again = Some s'
  /\ locked (auth_limiter (shared s')) (IpAddr_to_string local) (from_secs 300).
Proof.
  assert (Hrun : exists s, main_run sample_startup 0 locked_out = Some s
    /\ lock_end s = Some (from_secs 300) /\ forallb (resting s) (asked s) = true).
  { apply run_state. vm_compute. split; reflexivity. }
  destruct Hrun as (s & Hrun & Hlock & Hrest).
  assert (Hrun2 : exists s', main_run sample_startup 0 (locked_out ++ try_again) = Some s'
    /\ now (shared s') = from_secs 100).
  { apply run_state. vm_compute. reflexivity. }
  destruct Hrun2 as (s' & Hrun2 & Ht). unfold main_run in Hrun2. rewrite sys_run_app in Hrun2.
  pose proof Hrun as Hrun1. unfold main_run in Hrun1. rewrite Hrun1 in Hrun2.
  exists s, s'. split; [exact Hrun|]. split; [exact Hrun2|].
  apply (lockouts_hold sample_env [] sample_startup 0 sample_starts locked_out try_again s s'
           (IpAddr_to_string local) (from_secs 300) Hrun); [|by apply resting_held_out|exact Hrun2|].
  - by apply lock_end_locked.
  - rewrite Ht. reflexivity.
Defined.

(** Ten guesses, taken in turns an operation at a time. *)
Definition at_once : list act :=
  concat (map (fun c => [AcceptConnection Samples.peer;
                         ReceiveRequest c (request "/containers/json" "guess")]) (seq 0 10))
  ++ concat (replicate 20 (map (fun c => Progress c docker) (seq 0 10))).

(** Whether the table is as it was at the start. *)
Definition table_empty (s : system) : bool := (size (auth_limiter (shared s)) =? 0)%nat.

Lemma table_empty_counting s key since room :
  table_empty s = true -> room <= MAX_AUTH_LIMITER_KEYS ->
  counting key since room 0 (auth_limiter (shared s)).
Proof.
  intros He%Nat.eqb_eq Hr. unfold counting. apply map_size_empty_iff in He as He'. rewrite He'.
  rewrite lookup_empty, map_size_empty. by split.
Qed.

Definition recorded (s : system) : Z := failures_in (IpAddr_to_string local) (journal s).
Definition no_success (s : system) : bool :=
  forallb (fun we => negb (is_success (IpAddr_to_string local) we)) (journal s).

Lemma failures_add_up_witness :
  exists s s' u, main_run sample_startup 0 listening = Some s
  /\ sys_run (start_state sample_startup) (start_loaded_from sample_startup) s at_once = Some s'
  /\ from_secs 300 <= u /\ locked (auth_limiter (shared s')) (IpAddr_to_string local) u.
Proof.
  assert (Hrun : exists s, main_run sample_startup 0 listening = Some s
    /\ table_empty s = true /\ now (shared s) = 0 /\ recorded s = 0).
  { apply run_state. vm_compute. repeat split. }
  destruct Hrun as (s & Hrun & Hempty & Hnow & Hrec).
  assert (Hrun2 : exists s', main_run sample_startup 0 (listening ++ at_once) = Some s'
    /\ now (shared s') = 0 /\ recorded s' = 10 /\ no_success s' = true).
  { apply run_state. vm_compute. repeat split. }
  destruct Hrun2 as (s' & Hrun2 & Ht & Hrec' & Hno). unfold main_run in Hrun2.
  rewrite sys_run_app in Hrun2.
  pose proof Hrun as Hrun1. unfold main_run in Hrun1. rewrite Hrun1 in Hrun2.
  assert (Hcount : counting (IpAddr_to_string local) 0 (Z.of_nat (length at_once)) 0
                     (auth_limiter (shared s))).
  { apply table_empty_counting; [exact Hempty|]. vm_compute. discriminate. }
  assert (Hn : 0 <= 0 < AUTH_FAIL_MAX) by (split; [discriminate|reflexivity]).
  assert (Hsince : 0 <= now (shared s)) by (rewrite Hnow; discriminate).
  assert (Hminute : now (shared s') <= 0 + AUTH_FAIL_WINDOW) by (rewrite Ht; discriminate).
  assert (Hroom : is_Some (instant_add (now (shared s')) AUTH_FAIL_LOCKOUT))
    by (rewrite Ht; eexists; reflexivity).
  destruct (failures_add_up sample_env [] sample_startup 0 sample_starts listening
    at_once s s' (IpAddr_to_string local) 0 0 Hrun Hcount Hn Hsince Hrun2
    Hminute Hroom) as (j & Hj & Hadd).
  unfold recorded, no_success in *. rewrite Hj, failures_in_app in Hrec'. rewrite Hj in Hno.
  rewrite forallb_app in Hno. apply andb_true_iff in Hno as [_ Hno]. specialize (Hadd Hno).
  replace (0 + failures_in (IpAddr_to_string local) j) with 10 in Hadd by lia.
  destruct Hadd as (u & Hu & Hl). rewrite Hnow in Hu. exists s, s', u.
  split; [exact Hrun|]. split; [exact Hrun2|]. split; [exact Hu|exact Hl].
Defined.

(** A request that was past its lockout test when the lock was set lifts it when it succeeds:
    the eleventh wrong token is answered 401, not 429. *)
Definition racing : list act :=
  listening ++ [AcceptConnection Samples.peer; ReceiveRequest 0 inspect_request]
  ++ replicate 3 (Progress 0 docker) ++ ten_guesses 1.

Lemma request_in_flight_lifts_the_lockout :
  match main_run sample_startup 0 racing, main_run sample_startup 0 (racing ++ [Progress 0 docker]) with
  | Some s, Some s' => lock_end s = Some (from_secs 300) /\ lock_end s' = None
  | _, _ => False
  end.
Proof. vm_compute. split; reflexivity. Qed.
