(* ===== verification/Examples.v ===== *)
(** * The configuration files of the project

    The YAML documents [src/config.yaml] and [src/examples/*.yaml], as the nodes they parse to,
    and what the shipped rules do to a request. *)

From S2P Require Import Prelude RustStr F64 External Json Config RateLimiter Conditions Rules.
From S2P Require Import Serde Reference.

Open Scope Z_scope.

(** ** Documents

    [fields] is a block mapping, [items] a sequence, [str] a string. *)

Definition fields (l : list (string * YamlValue)) : YamlValue :=
  YMapping (map (fun kv => (YString kv.1, kv.2)) l).
Definition items (l : list YamlValue) : YamlValue := YSequence l.
Definition str (s : string) : YamlValue := YString s.

Definition node_of (v : YamlValue) : Node := v.

Definition condition_of (field operator value : string) : YamlValue :=
  fields [("field", str field); ("operator", str operator); ("value", str value)].

(** *** [config.yaml] *)

Definition config_shipped_rules : list YamlValue :=
  [fields
     [("name", str "block-exec-operations");
      ("description", str "Prevent creating or starting exec sessions (OR logic)");
      ("conditions", items
         [fields
            [("or", items
                [condition_of "path" "matches" "^/containers/[^/]+/exec$";
                 condition_of "path" "matches" "^/exec/[^/]+/start$"])]]);
      ("action", str "deny"); ("message", str "Exec operations are not permitted");
      ("status", YNumber 403)];
   fields
     [("name", str "block-docker-build");
      ("description", str "Prevent image builds via the API");
      ("conditions", items [condition_of "path" "starts_with" "/build"]);
      ("action", str "deny"); ("message", str "Image building is not permitted via this proxy")];
   fields
     [("name", str "readonly-volumes"); ("description", str "Only GET is allowed on volumes");
      ("conditions", items
         [condition_of "path" "starts_with" "/volumes";
          condition_of "method" "not_equals" "GET"]);
      ("action", str "deny"); ("message", str "Volume mutations are forbidden")];
   fields
     [("name", str "readonly-networks"); ("description", str "Only GET is allowed on networks");
      ("conditions", items
         [condition_of "path" "starts_with" "/networks";
          condition_of "method" "not_equals" "GET"]);
      ("action", str "deny"); ("message", str "Network mutations are forbidden")];
   fields
     [("name", str "readonly-images"); ("description", str "Only GET is allowed on images");
      ("conditions", items
         [condition_of "path" "starts_with" "/images"; condition_of "method" "not_equals" "GET"]);
      ("action", str "deny"); ("message", str "Image mutations are forbidden")];
   fields
     [("name", str "block-secrets"); ("description", str "Completely block access to secrets");
      ("conditions", items [condition_of "path" "starts_with" "/secrets"]);
      ("action", str "deny"); ("message", str "Secrets are not accessible")];
   fields
     [("name", str "block-configs"); ("description", str "Completely block access to configs");
      ("conditions", items [condition_of "path" "starts_with" "/configs"]);
      ("action", str "deny"); ("message", str "Configs are not accessible")];
   fields
     [("name", str "block-privileged-containers");
      ("description", str "Prevent creating containers with --privileged flag");
      ("conditions", items
         [condition_of "path" "equals" "/containers/create";
          fields
            [("field", str "body.HostConfig.Privileged"); ("operator", str "equals");
             ("value", YBool true)]]);
      ("action", str "deny"); ("message", str "Privileged containers are not allowed")];
   fields
     [("name", str "block-host-network-mode");
      ("description", str "Prevent containers from using host networking");
      ("conditions", items
         [condition_of "path" "equals" "/containers/create";
          condition_of "body.HostConfig.NetworkMode" "equals" "host"]);
      ("action", str "deny"); ("message", str "Host network mode is not allowed")];
   fields
     [("name", str "block-bind-mounts");
      ("description", str "Prevent containers from bind mounting host paths");
      ("conditions", items
         [condition_of "path" "equals" "/containers/create";
          fields
            [("or", items
                [fields [("field", str "body.HostConfig.Binds"); ("operator", str "exists")];
                 condition_of "body.HostConfig.Mounts" "matches"
                   (quoted "Type" +:+ "\s*:\s*" +:+ quoted "bind")])]]);
      ("action", str "deny"); ("message", str "Bind mounts are not allowed")];
   fields
     [("name", str "block-host-pid-namespace");
      ("description", str "Prevent containers from using the host PID namespace");
      ("conditions", items
         [condition_of "path" "equals" "/containers/create";
          condition_of "body.HostConfig.PidMode" "equals" "host"]);
      ("action", str "deny"); ("message", str "Host PID namespace is not allowed")];
   fields
     [("name", str "admin-only-container-lifecycle");
      ("description", str "Only admins can start/stop/restart/kill containers");
      ("conditions", items
         [condition_of "path" "matches"
            "^/containers/[^/]+/(start|stop|restart|kill|pause|unpause|rename|update)$"]);
      ("action", str "require_role"); ("role", str "admin");
      ("message", str "Admin role required for container lifecycle operations")];
   fields
     [("name", str "admin-only-delete");
      ("description", str "Only admins can delete resources");
      ("conditions", items [condition_of "method" "equals" "DELETE"]);
      ("action", str "require_role"); ("role", str "admin");
      ("message", str "Admin role required for delete operations")];
   fields
     [("name", str "admin-only-create");
      ("description", str "Only admins can create containers/images");
      ("conditions", items [condition_of "path" "equals" "/containers/create"]);
      ("action", str "require_role"); ("role", str "admin");
      ("message", str "Admin role required to create containers")];
   fields
     [("name", str "internal-network-only");
      ("description", str "Restrict access to private network ranges and localhost");
      ("conditions", items
         [fields
            [("field", str "client_ip"); ("operator", str "not_in");
             ("value", items
                [str "10.0.0.0/8"; str "172.16.0.0/12"; str "192.168.0.0/16";
                 str "127.0.0.0/8"])]]);
      ("action", str "deny"); ("message", str "Access restricted to internal network")];
   fields
     [("name", str "redact-container-environment");
      ("description", str "Redact environment variables and commands from container inspect");
      ("conditions", items [condition_of "path" "matches" "^/containers/[^/]+/json$"]);
      ("action", str "response_filter");
      ("response_filter", items
         [fields [("field", str "Config.Env"); ("action", str "redact")];
          fields [("field", str "Config.Cmd"); ("action", str "redact")]])];
   fields
     [("name", str "redact-container-command-in-list");
      ("description", str "Hide commands in container listing");
      ("conditions", items [condition_of "path" "equals" "/containers/json"]);
      ("action", str "response_filter");
      ("response_filter", items
         [fields [("field", str "Command"); ("action", str "redact")];
          fields [("field", str "Labels"); ("action", str "redact")]])];
   fields
     [("name", str "rate-limit-all");
      ("description", str "Limit all requests to 50 per 30 seconds, 30s penalty on exceed");
      ("conditions", items [condition_of "path" "matches" "^/"]); ("action", str "rate_limit");
      ("rate_limit", fields
         [("requests", YNumber 50); ("period", YNumber 30); ("penalty", YNumber 30)]);
      ("message", str "Rate limit exceeded. You are blocked for 30 seconds.");
      ("status", YNumber 429)]].

Definition config_shipped : YamlValue :=
  fields
    [("global", fields [("port", YNumber 2376)]);
     ("auth", fields
        [("type", str "bearer");
         ("tokens", items
            [fields [("token", str "${ADMIN_TOKEN}"); ("role", str "admin")];
             fields [("token", str "${READONLY_TOKEN}"); ("role", str "readonly")]])]);
     ("rules", items config_shipped_rules)].

(** *** [examples/config-minimal.yaml] *)

Definition config_minimal_rules : list YamlValue :=
  [fields
     [("name", str "rate-limit-all");
      ("conditions", items [condition_of "path" "matches" "^/"]); ("action", str "rate_limit");
      ("rate_limit", fields
         [("requests", YNumber 100); ("period", YNumber 10); ("penalty", YNumber 30)]);
      ("message", str "Rate limit exceeded"); ("status", YNumber 429)]].

Definition config_minimal : YamlValue :=
  fields
    [("global", fields [("port", YNumber 2376)]); ("auth", fields [("type", str "none")]);
     ("rules", items config_minimal_rules)].

(** *** [examples/config-readonly.yaml] *)

Definition config_readonly_rules : list YamlValue :=
  [fields
     [("name", str "allow-get"); ("conditions", items [condition_of "method" "equals" "GET"]);
      ("action", str "allow")];
   fields
     [("name", str "deny-writes");
      ("conditions", items [condition_of "method" "not_equals" "GET"]); ("action", str "deny");
      ("message", str "This proxy is read-only"); ("status", YNumber 403)]].

Definition config_readonly : YamlValue :=
  fields
    [("global", fields [("port", YNumber 2376)]); ("auth", fields [("type", str "none")]);
     ("rules", items config_readonly_rules)].

(** *** [examples/config-tls.yaml] *)

Definition config_tls_rules : list YamlValue :=
  [fields
     [("name", str "rate-limit-prelude"); ("priority", YNumber 1000);
      ("conditions", items [condition_of "path" "matches" "^/"]); ("action", str "rate_limit");
      ("rate_limit", fields
         [("requests", YNumber 200); ("period", YNumber 60); ("penalty", YNumber 60)]);
      ("status", YNumber 429); ("message", str "Rate limit exceeded")];
   fields
     [("name", str "block-secrets"); ("priority", YNumber 500);
      ("conditions", items [condition_of "path" "starts_with" "/secrets"]);
      ("action", str "deny"); ("message", str "Secrets are not accessible")];
   fields
     [("name", str "block-exec"); ("priority", YNumber 500);
      ("conditions", items
         [fields
            [("or", items
                [condition_of "path" "matches" "^/containers/[^/]+/exec$";
                 condition_of "path" "matches" "^/exec/[^/]+/start$"])]]);
      ("action", str "deny"); ("message", str "Exec operations are not permitted")];
   fields
     [("name", str "block-bind-mounts"); ("priority", YNumber 500);
      ("conditions", items
         [condition_of "path" "equals" "/containers/create";
          fields
            [("or", items
                [fields [("field", str "body.HostConfig.Binds"); ("operator", str "exists")];
                 condition_of "body.HostConfig.Mounts" "matches"
                   (quoted "Type" +:+ "\s*:\s*" +:+ quoted "bind")])]]);
      ("action", str "deny"); ("message", str "Bind mounts are not allowed")];
   fields
     [("name", str "block-privileged"); ("priority", YNumber 500);
      ("conditions", items
         [condition_of "path" "equals" "/containers/create";
          fields
            [("field", str "body.HostConfig.Privileged"); ("operator", str "equals");
             ("value", YBool true)]]);
      ("action", str "deny"); ("message", str "Privileged containers are not allowed")];
   fields
     [("name", str "admin-only-mutations");
      ("conditions", items
         [fields
            [("field", str "method"); ("operator", str "in");
             ("value", items [str "POST"; str "PUT"; str "DELETE"; str "PATCH"])]]);
      ("action", str "require_role"); ("role", str "admin");
      ("message", str "Admin role required for mutating operations")]].

Definition config_tls : YamlValue :=
  fields
    [("global", fields
        [("port", YNumber 2376); ("bind", str "0.0.0.0"); ("log_format", str "json");
         ("audit_log", str "/var/log/docker-proxy-audit.log");
         ("tls", fields
            [("cert", str "/etc/docker-proxy/server.crt");
             ("key", str "/etc/docker-proxy/server.key")]);
         ("metrics", fields [("enabled", YBool true); ("path", str "/metrics")])]);
     ("auth", fields
        [("type", str "bearer");
         ("tokens", items
            [fields [("token", str "${ADMIN_TOKEN}"); ("role", str "admin")];
             fields [("token", str "${READONLY_TOKEN}"); ("role", str "readonly")]])]);
     ("rules", items config_tls_rules)].

(** *** [examples/config-mtls.yaml] *)

Definition config_mtls_rules : list YamlValue :=
  [fields
     [("name", str "rate-limit-prelude"); ("priority", YNumber 1000);
      ("conditions", items [condition_of "path" "matches" "^/"]); ("action", str "rate_limit");
      ("rate_limit", fields
         [("requests", YNumber 300); ("period", YNumber 60); ("penalty", YNumber 60)]);
      ("status", YNumber 429)];
   fields
     [("name", str "block-secrets"); ("priority", YNumber 500);
      ("conditions", items [condition_of "path" "starts_with" "/secrets"]);
      ("action", str "deny"); ("message", str "Secrets are not accessible")];
   fields
     [("name", str "block-capability-escalation"); ("priority", YNumber 500);
      ("description", str "Prevent containers from requesting dangerous Linux capabilities");
      ("conditions", items
         [condition_of "path" "equals" "/containers/create";
          fields
            [("or", items
                [condition_of "body.HostConfig.CapAdd" "contains" "SYS_ADMIN";
                 condition_of "body.HostConfig.CapAdd" "contains" "NET_ADMIN";
                 condition_of "body.HostConfig.CapAdd" "contains" "SYS_PTRACE";
                 condition_of "body.HostConfig.CapAdd" "contains" "ALL"])]]);
      ("action", str "deny");
      ("message", str "Adding privileged Linux capabilities is not allowed")];
   fields
     [("name", str "block-bind-mounts"); ("priority", YNumber 500);
      ("conditions", items
         [condition_of "path" "equals" "/containers/create";
          fields
            [("or", items
                [fields [("field", str "body.HostConfig.Binds"); ("operator", str "exists")];
                 condition_of "body.HostConfig.Mounts" "matches"
                   (quoted "Type" +:+ "\s*:\s*" +:+ quoted "bind")])]]);
      ("action", str "deny"); ("message", str "Bind mounts are not allowed")];
   fields
     [("name", str "admin-mutations");
      ("conditions", items
         [fields
            [("field", str "method"); ("operator", str "in");
             ("value", items [str "POST"; str "PUT"; str "DELETE"; str "PATCH"])]]);
      ("action", str "require_role"); ("role", str "admin");
      ("message", str "Admin role required for mutations")];
   fields
     [("name", str "watch-new-image-pulls");
      ("description",
        str "Log image pulls without blocking, to verify the rule before enforcing");
      ("priority", YNumber 100);
      ("conditions", items [condition_of "path" "starts_with" "/images/create"]);
      ("action", str "deny"); ("dry_run", YBool true);
      ("message", str "(dry-run) image pull would be denied")]].

Definition config_mtls : YamlValue :=
  fields
    [("global", fields
        [("port", YNumber 2376); ("bind", str "0.0.0.0"); ("log_format", str "json");
         ("audit_log", str "/var/log/docker-proxy-audit.log");
         ("tls", fields
            [("cert", str "/etc/docker-proxy/server.crt");
             ("key", str "/etc/docker-proxy/server.key");
             ("client_ca", str "/etc/docker-proxy/ca.crt"); ("require_client_cert", YBool true)]);
         ("metrics", fields [("enabled", YBool true); ("path", str "/metrics")])]);
     ("auth", fields
        [("type", str "mtls");
         ("mtls", fields
            [("cert_role_map", items
                [fields [("cn", str "admin.ops.example.com"); ("role", str "admin")];
                 fields [("cn", str "*.readonly.ops.example.com"); ("role", str "readonly")]]);
             ("default_role", str "user")])]);
     ("rules", items config_mtls_rules)].

(** *** [examples/config-production.yaml] *)

Definition config_production_rules : list YamlValue :=
  [fields
     [("name", str "block-capability-escalation"); ("priority", YNumber 1000);
      ("description", str "Prevent containers from requesting dangerous Linux capabilities");
      ("conditions", items
         [condition_of "path" "equals" "/containers/create";
          fields
            [("or", items
                [condition_of "body.HostConfig.CapAdd" "contains" "SYS_ADMIN";
                 condition_of "body.HostConfig.CapAdd" "contains" "NET_ADMIN";
                 condition_of "body.HostConfig.CapAdd" "contains" "SYS_PTRACE";
                 condition_of "body.HostConfig.CapAdd" "contains" "ALL"])]]);
      ("action", str "deny");
      ("message", str "Adding privileged Linux capabilities is not allowed")];
   fields
     [("name", str "block-exec");
      ("conditions", items
         [fields
            [("or", items
                [condition_of "path" "matches" "^/containers/[^/]+/exec$";
                 condition_of "path" "matches" "^/exec/[^/]+/start$"])]]);
      ("action", str "deny"); ("message", str "Exec operations are not permitted")];
   fields
     [("name", str "block-build");
      ("conditions", items [condition_of "path" "starts_with" "/build"]);
      ("action", str "deny"); ("message", str "Image building is not permitted")];
   fields
     [("name", str "readonly-volumes");
      ("conditions", items
         [condition_of "path" "starts_with" "/volumes";
          condition_of "method" "not_equals" "GET"]);
      ("action", str "deny"); ("message", str "Volume mutations are forbidden")];
   fields
     [("name", str "readonly-networks");
      ("conditions", items
         [condition_of "path" "starts_with" "/networks";
          condition_of "method" "not_equals" "GET"]);
      ("action", str "deny"); ("message", str "Network mutations are forbidden")];
   fields
     [("name", str "readonly-images");
      ("conditions", items
         [condition_of "path" "starts_with" "/images"; condition_of "method" "not_equals" "GET"]);
      ("action", str "deny"); ("message", str "Image mutations are forbidden")];
   fields
     [("name", str "block-secrets-configs");
      ("conditions", items
         [fields
            [("or", items
                [condition_of "path" "starts_with" "/secrets";
                 condition_of "path" "starts_with" "/configs"])]]);
      ("action", str "deny"); ("message", str "Secrets and configs are not accessible")];
   fields
     [("name", str "block-privileged");
      ("conditions", items
         [condition_of "path" "equals" "/containers/create";
          fields
            [("field", str "body.HostConfig.Privileged"); ("operator", str "equals");
             ("value", YBool true)]]);
      ("action", str "deny"); ("message", str "Privileged containers are not allowed")];
   fields
     [("name", str "block-host-network");
      ("conditions", items
         [condition_of "path" "equals" "/containers/create";
          condition_of "body.HostConfig.NetworkMode" "equals" "host"]);
      ("action", str "deny"); ("message", str "Host network mode is not allowed")];
   fields
     [("name", str "block-bind-mounts");
      ("conditions", items
         [condition_of "path" "equals" "/containers/create";
          fields
            [("or", items
                [fields [("field", str "body.HostConfig.Binds"); ("operator", str "exists")];
                 condition_of "body.HostConfig.Mounts" "matches"
                   (quoted "Type" +:+ "\s*:\s*" +:+ quoted "bind")])]]);
      ("action", str "deny"); ("message", str "Bind mounts are not allowed")];
   fields
     [("name", str "block-host-pid");
      ("conditions", items
         [condition_of "path" "equals" "/containers/create";
          condition_of "body.HostConfig.PidMode" "equals" "host"]);
      ("action", str "deny"); ("message", str "Host PID namespace is not allowed")];
   fields
     [("name", str "admin-lifecycle");
      ("conditions", items
         [condition_of "path" "matches"
            "^/containers/[^/]+/(start|stop|restart|kill|pause|unpause|rename|update)$"]);
      ("action", str "require_role"); ("role", str "admin");
      ("message", str "Admin role required")];
   fields
     [("name", str "admin-create");
      ("conditions", items [condition_of "path" "equals" "/containers/create"]);
      ("action", str "require_role"); ("role", str "admin");
      ("message", str "Admin role required to create containers")];
   fields
     [("name", str "admin-delete");
      ("conditions", items [condition_of "method" "equals" "DELETE"]);
      ("action", str "require_role"); ("role", str "admin");
      ("message", str "Admin role required for delete operations")];
   fields
     [("name", str "internal-network-only");
      ("conditions", items
         [fields
            [("field", str "client_ip"); ("operator", str "not_in");
             ("value", items
                [str "10.0.0.0/8"; str "172.16.0.0/12"; str "192.168.0.0/16";
                 str "127.0.0.0/8"])]]);
      ("action", str "deny"); ("message", str "Access restricted to internal network")];
   fields
     [("name", str "rate-limit-all");
      ("conditions", items [condition_of "path" "matches" "^/"]); ("action", str "rate_limit");
      ("rate_limit", fields
         [("requests", YNumber 50); ("period", YNumber 30); ("penalty", YNumber 30)]);
      ("message", str "Rate limit exceeded"); ("status", YNumber 429)]].

Definition config_production : YamlValue :=
  fields
    [("global", fields
        [("port", YNumber 2376); ("log_level", str "info"); ("log_format", str "json");
         ("audit_log", str "/var/log/docker-proxy-audit.log");
         ("metrics", fields [("enabled", YBool true); ("path", str "/metrics")])]);
     ("auth", fields
        [("type", str "bearer");
         ("tokens", items
            [fields [("token", str "${ADMIN_TOKEN}"); ("role", str "admin")];
             fields [("token", str "${READONLY_TOKEN}"); ("role", str "readonly")]])]);
     ("rules", items config_production_rules)].

