(* ===== verification/UnitTests.v ===== *)
(** * The unit tests of the sources, run on the model

    Each [#[test]] of [src/src/*.rs] whose inputs are values of the program is a boolean of the
    same name: the conjunction of the test's assertions, on the reference instances of the
    crates.  The instant of each call is chosen, one millisecond after the other, and a sleep is
    its length; a YAML text is the node it parses to. *)

From S2P Require Import Prelude RustStr F64 Net External Json Config RateLimiter AuthLimiter.
From S2P Require Import Conditions Rules Metrics AuditLog AuditText Tls Upgrade Serde Reference.
From S2P Require Import Examples.

Open Scope Z_scope.

Definition all_pass (tests : list bool) : bool := forallb id tests.

Definition ms (z : Z) : Duration := z * 1000000.

Definition make_ctx (path method ip : string) : EvaluationContext :=
  {| ctx_path := path; ctx_method := method; ctx_headers := []; ctx_client_ip := ip;
     ctx_body_json := None; ctx_user_role := None |}.

Definition with_body (ctx : EvaluationContext) (body : JsonValue) : EvaluationContext :=
  {| ctx_path := ctx_path ctx; ctx_method := ctx_method ctx; ctx_headers := ctx_headers ctx;
     ctx_client_ip := ctx_client_ip ctx; ctx_body_json := Some body;
     ctx_user_role := ctx_user_role ctx |}.

Definition with_header (ctx : EvaluationContext) (name v : string) : EvaluationContext :=
  {| ctx_path := ctx_path ctx; ctx_method := ctx_method ctx;
     ctx_headers := (name, v) :: ctx_headers ctx; ctx_client_ip := ctx_client_ip ctx;
     ctx_body_json := ctx_body_json ctx; ctx_user_role := ctx_user_role ctx |}.

Definition with_role (ctx : EvaluationContext) (role : string) : EvaluationContext :=
  {| ctx_path := ctx_path ctx; ctx_method := ctx_method ctx; ctx_headers := ctx_headers ctx;
     ctx_client_ip := ctx_client_ip ctx; ctx_body_json := ctx_body_json ctx;
     ctx_user_role := Some role |}.

Definition make_condition (field operator : string) (value : option YamlValue) : Condition :=
  {| field := field; operator := operator; value := value;
     compiled_regex :=
       if String.eqb operator "matches" || String.eqb operator "not_matches" then
         match value with
         | Some v =>
             match yaml_value_to_string v with
             | Some s => result_ok (Regex_new s)
             | None => None
             end
         | None => None
         end
       else None |}.

(** [Condition { compiled_regex: None, .. }]. *)
Definition plain (field operator : string) (value : option YamlValue) : Condition :=
  {| field := field; operator := operator; value := value; compiled_regex := None |}.

Definition text (s : string) : option YamlValue := Some (YString s).
Definition texts (l : list string) : option YamlValue := Some (YSequence (map YString l)).

(** ** Conditions *)

Module RulesTests.

Definition test_path_equals : bool :=
  let c := make_condition "path" "equals" (text "/test") in
  evaluate_condition c (make_ctx "/test" "GET" "127.0.0.1")
  && negb (evaluate_condition c (make_ctx "/other" "GET" "127.0.0.1")).

Definition test_path_starts_with : bool :=
  let c := make_condition "path" "starts_with" (text "/containers") in
  evaluate_condition c (make_ctx "/containers/json" "GET" "127.0.0.1")
  && negb (evaluate_condition c (make_ctx "/images/json" "GET" "127.0.0.1")).

Definition test_path_matches_regex : bool :=
  let c := make_condition "path" "matches" (text "^/containers/[^/]+/exec$") in
  evaluate_condition c (make_ctx "/containers/abc123/exec" "POST" "127.0.0.1")
  && negb (evaluate_condition c (make_ctx "/containers/abc123/start" "POST" "127.0.0.1")).

Definition test_path_in : bool :=
  let c := plain "path" "in" (texts ["/a"; "/b"]) in
  evaluate_condition c (make_ctx "/a" "GET" "127.0.0.1")
  && evaluate_condition c (make_ctx "/b" "GET" "127.0.0.1")
  && negb (evaluate_condition c (make_ctx "/c" "GET" "127.0.0.1")).

Definition test_method_equals : bool :=
  let c := make_condition "method" "equals" (text "POST") in
  evaluate_condition c (make_ctx "/" "POST" "127.0.0.1")
  && evaluate_condition c (make_ctx "/" "post" "127.0.0.1")
  && negb (evaluate_condition c (make_ctx "/" "GET" "127.0.0.1")).

Definition test_method_not_equals : bool :=
  let c := make_condition "method" "not_equals" (text "GET") in
  evaluate_condition c (make_ctx "/" "POST" "127.0.0.1")
  && negb (evaluate_condition c (make_ctx "/" "GET" "127.0.0.1")).

Definition test_method_in : bool :=
  let c := plain "method" "in" (texts ["POST"; "PUT"]) in
  evaluate_condition c (make_ctx "/" "POST" "127.0.0.1")
  && evaluate_condition c (make_ctx "/" "put" "127.0.0.1")
  && negb (evaluate_condition c (make_ctx "/" "GET" "127.0.0.1")).

Definition test_ip_in_cidr : bool :=
  let c := plain "client_ip" "in" (texts ["10.0.0.0/8"; "127.0.0.0/8"]) in
  evaluate_condition c (make_ctx "/" "GET" "10.1.2.3")
  && evaluate_condition c (make_ctx "/" "GET" "127.0.0.1")
  && negb (evaluate_condition c (make_ctx "/" "GET" "192.168.1.1")).

Definition test_ip_not_in_cidr : bool :=
  let c := plain "client_ip" "not_in" (texts ["10.0.0.0/8"]) in
  negb (evaluate_condition c (make_ctx "/" "GET" "10.1.2.3"))
  && evaluate_condition c (make_ctx "/" "GET" "192.168.1.1").

Definition test_ip_equals : bool :=
  let c := make_condition "client_ip" "equals" (text "1.2.3.4") in
  evaluate_condition c (make_ctx "/" "GET" "1.2.3.4")
  && negb (evaluate_condition c (make_ctx "/" "GET" "5.6.7.8")).

(** [json!({"HostConfig": {k: v}})] *)
Definition host_config (fields : list (string * JsonValue)) : JsonValue :=
  JObject [("HostConfig", JObject fields)].

Definition create_ctx : EvaluationContext := make_ctx "/containers/create" "POST" "127.0.0.1".

Definition test_body_equals_bool : bool :=
  let c := make_condition "body.HostConfig.Privileged" "equals" (Some (YBool true)) in
  evaluate_condition c (with_body create_ctx (host_config [("Privileged", JBool true)]))
  && negb (evaluate_condition c
             (with_body create_ctx (host_config [("Privileged", JBool false)]))).

Definition test_body_equals_string : bool :=
  let c := make_condition "body.HostConfig.NetworkMode" "equals" (text "host") in
  evaluate_condition c (with_body create_ctx (host_config [("NetworkMode", JString "host")]))
  && negb (evaluate_condition c
             (with_body create_ctx (host_config [("NetworkMode", JString "bridge")]))).

Definition test_body_exists : bool :=
  let c := plain "body.HostConfig.Binds" "exists" None in
  evaluate_condition c
    (with_body create_ctx (host_config [("Binds", JArray [JString "/tmp:/tmp"])]))
  && negb (evaluate_condition c (with_body create_ctx (host_config []))).

Definition test_body_not_exists : bool :=
  let c := plain "body.HostConfig.Binds" "not_exists" None in
  evaluate_condition c (with_body create_ctx (host_config []))
  && negb (evaluate_condition c (with_body create_ctx (host_config [("Binds", JArray [])]))).

Definition test_body_contains : bool :=
  let c := make_condition "body.Image" "contains" (text "nginx") in
  evaluate_condition c (with_body create_ctx (JObject [("Image", JString "nginx:latest")]))
  && negb (evaluate_condition c (with_body create_ctx (JObject [("Image", JString "alpine")]))).

Definition test_body_number_equals : bool :=
  let c := make_condition "body.Count" "equals" (Some (YNumber 42)) in
  let ctx := make_ctx "/" "POST" "127.0.0.1" in
  evaluate_condition c (with_body ctx (JObject [("Count", JNumber 42)]))
  && negb (evaluate_condition c (with_body ctx (JObject [("Count", JNumber 99)]))).

Definition test_header_equals : bool :=
  let c := make_condition "header.content-type" "equals" (text "application/json") in
  evaluate_condition c
    (with_header (make_ctx "/" "POST" "127.0.0.1") "content-type" "application/json").

Definition test_header_case_insensitive : bool :=
  let c := make_condition "header.x-custom" "equals" (text "hello") in
  evaluate_condition c (with_header (make_ctx "/" "GET" "127.0.0.1") "X-Custom" "hello").

Definition test_header_exists : bool :=
  let c := plain "header.authorization" "exists" None in
  let ctx := make_ctx "/" "GET" "127.0.0.1" in
  negb (evaluate_condition c ctx)
  && evaluate_condition c (with_header ctx "authorization" "Bearer x").

Definition path_is (p : string) : ConditionNode := Leaf (make_condition "path" "equals" (text p)).

Definition test_or_node_matches_any : bool :=
  let node := Or [path_is "/a"; path_is "/b"] in
  evaluate_node node (make_ctx "/a" "GET" "127.0.0.1")
  && evaluate_node node (make_ctx "/b" "GET" "127.0.0.1")
  && negb (evaluate_node node (make_ctx "/c" "GET" "127.0.0.1")).

Definition test_and_node_matches_all : bool :=
  let node := And [Leaf (make_condition "path" "starts_with" (text "/volumes"));
                   Leaf (make_condition "method" "not_equals" (text "GET"))] in
  evaluate_node node (make_ctx "/volumes/create" "POST" "127.0.0.1")
  && negb (evaluate_node node (make_ctx "/volumes" "GET" "127.0.0.1")).

Definition test_nested_and_or : bool :=
  let node := And [Or [path_is "/a"; path_is "/b"];
                   Leaf (make_condition "method" "equals" (text "POST"))] in
  evaluate_node node (make_ctx "/a" "POST" "127.0.0.1")
  && evaluate_node node (make_ctx "/b" "POST" "127.0.0.1")
  && negb (evaluate_node node (make_ctx "/a" "GET" "127.0.0.1"))
  && negb (evaluate_node node (make_ctx "/c" "POST" "127.0.0.1")).

Definition condition_tests : list bool :=
  [test_path_equals; test_path_starts_with; test_path_matches_regex; test_path_in;
   test_method_equals; test_method_not_equals; test_method_in; test_ip_in_cidr;
   test_ip_not_in_cidr; test_ip_equals; test_body_equals_bool; test_body_equals_string;
   test_body_exists; test_body_not_exists; test_body_contains; test_body_number_equals;
   test_header_equals; test_header_case_insensitive; test_header_exists;
   test_or_node_matches_any; test_and_node_matches_all; test_nested_and_or].

Lemma condition_tests_pass : all_pass condition_tests = true.
Proof. by vm_compute. Qed.

(** ** The rate limiter *)

(** [rl.check(key, requests, period, penalty)] at each instant in turn: the answers. *)
Fixpoint checks (rl : RateLimiter) (times : list Instant) (key : string)
    (requests period penalty : Z) : list (outcome bool) * RateLimiter :=
  match times with
  | [] => ([], rl)
  | now :: times' =>
      let '(r, rl1) := check rl now key requests period penalty in
      let '(rs, rl2) := checks rl1 times' key requests period penalty in
      (r :: rs, rl2)
  end.

Definition is_answer (b : bool) (o : outcome bool) : bool :=
  match o with
  | Done a => Bool.eqb a b
  | Panic => false
  end.

Definition answers_are (bs : list bool) (os : list (outcome bool)) : bool :=
  (length bs =? length os)%nat && forallb id (zip_with is_answer bs os).

Definition millis (l : list Z) : list Instant := map ms l.

Definition test_rate_limiter_allows_up_to_limit : bool :=
  answers_are (replicate 5 true)
    (checks RateLimiter_new (millis [0; 1; 2; 3; 4]) "test-ip" 5 60 60).1.

Definition test_rate_limiter_blocks_after_limit : bool :=
  answers_are (replicate 5 true ++ [false])
    (checks RateLimiter_new (millis [0; 1; 2; 3; 4; 5]) "test-ip-2" 5 60 60).1.

Definition test_rate_limiter_penalty_active : bool :=
  answers_are [true; true; true; false; false]
    (checks RateLimiter_new (millis [0; 1; 2; 3; 4]) "test-penalty" 3 60 60).1.

Definition test_rate_limiter_cleanup : bool :=
  let rl := (check RateLimiter_new (ms 0) "ip-a" 10 60 60).2 in
  let rl := (check rl (ms 1) "ip-b" 10 60 60).2 in
  let rl := RateLimiter.cleanup rl (ms 2) in
  let '(a, rl) := check rl (ms 3) "ip-a" 10 60 60 in
  let '(b, _) := check rl (ms 4) "ip-b" 10 60 60 in
  is_answer true a && is_answer true b.

Definition test_rate_limiter_penalty_does_not_refill : bool :=
  answers_are [true; true; true; false; false]
    (checks RateLimiter_new (millis [0; 1; 2; 3; 104]) "penalty-stick" 3 60 60).1.

Definition rate_limiter_tests : list bool :=
  [test_rate_limiter_allows_up_to_limit; test_rate_limiter_blocks_after_limit;
   test_rate_limiter_penalty_active; test_rate_limiter_cleanup;
   test_rate_limiter_penalty_does_not_refill].

Lemma rate_limiter_tests_pass : all_pass rate_limiter_tests = true.
Proof. by vm_compute. Qed.

(** ** Response filters *)

Definition filter_entry (field action : string) (replacement : option string)
    : ResponseFilterEntry :=
  {| filter_field := field; filter_action := action; replacement := replacement |}.

(** [filters] applied to the bytes of [body], read back as the value at [path]. *)
Definition filtered_at (filters : list ResponseFilterEntry) (body : JsonValue) (path : string)
    : option JsonValue :=
  match json_to_vec body with
  | Some bytes =>
      match json_from_slice (apply_response_filters filters bytes) with
      | Ok v => json_get v path
      | Err _ => None
      end
  | None => None
  end.

Definition holds (o : option JsonValue) (s : string) : bool :=
  is_some_and o (fun v => json_eqb v (JString s)).

Definition config_body (env : list string) : JsonValue :=
  JObject [("Config", JObject [("Env", JArray (map JString env)); ("Cmd", JArray [JString "sh"])])].

Definition test_response_filter_redact : bool :=
  let at_ := filtered_at [filter_entry "Config.Env" "redact" None] (config_body ["A=1"; "B=2"]) in
  holds (at_ "Config.Env") "***REDACTED***" && holds (at_ "Config.Cmd.0") "sh".

Definition test_response_filter_remove : bool :=
  let at_ := filtered_at [filter_entry "Config.Env" "remove" None] (config_body ["A=1"]) in
  is_none (at_ "Config.Env") && holds (at_ "Config.Cmd.0") "sh".

Definition test_response_filter_replace : bool :=
  let at_ := filtered_at [filter_entry "Name" "replace" (Some "hidden")]
               (JObject [("Name", JString "secret-container")]) in
  holds (at_ "Name") "hidden".

Definition test_response_filter_remove_top_level : bool :=
  let at_ := filtered_at [filter_entry "Command" "remove" None]
               (JObject [("Command", JString "ls"); ("Id", JString "abc")]) in
  is_none (at_ "Command") && holds (at_ "Id") "abc".

Definition test_response_filter_non_json_passthrough : bool :=
  let body := as_bytes "not json" in
  bool_decide (apply_response_filters [filter_entry "anything" "redact" None] body = body).

Definition test_response_filter_array_index : bool :=
  let at_ := filtered_at [filter_entry "Items.0.Name" "redact" None]
               (JObject [("Items", JArray [JObject [("Name", JString "a")];
                                           JObject [("Name", JString "b")]])]) in
  holds (at_ "Items.0.Name") "***REDACTED***" && holds (at_ "Items.1.Name") "b".

Definition response_filter_tests : list bool :=
  [test_response_filter_redact; test_response_filter_remove; test_response_filter_replace;
   test_response_filter_remove_top_level; test_response_filter_non_json_passthrough;
   test_response_filter_array_index].

Lemma response_filter_tests_pass : all_pass response_filter_tests = true.
Proof. by vm_compute. Qed.

(** ** Rules *)

(** [Rule { name, action, conditions, ..Default::default() }] *)
Definition make_rule (name action : string) (conditions : list ConditionNode) : Rule :=
  {| rule_name := name; rule_description := None; rule_action := action; rule_priority := None;
     rule_conditions := conditions; rule_message := None; rule_role := None;
     rule_response_filter := None; rule_status := None; rule_methods := None;
     rule_rate_limit := None; rule_dry_run := None |}.

Definition answering (r : Rule) (status : Z) (message : string) : Rule :=
  {| rule_name := rule_name r; rule_description := None; rule_action := rule_action r;
     rule_priority := None; rule_conditions := rule_conditions r; rule_message := Some message;
     rule_role := rule_role r; rule_response_filter := rule_response_filter r;
     rule_status := Some status; rule_methods := None; rule_rate_limit := rule_rate_limit r;
     rule_dry_run := rule_dry_run r |}.

Definition requiring (r : Rule) (role : string) : Rule :=
  {| rule_name := rule_name r; rule_description := None; rule_action := rule_action r;
     rule_priority := None; rule_conditions := rule_conditions r; rule_message := None;
     rule_role := Some role; rule_response_filter := None; rule_status := None;
     rule_methods := None; rule_rate_limit := None; rule_dry_run := None |}.

Definition limiting (r : Rule) (requests period penalty : Z) (dry_run : option bool) : Rule :=
  {| rule_name := rule_name r; rule_description := None; rule_action := rule_action r;
     rule_priority := None; rule_conditions := rule_conditions r; rule_message := None;
     rule_role := None; rule_response_filter := None; rule_status := None; rule_methods := None;
     rule_rate_limit := Some {| requests := requests; period := period; penalty := penalty |};
     rule_dry_run := dry_run |}.

Definition filtering (r : Rule) (filters : list ResponseFilterEntry) : Rule :=
  {| rule_name := rule_name r; rule_description := None; rule_action := rule_action r;
     rule_priority := None; rule_conditions := rule_conditions r; rule_message := None;
     rule_role := None; rule_response_filter := Some filters; rule_status := None;
     rule_methods := None; rule_rate_limit := None; rule_dry_run := None |}.

Definition dry_deny (r : Rule) : Rule :=
  {| rule_name := rule_name r; rule_description := None; rule_action := rule_action r;
     rule_priority := None; rule_conditions := rule_conditions r; rule_message := None;
     rule_role := None; rule_response_filter := None; rule_status := None; rule_methods := None;
     rule_rate_limit := None; rule_dry_run := Some true |}.

Definition any_path : ConditionNode := Leaf (make_condition "path" "matches" (text "^/")).

Definition is_allow (o : outcome RuleResult) : bool :=
  match o with
  | Done Allow => true
  | _ => false
  end.

Definition is_deny (o : outcome RuleResult) (f : Z -> string -> bool) : bool :=
  match o with
  | Done (Deny status message) => f status message
  | _ => false
  end.

(** [evaluate_request] at each time in turn, on one limiter. *)
Fixpoint evaluations (rules : list Rule) (ctx : EvaluationContext) (rl : RateLimiter)
    (times : list Instant) : list (outcome RuleResult) :=
  match times with
  | [] => []
  | now :: times' =>
      let '(r, rl') := evaluate_request rules ctx rl (fun _ => now) in
      r :: evaluations rules ctx rl' times'
  end.

Definition evaluated (rules : list Rule) (ctx : EvaluationContext) : outcome RuleResult :=
  (evaluate_request rules ctx RateLimiter_new (fun _ => ms 0)).1.

Definition test_evaluate_request_deny : bool :=
  let rules := [answering (make_rule "block" "deny" [path_is "/secret"]) 403 "blocked"] in
  is_deny (evaluated rules (make_ctx "/secret" "GET" "127.0.0.1"))
    (fun status message => (status =? 403) && String.eqb message "blocked").

Definition test_evaluate_request_allow_default : bool :=
  is_allow (evaluated [] (make_ctx "/anything" "GET" "127.0.0.1")).

Definition test_evaluate_request_require_role_admin_passes : bool :=
  let rules := [requiring (make_rule "admin-only" "require_role" [path_is "/create"]) "admin"] in
  is_allow (evaluated rules (with_role (make_ctx "/create" "POST" "127.0.0.1") "admin")).

Definition test_evaluate_request_require_role_readonly_blocked : bool :=
  let rules := [requiring (make_rule "admin-only" "require_role" [path_is "/create"]) "admin"] in
  is_deny (evaluated rules (with_role (make_ctx "/create" "POST" "127.0.0.1") "readonly"))
    (fun _ _ => true).

Definition test_evaluate_request_rate_limit_exceeded : bool :=
  let rules :=
    [answering (limiting (make_rule "rl" "rate_limit" [any_path]) 2 60 60 None) 429 "too fast"] in
  match evaluations rules (make_ctx "/test" "GET" "10.0.0.1") RateLimiter_new
          (millis [0; 1; 2]) with
  | [a; b; c] => is_allow a && is_allow b && is_deny c (fun status _ => status =? 429)
  | _ => false
  end.

Definition env_filter_rule : Rule :=
  filtering (make_rule "filter" "response_filter" [path_is "/json"])
    [filter_entry "Env" "redact" None].

Definition test_collect_response_filters : bool :=
  match collect_response_filters [env_filter_rule] (make_ctx "/json" "GET" "127.0.0.1") with
  | [f] => String.eqb (filter_field f) "Env"
  | _ => false
  end.

Definition test_collect_response_filters_no_match : bool :=
  (length (collect_response_filters [env_filter_rule] (make_ctx "/other" "GET" "127.0.0.1"))
   =? 0)%nat.

Definition test_allow_short_circuits : bool :=
  let rules := [make_rule "allow" "allow" [path_is "/ping"]; make_rule "block" "deny" [any_path]] in
  is_allow (evaluated rules (make_ctx "/ping" "GET" "127.0.0.1")).

Definition test_dry_run_returns_allow_with_metadata : bool :=
  let rules := [dry_deny (make_rule "would-block" "deny" [path_is "/x"])] in
  match (evaluate_request_detailed rules (make_ctx "/x" "GET" "1.1.1.1") RateLimiter_new
           (fun _ => ms 0)).1 with
  | Done d =>
      is_allow (Done (decision_result d)) && decision_dry_run d
      && is_some_and (decision_rule_name d) (String.eqb "would-block")
      && is_some_and (decision_action d) (String.eqb "deny")
  | Panic => false
  end.

Definition test_dry_run_rate_limit_does_not_block : bool :=
  let rules := [limiting (make_rule "rl-dry" "rate_limit" [any_path]) 1 60 60 (Some true)] in
  forallb is_allow (evaluations rules (make_ctx "/x" "GET" "2.2.2.2") RateLimiter_new
                      (millis [0; 1; 2; 3; 4])).

Definition evaluation_tests : list bool :=
  [test_evaluate_request_deny; test_evaluate_request_allow_default;
   test_evaluate_request_require_role_admin_passes;
   test_evaluate_request_require_role_readonly_blocked;
   test_evaluate_request_rate_limit_exceeded; test_collect_response_filters;
   test_collect_response_filters_no_match; test_allow_short_circuits;
   test_dry_run_returns_allow_with_metadata; test_dry_run_rate_limit_does_not_block].

Lemma evaluation_tests_pass : all_pass evaluation_tests = true.
Proof. by vm_compute. Qed.

(** ** The lockout table *)

Definition test_auth_limiter_blocks_after_threshold : bool :=
  let al := (fail_at AuthLimiter_new (millis [0; 1; 2]) "1.2.3.4" 3 (from_secs 60)
               (from_secs 60)).2 in
  is_blocked al (ms 3) "1.2.3.4".

Definition test_auth_limiter_success_clears_state : bool :=
  let al := (record_failure AuthLimiter_new (ms 0) "5.6.7.8" 3 (from_secs 60) (from_secs 60)).2 in
  negb (is_blocked (record_success al "5.6.7.8") (ms 1) "5.6.7.8").

Definition test_auth_limiter_window_resets_failures : bool :=
  let al := (fail_at AuthLimiter_new (millis [0; 81]) "9.9.9.9" 5 (ms 50) (from_secs 60)).2 in
  negb (is_blocked al (ms 82) "9.9.9.9").

Definition lockout_tests : list bool :=
  [test_auth_limiter_blocks_after_threshold; test_auth_limiter_success_clears_state;
   test_auth_limiter_window_resets_failures].

Lemma lockout_tests_pass : all_pass lockout_tests = true.
Proof. by vm_compute. Qed.

End RulesTests.

(** ** Configuration *)

Module ConfigTests.

Definition env_of (vars : list (string * string)) : Env :=
  {| env_var := fun name =>
       option_map snd (find (fun kv : string * string => String.eqb kv.1 name) vars);
     path_exists := fun _ => false; read_to_string := fun _ => Err "not found";
     yaml_from_str := fun _ => Err "not parsed" |}.

Definition is_ok {A} (r : result A string) : bool := is_some (result_ok r).

Definition test_env_expansion : bool :=
  is_some_and (result_ok (expand_env (env_of [("TEST_VAR", "expanded_value")])
                            "prefix_${TEST_VAR}_suffix" false))
    (String.eqb "prefix_expanded_value_suffix").

Definition test_env_expansion_unset_not_required : bool :=
  is_some_and (result_ok (expand_env (env_of []) "${NONEXISTENT_VAR_12345}" false))
    (String.eqb "").

Definition test_env_expansion_unset_required_errors : bool :=
  negb (is_ok (expand_env (env_of []) "${NONEXISTENT_VAR_12345}" true)).

Definition with_auth (a : AuthConfig) : ProxyConfig :=
  {| config_global := None; config_auth := Some a; config_rules := None |}.

Definition test_is_auth_configured_tokens : bool :=
  is_auth_configured (with_auth
    {| auth_type := Some "bearer"; auth_secret := None;
       auth_tokens := Some [{| token := "t"; token_role := Some "admin" |}];
       auth_mtls := None |}).

Definition test_is_auth_configured_secret : bool :=
  is_auth_configured (with_auth
    {| auth_type := Some "bearer"; auth_secret := Some "s"; auth_tokens := None;
       auth_mtls := None |}).

Definition test_is_auth_configured_none_type : bool :=
  is_auth_configured (with_auth
    {| auth_type := Some "none"; auth_secret := None; auth_tokens := None; auth_mtls := None |}).

Definition test_is_auth_not_configured : bool := negb (is_auth_configured ProxyConfig_default).

Definition config_tests : list bool :=
  [test_env_expansion; test_env_expansion_unset_not_required;
   test_env_expansion_unset_required_errors; test_is_auth_configured_tokens;
   test_is_auth_configured_secret; test_is_auth_configured_none_type;
   test_is_auth_not_configured].

Lemma config_tests_pass : all_pass config_tests = true.
Proof. by vm_compute. Qed.

(** *** Deserialisation

    A YAML text is the document it parses to, in the notation of Examples.v. *)

Definition rule_of (l : list (string * YamlValue)) : YamlValue := fields [("rules", items [fields l])].

(** [let cfg: ProxyConfig = serde_yaml::from_str(yaml).unwrap()], and what is asserted of it. *)
Definition parsed (v : YamlValue) (f : ProxyConfig -> bool) : bool :=
  is_some_and (ProxyConfig_deserialize (node_of v)) f.

Definition first_rule (cfg : ProxyConfig) (f : Rule -> bool) : bool :=
  is_some_and (config_rules cfg) (fun rules => is_some_and (head rules) f).

Definition is_str (s : string) (o : option string) : bool := is_some_and o (String.eqb s).

Definition test_parse_minimal_config : bool :=
  parsed (fields
    [("global", fields [("port", YNumber 1234)]);
     ("auth", fields [("type", str "bearer");
                      ("tokens", items [fields [("token", str "test-token");
                                                ("role", str "admin")]])]);
     ("rules", items [fields [("name", str "test-rule"); ("action", str "deny");
                              ("conditions", items [condition_of "path" "equals" "/test"])]])])
    (fun cfg =>
       is_some_and (config_global cfg) (fun g => bool_decide (global_port g = Some 1234))
       && is_some_and (config_auth cfg) (fun a => is_str "bearer" (auth_type a))
       && is_some_and (config_rules cfg) (fun l => (length l =? 1)%nat)
       && first_rule cfg (fun r => String.eqb (rule_name r) "test-rule")).

Definition test_defaults : bool :=
  parsed (rule_of [("name", str "r"); ("action", str "deny");
                   ("conditions", items [condition_of "path" "equals" "/"])])
    (fun cfg => first_rule cfg (fun r =>
       is_none (rule_status r) && is_none (rule_message r) && is_none (rule_role r))).

Definition rate_rule (limit : list (string * YamlValue)) : YamlValue :=
  rule_of [("name", str "rl"); ("action", str "rate_limit");
           ("conditions", items [condition_of "path" "matches" "^/"]);
           ("rate_limit", fields limit)].

Definition has_limit (n p q : Z) (cfg : ProxyConfig) : bool :=
  first_rule cfg (fun r => is_some_and (rule_rate_limit r) (fun rl =>
    (requests rl =? n) && (period rl =? p) && (penalty rl =? q))).

Definition test_rate_limit_defaults : bool := parsed (rate_rule []) (has_limit 50 30 30).

Definition test_rate_limit_custom : bool :=
  parsed (rate_rule [("requests", YNumber 100); ("period", YNumber 10); ("penalty", YNumber 60)])
    (has_limit 100 10 60).

Definition one_condition (cfg : ProxyConfig) (f : ConditionNode -> bool) : bool :=
  first_rule cfg (fun r => match rule_conditions r with
                           | [n] => f n
                           | _ => false
                           end).

Definition two_alternatives (n : ConditionNode) : bool :=
  match n with
  | Or [_; _] => true
  | _ => false
  end.

Definition test_or_condition_parsing : bool :=
  parsed (rule_of [("name", str "or-rule"); ("action", str "deny");
                   ("conditions", items [fields [("or", items
                      [condition_of "path" "starts_with" "/a";
                       condition_of "path" "starts_with" "/b"])]])])
    (fun cfg => one_condition cfg two_alternatives).

Definition test_nested_conditions : bool :=
  parsed (rule_of [("name", str "nested"); ("action", str "deny");
                   ("conditions", items [fields [("and", items
                      [fields [("or", items [condition_of "path" "equals" "/x";
                                             condition_of "path" "equals" "/y"])];
                       condition_of "method" "equals" "POST"])]])])
    (fun cfg => one_condition cfg (fun n => match n with
                                            | And [m; _] => two_alternatives m
                                            | _ => false
                                            end)).

Definition test_response_filter_parsing : bool :=
  parsed (rule_of [("name", str "filter"); ("action", str "response_filter");
                   ("conditions", items [condition_of "path" "equals" "/test"]);
                   ("response_filter", items
                      [fields [("field", str "Config.Env"); ("action", str "redact")];
                       fields [("field", str "Labels"); ("action", str "remove")]])])
    (fun cfg => first_rule cfg (fun r => is_some_and (rule_response_filter r) (fun l =>
       bool_decide (map filter_field l = ["Config.Env"; "Labels"])
       && bool_decide (map filter_action l = ["redact"; "remove"])))).

Definition test_condition_missing_operator_defaults : bool :=
  parsed (rule_of [("name", str "r"); ("action", str "deny");
                   ("conditions", items [fields [("field", str "path")]])])
    (fun cfg => one_condition cfg (fun _ => true)).

Definition test_tls_config_parsing : bool :=
  parsed (fields [("global", fields
    [("port", YNumber 2376);
     ("tls", fields [("cert", str "/etc/docker-proxy/server.crt");
                     ("key", str "/etc/docker-proxy/server.key");
                     ("client_ca", str "/etc/docker-proxy/ca.crt");
                     ("require_client_cert", YBool true)])])])
    (fun cfg => is_some_and (config_global cfg) (fun g => is_some_and (global_tls g) (fun tls =>
       String.eqb (tls_cert tls) "/etc/docker-proxy/server.crt"
       && is_str "/etc/docker-proxy/ca.crt" (tls_client_ca tls)
       && is_some_and (tls_require_client_cert tls) id))).

Definition test_mtls_role_map_parsing : bool :=
  parsed (fields [("auth", fields
    [("type", str "mtls");
     ("mtls", fields
        [("cert_role_map", items
            [fields [("cn", str "admin.example.com"); ("role", str "admin")];
             fields [("cn", str "readonly.example.com"); ("role", str "readonly")]]);
         ("default_role", str "user")])])])
    (fun cfg => is_some_and (config_auth cfg) (fun a => is_some_and (auth_mtls a) (fun mtls =>
       is_some_and (cert_role_map mtls) (fun l =>
         (length l =? 2)%nat
         && is_some_and (head l) (fun e => String.eqb (mapping_cn e) "admin.example.com"
                                           && String.eqb (mapping_role e) "admin"))
       && is_str "user" (default_role mtls)))).

Definition test_dry_run_parsing : bool :=
  parsed (rule_of [("name", str "r"); ("action", str "deny"); ("dry_run", YBool true);
                   ("conditions", items [condition_of "path" "equals" "/x"])])
    (fun cfg => first_rule cfg (fun r => is_some_and (rule_dry_run r) id)).

Definition test_flat_conditions_and : bool :=
  parsed (rule_of [("name", str "r"); ("action", str "deny");
                   ("conditions", items [condition_of "path" "equals" "/a";
                                         condition_of "method" "equals" "GET"])])
    (fun cfg => first_rule cfg (fun r => (length (rule_conditions r) =? 2)%nat)).

Definition path_rule (name action path : string) (more : list (string * YamlValue)) : YamlValue :=
  fields ([("name", str name)] ++ (if is_empty action then [] else [("action", str action)])
          ++ more ++ [("conditions", items [condition_of "path" "equals" path])]).

Definition rules_of_nodes (l : list YamlValue) : YamlValue := fields [("rules", items l)].

Definition test_priority_sort_stable : bool :=
  parsed (rules_of_nodes
    [path_rule "a" "deny" "/a" []; path_rule "b" "deny" "/b" [("priority", YNumber 100)];
     path_rule "c" "deny" "/c" [("priority", YNumber 100)];
     path_rule "d" "deny" "/d" [("priority", YNumber 50)]])
    (fun cfg => is_some_and (config_rules (sort_rules_by_priority cfg))
       (fun rules => bool_decide (map rule_name rules = ["b"; "c"; "d"; "a"]))).

Definition test_validation_rejects_empty_action : bool :=
  parsed (rules_of_nodes [path_rule "r" "" "/x" []]) (fun cfg => negb (is_ok (validate cfg))).

Definition test_validation_rejects_missing_require_role : bool :=
  parsed (rules_of_nodes [path_rule "r" "require_role" "/x" []])
    (fun cfg => negb (is_ok (validate cfg))).

Definition test_validation_accepts_valid_require_role : bool :=
  parsed (rules_of_nodes [path_rule "r" "require_role" "/x" [("role", str "admin")]])
    (fun cfg => is_ok (validate cfg)).

Definition parsing_tests : list bool :=
  [test_parse_minimal_config; test_defaults; test_rate_limit_defaults; test_rate_limit_custom;
   test_or_condition_parsing; test_nested_conditions; test_response_filter_parsing;
   test_condition_missing_operator_defaults; test_tls_config_parsing;
   test_mtls_role_map_parsing; test_dry_run_parsing; test_flat_conditions_and;
   test_priority_sort_stable; test_validation_rejects_empty_action;
   test_validation_rejects_missing_require_role; test_validation_accepts_valid_require_role].

Lemma parsing_tests_pass : all_pass parsing_tests = true.
Proof. by vm_compute. Qed.

End ConfigTests.

(** ** Certificates, upgrades, metrics, the audit log *)

Module ComponentTests.

Definition test_cn_match_exact : bool :=
  cn_match "admin.example.com" "admin.example.com"
  && negb (cn_match "admin.example.com" "user.example.com").

Definition test_cn_match_wildcard : bool :=
  cn_match "*.readonly.example.com" "host1.readonly.example.com"
  && negb (cn_match "*.readonly.example.com" "readonly.example.com")
  && negb (cn_match "*.readonly.example.com" "host1.example.com").

Definition one_mapping (cn role : string) (fallback : option string) : MtlsConfig :=
  {| cert_role_map := Some [{| mapping_cn := cn; mapping_role := role |}];
     default_role := fallback |}.

Definition test_resolve_role_map_first : bool :=
  is_some_and (resolve_mtls_role {| common_name := Some "admin.example.com"; sans := [] |}
                 (Some (one_mapping "admin.example.com" "admin" None)))
    (String.eqb "admin").

Definition test_resolve_role_does_not_fall_back_to_cn : bool :=
  is_none (resolve_mtls_role {| common_name := Some "dev.example.com"; sans := [] |}
             (Some (one_mapping "admin.example.com" "admin" None))).

Definition test_resolve_role_san_wildcard_then_default : bool :=
  let mtls := Some (one_mapping "*.readonly.example.com" "readonly" (Some "user")) in
  is_some_and (resolve_mtls_role
                 {| common_name := None; sans := ["host1.readonly.example.com"] |} mtls)
    (String.eqb "readonly")
  && is_some_and (resolve_mtls_role {| common_name := None; sans := [] |} mtls)
       (String.eqb "user").

Definition test_detects_upgrade_request : bool :=
  is_upgrade_request [("connection", "upgrade"); ("upgrade", "tcp")].

Definition test_no_upgrade_without_connection_token : bool :=
  negb (is_upgrade_request [("upgrade", "tcp")]).

Definition test_connection_with_multiple_tokens : bool :=
  is_upgrade_request [("connection", "keep-alive, Upgrade"); ("upgrade", "websocket")].

Definition test_header_token_case_insensitive : bool :=
  let v : HeaderValue := "Keep-Alive, UPGRADE" in
  header_has_token v "upgrade" && header_has_token v "keep-alive"
  && negb (header_has_token v "close").

Definition add_times (n : nat) (c : Counter) (m : Metrics) : Metrics :=
  Nat.iter n (fun m => fetch_add m c) m.

Definition test_metrics_renders_prometheus_format : bool :=
  let m := add_times 3 requests_total Metrics_new in
  let m := fetch_add m requests_denied in
  let m := fetch_add m request_timeouts_total in
  let m := record_rule_deny m "block-secrets" false in
  let m := record_rule_deny m "watch-rule" true in
  let m := observe_upstream_latency_ms m 15 in
  let m := observe_upstream_latency_ms m 700 in
  let out := render_prometheus m (map_to_list (by_rule m)) in
  contains out "docker_proxy_requests_total 3"
  && contains out "docker_proxy_requests_denied_total 1"
  && contains out "docker_proxy_request_timeouts_total 1"
  && contains out ("rule=" +:+ quote +:+ "block-secrets" +:+ quote)
  && contains out ("mode=" +:+ quote +:+ "dry_run" +:+ quote)
  && contains out "docker_proxy_upstream_latency_ms_count 2".

Definition test_escape_label_quotes_and_backslashes : bool :=
  String.eqb (escape_label ("hello " +:+ quote +:+ "world" +:+ quote +:+ "\foo"))
    ("hello \" +:+ quote +:+ "world\" +:+ quote +:+ "\\foo").

(** [key:value] for a quoted key and a quoted value. *)
Definition entry (key value : string) : string := quoted key +:+ ":" +:+ quoted value.

Definition test_event_serializes_to_json : bool :=
  let ev := AuditEvent_new "2024-01-01T00:00:00Z" "deny" (V4 127 0 0 1) "GET" "/secrets" "curl/8" in
  let ev := {| ev_timestamp := ev_timestamp ev; ev_event := ev_event ev;
               ev_peer_ip := ev_peer_ip ev; ev_method := ev_method ev; ev_path := ev_path ev;
               ev_user_agent := ev_user_agent ev; ev_user_role := ev_user_role ev;
               ev_identity := ev_identity ev; ev_rule_name := Some "block-secrets";
               ev_rule_action := Some "deny"; ev_status := 403; ev_dry_run := ev_dry_run ev;
               ev_message := ev_message ev |} in
  is_some_and (result_ok (event_to_string ev)) (fun json =>
    contains json (entry "event" "deny") && contains json (entry "rule_name" "block-secrets")
    && contains json (entry "path" "/secrets")).

Definition test_disabled_sink_no_op : bool :=
  let ev := AuditEvent_new "2024-01-01T00:00:00Z" "deny" (V4 1 1 1 1) "GET" "/x" "test" in
  negb (is_enabled AuditSink_disabled) && negb (is_enabled (send AuditSink_disabled ev)).

Definition component_tests : list bool :=
  [test_cn_match_exact; test_cn_match_wildcard; test_resolve_role_map_first;
   test_resolve_role_does_not_fall_back_to_cn; test_resolve_role_san_wildcard_then_default;
   test_detects_upgrade_request; test_no_upgrade_without_connection_token;
   test_connection_with_multiple_tokens; test_header_token_case_insensitive;
   test_metrics_renders_prometheus_format; test_escape_label_quotes_and_backslashes;
   test_event_serializes_to_json; test_disabled_sink_no_op].

Lemma component_tests_pass : all_pass component_tests = true.
Proof. by vm_compute. Qed.

End ComponentTests.
