(* ===== verification/IntegrationTests.v ===== *)
(** * The integration tests, run on the model ([src/tests/integration.rs])

    Each test is a boolean of the same name, the conjunction of its assertions, on the reference
    instances of the crates; an example file is its document in Examples.v.  The certificate
    of the last TLS test is a file the reference reader of PEM accepts. *)

From S2P Require Import Prelude RustStr F64 Net External Json Config RateLimiter AuthLimiter.
From S2P Require Import Conditions Rules Metrics Tls Upgrade Serde Reference Examples UnitTests.
Import UnitTests.RulesTests UnitTests.ConfigTests UnitTests.ComponentTests.

Open Scope Z_scope.

(** ** Rules *)

Definition leaf_of (field operator value : string) : ConditionNode :=
  Leaf (make_condition field operator (text value)).

Definition integration_deny_secrets_allow_containers : bool :=
  let rules := [answering (make_rule "block-secrets" "deny"
                             [leaf_of "path" "starts_with" "/secrets"]) 403 "secrets blocked"] in
  is_deny (evaluated rules (make_ctx "/secrets" "GET" "10.0.0.1")) (fun status _ => status =? 403)
  && is_allow (evaluated rules (make_ctx "/containers/json" "GET" "10.0.0.1")).

Definition integration_role_admin_overrides_readonly : bool :=
  let rules := [requiring (make_rule "admin-only" "require_role"
                             [leaf_of "method" "equals" "DELETE"]) "admin"] in
  let ctx := make_ctx "/containers/test" "DELETE" "10.0.0.1" in
  is_allow (evaluated rules (with_role ctx "admin"))
  && is_deny (evaluated rules (with_role ctx "readonly")) (fun _ _ => true)
  && is_deny (evaluated rules ctx) (fun _ _ => true).

(** Requests in turn, on one limiter: the result of each. *)
Fixpoint evaluated_in_turn (rules : list Rule) (rl : RateLimiter)
    (requests : list (Instant * EvaluationContext)) : list (outcome RuleResult) :=
  match requests with
  | [] => []
  | (now, ctx) :: requests' =>
      let '(r, rl') := evaluate_request rules ctx rl (fun _ => now) in
      r :: evaluated_in_turn rules rl' requests'
  end.

Definition integration_rate_limit_per_ip_isolation : bool :=
  let limit := limiting (make_rule "rl" "rate_limit" [any_path]) 3 60 60 None in
  let rules := [{| rule_name := rule_name limit; rule_description := None;
                   rule_action := rule_action limit; rule_priority := None;
                   rule_conditions := rule_conditions limit; rule_message := None;
                   rule_role := None; rule_response_filter := None; rule_status := Some 429;
                   rule_methods := None; rule_rate_limit := rule_rate_limit limit;
                   rule_dry_run := None |}] in
  let from ip := make_ctx "/test" "GET" ip in
  match evaluated_in_turn rules RateLimiter_new
          [(ms 0, from "10.0.0.1"); (ms 1, from "10.0.0.1"); (ms 2, from "10.0.0.1");
           (ms 3, from "10.0.0.1"); (ms 4, from "10.0.0.2")] with
  | [a; b; c; d; e] =>
      is_allow a && is_allow b && is_allow c && is_deny d (fun status _ => status =? 429)
      && is_allow e
  | _ => false
  end.

Definition integration_dry_run_audit_flow : bool :=
  let rules := [dry_deny (make_rule "would-deny" "deny" [leaf_of "path" "equals" "/danger"])] in
  match (evaluate_request_detailed rules (make_ctx "/danger" "POST" "5.5.5.5") RateLimiter_new
           (fun _ => ms 0)).1 with
  | Done d =>
      is_allow (Done (decision_result d)) && decision_dry_run d
      && is_str "would-deny" (decision_rule_name d)
  | Panic => false
  end.

(** ** The example files *)

Definition count_rules (cfg : ProxyConfig) : nat := length (default [] (config_rules cfg)).

Definition integration_parse_production_config : bool :=
  parsed config_production (fun cfg =>
    is_some (config_auth cfg) && is_some (config_rules cfg) && (10 <? count_rules cfg)%nat).

Definition integration_parse_minimal_config : bool :=
  parsed config_minimal (fun cfg =>
    is_some_and (config_auth cfg) (fun a => is_str "none" (auth_type a))).

Definition integration_parse_readonly_config : bool :=
  parsed config_readonly (fun cfg =>
    is_some (config_rules cfg) && (count_rules cfg =? 2)%nat).

Definition integration_parse_tls_example : bool :=
  parsed config_tls (fun cfg => is_some_and (config_global cfg) (fun g =>
    is_some_and (global_tls g) (fun tls =>
      ends_with (tls_cert tls) "server.crt" && ends_with (tls_key tls) "server.key")
    && is_some (global_metrics g))).

Definition integration_parse_mtls_example : bool :=
  parsed config_mtls (fun cfg =>
    is_some_and (config_auth cfg) (fun auth =>
      is_str "mtls" (auth_type auth)
      && is_some_and (auth_mtls auth) (fun mtls =>
           is_some_and (cert_role_map mtls) (existsb (fun m =>
             String.eqb (mapping_cn m) "admin.ops.example.com"
             && String.eqb (mapping_role m) "admin"))
           && is_str "user" (default_role mtls)))
    && is_some_and (config_rules cfg) (fun rules =>
         is_some_and (find (fun r => String.eqb (rule_name r) "watch-new-image-pulls") rules)
           (fun r => is_some_and (rule_dry_run r) id))).

Definition integration_priority_promotes_high_value_rule : bool :=
  parsed (rules_of_nodes [path_rule "low" "deny" "/x" [("priority", YNumber 1)];
                          path_rule "high" "allow" "/x" [("priority", YNumber 100)]])
    (fun cfg => is_some_and (config_rules (sort_rules_by_priority cfg)) (fun rules =>
       is_some_and (head rules) (fun r => String.eqb (rule_name r) "high")
       && is_allow (evaluated rules (make_ctx "/x" "GET" "1.1.1.1")))).

(** ** Metrics, certificates, upgrades, the lockout table *)

Definition integration_metrics_render_includes_all_counters : bool :=
  let m := add_times 5 requests_total Metrics_new in
  let m := add_times 2 requests_denied m in
  let m := add_times 3 requests_allowed m in
  let m := add_times 1 auth_failures_total m in
  let m := add_times 1 upgrade_total m in
  let m := add_times 1 request_timeouts_total m in
  let m := observe_upstream_latency_ms m 40 in
  let m := record_rule_deny m "block-secrets" false in
  let out := render_prometheus m (map_to_list (by_rule m)) in
  forallb (contains out)
    ["docker_proxy_requests_total"; "docker_proxy_requests_denied_total";
     "docker_proxy_requests_allowed_total"; "docker_proxy_auth_failures_total";
     "docker_proxy_upgrade_total"; "docker_proxy_request_timeouts_total";
     "docker_proxy_upstream_latency_ms_count"; "rule=" +:+ quoted "block-secrets"].

Definition integration_mtls_role_resolution_full_path : bool :=
  is_str "readonly"
    (resolve_mtls_role
       {| common_name := Some "svc-7.readonly.ops.example.com";
          sans := ["svc-7.readonly.ops.example.com"] |}
       (Some (one_mapping "*.readonly.ops.example.com" "readonly" (Some "user")))).

Definition integration_build_tls_server_config_from_real_cert : bool :=
  is_ok (build_server_config
    {| tls_cert := "/tmp/server.crt"; tls_key := "/tmp/server.key"; tls_client_ca := None;
       tls_require_client_cert := None |}).

Definition integration_upgrade_detection : bool :=
  is_upgrade_request [("connection", "Upgrade"); ("upgrade", "tcp")]
  && negb (is_upgrade_request [("connection", "close"); ("upgrade", "tcp")]).

Definition integration_auth_limiter_locks_out_brute_force : bool :=
  let al := (fail_at AuthLimiter_new (millis [0; 1; 2; 3; 4; 5; 6; 7; 8; 9]) "10.20.30.40" 10
               (from_secs 60) (from_secs 60)).2 in
  is_blocked al (ms 10) "10.20.30.40" && negb (is_blocked al (ms 11) "10.20.30.41").

Definition integration_tests : list bool :=
  [integration_deny_secrets_allow_containers; integration_role_admin_overrides_readonly;
   integration_rate_limit_per_ip_isolation; integration_parse_production_config;
   integration_parse_minimal_config; integration_parse_readonly_config;
   integration_parse_tls_example; integration_parse_mtls_example;
   integration_priority_promotes_high_value_rule; integration_dry_run_audit_flow;
   integration_metrics_render_includes_all_counters; integration_mtls_role_resolution_full_path;
   integration_build_tls_server_config_from_real_cert; integration_upgrade_detection;
   integration_auth_limiter_locks_out_brute_force].

Lemma integration_tests_pass : all_pass integration_tests = true.
Proof. by vm_compute. Qed.
