(* ===== verification/Divergences.v ===== *)
(** * Where the code and its documentation part

    Executable instances, one for each point at which the code does something else than its
    README says, or than it means to. *)

From S2P Require Import Prelude RustStr F64 Net External Json Config RateLimiter AuthLimiter.
From S2P Require Import Conditions Rules Metrics AuditLog Tls Upgrade Path Auth Effects World Evaluate.
From S2P Require Import Authenticate Handle Forward Reference Samples.
From S2P Require Import Serde Examples.
From S2P Require Relay UnitTests.

Open Scope Z_scope.

(** ** Rules and conditions *)

(** [not_matches] on a header is no operator of [match_header_condition]: it never holds. *)
Lemma header_not_matches_never_holds `{NumberApi} `{RegexApi} (c : Condition)
    (headers : list (string * string)) (name : string) :
  match_header_condition (with_operator c "not_matches") headers name = false.
Proof. reflexivity. Qed.

(** The custom rule builder stores the value of every operator as one string, which is no
    sequence: the [in] condition it writes on a path, a method, a header or a body field never
    holds, and its [not_in] always does ([client_ip] takes a single address). *)
Definition built_leaf `{NumberApi} `{RegexApi} (fld op v : string) : Condition :=
  {| field := fld; operator := op; value := Some (YString v); compiled_regex := None |}.

Lemma built_in_never_holds `{NumberApi} `{RegexApi} `{!JsonApi} (fld v path method name : string)
    (headers : list (string * string)) (body : option JsonValue) :
  match_path_condition (built_leaf fld "in" v) path = false
  /\ match_method_condition (built_leaf fld "in" v) method = false
  /\ match_header_condition (built_leaf fld "in" v) headers name = false
  /\ match_body_condition (built_leaf fld "in" v) body name = false
  /\ match_path_condition (built_leaf fld "not_in" v) path = true
  /\ match_method_condition (built_leaf fld "not_in" v) method = true.
Proof.
  split_and!; try reflexivity.
  unfold match_body_condition. by destruct (match body with Some b => _ | None => _ end).
Qed.

(** A negated body operator does not hold when the field is absent. *)
Lemma body_not_equals_absent `{NumberApi} `{RegexApi} `{!JsonApi} (c : Condition) (path : string) :
  match_body_condition (with_operator c "not_equals") None path = false.
Proof. by apply body_absent; [|left]. Qed.

(** A dry-run deny ends the evaluation, so it lifts the enforced deny that follows it. *)
Lemma dry_run_shadows_deny :
  evaluate_request [audit_exec; no_exec] exec_ctx ∅ (fun _ => 0) = (Done Rules.Allow, ∅)
  /\ evaluate_request [no_exec] exec_ctx ∅ (fun _ => 0) = (Done (Rules.Deny 403 "no"), ∅).
Proof. split; reflexivity. Qed.

Definition dry_limit : Rule :=
  {| rule_name := "limit"; rule_description := None; rule_action := "rate_limit";
     rule_priority := None; rule_conditions := [cond "path" "starts_with" (Some (YString "/"))];
     rule_message := None; rule_role := None; rule_response_filter := None; rule_status := None;
     rule_methods := None; rule_rate_limit := Some {| requests := 0; period := 1; penalty := 9 |};
     rule_dry_run := Some true |}.

(** A dry-run rate limit is stepped over: no decision, so no event and no count. *)
Lemma dry_run_rate_limit_is_silent :
  evaluate_request_detailed [dry_limit] exec_ctx ∅ (fun _ => 0) = (Done RuleDecision_allow, ∅).
Proof. reflexivity. Qed.

(** The key of a bucket is not injective on IPv6 clients. *)
Lemma rate_keys_collide : rate_key "x" "1:2::3" = rate_key "x:1" "2::3".
Proof. reflexivity. Qed.

(** A penalty beyond the clock panics, with the token bucket already written. *)
Lemma penalty_overflow_panics :
  fst (check (snd (check ∅ 0 "k" 1 1 U64_MAX)) 0 "k" 1 1 U64_MAX) = Panic.
Proof. reflexivity. Qed.

(** ** Response filters *)

Definition remove_first : ResponseFilterEntry :=
  {| filter_field := "Config.Env.0"; filter_action := "remove"; replacement := None |}.

(** [remove] on an array element does nothing. *)
Lemma remove_keeps_array_elements : apply_filter inspect remove_first = inspect.
Proof. reflexivity. Qed.

(** The rule of [config.yaml] that hides commands in the container listing names the fields of
    one container, while the listing is an array: its filters change nothing. *)
Definition list_filters : list ResponseFilterEntry :=
  match ProxyConfig_deserialize (node_of config_shipped) with
  | Some cfg => collect_response_filters (default [] (config_rules cfg))
                  (UnitTests.make_ctx "/containers/json" "GET" "127.0.0.1")
  | None => []
  end.

Lemma shipped_list_redaction_does_nothing (containers : list JsonValue) :
  map filter_field list_filters = ["Command"; "Labels"]
  /\ apply_filters list_filters (JArray containers) = JArray containers.
Proof.
  assert (E : list_filters = [{| filter_field := "Command"; filter_action := "redact";
                                 replacement := None |};
                              {| filter_field := "Labels"; filter_action := "redact";
                                 replacement := None |}]) by reflexivity.
  rewrite E. by split.
Qed.

(** The filters of a rule with another action are collected too. *)
Definition deny_with_filter : Rule :=
  {| rule_name := "d"; rule_description := None; rule_action := "deny"; rule_priority := None;
     rule_conditions := [on_exec]; rule_message := None; rule_role := None;
     rule_response_filter := Some [redact_env]; rule_status := None; rule_methods := None;
     rule_rate_limit := None; rule_dry_run := Some true |}.

Lemma filters_ignore_the_action :
  collect_response_filters [deny_with_filter] exec_ctx = [redact_env].
Proof. reflexivity. Qed.

(** *** Upgrade headers lift the filters of an ordinary request *)

Definition upgrade_inspect : Request :=
  {| req_method := "GET"; uri_path := "/containers/a/json"; uri_query := None;
     req_headers := hm [("Authorization", "Bearer s3cret"); ("Connection", "upgrade");
                        ("Upgrade", "x")] |}.

Definition body_of (r : outcome HttpResponse * World) : option (list Z) :=
  match fst r with
  | Done resp => Some (resp_body resp)
  | Panic => None
  end.

Definition serve (req : Request) : outcome HttpResponse * World :=
  run docker (handle state req peer None) (world (config [redact_rule])).

Lemma upgrade_headers_lift_filters :
  body_of (serve upgrade_inspect) = Some inspect_bytes
  /\ body_of (serve (request "/containers/a/json" "s3cret"))
     = Some (as_bytes (print_json (apply_filters [redact_env] inspect)))
  /\ counters (metrics (snd (serve upgrade_inspect))) upgrade_total = 1.
Proof. split_and!; reflexivity. Qed.

(** ** What is counted as allowed *)

(** The Docker daemon is away. *)
Definition no_docker : Host :=
  {| host_body := InTime (Ok []); host_connect := InTime (InTime (Err "connection refused"));
     host_handshake := Ok tt; host_send := fun _ => Elapsed; host_response := Elapsed;
     host_latency := 0; host_checked := 0; host_utc := ""; host_local := "";
     host_client_upgraded := Elapsed; host_docker_upgraded := Elapsed |}.

(** A request past the rules whose upstream fails is an upstream error and not allowed; an
    upgrade request counts as allowed in the same case. *)
Lemma allowed_needs_an_answer :
  let m req := metrics (snd (run no_docker (handle state req peer None)
                                 (world (config [redact_rule])))) in
  counters (m inspect_request) requests_allowed = 0
  /\ counters (m inspect_request) upstream_errors_total = 1
  /\ counters (m upgrade_inspect) requests_allowed = 1
  /\ counters (m upgrade_inspect) upstream_errors_total = 1.
Proof. split_and!; reflexivity. Qed.

(** ** Configuration and addresses *)

(** [require_client_cert] without a client CA asks no client for a certificate. *)
Definition required_without_ca : TlsConfig :=
  {| tls_cert := "/cert.pem"; tls_key := "/key.pem"; tls_client_ca := None;
     tls_require_client_cert := Some true |}.

Lemma require_client_cert_needs_a_ca :
  option_map server_client_auth (result_ok (build_server_config required_without_ca))
  = Some NoClientAuth.
Proof. reflexivity. Qed.

(** Any text is an action; a rule whose action is not known is stepped over. *)
Definition unknown_action : Rule := rule "typo" "denny" [on_exec].

Lemma unknown_actions_are_accepted :
  validate (config [unknown_action]) = Ok tt
  /\ evaluate_request [unknown_action] exec_ctx ∅ (fun _ => 0) = (Done Rules.Allow, ∅).
Proof. split; reflexivity. Qed.

(** In a list of addresses that has a network, the entries that are not networks are ignored. *)
Definition mixed_list (op : string) : Condition :=
  {| field := "client_ip"; operator := op;
     value := Some (YSequence [YString "127.0.0.1"; YString "10.0.0.0/8"]);
     compiled_regex := None |}.

Lemma addresses_beside_networks_are_ignored :
  match_ip_condition (mixed_list "in") "127.0.0.1" = false
  /\ match_ip_condition (mixed_list "not_in") "127.0.0.1" = true.
Proof. split; reflexivity. Qed.

(** [DOCKER_PROXY_PORT] wins over [global.port]. *)
Definition port_env : Env :=
  {| env_var := fun n => if String.eqb n "DOCKER_PROXY_PORT" then Some "9999" else None;
     path_exists := fun _ => true; read_to_string := fun _ => Err ""; yaml_from_str := fun _ => Err "" |}.

Definition port_config : ProxyConfig :=
  {| config_global := Some (set_global_port GlobalConfig_default (Some 2376));
     config_auth := None; config_rules := None |}.

Lemma environment_port_wins :
  option_map global_port (config_global (apply_env_overrides port_env port_config))
  = Some (Some 9999).
Proof. reflexivity. Qed.

(** The default role is given to a certificate that has a common name. *)
Lemma default_role_despite_common_name :
  resolve_mtls_role {| common_name := Some "dev.example.com"; sans := [] |}
    (Some {| cert_role_map := None; default_role := Some "user" |}) = Some "user".
Proof. reflexivity. Qed.

(** [forwarded] is believed even when it names a trusted proxy. *)
Lemma forwarded_believes_proxies :
  compute_client_ip local (hm [("forwarded", "for=127.0.0.2")]) [net 127 0 0 0 8] = V4 127 0 0 2
  /\ compute_client_ip local (hm [("x-forwarded-for", "127.0.0.2")]) [net 127 0 0 0 8] = local.
Proof. split; reflexivity. Qed.

(** The idle timeout is a direction's own: the input of a stream that is being followed is closed
    although traffic flows the other way. *)
Lemma idle_is_per_direction :
  let r := Relay.run Relay.relay_new
             [(Relay.DockerToClient, Relay.ReadBytes [1]); (Relay.DockerToClient, Relay.Wrote 1);
              (Relay.ClientToDocker, Relay.IdleTimeout); (Relay.ClientToDocker, Relay.ShutDown)] in
  Relay.is_finished (Relay.c2d r) = true /\ Relay.at_ (Relay.d2c r) = Relay.Reading.
Proof. split; reflexivity. Qed.
